(** * A shallow embedding of the gql scanner, lexer and parser

    The Go packages [lang/parser/lexer/scanner], [lang/parser/lexer/token],
    [lang/parser/lexer], [lang/ast] and [lang/parser] are modelled as Rocq
    modules of the same names.  Go [int] and [rune] are modelled as [Z]:
    offsets and code points used here stay far below 2^31, so no wrap-around
    occurs.  A Go [string] is a sequence of bytes and is modelled as a Rocq
    [string] (a list of 8-bit [ascii]).  Loops are written as fixpoints with an
    explicit [fuel] argument; running out of fuel is a result distinct from
    every Go outcome, and the termination theorems show it never happens. *)

From Stdlib Require Import ZArith String Ascii List Bool Lia.
Import ListNotations.
Open Scope Z_scope.
Set Warnings "-register-all".

(** ** Byte strings *)

Definition byte_of_ascii (a : ascii) : Z := Z.of_nat (nat_of_ascii a).
Definition ascii_of_byte (b : Z) : ascii := ascii_of_nat (Z.to_nat b).

(** The bytes of a Go string. *)
Definition bytes_of (s : string) : list Z := map byte_of_ascii (list_ascii_of_string s).

(** The Go string holding the bytes [l]. *)
Definition string_of_bytes (l : list Z) : string :=
  string_of_list_ascii (map ascii_of_byte l).

(** [len(s)] *)
Definition len (s : string) : Z := Z.of_nat (String.length s).

(** [s[i:j]] *)
Definition slice (s : string) (i j : Z) : string :=
  substring (Z.to_nat i) (Z.to_nat (j - i)) s.

(** ** Go errors *)
Module errors.

(** The errors the pipeline can produce: [io.EOF], a [*SyntaxError{Pos, Err}]
    (the wrapped [Err] kept as its message text, without the formatted
    arguments), and a plain error built by [errors.New] or [fmt.Errorf]. *)
Inductive error :=
| io_EOF
| SyntaxError (Pos : Z) (Err : string)
| errorString (msg : string).

Definition is_SyntaxError (e : error) : bool :=
  match e with SyntaxError _ _ => true | _ => false end.

End errors.
Import errors (error).

(** ** Package [unicode/utf8] (the parts the scanners use) *)
Module utf8.

Definition RuneError : Z := 65533.
Definition RuneSelf : Z := 128.
Definition MaxRune : Z := 1114111.
Definition surrogateMin : Z := 55296.
Definition surrogateMax : Z := 57343.
Definition maskx : Z := 63.
Definition mask2 : Z := 31.
Definition mask3 : Z := 15.
Definition mask4 : Z := 7.
Definition locb : Z := 128.
Definition hicb : Z := 191.
Definition t2 : Z := 192.
Definition t3 : Z := 224.
Definition t4 : Z := 240.
Definition tx : Z := 128.

(** The table [first]: for every leading byte, whether it is ASCII, invalid,
    or starts a sequence of [sz] bytes whose second byte lies in [lo..hi]
    ([acceptRanges]). *)
Inductive first_info := ASCII | INVALID | SEQ (sz : nat) (lo hi : Z).

Definition first (p0 : Z) : first_info :=
  if p0 <? 128 then ASCII
  else if p0 <? 194 then INVALID
  else if p0 <? 224 then SEQ 2 128 191
  else if p0 =? 224 then SEQ 3 160 191
  else if p0 <? 237 then SEQ 3 128 191
  else if p0 =? 237 then SEQ 3 128 159
  else if p0 <? 240 then SEQ 3 128 191
  else if p0 =? 240 then SEQ 4 144 191
  else if p0 <? 244 then SEQ 4 128 191
  else if p0 =? 244 then SEQ 4 128 143
  else INVALID.

Definition out_cb (b : Z) : bool := (b <? locb) || (hicb <? b).

(** [utf8.DecodeRune]: the first code point of [p] and its width;
    [(RuneError, 0)] on empty input, [(RuneError, 1)] on an invalid
    sequence. *)
Definition DecodeRune (p : list Z) : Z * Z :=
  match p with
  | [] => (RuneError, 0)
  | p0 :: _ =>
    match first p0 with
    | ASCII => (p0, 1)
    | INVALID => (RuneError, 1)
    | SEQ sz lo hi =>
      if (Z.of_nat (length p) <? Z.of_nat sz) then (RuneError, 1) else
      let b1 := nth 1 p 0 in
      if (b1 <? lo) || (hi <? b1) then (RuneError, 1) else
      if (sz <=? 2)%nat then
        (Z.lor (Z.shiftl (Z.land p0 mask2) 6) (Z.land b1 maskx), 2) else
      let b2 := nth 2 p 0 in
      if out_cb b2 then (RuneError, 1) else
      if (sz <=? 3)%nat then
        (Z.lor (Z.lor (Z.shiftl (Z.land p0 mask3) 12) (Z.shiftl (Z.land b1 maskx) 6))
               (Z.land b2 maskx), 3) else
      let b3 := nth 3 p 0 in
      if out_cb b3 then (RuneError, 1) else
      (Z.lor (Z.lor (Z.lor (Z.shiftl (Z.land p0 mask4) 18) (Z.shiftl (Z.land b1 maskx) 12))
                    (Z.shiftl (Z.land b2 maskx) 6)) (Z.land b3 maskx), 4)
    end
  end.

(** [utf8.DecodeRuneInString] *)
Definition DecodeRuneInString (s : string) : Z * Z := DecodeRune (bytes_of s).

(** [utf8.ValidRune]: [r] is a Unicode scalar value. *)
Definition ValidRune (r : Z) : bool :=
  if (0 <=? r) && (r <? surrogateMin) then true
  else if (surrogateMax <? r) && (r <=? MaxRune) then true
  else false.

(** [byte(x)] *)
Definition byte (x : Z) : Z := Z.land x 255.

(** [utf8.EncodeRune]: the UTF-8 bytes of [r] (the switch is on [uint32(r)]). *)
Definition EncodeRune (r : Z) : list Z :=
  let i := Z.land r 4294967295 in
  let three r := [Z.lor t3 (byte (Z.shiftr r 12));
                  Z.lor tx (Z.land (byte (Z.shiftr r 6)) maskx);
                  Z.lor tx (Z.land (byte r) maskx)] in
  if i <=? 127 then [byte r]
  else if i <=? 2047 then
    [Z.lor t2 (byte (Z.shiftr r 6)); Z.lor tx (Z.land (byte r) maskx)]
  else if (MaxRune <? i) || ((surrogateMin <=? i) && (i <=? surrogateMax)) then
    three RuneError
  else if i <=? 65535 then three r
  else [Z.lor t4 (byte (Z.shiftr r 18));
        Z.lor tx (Z.land (byte (Z.shiftr r 12)) maskx);
        Z.lor tx (Z.land (byte (Z.shiftr r 6)) maskx);
        Z.lor tx (Z.land (byte r) maskx)].

End utf8.

(** ** Package [bufio] and [bytes] (the parts the stream scanner uses)

    A [bufio.Reader] over an in-memory source ([strings.NewReader]) is
    modelled by the bytes it has not yet delivered. *)
Module bufio.

Record Reader := { unread : list Z }.

(** [bufio.Reader.ReadRune]: [(0, 0, io.EOF)] at the end of the
    source; otherwise the next code point as decoded by [utf8.DecodeRune]
    (a byte below [RuneSelf] is returned directly). *)
Definition ReadRune (b : Reader) : Reader * Z * Z * option error :=
  match unread b with
  | [] => (b, 0, 0, Some errors.io_EOF)
  | c :: _ =>
    let '(r, size) := if c <? utf8.RuneSelf then (c, 1) else utf8.DecodeRune (unread b) in
    ({| unread := skipn (Z.to_nat size) (unread b) |}, r, size, None)
  end.

Definition NewReader (s : string) : Reader := {| unread := bytes_of s |}.

End bufio.

(** ** Package [scanner] *)
Module scanner.

(** The [Scanner] interface: [Scan] reads the next rune (reporting the end
    of the source as [io.EOF]), [Rune] is the last scanned rune,
    [StartTail] starts the tail at the last scanned rune and [EndTail]
    stops tailing and returns the tail. *)
Class Scanner (S : Type) := {
  Scan : S -> S * option error;
  Rune : S -> Z;
  StartTail : S -> S;
  EndTail : S -> S * string
}.

(** A [stringScanner] backed by a string source. *)
Record stringScanner := {
  source : string;
  (* The last scanned rune. *)
  last : Z;
  (* The offset in bytes of the last scanned rune. *)
  lastIndex : Z;
  (* The width in bytes of the last scanned rune. *)
  lastWidth : Z;
  (* The index of the earliest scanned rune in the tail. *)
  tailIndex : Z
}.

(** [&stringScanner{source: s}], as the scanner tests build it. *)
Definition NewStringScanner (s : string) : stringScanner :=
  {| source := s; last := 0; lastIndex := 0; lastWidth := 0; tailIndex := 0 |}.

Definition string_StartTail (s : stringScanner) : stringScanner :=
  {| source := source s; last := last s; lastIndex := lastIndex s;
     lastWidth := lastWidth s; tailIndex := lastIndex s |}.

(** [stringScanner.Scan]; the local [n] is declared and never assigned. *)
Definition string_Scan (s : stringScanner) : stringScanner * option error :=
  let n := 0 in
  if lastIndex s >=? len (source s) then (s, Some errors.io_EOF) else
  let li := lastIndex s + lastWidth s in
  let '(r, w) := utf8.DecodeRune (skipn (Z.to_nat li) (bytes_of (source s))) in
  let s' := {| source := source s; last := r; lastIndex := li; lastWidth := w;
               tailIndex := tailIndex s |} in
  if (r =? utf8.RuneError) && (n =? 0) then (s', Some errors.io_EOF) else (s', None).

Definition string_EndTail (s : stringScanner) : stringScanner * string :=
  (s, slice (source s) (tailIndex s) (lastIndex s)).

#[global] Instance stringScanner_Scanner : Scanner stringScanner := {
  Scan := string_Scan;
  Rune := last;
  StartTail := string_StartTail;
  EndTail := string_EndTail
}.

(** A [bufferedScanner] backed by a [bufio.Reader]; the tail is a
    [bytes.Buffer], modelled by its bytes. *)
Record bufferedScanner := {
  bsource : bufio.Reader;
  (* The last scanned rune. *)
  blast : Z;
  (* If true, runes read will be written to the tail. *)
  tailing : bool;
  (* May hold a history of scanned runes. *)
  tail : list Z
}.

(** [&bufferedScanner{source: r}] *)
Definition NewBufferedScanner (r : bufio.Reader) : bufferedScanner :=
  {| bsource := r; blast := 0; tailing := false; tail := [] |}.

(** [s.tailing = true; s.tail.Reset(); s.tail.WriteRune(s.last)] *)
Definition buffered_StartTail (s : bufferedScanner) : bufferedScanner :=
  {| bsource := bsource s; blast := blast s; tailing := true;
     tail := utf8.EncodeRune (blast s) |}.

Definition buffered_Scan (s : bufferedScanner) : bufferedScanner * option error :=
  let '(rd, r, _, err) := bufio.ReadRune (bsource s) in
  match err with
  | Some e => ({| bsource := rd; blast := r; tailing := tailing s; tail := tail s |}, Some e)
  | None =>
    ({| bsource := rd; blast := r; tailing := tailing s;
        tail := if tailing s then tail s ++ utf8.EncodeRune r else tail s |}, None)
  end.

(** [s.tailing = false; t := s.tail.String(); return t[:len(t)]] *)
Definition buffered_EndTail (s : bufferedScanner) : bufferedScanner * string :=
  let t := string_of_bytes (tail s) in
  ({| bsource := bsource s; blast := blast s; tailing := false; tail := tail s |},
   slice t 0 (len t)).

#[global] Instance bufferedScanner_Scanner : Scanner bufferedScanner := {
  Scan := buffered_Scan;
  Rune := blast;
  StartTail := buffered_StartTail;
  EndTail := buffered_EndTail
}.

End scanner.

(** ** Package [token] *)
Module token.

Inductive Kind :=
| EOF | Bang | Dollar | ParenL | ParenR | Spread | Colon | Equals | At
| BracketL | BracketR | BraceL | Pipe | BraceR | Name | Int | Float | String.

Definition Kind_eqb (a b : Kind) : bool :=
  match a, b with
  | EOF, EOF | Bang, Bang | Dollar, Dollar | ParenL, ParenL | ParenR, ParenR
  | Spread, Spread | Colon, Colon | Equals, Equals | At, At
  | BracketL, BracketL | BracketR, BracketR | BraceL, BraceL | Pipe, Pipe
  | BraceR, BraceR | Name, Name | Int, Int | Float, Float | String, String => true
  | _, _ => false
  end.

(** A [Token] has a kind, a start and end rune offset, and a value. *)
Record Token := mkToken { kind : Kind; Start : Z; End : Z; Value : string }.

(** [new(token.Token)] *)
Definition zero : Token := mkToken EOF 0 0 "".

Definition set_kind (t : Token) (k : Kind) : Token := mkToken k (Start t) (End t) (Value t).
Definition set_Start (t : Token) (s : Z) : Token := mkToken (kind t) s (End t) (Value t).
Definition set_End (t : Token) (e : Z) : Token := mkToken (kind t) (Start t) e (Value t).
Definition set_Value (t : Token) (v : string) : Token := mkToken (kind t) (Start t) (End t) v.

Definition CR : Z := 13.
Definition LF : Z := 10.
Definition SPACE : Z := 32.
Definition TAB : Z := 9.
Definition BOM : Z := 65279.
Definition COMMA : Z := 44.
Definition US : Z := 31.

(** [RunePunctuators] *)
Definition RunePunctuators (r : Z) : option Kind :=
  if r =? 33 then Some Bang          (* ! *)
  else if r =? 36 then Some Dollar   (* $ *)
  else if r =? 40 then Some ParenL   (* ( *)
  else if r =? 41 then Some ParenR   (* ) *)
  else if r =? 58 then Some Colon    (* : *)
  else if r =? 61 then Some Equals   (* = *)
  else if r =? 64 then Some At       (* @ *)
  else if r =? 91 then Some BracketL (* [ *)
  else if r =? 93 then Some BracketR (* ] *)
  else if r =? 123 then Some BraceL  (* { *)
  else if r =? 124 then Some Pipe    (* | *)
  else if r =? 125 then Some BraceR  (* } *)
  else None.

(** [Kind.String]: [kindStrings[kind]]. *)
Definition Kind_String (k : Kind) : string :=
  match k with
  | EOF => "EOF" | Bang => "!" | Dollar => "$" | ParenL => "(" | ParenR => ")"
  | Spread => "..." | Colon => ":" | Equals => "=" | At => "@"
  | BracketL => "[" | BracketR => "]" | BraceL => "{" | Pipe => "|" | BraceR => "}"
  | Name => "Name" | Int => "Int" | Float => "Float" | String => "String"
  end.

End token.
Import token (Token).

(** ** Package [encoding/hex] and [encoding/binary] (the parts [readString] uses) *)
Module hex.

(** [fromHexChar] *)
Definition fromHexChar (c : Z) : option Z :=
  if (48 <=? c) && (c <=? 57) then Some (c - 48)
  else if (97 <=? c) && (c <=? 102) then Some (c - 97 + 10)
  else if (65 <=? c) && (c <=? 70) then Some (c - 65 + 10)
  else None.

Definition InvalidByteError : error := errors.errorString "encoding/hex: invalid byte".
Definition ErrLength : error := errors.errorString "encoding/hex: odd length hex string".

(** [hex.Decode] on the bytes [src]: the decoded bytes and the error. *)
Fixpoint Decode (src : list Z) : list Z * option error :=
  match src with
  | p :: q :: rest =>
    match fromHexChar p, fromHexChar q with
    | Some a, Some b =>
      let '(out, e) := Decode rest in (Z.lor (Z.shiftl a 4) b :: out, e)
    | None, _ => ([], Some InvalidByteError)
    | _, None => ([], Some InvalidByteError)
    end
  | [p] =>
    match fromHexChar p with
    | None => ([], Some InvalidByteError)
    | Some _ => ([], Some ErrLength)
    end
  | [] => ([], None)
  end.

(** [hex.DecodeString] *)
Definition DecodeString (s : list Z) : list Z * option error := Decode s.

(** [binary.BigEndian.Uint16] *)
Definition BigEndian_Uint16 (b : list Z) : Z :=
  Z.lor (nth 1 b 0) (Z.shiftl (nth 0 b 0) 8).

End hex.

(** ** Package [lexer] *)
Module lexer.

Section Lexer.
Context {S : Type} `{scanner.Scanner S}.

(** A [lexer] reads tokens from a source using a [Scanner]. *)
Record lexer := mkLexer {
  scanner : S;
  (* Last scanned error. *)
  err : option error;
  (* Rune offset in source of last scanned rune. *)
  lastIndex : Z;
  (* True once the scanner reaches EOF. *)
  eof : bool
}.

Definition set_scanner (l : lexer) (s : S) : lexer :=
  mkLexer s (err l) (lastIndex l) (eof l).

(** The methods of [lexer] mutate the lexer and the token [t] they fill in,
    and return a Go [error]: [LX A] threads both, [inr e] being a [return e]
    that ends the method, and [None] the exhaustion of the loop fuel. *)
Definition LX (A : Type) : Type :=
  lexer -> Token -> option (lexer * Token * (A + option error)).

Definition ret {A} (a : A) : LX A := fun l t => Some (l, t, inl a).
Definition return_ {A} (e : option error) : LX A := fun l t => Some (l, t, inr e).
Definition outOfFuel {A} : LX A := fun _ _ => None.
Definition bind {A B} (m : LX A) (k : A -> LX B) : LX B :=
  fun l t =>
    match m l t with
    | None => None
    | Some (l', t', inl a) => k a l' t'
    | Some (l', t', inr e) => Some (l', t', inr e)
    end.

Definition get_l : LX lexer := fun l t => Some (l, t, inl l).
Definition get_t : LX Token := fun l t => Some (l, t, inl t).
Definition upd_t (f : Token -> Token) : LX unit := fun l t => Some (l, f t, inl tt).
Definition rune : LX Z := fun l t => Some (l, t, inl (scanner.Rune (scanner l))).
Definition startTail : LX unit :=
  fun l t => Some (set_scanner l (scanner.StartTail (scanner l)), t, inl tt).
Definition endTail : LX string :=
  fun l t => let '(s, v) := scanner.EndTail (scanner l) in Some (set_scanner l s, t, inl v).

End Lexer.

Notation "x <- m ;; k" := (bind m (fun x => k))
  (at level 61, m at next level, right associativity).
Notation "m ;; k" := (bind m (fun _ => k)) (at level 61, right associativity).

Section Lexer2.
Context {S : Type} `{scanner.Scanner S}.
Local Abbreviation lexer := (@lexer S).
Local Abbreviation LX := (@LX S).

Definition isDigit (r : Z) : bool := (48 <=? r) && (r <=? 57).
Definition isUpperLetter (r : Z) : bool := (65 <=? r) && (r <=? 90).
Definition isLowerLetter (r : Z) : bool := (97 <=? r) && (r <=? 122).

(** [advance] scans the next rune; true if successful or EOF. *)
Definition advance_l (l : lexer) : lexer * bool :=
  let '(s, e) := scanner.Scan (scanner l) in
  let '(e, eof') := match e with
                    | Some errors.io_EOF => (None, true)
                    | _ => (e, eof l)
                    end in
  let li := match e with None => lastIndex l + 1 | Some _ => lastIndex l end in
  (mkLexer s e li eof', match e with None => true | Some _ => false end).

Definition advance : LX bool := fun l t => let '(l', b) := advance_l l in Some (l', t, inl b).

(** [if !l.advance() { return l.err }] *)
Definition adv : LX unit :=
  ok <- advance ;; if ok then ret tt else (l <- get_l ;; return_ (err l)).

(** [NewLexer] *)
Definition NewLexer (s : S) : lexer + error :=
  let '(l, ok) := advance_l (mkLexer s None (-1) false) in
  if ok then inl l else inr (match err l with Some e => e | None => errors.io_EOF end).

Definition isNameChar (r : Z) : bool :=
  (r =? 95) || isDigit r || isUpperLetter r || isLowerLetter r.

Fixpoint readName_loop (fuel : nat) : LX unit :=
  match fuel with
  | O => outOfFuel
  | Datatypes.S f =>
    ok <- advance ;;
    if ok then
      r <- rune ;;
      if isNameChar r then readName_loop f
      else (l <- get_l ;; v <- endTail ;;
            upd_t (fun t => token.set_Value (token.set_End t (lastIndex l - 1)) v) ;;
            return_ None)
    else (l <- get_l ;; return_ (err l))
  end.

(** [readName] *)
Definition readName (fuel : nat) : LX unit :=
  upd_t (fun t => token.set_kind t token.Name) ;;
  startTail ;;
  readName_loop fuel.

Definition isWhitespace (r : Z) : bool :=
  (r =? token.BOM) || (r =? token.TAB) || (r =? token.SPACE) || (r =? token.LF)
  || (r =? token.CR) || (r =? token.COMMA).

(** [advanceToNextToken]; the inner [for l.advance()] loop reads a comment. *)
Fixpoint advanceToNextToken_loop (fuel : nat) (l : lexer) : option (lexer * bool) :=
  match fuel with
  | O => None
  | Datatypes.S f =>
    if eof l then Some (l, true) else
    let r := scanner.Rune (scanner l) in
    if isWhitespace r then
      let '(l, ok) := advance_l l in
      if ok then advanceToNextToken_loop f l else Some (l, false)
    else if r =? 35 then comment_loop f l
    else Some (l, true)
  end
with comment_loop (fuel : nat) (l : lexer) : option (lexer * bool) :=
  match fuel with
  | O => None
  | Datatypes.S f =>
    let '(l, ok) := advance_l l in
    if ok then
      if eof l then Some (l, true) else
      let r := scanner.Rune (scanner l) in
      if (r =? token.TAB) || ((token.US <? r) && negb (r =? token.LF) && negb (r =? token.CR))
      then comment_loop f l
      else advanceToNextToken_loop f l
    else Some (l, false)
  end.

Definition advanceToNextToken (fuel : nat) : LX bool :=
  fun l t => match advanceToNextToken_loop fuel l with
             | None => None
             | Some (l', b) => Some (l', t, inl b)
             end.

(** [advanceDigits] *)
Fixpoint advanceDigits_loop (fuel : nat) (l : lexer) : option (lexer * bool) :=
  match fuel with
  | O => None
  | Datatypes.S f =>
    let '(l, ok) := advance_l l in
    if ok then
      if eof l || negb (isDigit (scanner.Rune (scanner l))) then Some (l, true)
      else advanceDigits_loop f l
    else Some (l, false)
  end.

Definition advanceDigits (fuel : nat) : LX bool :=
  fun l t => match advanceDigits_loop fuel l with
             | None => None
             | Some (l', b) => Some (l', t, inl b)
             end.

(** [if !l.advanceDigits() { return l.err }] *)
Definition advDigits (fuel : nat) : LX unit :=
  ok <- advanceDigits fuel ;; if ok then ret tt else (l <- get_l ;; return_ (err l)).

Definition syntaxErrorHere {A} (msg : string) : LX A :=
  l <- get_l ;; return_ (Some (errors.SyntaxError (lastIndex l) msg)).

(** [readNumber] *)
Definition readNumber (fuel : nat) : LX unit :=
  startTail ;;
  upd_t (fun t => token.set_kind t token.Int) ;;
  r <- rune ;;
  (if r =? 45 then
     adv ;; l <- get_l ;;
     if eof l then syntaxErrorHere "invalid number; unexpected EOF following sign"
     else ret tt
   else ret tt) ;;
  r <- rune ;;
  (if r =? 48 then
     adv ;; l <- get_l ;;
     if eof l then syntaxErrorHere "invalid number; unexpected EOF following '0'"
     else if isDigit (scanner.Rune (scanner l))
     then syntaxErrorHere "invalid number, unexpected digit after 0"
     else ret tt
   else
     advDigits fuel ;; l <- get_l ;;
     if eof l then
       (v <- endTail ;;
        upd_t (fun t => token.set_Value (token.set_End t (lastIndex l - 1)) v) ;;
        return_ None)
     else ret tt) ;;
  (* Decimal *)
  r <- rune ;;
  (if r =? 46 then
     upd_t (fun t => token.set_kind t token.Float) ;;
     advDigits fuel ;; l <- get_l ;;
     if eof l then return_ None else ret tt
   else ret tt) ;;
  (* Exponent *)
  r <- rune ;;
  (if (r =? 69) || (r =? 101) then
     upd_t (fun t => token.set_kind t token.Float) ;;
     adv ;; l <- get_l ;;
     if eof l then return_ None else
     r <- rune ;;
     if (r =? 43) || (r =? 45) || isDigit r then advDigits fuel
     else syntaxErrorHere "unterminated number; expected sign or digit"
   else ret tt) ;;
  l <- get_l ;; v <- endTail ;;
  upd_t (fun t => token.set_Value (token.set_End t (lastIndex l - 1)) v) ;;
  return_ None.

(** The single-character escapes of a string. *)
Definition escape (r : Z) : option Z :=
  if r =? 34 then Some 34        (* double quote *)
  else if r =? 47 then Some 47   (* slash *)
  else if r =? 92 then Some 92   (* backslash *)
  else if r =? 98 then Some 8    (* b *)
  else if r =? 102 then Some 12  (* f *)
  else if r =? 110 then Some 10  (* n *)
  else if r =? 114 then Some 13  (* r *)
  else if r =? 116 then Some 9   (* t *)
  else None.

(** [for i, _ := range uRunes]: four runes after [\u]. *)
Fixpoint readURunes (k : nat) : LX (list Z) :=
  match k with
  | O => ret []
  | Datatypes.S k' =>
    adv ;; l <- get_l ;;
    if eof l then syntaxErrorHere "invalid unicode; unexpected EOF" else
    r <- rune ;; rs <- readURunes k' ;; ret (r :: rs)
  end.

(** [readString]; [value] holds the bytes of the [bytes.Buffer]. *)
Fixpoint readString_loop (fuel : nat) (value : list Z) : LX unit :=
  match fuel with
  | O => outOfFuel
  | Datatypes.S f =>
    ok <- advance ;;
    if negb ok then (l <- get_l ;; return_ (err l)) else
    r <- rune ;; l <- get_l ;;
    if eof l || (r =? token.LF) || (r =? token.CR) then
      syntaxErrorHere "unterminated string"
    else if r =? 34 then
      (upd_t (fun t => token.set_Value (token.set_End t (lastIndex l)) (string_of_bytes value)) ;;
       adv ;; return_ None)
    else if (r <? token.SPACE) && negb (r =? token.TAB) then
      syntaxErrorHere "Invalid character within String"
    else if negb (r =? 92) then readString_loop f (value ++ utf8.EncodeRune r)
    else
      adv ;; r <- rune ;;
      match escape r with
      | Some c => readString_loop f (value ++ utf8.EncodeRune c)
      | None =>
        if r =? 117 then
          uRunes <- readURunes 4 ;;
          let '(b, e) := hex.DecodeString (flat_map utf8.EncodeRune uRunes) in
          match e with
          | Some e => l <- get_l ;; return_ (Some (errors.SyntaxError (lastIndex l) "hex"))
          | None =>
            let charCode := hex.BigEndian_Uint16 b in
            if charCode <? 0 then syntaxErrorHere "Invalid character escape sequence"
            else readString_loop f (value ++ utf8.EncodeRune charCode)
          end
        else syntaxErrorHere "Invalid character escape sequence"
      end
  end.

Definition readString (fuel : nat) : LX unit :=
  upd_t (fun t => token.set_kind t token.String) ;;
  readString_loop fuel [].

(** [readSpread] with its closure [expectDot]. *)
Definition expectDot : LX unit :=
  adv ;; l <- get_l ;; t <- get_t ;;
  if eof l then return_ (Some (errors.SyntaxError (token.Start t) "unexpected EOF"))
  else if negb (scanner.Rune (scanner l) =? 46)
  then return_ (Some (errors.SyntaxError (token.Start t) "unexpected character"))
  else ret tt.

Definition readSpread : LX unit :=
  expectDot ;; expectDot ;;
  upd_t (fun t => token.mkToken token.Spread (token.Start t) (token.Start t + 3) "...") ;;
  adv ;; return_ None.

(** [Lex] lexes the next token into [t]. *)
Definition Lex_body (fuel : nat) : LX unit :=
  ok <- advanceToNextToken fuel ;;
  if negb ok then (l <- get_l ;; return_ (err l)) else
  l <- get_l ;;
  upd_t (fun t => token.set_Start t (lastIndex l)) ;;
  if eof l then
    (upd_t (fun t => token.set_End (token.set_kind t token.EOF) (token.Start t)) ;; return_ None)
  else
  r <- rune ;;
  match token.RunePunctuators r with
  | Some k =>
    upd_t (fun t => token.mkToken k (token.Start t) (token.Start t + 1)
                                  (string_of_bytes (utf8.EncodeRune r))) ;;
    adv ;; return_ None
  | None =>
    if (r =? 95) || isUpperLetter r || isLowerLetter r then readName fuel
    else if (r =? 45) || isDigit r then readNumber fuel
    else if (r <? token.SPACE) && negb (r =? token.TAB) && negb (r =? token.LF)
            && negb (r =? token.CR) then
      t <- get_t ;; return_ (Some (errors.SyntaxError (token.Start t) "invalid character"))
    else if r =? 34 then readString fuel
    else if r =? 46 then readSpread
    else t <- get_t ;; return_ (Some (errors.SyntaxError (token.Start t) "unexpected character"))
  end.

(** [(l *lexer) Lex(t *token.Token) error]: the lexer and token after the
    call and the returned error; [None] when the fuel runs out. *)
Definition Lex (fuel : nat) (l : lexer) (t : Token) : option (lexer * Token * option error) :=
  match Lex_body fuel l t with
  | None => None
  | Some (l', t', inl _) => Some (l', t', None)
  | Some (l', t', inr e) => Some (l', t', e)
  end.

End Lexer2.

Definition NewStringLexer (s : string) := NewLexer (scanner.NewStringScanner s).
(** [NewReaderLexer(strings.NewReader(s))]: the [io.Reader] is an in-memory
    reader over the bytes of [s], wrapped in a [bufio.Reader]; readers whose
    [Read] fails with an error other than [io.EOF] are not modelled. *)
Definition NewReaderLexer (s : string) :=
  NewLexer (scanner.NewBufferedScanner (bufio.NewReader s)).

End lexer.

(** ** Package [ast] *)
Module ast.

Record Loc := mkLoc { Start : Z; End : Z }.

Definition zeroLoc : Loc := mkLoc 0 0.

Inductive Name := mkName (loc : Loc) (Value : string).

Definition zeroName : Name := mkName zeroLoc "".

(** [type NamedType Name] *)
Definition NamedType := Name.

Inductive OpType := Query | Mutation | Subscription.

(** [OpType.String]: [opStrings[*o]]. *)
Definition OpType_String (o : OpType) : string :=
  match o with
  | Query => "query"
  | Mutation => "mutation"
  | Subscription => "subscription"
  end.

Inductive Variable_ := mkVariable (loc : Loc) (name : Name).

Inductive Value :=
| VVariable (v : Variable_)
| Int (loc : Loc) (v : string)
| Float (loc : Loc) (v : string)
| String (loc : Loc) (v : string)
| Boolean (loc : Loc) (v : bool)
| Enum (loc : Loc) (v : string)
| List (loc : Loc) (values : list Value)
| Object (loc : Loc) (fields : list ObjectField)
with ObjectField := mkObjectField (loc : Loc) (name : Name) (value : Value).

Inductive Argument := mkArgument (loc : Loc) (name : Name) (value : Value).

Inductive Directive := mkDirective (loc : Loc) (name : Name) (args : list Argument).

Inductive RefType :=
| NamedTypeR (nt : NamedType)
| ListType (loc : Loc) (t : RefType)
| NonNullType (loc : Loc) (t : RefType).

Inductive Selection :=
| Field (loc : Loc) (alias : Name) (name : Name) (args : list Argument)
        (dirs : list Directive) (ss : SelectionSet)
| FragmentSpread (loc : Loc) (name : Name) (dirs : list Directive)
| InlineFragment (loc : Loc) (nt : NamedType) (dirs : list Directive) (ss : SelectionSet)
with SelectionSet := mkSelectionSet (loc : Loc) (sels : list Selection).

Definition zeroSelectionSet : SelectionSet := mkSelectionSet zeroLoc [].

(** A nil [DefaultValue] interface is [None]. *)
Inductive VarDef :=
  mkVarDef (loc : Loc) (var : Variable_) (rt : RefType) (default : option Value).

Inductive InputValueDef :=
  mkInputValueDef (loc : Loc) (name : Name) (rt : RefType) (default : option Value).

Inductive FieldDef :=
  mkFieldDef (loc : Loc) (name : Name) (args : list InputValueDef) (rt : RefType).

Inductive ObjTypeDef :=
  mkObjTypeDef (loc : Loc) (name : Name) (interfaces : list NamedType) (fds : list FieldDef).

Inductive TypeDef :=
| ObjTypeDefT (o : ObjTypeDef)
| InterfaceTypeDef (loc : Loc) (name : Name) (fds : list FieldDef)
| UnionTypeDef (loc : Loc) (name : Name) (nts : list NamedType)
| ScalarTypeDef (loc : Loc) (name : Name)
| EnumTypeDef (loc : Loc) (name : Name) (values : list Name)
| InputObjTypeDef (loc : Loc) (name : Name) (fields : list InputValueDef)
(** [type TypeExtDef ObjTypeDef] *)
| TypeExtDef (o : ObjTypeDef).

(** The [Definition] interface. *)
Inductive Def :=
| OpDef (loc : Loc) (op : OpType) (name : Name) (vds : list VarDef) (dirs : list Directive)
        (ss : SelectionSet)
| FragmentDef (loc : Loc) (name : Name) (tc : NamedType) (dirs : list Directive)
              (ss : SelectionSet)
| TypeDefD (t : TypeDef).

Inductive Document := mkDocument (loc : Loc) (defs : list Def).

End ast.

(** ** Package [parser] *)
Module parser.

(** A parser call either returns a value (with the parser state after it),
    returns a Go error, or runs out of fuel. *)
Inductive result (A : Type) :=
| Ok (a : A)
| Err (e : error)
| OutOfFuel.
Arguments Ok {A} a.
Arguments Err {A} e.
Arguments OutOfFuel {A}.

Section Parser.
Context {S : Type} `{scanner.Scanner S}.

(** A [parser] parses tokens read from the [Lex] function into AST nodes. *)
Record parser := mkParser {
  lex : @lexer.lexer S;
  (* End index of the previous token. *)
  prevEnd : Z;
  (* Last parsed token. *)
  last : Token
}.

Definition PM (A : Type) : Type := parser -> result (A * parser).

Definition ret {A} (a : A) : PM A := fun p => Ok (a, p).
Definition fail {A} (e : error) : PM A := fun _ => Err e.
Definition outOfFuel {A} : PM A := fun _ => OutOfFuel.
Definition bind {A B} (m : PM A) (k : A -> PM B) : PM B :=
  fun p => match m p with
           | Ok (a, p') => k a p'
           | Err e => Err e
           | OutOfFuel => OutOfFuel
           end.
Definition get : PM parser := fun p => Ok (p, p).

End Parser.

Notation "x <- m ;; k" := (bind m (fun x => k))
  (at level 61, m at next level, right associativity).
Notation "m ;; k" := (bind m (fun _ => k)) (at level 61, right associativity).

Section Parser2.
Context {S : Type} `{scanner.Scanner S}.
Local Abbreviation parser := (@parser S).
Local Abbreviation PM := (@PM S).

Definition lastTok : PM Token := p <- get ;; ret (last p).
Definition getPrevEnd : PM Z := p <- get ;; ret (prevEnd p).

(** [advance] reads the next token: [p.prevEnd = p.last.End],
    [p.last = new(token.Token)], [p.Lex(p.last)]. *)
Definition advance (fuel : nat) : PM unit :=
  fun p => match lexer.Lex fuel (lex p) token.zero with
           | None => OutOfFuel
           | Some (l', t', e) =>
             match e with
             | None => Ok (tt, mkParser l' (token.End (last p)) t')
             | Some e => Err e
             end
           end.

(** [skip] advances and returns true if the token is of kind [k]. *)
Definition skip (fuel : nat) (k : token.Kind) : PM bool :=
  t <- lastTok ;;
  if token.Kind_eqb (token.kind t) k then (advance fuel ;; ret true) else ret false.

(** [expect] asserts the current token is of kind [k], advances and returns it. *)
Definition expect (fuel : nat) (k : token.Kind) : PM Token :=
  t <- lastTok ;;
  if token.Kind_eqb (token.kind t) k then (advance fuel ;; ret t)
  else fail (errors.SyntaxError (token.Start t) "expected a token but found another").

(** [expectKeyword] asserts the current token is the name keyword [value]. *)
Definition expectKeyword (fuel : nat) (value : string) : PM Token :=
  t <- lastTok ;;
  if token.Kind_eqb (token.kind t) token.Name && String.eqb (token.Value t) value
  then (advance fuel ;; ret t)
  else fail (errors.SyntaxError (token.Start t) "expected keyword name").

(** [parseName] *)
Definition parseName (fuel : nat) : PM ast.Name :=
  t <- expect fuel token.Name ;;
  ret (ast.mkName (ast.mkLoc (token.Start t) (token.End t)) (token.Value t)).

(** [parseNamedType] *)
Definition parseNamedType (fuel : nat) : PM ast.NamedType := parseName fuel.

(** [parseVariable] *)
Definition parseVariable (fuel : nat) : PM ast.Variable_ :=
  t <- lastTok ;;
  expect fuel token.Dollar ;;
  n <- parseName fuel ;;
  e <- getPrevEnd ;;
  ret (ast.mkVariable (ast.mkLoc (token.Start t) e) n).

Definition UnexpectedOn : string := "unexpected 'on' value; expected fragment name".

(** [parseFragmentName]: a name but not [on]. *)
Definition parseFragmentName (fuel : nat) : PM ast.Name :=
  t <- lastTok ;;
  if String.eqb (token.Value t) "on" then fail (errors.SyntaxError (token.Start t) UnexpectedOn)
  else parseName fuel.

(** [any]: zero or more, [<open>[val,...]<close>]. *)
Fixpoint any_loop {A} (parseFn : nat -> PM A) (close : token.Kind) (fuel : nat) : PM (list A) :=
  match fuel with
  | O => outOfFuel
  | Datatypes.S f =>
    skipped <- skip f close ;;
    if skipped then ret []
    else (x <- parseFn f ;; xs <- any_loop parseFn close f ;; ret (x :: xs))
  end.

Definition any {A} (fuel : nat) (open : token.Kind) (parseFn : nat -> PM A)
           (close : token.Kind) : PM (list A) :=
  expect fuel open ;; any_loop parseFn close fuel.

(** [many]: at least one, [<open>val[,val,...]<close>]. *)
Fixpoint many_loop {A} (parseFn : nat -> PM A) (close : token.Kind) (fuel : nat) : PM (list A) :=
  match fuel with
  | O => outOfFuel
  | Datatypes.S f =>
    x <- parseFn f ;;
    skipped <- skip f close ;;
    if skipped then ret [x]
    else (xs <- many_loop parseFn close f ;; ret (x :: xs))
  end.

Definition many {A} (fuel : nat) (open : token.Kind) (parseFn : nat -> PM A)
           (close : token.Kind) : PM (list A) :=
  expect fuel open ;; many_loop parseFn close fuel.

(** A literal node spanning from the token [t] to the end of [t] once the
    parser has advanced past it. *)
Definition advanceLoc (fuel : nat) (t : Token) : PM ast.Loc :=
  advance fuel ;; e <- getPrevEnd ;; ret (ast.mkLoc (token.Start t) e).

(** [parseValueLiteral], with [parseList], [parseObject] and
    [parseObjectField] inlined. *)
Fixpoint parseValueLiteral (fuel : nat) (isConst : bool) {struct fuel} : PM ast.Value :=
  match fuel with
  | O => outOfFuel
  | Datatypes.S f =>
    last <- lastTok ;;
    match token.kind last with
    | token.BracketL =>
      vs <- any f token.BracketL (fun g => parseValueLiteral g isConst) token.BracketR ;;
      e <- getPrevEnd ;;
      ret (ast.List (ast.mkLoc (token.Start last) e) vs)
    | token.BraceL =>
      fs <- any f token.BraceL
               (fun g => t <- lastTok ;;
                         n <- parseName g ;;
                         expect g token.Colon ;;
                         v <- parseValueLiteral g isConst ;;
                         e <- getPrevEnd ;;
                         ret (ast.mkObjectField (ast.mkLoc (token.Start t) e) n v))
               token.BraceR ;;
      e <- getPrevEnd ;;
      ret (ast.Object (ast.mkLoc (token.Start last) e) fs)
    | token.Int =>
      loc <- advanceLoc f last ;; ret (ast.Int loc (token.Value last))
    | token.Float =>
      loc <- advanceLoc f last ;; ret (ast.Float loc (token.Value last))
    | token.String =>
      loc <- advanceLoc f last ;; ret (ast.String loc (token.Value last))
    | token.Name =>
      if String.eqb (token.Value last) "true" || String.eqb (token.Value last) "false" then
        loc <- advanceLoc f last ;; ret (ast.Boolean loc (String.eqb (token.Value last) "true"))
      else if negb (String.eqb (token.Value last) "null") then
        loc <- advanceLoc f last ;; ret (ast.Enum loc (token.Value last))
      else
        t <- lastTok ;; fail (errors.SyntaxError (token.Start t) "unexpected kind")
    | token.Dollar =>
      if negb isConst then (v <- parseVariable f ;; ret (ast.VVariable v))
      else fail (errors.errorString "variable may not be constant")
    | _ => t <- lastTok ;; fail (errors.SyntaxError (token.Start t) "unexpected kind")
    end
  end.

(** [parseArgument] *)
Definition parseArgument (fuel : nat) : PM ast.Argument :=
  t <- lastTok ;;
  n <- parseName fuel ;;
  expect fuel token.Colon ;;
  v <- parseValueLiteral fuel false ;;
  e <- getPrevEnd ;;
  ret (ast.mkArgument (ast.mkLoc (token.Start t) e) n v).

(** [parseArguments] *)
Definition parseArguments (fuel : nat) : PM (list ast.Argument) :=
  t <- lastTok ;;
  if token.Kind_eqb (token.kind t) token.ParenL
  then many fuel token.ParenL parseArgument token.ParenR
  else ret [].

(** [parseDirective] *)
Definition parseDirective (fuel : nat) : PM ast.Directive :=
  t <- lastTok ;;
  expect fuel token.At ;;
  n <- parseName fuel ;;
  args <- parseArguments fuel ;;
  e <- getPrevEnd ;;
  ret (ast.mkDirective (ast.mkLoc (token.Start t) e) n args).

(** [parseDirectives]: [for p.last.Kind == token.At]. *)
Fixpoint parseDirectives (fuel : nat) : PM (list ast.Directive) :=
  match fuel with
  | O => outOfFuel
  | Datatypes.S f =>
    t <- lastTok ;;
    if token.Kind_eqb (token.kind t) token.At then
      d <- parseDirective f ;; ds <- parseDirectives f ;; ret (d :: ds)
    else ret []
  end.

(** [parseRefType] *)
Fixpoint parseRefType (fuel : nat) : PM ast.RefType :=
  match fuel with
  | O => outOfFuel
  | Datatypes.S f =>
    t0 <- lastTok ;;
    let Start := token.Start t0 in
    b <- skip f token.BracketL ;;
    t <- (if b then
            elemType <- parseRefType f ;;
            expect f token.BracketR ;;
            e <- getPrevEnd ;;
            ret (ast.ListType (ast.mkLoc Start e) elemType)
          else
            nt <- parseNamedType f ;; ret (ast.NamedTypeR nt)) ;;
    b <- skip f token.Bang ;;
    if b then (e <- getPrevEnd ;; ret (ast.NonNullType (ast.mkLoc Start e) t))
    else ret t
  end.

(** [parseSelectionSet], [parseSelection], [parseField] and [parseFragment]. *)
Fixpoint parseSelectionSet (fuel : nat) : PM ast.SelectionSet :=
  match fuel with
  | O => outOfFuel
  | Datatypes.S f =>
    t <- lastTok ;;
    sels <- many f token.BraceL parseSelection token.BraceR ;;
    e <- getPrevEnd ;;
    ret (ast.mkSelectionSet (ast.mkLoc (token.Start t) e) sels)
  end
with parseSelection (fuel : nat) : PM ast.Selection :=
  match fuel with
  | O => outOfFuel
  | Datatypes.S f =>
    t <- lastTok ;;
    if token.Kind_eqb (token.kind t) token.Spread then parseFragment f else parseField f
  end
with parseField (fuel : nat) : PM ast.Selection :=
  match fuel with
  | O => outOfFuel
  | Datatypes.S f =>
    t <- lastTok ;;
    nameOrAlias <- parseName f ;;
    b <- skip f token.Colon ;;
    an <- (if b then (n <- parseName f ;; ret (nameOrAlias, n))
           else ret (ast.zeroName, nameOrAlias)) ;;
    args <- parseArguments f ;;
    directives <- parseDirectives f ;;
    t' <- lastTok ;;
    ss <- (if token.Kind_eqb (token.kind t') token.BraceL then parseSelectionSet f
           else ret ast.zeroSelectionSet) ;;
    e <- getPrevEnd ;;
    ret (ast.Field (ast.mkLoc (token.Start t) e) (fst an) (snd an) args directives ss)
  end
with parseFragment (fuel : nat) : PM ast.Selection :=
  match fuel with
  | O => outOfFuel
  | Datatypes.S f =>
    t <- lastTok ;;
    let Start := token.Start t in
    expect f token.Spread ;;
    t <- lastTok ;;
    if token.Kind_eqb (token.kind t) token.Name && negb (String.eqb (token.Value t) "on") then
      n <- parseFragmentName f ;;
      directives <- parseDirectives f ;;
      e <- getPrevEnd ;;
      ret (ast.FragmentSpread (ast.mkLoc Start e) n directives)
    else
      nt <- (if String.eqb (token.Value t) "on" then (advance f ;; parseNamedType f)
             else ret ast.zeroName) ;;
      d <- parseDirectives f ;;
      ss <- parseSelectionSet f ;;
      e <- getPrevEnd ;;
      ret (ast.InlineFragment (ast.mkLoc Start e) nt d ss)
  end.


(** [parseVarDef]: [Variable : Type [=DefaultValue]?]. *)
Definition parseVarDef (fuel : nat) : PM ast.VarDef :=
  t <- lastTok ;;
  v <- parseVariable fuel ;;
  expect fuel token.Colon ;;
  refType <- parseRefType fuel ;;
  b <- skip fuel token.Equals ;;
  dv <- (if b then (v <- parseValueLiteral fuel true ;; ret (Some v)) else ret None) ;;
  e <- getPrevEnd ;;
  ret (ast.mkVarDef (ast.mkLoc (token.Start t) e) v refType dv).

(** [parseVarDefs]: [( VarDef+ )]. *)
Definition parseVarDefs (fuel : nat) : PM (list ast.VarDef) :=
  t <- lastTok ;;
  if token.Kind_eqb (token.kind t) token.ParenL
  then many fuel token.ParenL parseVarDef token.ParenR
  else ret [].

(** [parseOperation] *)
Definition parseOperation (o : string) : option ast.OpType :=
  if String.eqb o "query" then Some ast.Query
  else if String.eqb o "mutation" then Some ast.Mutation
  else if String.eqb o "subscription" then Some ast.Subscription
  else None.

(** [parseOpDef] *)
Definition parseOpDef (fuel : nat) : PM ast.Def :=
  t <- lastTok ;;
  let Start := token.Start t in
  if token.Kind_eqb (token.kind t) token.BraceL then
    ss <- parseSelectionSet fuel ;;
    e <- getPrevEnd ;;
    ret (ast.OpDef (ast.mkLoc Start e) ast.Query ast.zeroName [] [] ss)
  else
    opToken <- expect fuel token.Name ;;
    match parseOperation (token.Value opToken) with
    | None => fail (errors.errorString "unrecognized operation")
    | Some op =>
      t <- lastTok ;;
      name <- (if token.Kind_eqb (token.kind t) token.Name then parseName fuel
               else ret ast.zeroName) ;;
      varDefs <- parseVarDefs fuel ;;
      directives <- parseDirectives fuel ;;
      ss <- parseSelectionSet fuel ;;
      e <- getPrevEnd ;;
      ret (ast.OpDef (ast.mkLoc Start e) op name varDefs directives ss)
    end.

(** [parseFragmentDef] *)
Definition parseFragmentDef (fuel : nat) : PM ast.Def :=
  t <- lastTok ;;
  expectKeyword fuel "fragment" ;;
  n <- parseFragmentName fuel ;;
  expectKeyword fuel "on" ;;
  tc <- parseNamedType fuel ;;
  directives <- parseDirectives fuel ;;
  ss <- parseSelectionSet fuel ;;
  e <- getPrevEnd ;;
  ret (ast.FragmentDef (ast.mkLoc (token.Start t) e) n tc directives ss).

(** The [for] loop of [parseImplementsInterfaces]. *)
Fixpoint implements_loop (fuel : nat) : PM (list ast.NamedType) :=
  match fuel with
  | O => outOfFuel
  | Datatypes.S f =>
    t <- lastTok ;;
    match token.kind t with
    | token.BraceL | token.EOF => ret []
    | _ => nt <- parseNamedType f ;; nts <- implements_loop f ;; ret (nt :: nts)
    end
  end.

(** [parseImplementsInterfaces] *)
Definition parseImplementsInterfaces (fuel : nat) : PM (list ast.NamedType) :=
  t <- lastTok ;;
  if String.eqb (token.Value t) "implements" then
    advance fuel ;;
    nt <- parseNamedType fuel ;;
    nts <- implements_loop fuel ;;
    ret (nt :: nts)
  else ret [].

(** [parseInputValueDef]: [Name : Type DefaultValue?]. *)
Definition parseInputValueDef (fuel : nat) : PM ast.InputValueDef :=
  t <- lastTok ;;
  n <- parseName fuel ;;
  expect fuel token.Colon ;;
  rt <- parseRefType fuel ;;
  b <- skip fuel token.Equals ;;
  dv <- (if b then (v <- parseValueLiteral fuel true ;; ret (Some v)) else ret None) ;;
  e <- getPrevEnd ;;
  ret (ast.mkInputValueDef (ast.mkLoc (token.Start t) e) n rt dv).

(** [parseArgumentsDef]: [( InputValueDef+ )]. *)
Definition parseArgumentsDef (fuel : nat) : PM (list ast.InputValueDef) :=
  t <- lastTok ;;
  if negb (token.Kind_eqb (token.kind t) token.ParenL) then ret []
  else many fuel token.ParenL parseInputValueDef token.ParenR.

(** [parseFieldDef]: [Name ArgumentsDef? : Type]. *)
Definition parseFieldDef (fuel : nat) : PM ast.FieldDef :=
  t <- lastTok ;;
  n <- parseName fuel ;;
  args <- parseArgumentsDef fuel ;;
  expect fuel token.Colon ;;
  rt <- parseRefType fuel ;;
  e <- getPrevEnd ;;
  ret (ast.mkFieldDef (ast.mkLoc (token.Start t) e) n args rt).

(** [parseObjTypeDef]; [Start] is [p.last.Start] for a fresh node and the
    start of the [extend] keyword for a [TypeExtDef]. *)
Definition parseObjTypeDef (fuel : nat) (Start : Z) : PM ast.ObjTypeDef :=
  expectKeyword fuel "type" ;;
  n <- parseName fuel ;;
  interfaces <- parseImplementsInterfaces fuel ;;
  fds <- any fuel token.BraceL parseFieldDef token.BraceR ;;
  e <- getPrevEnd ;;
  ret (ast.mkObjTypeDef (ast.mkLoc Start e) n interfaces fds).

(** [parseInterfaceTypeDef] *)
Definition parseInterfaceTypeDef (fuel : nat) : PM ast.TypeDef :=
  t <- lastTok ;;
  expectKeyword fuel "interface" ;;
  n <- parseName fuel ;;
  fds <- any fuel token.BraceL parseFieldDef token.BraceR ;;
  e <- getPrevEnd ;;
  ret (ast.InterfaceTypeDef (ast.mkLoc (token.Start t) e) n fds).

(** The [for] loop of [parseUnionMembers]. *)
Fixpoint unionMembers_loop (fuel : nat) : PM (list ast.NamedType) :=
  match fuel with
  | O => outOfFuel
  | Datatypes.S f =>
    nt <- parseNamedType f ;;
    b <- skip f token.Pipe ;;
    if b then (nts <- unionMembers_loop f ;; ret (nt :: nts)) else ret [nt]
  end.

(** [parseUnionMembers] *)
Definition parseUnionMembers (fuel : nat) : PM (list ast.NamedType) :=
  unionMembers_loop fuel.

(** [parseUnionTypeDef]: [union Name = UnionMembers]. *)
Definition parseUnionTypeDef (fuel : nat) : PM ast.TypeDef :=
  t <- lastTok ;;
  expectKeyword fuel "union" ;;
  n <- parseName fuel ;;
  expect fuel token.Equals ;;
  types <- parseUnionMembers fuel ;;
  e <- getPrevEnd ;;
  ret (ast.UnionTypeDef (ast.mkLoc (token.Start t) e) n types).

(** [parseScalarTypeDef]: [scalar Name]. *)
Definition parseScalarTypeDef (fuel : nat) : PM ast.TypeDef :=
  t <- lastTok ;;
  expectKeyword fuel "scalar" ;;
  n <- parseName fuel ;;
  e <- getPrevEnd ;;
  ret (ast.ScalarTypeDef (ast.mkLoc (token.Start t) e) n).

(** [parseEnumValueDef] *)
Definition parseEnumValueDef (fuel : nat) : PM ast.Name := parseName fuel.

(** [parseEnumTypeDef]: [enum Name { EnumValueDef+ }]. *)
Definition parseEnumTypeDef (fuel : nat) : PM ast.TypeDef :=
  t <- lastTok ;;
  expectKeyword fuel "enum" ;;
  n <- parseName fuel ;;
  vs <- many fuel token.BraceL parseEnumValueDef token.BraceR ;;
  e <- getPrevEnd ;;
  ret (ast.EnumTypeDef (ast.mkLoc (token.Start t) e) n vs).

(** [parseInputObjTypeDef]: [input Name { InputValueDefinition+ }]. *)
Definition parseInputObjTypeDef (fuel : nat) : PM ast.TypeDef :=
  t <- lastTok ;;
  expectKeyword fuel "input" ;;
  n <- parseName fuel ;;
  fs <- any fuel token.BraceL parseInputValueDef token.BraceR ;;
  e <- getPrevEnd ;;
  ret (ast.InputObjTypeDef (ast.mkLoc (token.Start t) e) n fs).

(** [parseTypeExtDef]: [extend ObjTypeDef]. *)
Definition parseTypeExtDef (fuel : nat) : PM ast.TypeDef :=
  t <- lastTok ;;
  expectKeyword fuel "extend" ;;
  o <- parseObjTypeDef fuel (token.Start t) ;;
  ret (ast.TypeExtDef o).

(** [parseTypeDef] *)
Definition parseTypeDef (fuel : nat) : PM ast.TypeDef :=
  t <- lastTok ;;
  let v := token.Value t in
  if String.eqb v "type" then (o <- parseObjTypeDef fuel (token.Start t) ;; ret (ast.ObjTypeDefT o))
  else if String.eqb v "interface" then parseInterfaceTypeDef fuel
  else if String.eqb v "union" then parseUnionTypeDef fuel
  else if String.eqb v "scalar" then parseScalarTypeDef fuel
  else if String.eqb v "enum" then parseEnumTypeDef fuel
  else if String.eqb v "input" then parseInputObjTypeDef fuel
  else if String.eqb v "extend" then parseTypeExtDef fuel
  else fail (errors.SyntaxError (token.Start t) "unrecognized typeDef").

Definition isTypeDefKeyword (v : string) : bool :=
  existsb (String.eqb v) ["type"; "interface"; "union"; "scalar"; "enum"; "input"; "extend"]%string.

(** [parseDefinition] *)
Definition parseDefinition (fuel : nat) : PM ast.Def :=
  t <- lastTok ;;
  match token.kind t with
  | token.BraceL => parseOpDef fuel
  | token.Name =>
    let v := token.Value t in
    if String.eqb v "query" || String.eqb v "mutation" || String.eqb v "subscription"
    then parseOpDef fuel
    else if String.eqb v "fragment" then parseFragmentDef fuel
    else if isTypeDefKeyword v then (d <- parseTypeDef fuel ;; ret (ast.TypeDefD d))
    else fail (errors.SyntaxError (token.Start t) "unexpected name")
  | _ => fail (errors.SyntaxError (token.Start t) "unexpected kind")
  end.

(** The [for] loop of [parseDocument]: a definition, then [skip(EOF)]. *)
Fixpoint document_loop (fuel : nat) : PM (list ast.Def) :=
  match fuel with
  | O => outOfFuel
  | Datatypes.S f =>
    def <- parseDefinition f ;;
    b <- skip f token.EOF ;;
    if b then ret [def] else (defs <- document_loop f ;; ret (def :: defs))
  end.

(** [parseDocument]: [Definition+]. *)
Definition parseDocument (fuel : nat) : PM ast.Document :=
  t <- lastTok ;;
  defs <- document_loop fuel ;;
  e <- getPrevEnd ;;
  ret (ast.mkDocument (ast.mkLoc (token.Start t) e) defs).

(** [newParser]: the first [advance] finds [p.last == nil] and leaves
    [prevEnd] at 0. *)
Definition newParser (fuel : nat) (l : @lexer.lexer S) : result parser :=
  match lexer.Lex fuel l token.zero with
  | None => OutOfFuel
  | Some (l', t', None) => Ok (mkParser l' 0 t')
  | Some (_, _, Some e) => Err e
  end.

(** [newStringParser] / [newReaderParser] followed by [parseDocument]. *)
Definition parseWith (fuel : nat) (nl : @lexer.lexer S + error) : result ast.Document :=
  match nl with
  | inr e => Err e
  | inl l =>
    match newParser fuel l with
    | Ok p => match parseDocument fuel p with
              | Ok (d, _) => Ok d
              | Err e => Err e
              | OutOfFuel => OutOfFuel
              end
    | Err e => Err e
    | OutOfFuel => OutOfFuel
    end
  end.

End Parser2.

(** The fuel given to a parse of the source [s]. *)
Definition fuelFor (s : string) : nat := 8 * String.length s + 64.

(** [ParseString] *)
Definition ParseString (source : string) : result ast.Document :=
  parseWith (fuelFor source) (lexer.NewStringLexer source).

(** [ParseReader] on a reader over the bytes of [source]. *)
Definition ParseReader (source : string) : result ast.Document :=
  parseWith (fuelFor source) (lexer.NewReaderLexer source).

End parser.

(** ** Running the lexer and the parser *)
Module run.

(** The first token of [s] lexed by a string lexer given [fuel]: the token
    and the error [Lex] returns, [None] if the lexer cannot be created or
    the fuel runs out. *)
Definition lexFirstWith {S} `{scanner.Scanner S} (fuel : nat) (nl : @lexer.lexer S + error)
  : option (Token * option error) :=
  match nl with
  | inl l => match lexer.Lex fuel l token.zero with
             | Some (_, t, e) => Some (t, e)
             | None => None
             end
  | inr _ => None
  end.

Definition lexString (s : string) : option (Token * option error) :=
  lexFirstWith (String.length s + 1) (lexer.NewStringLexer s).

Definition lexReader (s : string) : option (Token * option error) :=
  lexFirstWith (String.length s + 1) (lexer.NewReaderLexer s).

(** The document [{a,b}]. *)
Definition doc_ab (a b : string) : ast.Document :=
  ast.mkDocument (ast.mkLoc 0 5)
    [ast.OpDef (ast.mkLoc 0 5) ast.Query ast.zeroName [] []
       (ast.mkSelectionSet (ast.mkLoc 0 5)
          [ast.Field (ast.mkLoc 1 1) ast.zeroName (ast.mkName (ast.mkLoc 1 1) a) [] []
                     ast.zeroSelectionSet;
           ast.Field (ast.mkLoc 3 3) ast.zeroName (ast.mkName (ast.mkLoc 3 3) b) [] []
                     ast.zeroSelectionSet])].


(** A parser with no input, used where a function needs some parser. *)
Definition emptyParser : parser.parser :=
  parser.mkParser (lexer.mkLexer (scanner.NewStringScanner "") None (-1) false) 0 token.zero.

(** The parser [newStringParser s] returns, or [emptyParser]. *)
Definition parserOf (s : string) : parser.parser :=
  match lexer.NewStringLexer s with
  | inl l => match parser.newParser (String.length s + 1) l with
             | parser.Ok p => p
             | _ => emptyParser
             end
  | inr _ => emptyParser
  end.

(** The parser state after [advance], or [p] if it fails. *)
Definition afterAdvance {S} `{scanner.Scanner S} (fuel : nat) (p : @parser.parser S)
  : @parser.parser S :=
  match parser.advance fuel p with
  | parser.Ok (_, p') => p'
  | _ => p
  end.

(** A Go string holding one double quote. *)
Definition quote : string := String (ascii_of_nat 34) EmptyString.

(** The lexer [NewStringLexer s] returns, or one over the empty source. *)
Definition stringLexerOf (s : string) : @lexer.lexer scanner.stringScanner :=
  match lexer.NewStringLexer s with
  | inl l => l
  | inr _ => lexer.mkLexer (scanner.NewStringScanner "") None (-1) false
  end.

(** The loop of the scanner tests: [Scan] until it returns an error,
    collecting [Rune] after each successful [Scan]; the runes, the scanner
    and the error that ended the loop ([None] if [fuel] runs out). *)
Fixpoint scanAll {S} `{scanner.Scanner S} (fuel : nat) (s : S) : list Z * S * option error :=
  match fuel with
  | O => ([], s, None)
  | Datatypes.S f =>
    let '(s', e) := scanner.Scan s in
    match e with
    | Some e => ([], s', Some e)
    | None => let '(rs, s'', e') := scanAll f s' in (scanner.Rune s' :: rs, s'', e')
    end
  end.

End run.

(** * Measures and invariants

    The definitions the termination and span theorems are stated with: the
    rune length of a source, what each scanner has left to read, the
    invariant the lexer and the parser keep, and what it means for the spans
    of an AST to lie within a source. *)
Module measure.

(** [utf8.RuneCount]: the number of runes in [p], an invalid byte counting
    as one rune of width 1. *)
Fixpoint RuneCount_fuel (fuel : nat) (p : list Z) : nat :=
  match fuel with
  | O => O
  | Datatypes.S f =>
    match p with
    | [] => O
    | _ :: _ => Datatypes.S (RuneCount_fuel f (skipn (Z.to_nat (snd (utf8.DecodeRune p))) p))
    end
  end.

Definition RuneCount (p : list Z) : nat := RuneCount_fuel (length p) p.

(** [utf8.RuneCountInString] *)
Definition RuneCountInString (s : string) : Z := Z.of_nat (RuneCount (bytes_of s)).

(** The runes a [stringScanner] has not yet scanned. *)
Definition string_rem (s : scanner.stringScanner) : nat :=
  RuneCount (skipn (Z.to_nat (scanner.lastIndex s + scanner.lastWidth s))
                   (bytes_of (scanner.source s))).

(** The states a [stringScanner] reaches: offsets are non-negative, and at
    the end of the source the last rune is the zero value or [RuneError]. *)
Definition string_wf (s : scanner.stringScanner) : Prop :=
  0 <= scanner.lastIndex s /\ 0 <= scanner.lastWidth s /\
  (len (scanner.source s) <= scanner.lastIndex s ->
   scanner.last s = 0 \/ scanner.last s = utf8.RuneError).

(** The runes the reader of a [bufferedScanner] has not yet delivered. *)
Definition buffered_rem (s : scanner.bufferedScanner) : nat :=
  RuneCount (bufio.unread (scanner.bsource s)).

Definition buffered_wf (s : scanner.bufferedScanner) : Prop := True.

Section Lexer.
Context {S : Type} `{scanner.Scanner S}.
Variable rem : S -> nat.
Variable wf : S -> Prop.

(** What the lexer has left: the unscanned runes, plus one while the end
    of the source is not reached. *)
Definition mu (l : @lexer.lexer S) : nat :=
  (rem (lexer.scanner l) + if lexer.eof l then 0 else 1)%nat.

(** The lexer invariant for a source of [N] runes. *)
Definition LI (N : Z) (l : @lexer.lexer S) : Prop :=
  wf (lexer.scanner l) /\
  (lexer.eof l = true ->
   scanner.Rune (lexer.scanner l) = 0 \/ scanner.Rune (lexer.scanner l) = utf8.RuneError) /\
  0 <= lexer.lastIndex l /\ lexer.lastIndex l + Z.of_nat (mu l) <= N.

(** A lexer step from [l] to [l']: the invariant holds, the measure does
    not grow and the offset does not decrease. *)
Definition Step (N : Z) (l l' : @lexer.lexer S) : Prop :=
  LI N l' /\ (mu l' <= mu l)%nat /\ lexer.lastIndex l <= lexer.lastIndex l'.

(** What the parser has left: the lexer's measure, plus one while the
    current token is not [EOF]. *)
Definition nu (p : @parser.parser S) : nat :=
  (mu (parser.lex p) + if token.Kind_eqb (token.kind (parser.last p)) token.EOF then 0 else 1)%nat.

(** The parser invariant: the lexer invariant; the current token starts
    at most where the lexer is; an [EOF] token is empty and comes with the
    lexer at the end; any other token spans [Start..End] up to the lexer's
    offset, except a [Float] cut off by the end of the source, whose [End]
    is left 0; and [prevEnd] lies in the source. *)
Definition PInv (N : Z) (p : @parser.parser S) : Prop :=
  let t := parser.last p in
  let l := parser.lex p in
  LI N l /\ 0 <= token.Start t <= lexer.lastIndex l /\
  (token.kind t = token.EOF -> lexer.eof l = true /\ token.End t = token.Start t) /\
  (token.kind t <> token.EOF ->
   (token.Start t <= token.End t <= lexer.lastIndex l) \/
   (token.kind t = token.Float /\ lexer.eof l = true /\ token.End t = 0)) /\
  0 <= parser.prevEnd p <= N.

(** A parse from [p] to [p'] that consumed at least one token: the
    invariant holds, the parse did not start on [EOF], the measure went down, tokens moved forward, the
    last consumed token ends after the first one starts, and [good]
    holds of the result. *)
Definition Cons (N : Z) (good : Prop) (p p' : @parser.parser S) : Prop :=
  PInv N p' /\ token.kind (parser.last p) <> token.EOF /\ (nu p' < nu p)%nat /\
  token.Start (parser.last p) <= token.Start (parser.last p') /\
  token.Start (parser.last p) <= parser.prevEnd p' /\ good.

(** What [advance] does from [p] to [p']: the invariant holds, the
    measure does not grow and goes down unless the token was [EOF], tokens
    move forward, [prevEnd] becomes the end of the token left, which is
    not before its start unless it is a [Float] cut off by the end of the
    source and [EOF] follows, and [EOF] is followed by [EOF]. *)
Definition Adv (N : Z) (p p' : @parser.parser S) : Prop :=
  let t := parser.last p in
  PInv N p' /\ (nu p' <= nu p)%nat /\
  (token.kind t <> token.EOF -> (nu p' < nu p)%nat) /\
  token.Start t <= token.Start (parser.last p') /\
  parser.prevEnd p' = token.End t /\
  (token.Start t <= token.End t \/
   (token.kind t = token.Float /\ token.kind (parser.last p') = token.EOF)) /\
  (token.kind t = token.EOF -> token.kind (parser.last p') = token.EOF).

(** A parse that consumed nothing or behaved as in [Cons]. *)
Definition Opt (N : Z) (good : Prop) (p p' : @parser.parser S) : Prop :=
  PInv N p' /\
  (p' = p \/
   (token.kind (parser.last p) <> token.EOF /\ (nu p' < nu p)%nat /\
    token.Start (parser.last p) <= token.Start (parser.last p') /\
    token.Start (parser.last p) <= parser.prevEnd p')) /\ good.

(** A parse that ends with a value: as in [Cons], or it consumed a
    [Float] cut off by the end of the source and stands on [EOF]. *)
Definition Weak (N : Z) (good : Prop) (p p' : @parser.parser S) : Prop :=
  PInv N p' /\ token.kind (parser.last p) <> token.EOF /\ (nu p' < nu p)%nat /\
  token.Start (parser.last p) <= token.Start (parser.last p') /\
  ((token.Start (parser.last p) <= parser.prevEnd p' /\ good) \/
   token.kind (parser.last p') = token.EOF).

End Lexer.

(** What a parser step [m] does from [p]: [Q] holds of its value and the
    parser after it, and [B] holds if it runs out of fuel. *)
Definition PSpec {S : Type} {A : Type} (m : @parser.PM S A) (p : @parser.parser S)
  (Q : A -> @parser.parser S -> Prop) (B : Prop) : Prop :=
  match m p with
  | parser.Ok (a, p') => Q a p'
  | parser.Err _ => True
  | parser.OutOfFuel => B
  end.

End measure.

(** * Spans within a source of [N] runes *)
Module spans.
Section Spans.
Variable N : Z.

Definition locOK (l : ast.Loc) : Prop := 0 <= ast.Start l <= ast.End l /\ ast.End l <= N.

Definition nameOK (n : ast.Name) : Prop := match n with ast.mkName l _ => locOK l end.

Definition variableOK (v : ast.Variable_) : Prop :=
  match v with ast.mkVariable l n => locOK l /\ nameOK n end.

Fixpoint valueOK (v : ast.Value) : Prop :=
  match v with
  | ast.VVariable x => variableOK x
  | ast.Int l _ | ast.Float l _ | ast.String l _ | ast.Boolean l _ | ast.Enum l _ => locOK l
  | ast.List l vs =>
    locOK l /\ (fix go (vs : list ast.Value) : Prop :=
                  match vs with [] => True | v :: r => valueOK v /\ go r end) vs
  | ast.Object l fs =>
    locOK l /\ (fix go (fs : list ast.ObjectField) : Prop :=
                  match fs with [] => True | f :: r => objectFieldOK f /\ go r end) fs
  end
with objectFieldOK (f : ast.ObjectField) : Prop :=
  match f with ast.mkObjectField l n v => locOK l /\ nameOK n /\ valueOK v end.

Definition argumentOK (a : ast.Argument) : Prop :=
  match a with ast.mkArgument l n v => locOK l /\ nameOK n /\ valueOK v end.

Definition directiveOK (d : ast.Directive) : Prop :=
  match d with ast.mkDirective l n args => locOK l /\ nameOK n /\ Forall argumentOK args end.

Fixpoint refTypeOK (t : ast.RefType) : Prop :=
  match t with
  | ast.NamedTypeR n => nameOK n
  | ast.ListType l t | ast.NonNullType l t => locOK l /\ refTypeOK t
  end.

Fixpoint selectionOK (s : ast.Selection) : Prop :=
  match s with
  | ast.Field l a n args dirs ss =>
    locOK l /\ nameOK a /\ nameOK n /\ Forall argumentOK args /\ Forall directiveOK dirs /\
    selectionSetOK ss
  | ast.FragmentSpread l n dirs => locOK l /\ nameOK n /\ Forall directiveOK dirs
  | ast.InlineFragment l nt dirs ss =>
    locOK l /\ nameOK nt /\ Forall directiveOK dirs /\ selectionSetOK ss
  end
with selectionSetOK (ss : ast.SelectionSet) : Prop :=
  match ss with
  | ast.mkSelectionSet l sels =>
    locOK l /\ (fix go (sels : list ast.Selection) : Prop :=
                  match sels with [] => True | s :: r => selectionOK s /\ go r end) sels
  end.

Definition optValueOK (v : option ast.Value) : Prop :=
  match v with None => True | Some v => valueOK v end.

Definition varDefOK (d : ast.VarDef) : Prop :=
  match d with ast.mkVarDef l v t dv => locOK l /\ variableOK v /\ refTypeOK t /\ optValueOK dv end.

Definition inputValueDefOK (d : ast.InputValueDef) : Prop :=
  match d with
  | ast.mkInputValueDef l n t dv => locOK l /\ nameOK n /\ refTypeOK t /\ optValueOK dv
  end.

Definition fieldDefOK (d : ast.FieldDef) : Prop :=
  match d with
  | ast.mkFieldDef l n args t => locOK l /\ nameOK n /\ Forall inputValueDefOK args /\ refTypeOK t
  end.

Definition objTypeDefOK (o : ast.ObjTypeDef) : Prop :=
  match o with
  | ast.mkObjTypeDef l n is fds => locOK l /\ nameOK n /\ Forall nameOK is /\ Forall fieldDefOK fds
  end.

Definition typeDefOK (t : ast.TypeDef) : Prop :=
  match t with
  | ast.ObjTypeDefT o | ast.TypeExtDef o => objTypeDefOK o
  | ast.InterfaceTypeDef l n fds => locOK l /\ nameOK n /\ Forall fieldDefOK fds
  | ast.UnionTypeDef l n nts => locOK l /\ nameOK n /\ Forall nameOK nts
  | ast.ScalarTypeDef l n => locOK l /\ nameOK n
  | ast.EnumTypeDef l n vs => locOK l /\ nameOK n /\ Forall nameOK vs
  | ast.InputObjTypeDef l n fs => locOK l /\ nameOK n /\ Forall inputValueDefOK fs
  end.

Definition defOK (d : ast.Def) : Prop :=
  match d with
  | ast.OpDef l _ n vds dirs ss =>
    locOK l /\ nameOK n /\ Forall varDefOK vds /\ Forall directiveOK dirs /\ selectionSetOK ss
  | ast.FragmentDef l n tc dirs ss =>
    locOK l /\ nameOK n /\ nameOK tc /\ Forall directiveOK dirs /\ selectionSetOK ss
  | ast.TypeDefD t => typeDefOK t
  end.

(** Every node of the document spans [Start..End] with
    [0 <= Start <= End <= N]. *)
Definition documentOK (d : ast.Document) : Prop :=
  match d with ast.mkDocument l defs => locOK l /\ Forall defOK defs end.

End Spans.
End spans.

(** * The number grammar *)
(** The shape of a number literal, and what it means for a lexer to be fed a
    list of runes. *)
Module grammar.

(** The bytes of a number: an optional sign [-] ([sg]); the integer part,
    [0] alone ([z]) or [d :: ds]; an optional fraction [.] followed by [fd]
    ([f]); an optional exponent, the marker [m] followed by the sign [so] and
    the digits [ed] ([xp]). *)
Definition number_text (sg z f xp : bool) (d : Z) (ds fd : list Z) (m : Z) (so ed : list Z) : list Z :=
  (if sg then [45] else []) ++ (if z then [48] else d :: ds) ++
  (if f then 46 :: fd else []) ++ (if xp then m :: so ++ ed else []).

Section F.
Context {S : Type} `{scanner.Scanner S}.

(** [Feeds l rs e l']: advancing from [l] delivers the runes [rs], each one
    rune wide, and reaches [l'], after one more advance to the end of the
    source if [e]. *)
Fixpoint Feeds (l : @lexer.lexer S) (rs : list Z) (e : bool) (l' : @lexer.lexer S) : Prop :=
  match rs with
  | [] =>
    if e then lexer.advance_l l = (l', true) /\ lexer.eof l' = true /\
              lexer.lastIndex l' = lexer.lastIndex l + 1
    else l' = l
  | r :: rs' =>
    exists l1, lexer.advance_l l = (l1, true) /\ lexer.eof l1 = false /\
      scanner.Rune (lexer.scanner l1) = r /\ lexer.lastIndex l1 = lexer.lastIndex l + 1 /\
      Feeds l1 rs' e l'
  end.

End F.
End grammar.

(** * Facts on UTF-8 *)
Module Utf8Facts.

Lemma land_low (x n : Z) : 0 <= n -> Z.land x (2 ^ n - 1) = x mod 2 ^ n.
Proof.
  intro Hn. rewrite <- Z.land_ones by exact Hn. f_equal. rewrite Z.ones_equiv. lia.
Qed.

Lemma lor_add (a b n : Z) : 0 <= n -> 0 <= b < 2 ^ n -> Z.lor (a * 2 ^ n) b = a * 2 ^ n + b.
Proof.
  intros Hn Hb.
  assert (Hl : Z.land (a * 2 ^ n) b = 0).
  { apply Z.bits_inj'. intros m Hm. rewrite Z.land_spec, Z.bits_0.
    destruct (Z.lt_ge_cases m n) as [Hlt|Hge].
    - rewrite Z.mul_pow2_bits by exact Hn. rewrite Z.testbit_neg_r by lia. reflexivity.
    - rewrite <- (Z.mod_small b (2 ^ n)) by exact Hb.
      rewrite Z.mod_pow2_bits_high by lia. apply andb_false_r. }
  rewrite <- Z.lxor_lor by exact Hl. rewrite Z.add_nocarry_lxor by exact Hl. reflexivity.
Qed.


Lemma land_255 x : Z.land x 255 = x mod 256. Proof. exact (land_low x 8 ltac:(lia)). Qed.
Lemma land_63 x : Z.land x 63 = x mod 64. Proof. exact (land_low x 6 ltac:(lia)). Qed.
Lemma land_31 x : Z.land x 31 = x mod 32. Proof. exact (land_low x 5 ltac:(lia)). Qed.
Lemma land_15 x : Z.land x 15 = x mod 16. Proof. exact (land_low x 4 ltac:(lia)). Qed.
Lemma land_7 x : Z.land x 7 = x mod 8. Proof. exact (land_low x 3 ltac:(lia)). Qed.
Lemma land_32 x : Z.land x 4294967295 = x mod 4294967296. Proof. exact (land_low x 32 ltac:(lia)). Qed.
Lemma lor_k (k n x : Z) : 0 <= n -> 0 <= x < 2 ^ n -> k mod 2 ^ n = 0 -> Z.lor k x = k + x.
Proof.
  intros Hn Hx Hk. rewrite (Z.div_mod k (2 ^ n)) by lia. rewrite Hk, Z.add_0_r.
  rewrite Z.mul_comm. apply lor_add; assumption.
Qed.
Lemma shiftl_lor (x y n : Z) : 0 <= n -> 0 <= y < 2 ^ n -> Z.lor (Z.shiftl x n) y = x * 2 ^ n + y.
Proof. intros. rewrite Z.shiftl_mul_pow2 by lia. apply lor_add; assumption. Qed.

(* Bytes as remainders, shifts as divisions. *)
Ltac zsimpl :=
  repeat first
    [ rewrite land_255 | rewrite land_63 | rewrite land_31 | rewrite land_15 | rewrite land_7
    | rewrite land_32 | rewrite Z.shiftr_div_pow2 by lia ];
  repeat match goal with
         | |- context [2 ^ ?n] =>
           let v := eval vm_compute in (2 ^ n) in change (2 ^ n) with v
         end.

Lemma EncodeRune_1 c : 0 <= c <= 127 -> utf8.EncodeRune c = [c].
Proof.
  intro Hc. unfold utf8.EncodeRune, utf8.byte. zsimpl.
  rewrite (Z.mod_small c) by lia. destruct (Z.leb_spec c 127); [|lia].
  rewrite Z.mod_small by lia. reflexivity.
Qed.

Lemma EncodeRune_2 c : 128 <= c <= 2047 -> utf8.EncodeRune c = [192 + c / 64; 128 + c mod 64].
Proof.
  intro Hc. unfold utf8.EncodeRune, utf8.byte, utf8.t2, utf8.tx, utf8.maskx. zsimpl.
  rewrite (Z.mod_small c) by lia. destruct (Z.leb_spec c 127); [lia|].
  destruct (Z.leb_spec c 2047); [|lia].
  rewrite (Z.mod_small (c / 64)) by (Z.div_mod_to_equations; lia).
  replace ((c mod 256) mod 64) with (c mod 64) by (Z.div_mod_to_equations; lia).
  rewrite (lor_k 192 6), (lor_k 128 6); try (Z.div_mod_to_equations; lia); reflexivity.
Qed.

Lemma EncodeRune_3 c :
  2048 <= c <= 65535 -> ~ (55296 <= c <= 57343) ->
  utf8.EncodeRune c = [224 + c / 4096; 128 + (c / 64) mod 64; 128 + c mod 64].
Proof.
  intros Hc Hs. unfold utf8.EncodeRune, utf8.byte, utf8.t3, utf8.tx, utf8.maskx,
    utf8.MaxRune, utf8.surrogateMin, utf8.surrogateMax. zsimpl.
  rewrite (Z.mod_small c) by lia. destruct (Z.leb_spec c 127); [lia|].
  destruct (Z.leb_spec c 2047); [lia|].
  destruct (Z.ltb_spec 1114111 c); [lia|]. destruct (Z.leb_spec 55296 c); destruct (Z.leb_spec c 57343);
    try lia; cbn [andb orb]; destruct (Z.leb_spec c 65535); try lia;
  rewrite (Z.mod_small (c / 4096)) by (Z.div_mod_to_equations; lia);
  replace (((c / 64) mod 256) mod 64) with ((c / 64) mod 64) by (Z.div_mod_to_equations; lia);
  replace ((c mod 256) mod 64) with (c mod 64) by (Z.div_mod_to_equations; lia);
  rewrite (lor_k 224 4), !(lor_k 128 6); try (Z.div_mod_to_equations; lia); reflexivity.
Qed.

Lemma EncodeRune_4 c :
  65536 <= c <= 1114111 ->
  utf8.EncodeRune c =
    [240 + c / 262144; 128 + (c / 4096) mod 64; 128 + (c / 64) mod 64; 128 + c mod 64].
Proof.
  intros Hc. unfold utf8.EncodeRune, utf8.byte, utf8.t4, utf8.tx, utf8.maskx,
    utf8.MaxRune, utf8.surrogateMin, utf8.surrogateMax. zsimpl.
  rewrite (Z.mod_small c) by lia. destruct (Z.leb_spec c 127); [lia|].
  destruct (Z.leb_spec c 2047); [lia|].
  destruct (Z.ltb_spec 1114111 c); [lia|].
  destruct (Z.leb_spec 55296 c); [|lia]. destruct (Z.leb_spec c 57343); [lia|].
  cbn [andb orb]. destruct (Z.leb_spec c 65535); [lia|].
  rewrite (Z.mod_small (c / 262144)) by (Z.div_mod_to_equations; lia).
  replace (((c / 4096) mod 256) mod 64) with ((c / 4096) mod 64) by (Z.div_mod_to_equations; lia).
  replace (((c / 64) mod 256) mod 64) with ((c / 64) mod 64) by (Z.div_mod_to_equations; lia).
  replace ((c mod 256) mod 64) with (c mod 64) by (Z.div_mod_to_equations; lia).
  rewrite (lor_k 240 3), !(lor_k 128 6); try (Z.div_mod_to_equations; lia); reflexivity.
Qed.

(* Case analysis on the comparisons of an [if] chain. *)
Ltac zif :=
  repeat (cbn [andb orb negb Nat.leb] in *;
    match goal with
    | |- context [if (?a <? ?b) then _ else _] => destruct (Z.ltb_spec a b); try lia
    | |- context [if (?a <=? ?b) then _ else _] => destruct (Z.leb_spec a b); try lia
    | |- context [if (?a =? ?b) then _ else _] => destruct (Z.eqb_spec a b); try lia
    | |- context [(?a <? ?b) || _] => destruct (Z.ltb_spec a b); try lia
    | |- context [(?a <=? ?b) || _] => destruct (Z.leb_spec a b); try lia
    end).

Lemma DecodeRune_2 q r rest :
  2 <= q <= 31 -> 0 <= r < 64 -> utf8.DecodeRune ([192 + q; 128 + r] ++ rest) = (q * 64 + r, 2).
Proof.
  intros Hq Hr. unfold utf8.DecodeRune, utf8.first. cbn [app length nth]. zif.
  unfold utf8.mask2, utf8.maskx. rewrite land_31, land_63.
  replace ((192 + q) mod 32) with q by (Z.div_mod_to_equations; lia).
  replace ((128 + r) mod 64) with r by (Z.div_mod_to_equations; lia).
  rewrite shiftl_lor by lia. reflexivity.
Qed.

Lemma DecodeRune_3 a b d rest :
  0 <= a <= 15 -> 0 <= b < 64 -> 0 <= d < 64 -> (a = 0 -> 32 <= b) -> (a = 13 -> b < 32) ->
  utf8.DecodeRune ([224 + a; 128 + b; 128 + d] ++ rest) = (a * 4096 + b * 64 + d, 3).
Proof.
  intros Ha Hb Hd H0 H13. unfold utf8.DecodeRune, utf8.first, utf8.out_cb, utf8.locb, utf8.hicb.
  cbn [app length nth]. zif.
  all: unfold utf8.mask3, utf8.maskx; rewrite land_15, !land_63;
  replace ((224 + a) mod 16) with a by (Z.div_mod_to_equations; lia);
  replace ((128 + b) mod 64) with b by (Z.div_mod_to_equations; lia);
  replace ((128 + d) mod 64) with d by (Z.div_mod_to_equations; lia);
  rewrite (Z.shiftl_mul_pow2 b 6) by lia; rewrite shiftl_lor by (cbn; lia);
  rewrite (lor_k _ 6) by (cbn; try Z.div_mod_to_equations; lia); reflexivity.
Qed.

Lemma DecodeRune_4 a b d e rest :
  0 <= a <= 4 -> 0 <= b < 64 -> 0 <= d < 64 -> 0 <= e < 64 -> (a = 0 -> 16 <= b) -> (a = 4 -> b < 16) ->
  utf8.DecodeRune ([240 + a; 128 + b; 128 + d; 128 + e] ++ rest)
    = (a * 262144 + b * 4096 + d * 64 + e, 4).
Proof.
  intros Ha Hb Hd He H0 H4. unfold utf8.DecodeRune, utf8.first, utf8.out_cb, utf8.locb, utf8.hicb.
  cbn [app length nth]. zif.
  all: unfold utf8.mask4, utf8.maskx; rewrite land_7, !land_63;
  replace ((240 + a) mod 8) with a by (Z.div_mod_to_equations; lia);
  replace ((128 + b) mod 64) with b by (Z.div_mod_to_equations; lia);
  replace ((128 + d) mod 64) with d by (Z.div_mod_to_equations; lia);
  replace ((128 + e) mod 64) with e by (Z.div_mod_to_equations; lia);
  rewrite (Z.shiftl_mul_pow2 b 12), (Z.shiftl_mul_pow2 d 6) by lia;
  rewrite shiftl_lor by (cbn; lia);
  rewrite (lor_k _ 12 (d * 2 ^ 6)) by (cbn; try Z.div_mod_to_equations; lia);
  rewrite (lor_k _ 6) by (cbn; try Z.div_mod_to_equations; lia); cbn; f_equal; lia.
Qed.

(** The UTF-8 round trip: decoding the encoding of a scalar value gives it
    back, with the width of the encoding. *)
Lemma DecodeRune_EncodeRune c rest :
  0 <= c <= utf8.MaxRune -> ~ (utf8.surrogateMin <= c <= utf8.surrogateMax) ->
  utf8.DecodeRune (utf8.EncodeRune c ++ rest) = (c, Z.of_nat (length (utf8.EncodeRune c))).
Proof.
  unfold utf8.MaxRune, utf8.surrogateMin, utf8.surrogateMax. intros Hc Hs.
  destruct (Z.le_gt_cases c 127).
  { rewrite EncodeRune_1 by lia. unfold utf8.DecodeRune, utf8.first. cbn [app length].
    destruct (Z.ltb_spec c 128); [reflexivity | lia]. }
  destruct (Z.le_gt_cases c 2047).
  { rewrite EncodeRune_2 by lia. rewrite DecodeRune_2 by (Z.div_mod_to_equations; lia).
    cbn [length]. f_equal. Z.div_mod_to_equations; lia. }
  destruct (Z.le_gt_cases c 65535).
  { rewrite EncodeRune_3 by lia. rewrite DecodeRune_3 by (Z.div_mod_to_equations; lia).
    cbn [length]. f_equal. Z.div_mod_to_equations; lia. }
  rewrite EncodeRune_4 by lia. rewrite DecodeRune_4 by (Z.div_mod_to_equations; lia).
  cbn [length]. f_equal. Z.div_mod_to_equations; lia.
Qed.

End Utf8Facts.

Module RuneFacts.
Import measure.

Lemma DecodeRune_width (p : list Z) :
  p <> [] -> 1 <= snd (utf8.DecodeRune p) <= 4.
Proof.
  intro Hp. destruct p as [|p0 rest]; [congruence|].
  unfold utf8.DecodeRune.
  destruct (utf8.first p0); simpl; try lia;
    repeat match goal with
           | |- context [if ?c then _ else _] => destruct c; simpl; try lia
           end.
Qed.

Lemma DecodeRune_nil : utf8.DecodeRune [] = (utf8.RuneError, 0).
Proof. reflexivity. Qed.

Lemma RuneCount_fuel_enough (f g : nat) (p : list Z) :
  (length p <= f)%nat -> (length p <= g)%nat -> RuneCount_fuel f p = RuneCount_fuel g p.
Proof.
  revert g p. induction f as [|f IH]; intros g p Hf Hg.
  - destruct p; [|simpl in Hf; lia]. destruct g; reflexivity.
  - destruct g as [|g].
    + destruct p; [reflexivity|simpl in Hg; lia].
    + destruct p as [|b q]; [reflexivity|]. cbn [RuneCount_fuel]. f_equal.
      assert (Hw := DecodeRune_width (b :: q) ltac:(discriminate)).
      destruct (Z.to_nat (snd (utf8.DecodeRune (b :: q)))) as [|w] eqn:Ew; [lia|]. simpl.
      apply IH; rewrite length_skipn; simpl in Hf, Hg; lia.
Qed.

Lemma RuneCount_cons (p : list Z) :
  p <> [] ->
  RuneCount p = Datatypes.S (RuneCount (skipn (Z.to_nat (snd (utf8.DecodeRune p))) p)).
Proof.
  intro Hp. unfold RuneCount at 1. destruct p as [|b q]; [congruence|].
  simpl length. unfold RuneCount_fuel; fold RuneCount_fuel.
  f_equal. unfold RuneCount. apply RuneCount_fuel_enough; [|lia].
  assert (Hw := DecodeRune_width (b :: q) ltac:(discriminate)).
  rewrite length_skipn. cbn [length]. lia.
Qed.

Lemma RuneCount_le_length (p : list Z) : (RuneCount p <= length p)%nat.
Proof.
  assert (H : forall n p, (length p <= n)%nat -> (RuneCount p <= length p)%nat).
  { induction n as [|n IH]; intros [|b q] Hn; try (unfold RuneCount; simpl; lia).
    - simpl in Hn; lia.
    - rewrite RuneCount_cons by discriminate.
      assert (Hw := DecodeRune_width (b :: q) ltac:(discriminate)).
      assert (Hlt : (length (skipn (Z.to_nat (snd (utf8.DecodeRune (b :: q)))) (b :: q))
                     <= n)%nat)
        by (rewrite length_skipn; cbn [length] in *; lia).
      specialize (IH _ Hlt). rewrite length_skipn in IH. cbn [length] in *. lia. }
  exact (H _ p (le_n _)).
Qed.

Lemma bytes_of_length (s : string) : length (bytes_of s) = String.length s.
Proof.
  unfold bytes_of. rewrite length_map.
  induction s as [|a s IH]; simpl; congruence.
Qed.

Lemma skipn_skipn_Z (a b : Z) (l : list Z) :
  0 <= a -> 0 <= b -> skipn (Z.to_nat (a + b)) l = skipn (Z.to_nat b) (skipn (Z.to_nat a) l).
Proof. intros Ha Hb. rewrite skipn_skipn. f_equal. lia. Qed.

Lemma RuneCount_skipn_width (q : list Z) :
  (RuneCount (skipn (Z.to_nat (snd (utf8.DecodeRune q))) q) <= RuneCount q)%nat.
Proof.
  destruct q as [|b r]; [reflexivity|].
  rewrite (RuneCount_cons (b :: r)) by discriminate. lia.
Qed.

Lemma string_scan_none (s s' : scanner.stringScanner) :
  string_wf s -> scanner.Scan s = (s', None) ->
  string_wf s' /\ (string_rem s' < string_rem s)%nat.
Proof.
  intros (H0 & H1 & H2) E.
  cbn [scanner.Scan scanner.stringScanner_Scanner] in E. unfold scanner.string_Scan in E.
  destruct (scanner.lastIndex s >=? len (scanner.source s)) eqn:E1; [discriminate|].
  set (q := skipn (Z.to_nat (scanner.lastIndex s + scanner.lastWidth s))
                  (bytes_of (scanner.source s))) in *.
  destruct (utf8.DecodeRune q) as [r w] eqn:D.
  destruct ((r =? utf8.RuneError) && (0 =? 0)) eqn:E2; [discriminate|].
  injection E as <-.
  assert (Hq : q <> []).
  { intro Hq. rewrite Hq in D. injection D as <- <-. discriminate E2. }
  assert (Hw := DecodeRune_width q Hq). rewrite D in Hw. simpl in Hw.
  unfold string_wf, string_rem. cbn [scanner.lastIndex scanner.lastWidth scanner.source scanner.last].
  split; [split; [lia | split; [lia|]]|].
  - intro Hlen. exfalso. apply Hq. unfold q. apply skipn_all2.
    rewrite bytes_of_length. unfold len in Hlen. lia.
  - rewrite skipn_skipn_Z by lia. fold q.
    rewrite (RuneCount_cons q Hq). rewrite D. simpl. lia.
Qed.

Lemma string_scan_some (s s' : scanner.stringScanner) (e : errors.error) :
  string_wf s -> scanner.Scan s = (s', Some e) ->
  string_wf s' /\ (string_rem s' <= string_rem s)%nat /\
  (scanner.Rune s' = 0 \/ scanner.Rune s' = utf8.RuneError).
Proof.
  intros (H0 & H1 & H2) E.
  cbn [scanner.Scan scanner.Rune scanner.stringScanner_Scanner] in E |- *.
  unfold scanner.string_Scan in E.
  destruct (scanner.lastIndex s >=? len (scanner.source s)) eqn:E1.
  { injection E as <- _. split; [split; auto|split; [lia|]]. apply H2. lia. }
  set (q := skipn (Z.to_nat (scanner.lastIndex s + scanner.lastWidth s))
                  (bytes_of (scanner.source s))) in *.
  destruct (utf8.DecodeRune q) as [r w] eqn:D.
  destruct ((r =? utf8.RuneError) && (0 =? 0)) eqn:E2; [|discriminate].
  injection E as <- _.
  apply andb_true_iff in E2. destruct E2 as [E2 _]. apply Z.eqb_eq in E2. subst r.
  assert (Hw : 0 <= w <= 4).
  { destruct q as [|b rest] eqn:Eq.
    - rewrite DecodeRune_nil in D. injection D as <-. lia.
    - assert (Hw := DecodeRune_width (b :: rest) ltac:(discriminate)).
      rewrite D in Hw. simpl in Hw. lia. }
  unfold string_wf, string_rem. cbn [scanner.lastIndex scanner.lastWidth scanner.source scanner.last].
  split; [split; [lia | split; [lia|]]|split].
  - intros _. right. reflexivity.
  - rewrite skipn_skipn_Z by lia. fold q.
    assert (Hk := RuneCount_skipn_width q). rewrite D in Hk. exact Hk.
  - right. reflexivity.
Qed.

Lemma string_start_tail (s : scanner.stringScanner) :
  string_wf s ->
  string_wf (scanner.StartTail s) /\ string_rem (scanner.StartTail s) = string_rem s /\
  scanner.Rune (scanner.StartTail s) = scanner.Rune s.
Proof. intro H. destruct s. exact (conj H (conj eq_refl eq_refl)). Qed.

Lemma string_end_tail (s : scanner.stringScanner) :
  string_wf s ->
  string_wf (fst (scanner.EndTail s)) /\ string_rem (fst (scanner.EndTail s)) = string_rem s /\
  scanner.Rune (fst (scanner.EndTail s)) = scanner.Rune s.
Proof. intro H. destruct s. exact (conj H (conj eq_refl eq_refl)). Qed.

Lemma ReadRune_width (b : bufio.Reader) c rest :
  bufio.unread b = c :: rest ->
  (if c <? utf8.RuneSelf then (c, 1) else utf8.DecodeRune (bufio.unread b))
  = (fst (if c <? utf8.RuneSelf then (c, 1) else utf8.DecodeRune (bufio.unread b)),
     snd (utf8.DecodeRune (bufio.unread b))).
Proof.
  intro E. destruct (c <? utf8.RuneSelf) eqn:Ec.
  - rewrite E. unfold utf8.DecodeRune, utf8.first, utf8.RuneSelf in *.
    rewrite Ec. reflexivity.
  - destruct (utf8.DecodeRune (bufio.unread b)); reflexivity.
Qed.

Lemma buffered_scan_none (s s' : scanner.bufferedScanner) :
  buffered_wf s -> scanner.Scan s = (s', None) ->
  buffered_wf s' /\ (buffered_rem s' < buffered_rem s)%nat.
Proof.
  intros _ E. split; [exact I|].
  cbn [scanner.Scan scanner.bufferedScanner_Scanner] in E. unfold scanner.buffered_Scan in E.
  unfold bufio.ReadRune in E. unfold buffered_rem.
  destruct (bufio.unread (scanner.bsource s)) as [|c rest] eqn:Eu; [discriminate|].
  rewrite <- Eu in E. rewrite (ReadRune_width _ c rest Eu) in E.
  injection E as <-. cbn [scanner.bsource bufio.unread].
  rewrite Eu. rewrite (RuneCount_cons (c :: rest)) by discriminate. lia.
Qed.

Lemma buffered_scan_some (s s' : scanner.bufferedScanner) (e : errors.error) :
  buffered_wf s -> scanner.Scan s = (s', Some e) ->
  buffered_wf s' /\ (buffered_rem s' <= buffered_rem s)%nat /\
  (scanner.Rune s' = 0 \/ scanner.Rune s' = utf8.RuneError).
Proof.
  intros _ E. split; [exact I|].
  cbn [scanner.Scan scanner.Rune scanner.bufferedScanner_Scanner] in E |- *.
  unfold scanner.buffered_Scan in E. unfold bufio.ReadRune in E. unfold buffered_rem.
  destruct (bufio.unread (scanner.bsource s)) as [|c rest] eqn:Eu.
  - injection E as <- _. cbn [scanner.bsource scanner.blast]. rewrite Eu. split; [lia|left; reflexivity].
  - destruct (if c <? utf8.RuneSelf then (c, 1) else utf8.DecodeRune (c :: rest)); discriminate.
Qed.

Lemma buffered_start_tail (s : scanner.bufferedScanner) :
  buffered_wf s ->
  buffered_wf (scanner.StartTail s) /\ buffered_rem (scanner.StartTail s) = buffered_rem s /\
  scanner.Rune (scanner.StartTail s) = scanner.Rune s.
Proof. intro H. destruct s. exact (conj I (conj eq_refl eq_refl)). Qed.

Lemma buffered_end_tail (s : scanner.bufferedScanner) :
  buffered_wf s ->
  buffered_wf (fst (scanner.EndTail s)) /\
  buffered_rem (fst (scanner.EndTail s)) = buffered_rem s /\
  scanner.Rune (fst (scanner.EndTail s)) = scanner.Rune s.
Proof. intro H. destruct s. exact (conj I (conj eq_refl eq_refl)). Qed.

End RuneFacts.

Module LexFacts.
Import measure.
Section L.
Context {S : Type} `{scanner.Scanner S}.
Variable rem : S -> nat.
Variable wf : S -> Prop.
Hypothesis scan_none : forall s s', wf s -> scanner.Scan s = (s', None) ->
  wf s' /\ (rem s' < rem s)%nat.
Hypothesis scan_some : forall s s' e, wf s -> scanner.Scan s = (s', Some e) ->
  wf s' /\ (rem s' <= rem s)%nat /\
  (scanner.Rune s' = 0 \/ scanner.Rune s' = utf8.RuneError).
Hypothesis start_tail : forall s, wf s ->
  wf (scanner.StartTail s) /\ rem (scanner.StartTail s) = rem s /\
  scanner.Rune (scanner.StartTail s) = scanner.Rune s.
Hypothesis end_tail : forall s, wf s ->
  wf (fst (scanner.EndTail s)) /\ rem (fst (scanner.EndTail s)) = rem s /\
  scanner.Rune (fst (scanner.EndTail s)) = scanner.Rune s.
Variable N : Z.

Local Abbreviation lexer := (@lexer.lexer S).
Local Abbreviation mu := (measure.mu rem).
Local Abbreviation LI := (measure.LI rem wf N).
Local Abbreviation Step := (measure.Step rem wf N).

Lemma mu_pos (l : lexer) : lexer.eof l = false -> (1 <= mu l)%nat.
Proof. unfold measure.mu. intros ->. lia. Qed.

Lemma LI_not_eof (l : lexer) :
  LI l -> scanner.Rune (lexer.scanner l) <> 0 ->
  scanner.Rune (lexer.scanner l) <> utf8.RuneError -> lexer.eof l = false.
Proof.
  intros (_ & He & _) H1 H2. destruct (lexer.eof l); [|reflexivity].
  destruct (He eq_refl); congruence.
Qed.

Lemma advance_l_spec (l l' : lexer) (b : bool) :
  LI l -> lexer.eof l = false -> lexer.advance_l l = (l', b) ->
  LI l' /\ (mu l' <= mu l)%nat /\
  (b = true -> (mu l' < mu l)%nat /\ lexer.lastIndex l' = lexer.lastIndex l + 1) /\
  (b = false -> lexer.lastIndex l' = lexer.lastIndex l /\ lexer.err l' <> None).
Proof.
  intros (Hwf & Her & H0 & Hb) Heof E. unfold lexer.advance_l in E.
  unfold measure.LI, measure.mu in *. rewrite Heof in *.
  destruct (scanner.Scan (lexer.scanner l)) as [s' [e|]] eqn:Es.
  - destruct (scan_some _ _ _ Hwf Es) as (Hwf' & Hr & Hrune).
    destruct e; injection E as <- <-; cbn [lexer.scanner lexer.eof lexer.lastIndex lexer.err];
      rewrite ?Heof;
      (split; [split; [exact Hwf' | split; [intros; exact Hrune | lia]] |]);
      (split; [lia|]); split; intro Hb'; try discriminate; split; try lia; discriminate.
  - destruct (scan_none _ _ Hwf Es) as (Hwf' & Hr).
    injection E as <- <-; cbn [lexer.scanner lexer.eof lexer.lastIndex lexer.err]; rewrite ?Heof.
    split; [split; [exact Hwf' | split; [intro; discriminate | lia]] |].
    split; [lia|]. split; intro; [split; lia | discriminate].
Qed.

Lemma LI_start_tail (l : lexer) :
  LI l -> LI (lexer.set_scanner l (scanner.StartTail (lexer.scanner l))) /\
  mu (lexer.set_scanner l (scanner.StartTail (lexer.scanner l))) = mu l.
Proof.
  intros (Hwf & Her & H0 & Hb). destruct (start_tail _ Hwf) as (W & R & U).
  unfold measure.LI, measure.mu, lexer.set_scanner in *; cbn [lexer.scanner lexer.eof lexer.lastIndex].
  rewrite R, U. split; [split; [exact W | split; [exact Her | lia]] | reflexivity].
Qed.

Lemma LI_end_tail (l : lexer) :
  LI l -> LI (lexer.set_scanner l (fst (scanner.EndTail (lexer.scanner l)))) /\
  mu (lexer.set_scanner l (fst (scanner.EndTail (lexer.scanner l)))) = mu l.
Proof.
  intros (Hwf & Her & H0 & Hb). destruct (end_tail _ Hwf) as (W & R & U).
  unfold measure.LI, measure.mu, lexer.set_scanner in *; cbn [lexer.scanner lexer.eof lexer.lastIndex].
  rewrite R, U. split; [split; [exact W | split; [exact Her | lia]] | reflexivity].
Qed.


Lemma Step_refl (l : lexer) : LI l -> Step l l.
Proof. intro H0. split; [exact H0 | split; lia]. Qed.

Lemma Step_trans (l1 l2 l3 : lexer) : Step l1 l2 -> Step l2 l3 -> Step l1 l3.
Proof. intros (A & B & C) (D & E & F). split; [exact D | split; lia]. Qed.

Lemma advance_Step (l l' : lexer) (b : bool) :
  LI l -> lexer.eof l = false -> lexer.advance_l l = (l', b) -> Step l l'.
Proof.
  intros H0 H1 E. destruct (advance_l_spec _ _ _ H0 H1 E) as (A & B & C & D).
  split; [exact A | split; [exact B|]].
  destruct b; [destruct (C eq_refl); lia | destruct (D eq_refl); lia].
Qed.

Lemma ATN_CL_spec (fuel : nat) :
  (forall (l l' : lexer) ok, LI l -> lexer.advanceToNextToken_loop fuel l = Some (l', ok) ->
     Step l l' /\ (ok = false -> lexer.err l' <> None) /\ (lexer.eof l = true -> l' = l)) /\
  (forall (l l' : lexer) ok, LI l -> lexer.eof l = false ->
     lexer.comment_loop fuel l = Some (l', ok) ->
     Step l l' /\ (ok = false -> lexer.err l' <> None)).
Proof.
  induction fuel as [|f [IHa IHc]]; [split; intros; discriminate|].
  split.
  - intros l l' ok HL E. cbn [lexer.advanceToNextToken_loop] in E.
    destruct (lexer.eof l) eqn:Heof.
    { injection E as <- <-. split; [apply Step_refl; exact HL| split; [discriminate | reflexivity]]. }
    destruct (lexer.isWhitespace _).
    + destruct (lexer.advance_l l) as [l1 b] eqn:Ea.
      destruct (advance_l_spec _ _ _ HL Heof Ea) as (A & B & C & D).
      destruct b.
      * destruct (IHa _ _ _ A E) as (X & Y & _). split; [|split; [exact Y | discriminate]].
        refine (Step_trans _ _ _ _ X). destruct (C eq_refl). split; [exact A | split; lia].
      * injection E as <- <-. destruct (D eq_refl).
        split; [split; [exact A | split; lia] | split; [auto | discriminate]].
    + destruct (_ =? 35).
      * destruct (IHc _ _ _ HL Heof E) as (X & Y). split; [exact X | split; [exact Y | discriminate]].
      * injection E as <- <-. split; [apply Step_refl; exact HL| split; discriminate].
  - intros l l' ok HL Heof E. cbn [lexer.comment_loop] in E.
    destruct (lexer.advance_l l) as [l1 b] eqn:Ea.
    destruct (advance_l_spec _ _ _ HL Heof Ea) as (A & B & C & D).
    assert (St : Step l l1) by exact (advance_Step _ _ _ HL Heof Ea).
    destruct b.
    + destruct (lexer.eof l1) eqn:Heof1.
      { injection E as <- <-. split; [exact St | discriminate]. }
      destruct (_ || _).
      * destruct (IHc _ _ _ A Heof1 E) as (X & Y). split; [exact (Step_trans _ _ _ St X) | exact Y].
      * destruct (IHa _ _ _ A E) as (X & Y & _). split; [exact (Step_trans _ _ _ St X) | exact Y].
    + injection E as <- <-. split; [exact St | intros _; apply D; reflexivity].
Qed.

Lemma ATN_CL_term (fuel : nat) :
  (forall (l : lexer), LI l -> (2 * mu l < fuel)%nat ->
     lexer.advanceToNextToken_loop fuel l <> None) /\
  (forall (l : lexer), LI l -> lexer.eof l = false -> (2 * mu l <= fuel)%nat ->
     lexer.comment_loop fuel l <> None).
Proof.
  induction fuel as [|f [IHa IHc]].
  { split; [intros; lia | intros l _ He Hf; assert (Hm := mu_pos l He); lia]. }
  split.
  - intros l HL Hf. cbn [lexer.advanceToNextToken_loop].
    destruct (lexer.eof l) eqn:Heof; [discriminate|].
    destruct (lexer.isWhitespace _).
    + destruct (lexer.advance_l l) as [l1 b] eqn:Ea.
      destruct (advance_l_spec _ _ _ HL Heof Ea) as (A & B & C & D).
      destruct b; [|discriminate].
      destruct (C eq_refl). apply IHa; [exact A | lia].
    + destruct (_ =? 35); [apply IHc; [exact HL | exact Heof | lia] | discriminate].
  - intros l HL Heof Hf. cbn [lexer.comment_loop].
    destruct (lexer.advance_l l) as [l1 b] eqn:Ea.
    destruct (advance_l_spec _ _ _ HL Heof Ea) as (A & B & C & D).
    destruct b; [|discriminate].
    destruct (C eq_refl).
    destruct (lexer.eof l1) eqn:Heof1; [discriminate|].
    destruct (_ || _); [apply IHc; [exact A | exact Heof1 | lia] | apply IHa; [exact A | lia]].
Qed.

Lemma LI_end_tail' (l : lexer) s' v :
  LI l -> scanner.EndTail (lexer.scanner l) = (s', v) ->
  LI (lexer.set_scanner l s') /\ mu (lexer.set_scanner l s') = mu l.
Proof. intros HL E. assert (X := LI_end_tail l HL). rewrite E in X. exact X. Qed.

Lemma ADL_spec (fuel : nat) (l l' : lexer) ok :
  LI l -> lexer.eof l = false -> lexer.advanceDigits_loop fuel l = Some (l', ok) ->
  Step l l' /\ (ok = true -> (mu l' < mu l)%nat /\ lexer.lastIndex l < lexer.lastIndex l') /\
  (ok = false -> lexer.err l' <> None).
Proof.
  revert l. induction fuel as [|f IH]; intros l HL Heof E; [discriminate|].
  cbn [lexer.advanceDigits_loop] in E.
  destruct (lexer.advance_l l) as [l1 b] eqn:Ea.
  destruct (advance_l_spec _ _ _ HL Heof Ea) as (A & B & C & D).
  assert (St : Step l l1) by exact (advance_Step _ _ _ HL Heof Ea).
  destruct b.
  - destruct (C eq_refl) as [C1 C2].
    destruct (lexer.eof l1 || _) eqn:Eb.
    + injection E as <- <-. split; [exact St | split; [intros _; split; lia | discriminate]].
    + apply orb_false_iff in Eb. destruct Eb as [Heof1 _].
      destruct (IH _ A Heof1 E) as (X & Y & Z).
      split; [exact (Step_trans _ _ _ St X)|]. split; [|exact Z].
      intro Hok. destruct (Y Hok). destruct X as (_ & ? & ?). split; lia.
  - injection E as <- <-. split; [exact St | split; [discriminate | intros _; apply D; reflexivity]].
Qed.

Lemma ADL_term (fuel : nat) (l : lexer) :
  LI l -> lexer.eof l = false -> (mu l <= fuel)%nat -> lexer.advanceDigits_loop fuel l <> None.
Proof.
  revert l. induction fuel as [|f IH]; intros l HL Heof Hf.
  { assert (Hm := mu_pos l Heof). lia. }
  cbn [lexer.advanceDigits_loop].
  destruct (lexer.advance_l l) as [l1 b] eqn:Ea.
  destruct (advance_l_spec _ _ _ HL Heof Ea) as (A & B & C & D).
  destruct b; [|discriminate]. destruct (C eq_refl) as [C1 C2].
  destruct (lexer.eof l1 || _) eqn:Eb; [discriminate|].
  apply orb_false_iff in Eb. destruct Eb as [Heof1 _].
  apply IH; [exact A | exact Heof1 | lia].
Qed.

Lemma isNameChar_not_eof (l : lexer) :
  LI l -> lexer.isNameChar (scanner.Rune (lexer.scanner l)) = true -> lexer.eof l = false.
Proof.
  intros HL E. apply LI_not_eof; [exact HL | |]; intro R; rewrite R in E; discriminate.
Qed.

Ltac lx_unfold H :=
  unfold lexer.syntaxErrorHere, lexer.adv, lexer.advDigits, lexer.advanceDigits, lexer.advance,
    lexer.rune, lexer.get_l, lexer.get_t, lexer.upd_t, lexer.return_, lexer.ret, lexer.bind,
    lexer.endTail, lexer.startTail in H.

Ltac lx_unfold_g :=
  unfold lexer.syntaxErrorHere, lexer.adv, lexer.advDigits, lexer.advanceDigits, lexer.advance,
    lexer.rune, lexer.get_l, lexer.get_t, lexer.upd_t, lexer.return_, lexer.ret, lexer.bind,
    lexer.endTail, lexer.startTail.

Lemma RNL_spec (fuel : nat) (l l' : lexer) t t' r :
  LI l -> lexer.eof l = false -> lexer.readName_loop fuel l t = Some (l', t', r) ->
  Step l l' /\ token.kind t' = token.kind t /\ token.Start t' = token.Start t /\
  (r = inr None -> (mu l' < mu l)%nat /\ lexer.lastIndex l < lexer.lastIndex l' /\
                   token.End t' = lexer.lastIndex l' - 1).
Proof.
  revert l t. induction fuel as [|f IH]; intros l t HL Heof E; [discriminate|].
  cbn [lexer.readName_loop] in E. lx_unfold E.
  destruct (lexer.advance_l l) as [l1 b] eqn:Ea.
  destruct (advance_l_spec _ _ _ HL Heof Ea) as (A & B & C & D).
  assert (St : Step l l1) by exact (advance_Step _ _ _ HL Heof Ea).
  destruct b.
  - destruct (C eq_refl) as [C1 C2].
    destruct (lexer.isNameChar _) eqn:En.
    + assert (Heof1 := isNameChar_not_eof _ A En).
      destruct (IH _ _ A Heof1 E) as (X & Y1 & Y2 & Y3).
      split; [exact (Step_trans _ _ _ St X)|]. split; [exact Y1|]. split; [exact Y2|].
      intro Hr. destruct (Y3 Hr) as (Z1 & Z2 & Z3). split; [lia | split; [lia | exact Z3]].
    + destruct (scanner.EndTail (lexer.scanner l1)) as [s2 v] eqn:Et.
      destruct (LI_end_tail' _ _ _ A Et) as [A2 M2].
      injection E as <- <- <-.
      split; [split; [exact A2 | split; [rewrite M2; lia | simpl; lia]]|].
      simpl. split; [reflexivity | split; [reflexivity|]].
      intros _. rewrite M2. split; [lia | split; [lia | reflexivity]].
  - injection E as <- <- <-. split; [exact St|]. split; [reflexivity | split; [reflexivity|]].
    intro Hr. exfalso. apply D; [reflexivity|]. injection Hr. auto.
Qed.

Lemma RNL_term (fuel : nat) (l : lexer) t :
  LI l -> lexer.eof l = false -> (mu l <= fuel)%nat -> lexer.readName_loop fuel l t <> None.
Proof.
  revert l t. induction fuel as [|f IH]; intros l t HL Heof Hf.
  { assert (Hm := mu_pos l Heof). lia. }
  cbn [lexer.readName_loop]. lx_unfold_g.
  destruct (lexer.advance_l l) as [l1 b] eqn:Ea.
  destruct (advance_l_spec _ _ _ HL Heof Ea) as (A & B & C & D).
  destruct b; [|discriminate]. destruct (C eq_refl) as [C1 C2].
  destruct (lexer.isNameChar _) eqn:En.
  - apply IH; [exact A | exact (isNameChar_not_eof _ A En) | lia].
  - destruct (scanner.EndTail (lexer.scanner l1)). discriminate.
Qed.

Lemma readURunes_spec (k : nat) (l l' : lexer) t t' r :
  LI l -> lexer.eof l = false -> lexer.readURunes k l t = Some (l', t', r) ->
  Step l l' /\ t' = t /\
  (forall rs, r = inl rs -> lexer.eof l' = false /\ ((0 < k)%nat -> (mu l' < mu l)%nat)) /\
  r <> inr None.
Proof.
  revert l t l' t' r. induction k as [|k IH]; intros l t l' t' r HL Heof E.
  { cbn in E. injection E as <- <- <-. split; [apply Step_refl; exact HL|].
    split; [reflexivity|]. split; [|discriminate]. intros rs _. split; [exact Heof | lia]. }
  cbn [lexer.readURunes] in E. lx_unfold E.
  destruct (lexer.advance_l l) as [l1 b] eqn:Ea.
  destruct (advance_l_spec _ _ _ HL Heof Ea) as (A & B & C & D).
  assert (St : Step l l1) by exact (advance_Step _ _ _ HL Heof Ea).
  destruct b.
  - destruct (C eq_refl) as [C1 C2]. cbn beta iota in E.
    destruct (lexer.eof l1) eqn:Heof1.
    + injection E as <- <- <-. split; [exact St | split; [reflexivity | split; [intros; discriminate | discriminate]]].
    + destruct (lexer.readURunes k l1 t) as [[[l2 t2] [rs|e]]|] eqn:Er; [| |discriminate].
      * destruct (IH _ _ _ _ _ A Heof1 Er) as (X & Y & Z & _). injection E as <- <- <-.
        split; [exact (Step_trans _ _ _ St X)|]. split; [exact Y|]. split; [|discriminate].
        intros rs' _. destruct (Z rs eq_refl) as [Z1 Z2]. split; [exact Z1|].
        intros _. destruct X as (_ & X2 & _). lia.
      * destruct (IH _ _ _ _ _ A Heof1 Er) as (X & Y & Z & W). injection E as <- <- <-.
        split; [exact (Step_trans _ _ _ St X)|]. split; [exact Y | split; [intros; discriminate | exact W]].
  - cbn beta iota in E. injection E as <- <- <-.
    split; [exact St | split; [reflexivity | split; [intros; discriminate|]]].
    intro Hr. injection Hr. exact (proj2 (D eq_refl)).
Qed.

Lemma readURunes_some (k : nat) (l : lexer) t : lexer.readURunes k l t <> None.
Proof.
  revert l t. induction k as [|k IH]; intros l t; [discriminate|].
  cbn [lexer.readURunes]. lx_unfold_g.
  destruct (lexer.advance_l l) as [l1 [|]]; cbn beta iota; [|discriminate].
  destruct (lexer.eof l1); [discriminate|].
  destruct (lexer.readURunes k l1 t) as [[[l2 t2] [rs|e]]|] eqn:Er; try discriminate.
  exfalso; exact (IH l1 t Er).
Qed.

Lemma escape_not_eof (l : lexer) c :
  LI l -> lexer.escape (scanner.Rune (lexer.scanner l)) = Some c -> lexer.eof l = false.
Proof.
  intros HL E. apply LI_not_eof; [exact HL | |]; intro R; rewrite R in E; discriminate.
Qed.

Lemma rune_not_eof (l : lexer) c :
  LI l -> (scanner.Rune (lexer.scanner l) =? c) = true -> c <> 0 -> c <> utf8.RuneError ->
  lexer.eof l = false.
Proof.
  intros HL E H1 H2. apply Z.eqb_eq in E. apply LI_not_eof; [exact HL | |]; rewrite E; assumption.
Qed.

Ltac fin_err St E :=
  injection E as <- <- <-; split; [exact St|]; split; [reflexivity|]; split; [reflexivity|];
  let Hr := fresh in intro Hr; discriminate.

Ltac rec_case IH St A E :=
  let X := fresh in let Y1 := fresh in let Y2 := fresh in let Y3 := fresh in
  let Hr := fresh in
  destruct (IH _ _ _ A ltac:(assumption) E) as (X & Y1 & Y2 & Y3);
  split; [exact (Step_trans _ _ _ St X)|]; split; [exact Y1|]; split; [exact Y2|];
  intro Hr; destruct (Y3 Hr) as (? & ? & ?); destruct X as (_ & ? & ?);
  let S1 := fresh in pose proof St as S1; destruct S1 as (_ & ? & ?);
  split; [lia | split; lia].

Lemma RSL_spec (fuel : nat) value (l l' : lexer) t t' r :
  LI l -> lexer.eof l = false -> lexer.readString_loop fuel value l t = Some (l', t', r) ->
  Step l l' /\ token.kind t' = token.kind t /\ token.Start t' = token.Start t /\
  (r = inr None -> (mu l' < mu l)%nat /\ lexer.lastIndex l < token.End t' /\
                   token.End t' = lexer.lastIndex l' - 1).
Proof.
  revert value l t. induction fuel as [|f IH]; intros value l t HL Heof E; [discriminate|].
  cbn [lexer.readString_loop] in E. lx_unfold E.
  destruct (lexer.advance_l l) as [l1 b] eqn:Ea.
  destruct (advance_l_spec _ _ _ HL Heof Ea) as (A & B & C & D).
  assert (St : Step l l1) by exact (advance_Step _ _ _ HL Heof Ea).
  destruct b; cbn beta iota delta [negb] in E.
  2:{ injection E as <- <- <-. split; [exact St|]. split; [reflexivity|]. split; [reflexivity|].
      intro Hr. exfalso. apply D; [reflexivity|]. injection Hr. auto. }
  destruct (C eq_refl) as [C1 C2].
  destruct (lexer.eof l1 || _ || _) eqn:Eu; [fin_err St E|].
  assert (Heof1 : lexer.eof l1 = false) by (apply orb_false_iff in Eu as [Eu _];
                                            apply orb_false_iff in Eu as [Eu _]; exact Eu).
  destruct (_ =? 34) eqn:Eq.
  { destruct (lexer.advance_l l1) as [l2 b2] eqn:Ea2.
    destruct (advance_l_spec _ _ _ A Heof1 Ea2) as (A2 & B2 & C2' & D2).
    assert (St2 : Step l1 l2) by exact (advance_Step _ _ _ A Heof1 Ea2).
    destruct b2; cbn beta iota in E.
    - destruct (C2' eq_refl) as [C3 C4]. injection E as <- <- <-.
      split; [exact (Step_trans _ _ _ St St2)|]. cbn [token.kind token.Start token.End token.set_Value token.set_End].
      split; [reflexivity|]. split; [reflexivity|]. intros _. split; [lia | split; lia].
    - injection E as <- <- <-. split; [exact (Step_trans _ _ _ St St2)|].
      split; [reflexivity|]. split; [reflexivity|].
      intro Hr. exfalso. apply D2; [reflexivity|]. injection Hr. auto. }
  destruct (_ && _); [fin_err St E|].
  destruct (negb _); [rec_case IH St A E|].
  destruct (lexer.advance_l l1) as [l2 b2] eqn:Ea2.
  destruct (advance_l_spec _ _ _ A Heof1 Ea2) as (A2 & B2 & C2' & D2).
  assert (St2 : Step l1 l2) by exact (advance_Step _ _ _ A Heof1 Ea2).
  assert (St12 := Step_trans _ _ _ St St2).
  destruct b2; cbn beta iota delta [negb] in E.
  2:{ injection E as <- <- <-. split; [exact St12|]. split; [reflexivity|]. split; [reflexivity|].
      intro Hr. exfalso. apply D2; [reflexivity|]. injection Hr. auto. }
  destruct (C2' eq_refl) as [C3 C4].
  destruct (lexer.escape _) eqn:Ees.
  { assert (Heof2 := escape_not_eof _ _ A2 Ees). rec_case IH St12 A2 E. }
  destruct (_ =? 117) eqn:Eu2; [|fin_err St12 E].
  assert (Heof2 : lexer.eof l2 = false) by (apply (rune_not_eof _ _ A2 Eu2); discriminate).
  destruct (lexer.readURunes 4 l2 t) as [[[l3 t3] [rs|e]]|] eqn:Er; [| |discriminate].
  - destruct (readURunes_spec _ _ _ _ _ _ A2 Heof2 Er) as (X & -> & Z & _).
    destruct (Z _ eq_refl) as [Heof3 Hm3].
    assert (St3 := Step_trans _ _ _ St12 X).
    destruct (hex.DecodeString _) as [bs [e|]]; [fin_err St3 E|].
    destruct (_ <? 0); [fin_err St3 E|].
    destruct X as (A3 & _).
    rec_case IH St3 A3 E.
  - destruct (readURunes_spec _ _ _ _ _ _ A2 Heof2 Er) as (X & -> & _ & W).
    assert (St3 := Step_trans _ _ _ St12 X).
    injection E as <- <- <-. split; [exact St3|]. split; [reflexivity|]. split; [reflexivity|].
    intro Hr. exfalso. injection Hr as ->. exact (W eq_refl).
Qed.

Lemma RSL_term (fuel : nat) value (l : lexer) t :
  LI l -> lexer.eof l = false -> (mu l <= fuel)%nat ->
  lexer.readString_loop fuel value l t <> None.
Proof.
  revert value l t. induction fuel as [|f IH]; intros value l t HL Heof Hf.
  { assert (Hm := mu_pos l Heof). lia. }
  cbn [lexer.readString_loop]. lx_unfold_g.
  destruct (lexer.advance_l l) as [l1 b] eqn:Ea.
  destruct (advance_l_spec _ _ _ HL Heof Ea) as (A & B & C & D).
  destruct b; cbn beta iota delta [negb]; [|discriminate].
  destruct (C eq_refl) as [C1 C2].
  destruct (lexer.eof l1 || _ || _) eqn:Eu; [discriminate|].
  assert (Heof1 : lexer.eof l1 = false) by (apply orb_false_iff in Eu as [Eu _];
                                            apply orb_false_iff in Eu as [Eu _]; exact Eu).
  destruct (_ =? 34) eqn:Eq.
  { destruct (lexer.advance_l l1) as [l2 [|]]; discriminate. }
  destruct (_ && _); [discriminate|].
  destruct (negb _); [apply IH; [exact A | exact Heof1 | lia]|].
  destruct (lexer.advance_l l1) as [l2 b2] eqn:Ea2.
  destruct (advance_l_spec _ _ _ A Heof1 Ea2) as (A2 & B2 & C2' & D2).
  destruct b2; cbn beta iota delta [negb]; [|discriminate].
  destruct (C2' eq_refl) as [C3 C4].
  destruct (lexer.escape _) eqn:Ees.
  { apply IH; [exact A2 | exact (escape_not_eof _ _ A2 Ees) | lia]. }
  destruct (_ =? 117) eqn:Eu2; [|discriminate].
  assert (Heof2 : lexer.eof l2 = false) by (apply (rune_not_eof _ _ A2 Eu2); discriminate).
  destruct (lexer.readURunes 4 l2 t) as [[[l3 t3] [rs|e]]|] eqn:Er;
    [| discriminate | exfalso; exact (readURunes_some _ _ _ Er)].
  destruct (readURunes_spec _ _ _ _ _ _ A2 Heof2 Er) as (X & -> & Z & _).
  destruct (Z _ eq_refl) as [Heof3 Hm3].
  destruct (hex.DecodeString _) as [bs [e|]]; [discriminate|].
  destruct (_ <? 0); [discriminate|].
  destruct X as (A3 & _). apply IH; [exact A3 | exact Heof3 | specialize (Hm3 ltac:(lia)); lia].
Qed.

Lemma bind_some {A B} (m : lexer.LX A) (k : A -> lexer.LX B) (l l' : lexer) t t' r :
  lexer.bind m k l t = Some (l', t', r) ->
  exists l1 t1 x, m l t = Some (l1, t1, x) /\
    match x with
    | inl a => k a l1 t1 = Some (l', t', r)
    | inr e => l' = l1 /\ t' = t1 /\ r = inr e
    end.
Proof.
  unfold lexer.bind. destruct (m l t) as [[[l1 t1] [a|e]]|]; intro E; [| |discriminate].
  - exists l1, t1, (inl a). split; [reflexivity | exact E].
  - exists l1, t1, (inr e). split; [reflexivity|]. injection E; auto.
Qed.

Lemma RNL_not_inl (fuel : nat) (l l' : lexer) t t' u :
  lexer.readName_loop fuel l t <> Some (l', t', inl u).
Proof.
  revert l t. induction fuel as [|f IH]; intros l t; [discriminate|].
  cbn [lexer.readName_loop]. lx_unfold_g.
  destruct (lexer.advance_l l) as [l1 [|]]; [|discriminate].
  destruct (lexer.isNameChar _); [apply IH|].
  destruct (scanner.EndTail _); discriminate.
Qed.

Lemma RSL_not_inl (fuel : nat) value (l l' : lexer) t t' u :
  lexer.readString_loop fuel value l t <> Some (l', t', inl u).
Proof.
  revert value l t. induction fuel as [|f IH]; intros value l t; [discriminate|].
  cbn [lexer.readString_loop]. lx_unfold_g.
  destruct (lexer.advance_l l) as [l1 [|]]; cbn beta iota delta [negb]; [|discriminate].
  destruct (_ || _ || _); [discriminate|].
  destruct (_ =? 34). { destruct (lexer.advance_l l1) as [l2 [|]]; discriminate. }
  destruct (_ && _); [discriminate|].
  destruct (negb _); [apply IH|].
  destruct (lexer.advance_l l1) as [l2 [|]]; cbn beta iota delta [negb]; [|discriminate].
  destruct (lexer.escape _); [apply IH|].
  destruct (_ =? 117); [|discriminate].
  destruct (lexer.readURunes 4 l2 t) as [[[l3 t3] [rs|e]]|]; try discriminate.
  destruct (hex.DecodeString _) as [bs [e|]]; [discriminate|].
  destruct (_ <? 0); [discriminate | apply IH].
Qed.

Lemma adv_spec (l l' : lexer) t t' x :
  LI l -> lexer.eof l = false -> lexer.adv l t = Some (l', t', x) ->
  t' = t /\ Step l l' /\
  (x = inl tt -> (mu l' < mu l)%nat /\ lexer.lastIndex l' = lexer.lastIndex l + 1) /\
  x <> inr None.
Proof.
  intros HL Heof E. lx_unfold E.
  destruct (lexer.advance_l l) as [l1 b] eqn:Ea.
  destruct (advance_l_spec _ _ _ HL Heof Ea) as (A & B & C & D).
  assert (St : Step l l1) by exact (advance_Step _ _ _ HL Heof Ea).
  destruct b; cbn beta iota in E; injection E as <- <- <-.
  - split; [reflexivity | split; [exact St | split; [intros _; exact (C eq_refl) | discriminate]]].
  - split; [reflexivity | split; [exact St | split; [discriminate|]]].
    intro X. injection X. exact (proj2 (D eq_refl)).
Qed.

Lemma advDigits_spec (fuel : nat) (l l' : lexer) t t' x :
  LI l -> lexer.eof l = false -> lexer.advDigits fuel l t = Some (l', t', x) ->
  t' = t /\ Step l l' /\
  (x = inl tt -> (mu l' < mu l)%nat /\ lexer.lastIndex l < lexer.lastIndex l') /\
  x <> inr None.
Proof.
  intros HL Heof E. lx_unfold E.
  destruct (lexer.advanceDigits_loop fuel l) as [[l1 b]|] eqn:Ea; [|discriminate].
  destruct (ADL_spec _ _ _ _ HL Heof Ea) as (St & C & D).
  destruct b; cbn beta iota in E; injection E as <- <- <-.
  - split; [reflexivity | split; [exact St | split; [intros _; exact (C eq_refl) | discriminate]]].
  - split; [reflexivity | split; [exact St | split; [discriminate|]]].
    intro X. injection X. exact (D eq_refl).
Qed.

Lemma syntaxErrorHere_eq {A} msg (l l' : lexer) t t' (x : A + option errors.error) :
  lexer.syntaxErrorHere msg l t = Some (l', t', x) ->
  l' = l /\ t' = t /\ x = inr (Some (errors.SyntaxError (lexer.lastIndex l) msg)).
Proof. intro E. lx_unfold E. injection E as <- <- <-. auto. Qed.

Ltac bs E E1 :=
  apply bind_some in E; destruct E as (?l & ?t & ?x & E1 & E).

(** A step by one of the combinators that cannot fail. *)
Ltac sstep E :=
  let E1 := fresh "E" in
  bs E E1;
  unfold lexer.startTail, lexer.upd_t, lexer.rune, lexer.get_l, lexer.get_t, lexer.ret in E1;
  injection E1 as <- <- <-; cbn beta iota in E.

Ltac dif E Ee :=
  match type of E with context[if ?c then _ else _] => destruct c eqn:Ee end.

Ltac err_exit St E :=
  destruct E as (-> & -> & ->);
  split; [exact St|]; split; [congruence|];
  split; [let u := fresh in let Hu := fresh in intros u Hu; discriminate
         | let Hr := fresh in intro Hr; discriminate].

Lemma readNumber_spec (fuel : nat) (l l' : lexer) t t' r :
  LI l -> lexer.eof l = false -> lexer.readNumber fuel l t = Some (l', t', r) ->
  Step l l' /\ token.Start t' = token.Start t /\ (forall u, r <> inl u) /\
  (r = inr None -> (mu l' < mu l)%nat /\ token.kind t' <> token.EOF /\
    ((lexer.lastIndex l <= token.End t' /\ token.End t' = lexer.lastIndex l' - 1) \/
     (token.kind t' = token.Float /\ lexer.eof l' = true /\ token.End t' = token.End t))).
Proof.
  intros HL Heof E. unfold lexer.readNumber in E.
  sstep E. sstep E. sstep E.
  destruct (LI_start_tail l HL) as [HL0 M0].
  set (l0 := lexer.set_scanner l _) in *.
  assert (Heof0 : lexer.eof l0 = false) by exact Heof.
  assert (St0 : Step l l0) by (split; [exact HL0 | split; [lia | simpl; lia]]).
  clearbody l0.
  set (t0 := token.set_kind t token.Int) in *.
  assert (S0 : token.Start t0 = token.Start t) by reflexivity.
  assert (K0 : token.kind t0 = token.Int) by reflexivity.
  assert (N0 : token.End t0 = token.End t) by reflexivity.
  clearbody t0.
  (* sign *)
  bs E E1.
  assert (Sg : t1 = t0 /\ Step l0 l1 /\ (x = inl tt -> lexer.eof l1 = false) /\ x <> inr None).
  { destruct (_ =? 45).
    - bs E1 E2. destruct (adv_spec _ _ _ _ _ HL0 Heof0 E2) as (-> & St & P & Q).
      destruct x0 as [[]|e].
      + sstep E1. dif E1 Ee.
        * apply syntaxErrorHere_eq in E1 as (-> & -> & ->). split; [reflexivity | split; [exact St | split; [discriminate | discriminate]]].
        * unfold lexer.ret in E1. injection E1 as <- <- <-. split; [reflexivity | split; [exact St | split; [auto | discriminate]]].
      + destruct E1 as (-> & -> & ->). split; [reflexivity | split; [exact St | split; [discriminate | exact Q]]].
    - unfold lexer.ret in E1. injection E1 as <- <- <-. split; [reflexivity | split; [apply Step_refl; exact HL0 | split; [auto | discriminate]]]. }
  clear E1. destruct Sg as (-> & St1 & Ef1 & Nn1). assert (St01 := Step_trans _ _ _ St0 St1).
  destruct x as [[]|[e|]]; [| err_exit St01 E | exfalso; exact (Nn1 eq_refl)].
  specialize (Ef1 eq_refl). destruct St1 as (HL1 & _).
  (* integer part *)
  sstep E. bs E E1.
  assert (Ip : Step l1 l2 /\ token.Start t1 = token.Start t0 /\
    (x = inl tt -> t1 = t0 /\ lexer.eof l2 = false /\ (mu l2 < mu l1)%nat /\
                   lexer.lastIndex l1 < lexer.lastIndex l2) /\
    (x = inr None -> token.kind t1 = token.Int /\ token.End t1 = lexer.lastIndex l2 - 1 /\
                     (mu l2 < mu l1)%nat /\ lexer.lastIndex l1 < lexer.lastIndex l2)).
  { destruct (_ =? 48).
    - bs E1 E2. destruct (adv_spec _ _ _ _ _ HL1 Ef1 E2) as (-> & St & P & Q).
      destruct x0 as [[]|e].
      + destruct (P eq_refl) as [P1 P2].
        sstep E1. dif E1 Ee.
        { apply syntaxErrorHere_eq in E1 as (-> & -> & ->).
          split; [exact St | split; [reflexivity | split; discriminate]]. }
        destruct (lexer.isDigit _).
        { apply syntaxErrorHere_eq in E1 as (-> & -> & ->).
          split; [exact St | split; [reflexivity | split; discriminate]]. }
        unfold lexer.ret in E1. injection E1 as <- <- <-.
        split; [exact St | split; [reflexivity | split; [intros _; split; [reflexivity | split; [exact Ee | split; lia]] | discriminate]]].
      + destruct E1 as (-> & -> & ->).
        split; [exact St | split; [reflexivity | split; [discriminate | intro Hr; exfalso; exact (Q Hr)]]].
    - bs E1 E2. destruct (advDigits_spec _ _ _ _ _ _ HL1 Ef1 E2) as (-> & St & P & Q).
      destruct x0 as [[]|e].
      + destruct (P eq_refl) as [P1 P2].
        sstep E1. dif E1 Ee.
        { unfold lexer.bind, lexer.endTail, lexer.upd_t, lexer.return_ in E1.
          match type of E1 with context[scanner.EndTail ?s] => destruct (scanner.EndTail s) as [s3 v] eqn:Et end.
          destruct St as (HL2 & _).
          destruct (LI_end_tail' _ _ _ HL2 Et) as [HL3 M3].
          injection E1 as <- <- <-.
          split; [split; [exact HL3 | split; [rewrite M3; lia | simpl; lia]] |].
          split; [reflexivity | split; [discriminate|]].
          intros _. cbn [token.kind token.End token.set_Value token.set_End lexer.lastIndex lexer.set_scanner].
          split; [exact K0 | split; [reflexivity | split; [rewrite M3; lia | lia]]]. }
        unfold lexer.ret in E1. injection E1 as <- <- <-.
        split; [exact St | split; [reflexivity | split; [intros _; split; [reflexivity | split; [exact Ee | split; lia]] | discriminate]]].
      + destruct E1 as (-> & -> & ->).
        split; [exact St | split; [reflexivity | split; [discriminate | intro Hr; exfalso; exact (Q Hr)]]]. }
  clear E1. destruct Ip as (St2 & S1 & Ip1 & Ip2). assert (St02 := Step_trans _ _ _ St01 St2).
  destruct x as [[]|[e|]].
  2:{ err_exit St02 E. }
  2:{ destruct (Ip2 eq_refl) as (K1 & N1 & M1 & L1). destruct E as (-> & -> & ->).
      split; [exact St02|]. split; [congruence|]. split; [intros u Hu; discriminate|].
      intros _. destruct St01 as (_ & ? & ?). split; [lia|]. split; [rewrite K1; discriminate|].
      left. split; lia. }
  destruct (Ip1 eq_refl) as (-> & Ef2 & M2 & L2). clear Ip1 Ip2.
  destruct St2 as (HL2 & _).
  (* decimal *)
  sstep E. bs E E1.
  assert (Dp : Step l2 l3 /\ token.Start t1 = token.Start t0 /\ token.End t1 = token.End t0 /\
    token.kind t1 <> token.EOF /\
    (x = inl tt -> lexer.eof l3 = false) /\
    (x = inr None -> token.kind t1 = token.Float /\ lexer.eof l3 = true)).
  { destruct (_ =? 46).
    - sstep E1. bs E1 E2. destruct (advDigits_spec _ _ _ _ _ _ HL2 Ef2 E2) as (-> & St & P & Q).
      destruct x0 as [[]|e].
      + sstep E1. dif E1 Ee.
        * unfold lexer.return_ in E1. injection E1 as <- <- <-.
          split; [exact St | split; [reflexivity | split; [reflexivity | split; [discriminate|]]]].
          split; [discriminate | intros _; split; [reflexivity | exact Ee]].
        * unfold lexer.ret in E1. injection E1 as <- <- <-.
          split; [exact St | split; [reflexivity | split; [reflexivity | split; [discriminate|]]]].
          split; [intros _; exact Ee | discriminate].
      + destruct E1 as (-> & -> & ->).
        split; [exact St | split; [reflexivity | split; [reflexivity | split; [discriminate|]]]].
        split; [discriminate | intro Hr; exfalso; exact (Q Hr)].
    - unfold lexer.ret in E1. injection E1 as <- <- <-.
      split; [apply Step_refl; exact HL2 | split; [reflexivity | split; [reflexivity | split; [rewrite K0; discriminate|]]]].
      split; [intros _; exact Ef2 | discriminate]. }
  clear E1. destruct Dp as (St3 & S2 & N2 & K2 & Dp1 & Dp2). assert (St03 := Step_trans _ _ _ St02 St3).
  destruct x as [[]|[e|]].
  2:{ err_exit St03 E. }
  2:{ destruct (Dp2 eq_refl) as (K3 & Ef3). destruct E as (-> & -> & ->).
      split; [exact St03|]. split; [congruence|]. split; [intros u Hu; discriminate|].
      intros _. pose proof St3 as (_ & ? & ?). pose proof St01 as (_ & ? & ?). split; [lia|]. split; [exact K2|].
      right. split; [exact K3 | split; [exact Ef3 | congruence]]. }
  specialize (Dp1 eq_refl) as Ef3. clear Dp1 Dp2.
  pose proof St3 as (HL3 & _).
  (* exponent *)
  sstep E. bs E E1.
  assert (Xp : Step l3 l4 /\ token.Start t2 = token.Start t1 /\ token.End t2 = token.End t1 /\
    token.kind t2 <> token.EOF /\
    (x = inr None -> token.kind t2 = token.Float /\ lexer.eof l4 = true)).
  { destruct (_ || _).
    - sstep E1. bs E1 E2. destruct (adv_spec _ _ _ _ _ HL3 Ef3 E2) as (-> & St & P & Q).
      destruct x0 as [[]|e].
      + sstep E1. dif E1 Ee.
        * unfold lexer.return_ in E1. injection E1 as <- <- <-.
          split; [exact St | split; [reflexivity | split; [reflexivity | split; [discriminate|]]]].
          intros _; split; [reflexivity | exact Ee].
        * sstep E1. pose proof St as (HL4 & _). dif E1 Ed.
          { destruct (advDigits_spec _ _ _ _ _ _ HL4 Ee E1) as (-> & St' & _ & Q').
            split; [exact (Step_trans _ _ _ St St') | split; [reflexivity | split; [reflexivity | split; [discriminate|]]]].
            intro Hr; exfalso; exact (Q' Hr). }
          apply syntaxErrorHere_eq in E1 as (-> & -> & ->).
          split; [exact St | split; [reflexivity | split; [reflexivity | split; [discriminate|]]]].
          discriminate.
      + destruct E1 as (-> & -> & ->).
        split; [exact St | split; [reflexivity | split; [reflexivity | split; [discriminate|]]]].
        intro Hr; exfalso; exact (Q Hr).
    - unfold lexer.ret in E1. injection E1 as <- <- <-.
      split; [apply Step_refl; exact HL3 | split; [reflexivity | split; [reflexivity | split; [exact K2|]]]].
      discriminate. }
  clear E1. destruct Xp as (St4 & S3 & N3 & K3 & Xp1). assert (St04 := Step_trans _ _ _ St03 St4).
  destruct x as [[]|[e|]].
  2:{ err_exit St04 E. }
  2:{ destruct (Xp1 eq_refl) as (K4 & Ef4). destruct E as (-> & -> & ->).
      split; [exact St04|]. split; [congruence|]. split; [intros u Hu; discriminate|].
      intros _. pose proof St4 as (_ & ? & ?). pose proof St3 as (_ & ? & ?). pose proof St01 as (_ & ? & ?).
      split; [lia|]. split; [exact K3|].
      right. split; [exact K4 | split; [exact Ef4 | congruence]]. }
  clear Xp1. pose proof St4 as (HL4 & _).
  sstep E. unfold lexer.bind, lexer.endTail, lexer.upd_t, lexer.return_ in E.
  match type of E with context[scanner.EndTail ?s] => destruct (scanner.EndTail s) as [s5 v] eqn:Et end.
  destruct (LI_end_tail' _ _ _ HL4 Et) as [HL5 M5].
  injection E as <- <- <-.
  pose proof St4 as (_ & ? & ?). pose proof St3 as (_ & ? & ?). pose proof St01 as (_ & ? & ?).
  split; [split; [exact HL5 | split; [rewrite M5; lia | simpl; lia]] |].
  cbn [token.kind token.Start token.End token.set_Value token.set_End lexer.lastIndex lexer.set_scanner].
  split; [congruence|]. split; [intros u Hu; discriminate|].
  intros _. split; [rewrite M5; lia|]. split; [exact K3|]. left. split; lia.
Qed.


Lemma bind_none {A B} (m : lexer.LX A) (k : A -> lexer.LX B) (l : lexer) t :
  lexer.bind m k l t = None ->
  m l t = None \/ exists l1 t1 a, m l t = Some (l1, t1, inl a) /\ k a l1 t1 = None.
Proof.
  unfold lexer.bind. destruct (m l t) as [[[l1 t1] [a|e]]|]; intro E; [| discriminate | auto].
  right. exists l1, t1, a. auto.
Qed.

Lemma advDigits_term (fuel : nat) (l : lexer) t :
  LI l -> lexer.eof l = false -> (mu l <= fuel)%nat -> lexer.advDigits fuel l t <> None.
Proof.
  intros HL He Hf E. lx_unfold E.
  destruct (lexer.advanceDigits_loop fuel l) as [[l1 [|]]|] eqn:Ea; try discriminate.
  exact (ADL_term _ _ HL He Hf Ea).
Qed.

Ltac nstep E :=
  let E1 := fresh "E" in
  apply bind_none in E; destruct E as [E1 | (?l & ?t & ?a & E1 & E)];
  unfold lexer.startTail, lexer.upd_t, lexer.rune, lexer.get_l, lexer.get_t, lexer.ret in E1;
  [discriminate | injection E1 as <- <- <-; cbn beta iota in E].

Ltac bn E E1 :=
  apply bind_none in E; destruct E as [E1 | (?l & ?t & ?a & E1 & E)].

Lemma readNumber_term (fuel : nat) (l : lexer) t :
  LI l -> lexer.eof l = false -> (mu l <= fuel)%nat -> lexer.readNumber fuel l t <> None.
Proof.
  intros HL Heof Hf E. unfold lexer.readNumber in E.
  nstep E. nstep E. nstep E.
  destruct (LI_start_tail l HL) as [HL0 M0].
  set (l0 := lexer.set_scanner l _) in *.
  assert (Heof0 : lexer.eof l0 = false) by exact Heof.
  clearbody l0.
  set (t0 := token.set_kind t token.Int) in *. clearbody t0.
  (* sign *)
  bn E E1.
  { destruct (_ =? 45); [|discriminate].
    bn E1 E2; [lx_unfold E2; destruct (lexer.advance_l l0) as [? [|]]; discriminate|].
    nstep E1. dif E1 Ee; discriminate. }
  assert (Sg : LI l1 /\ lexer.eof l1 = false /\ (mu l1 <= mu l)%nat).
  { destruct (_ =? 45).
    - bs E1 E2. destruct (adv_spec _ _ _ _ _ HL0 Heof0 E2) as (-> & (A & B & _) & _).
      destruct x as [[]|e]; [|destruct E1 as (_ & _ & E1); discriminate].
      sstep E1. dif E1 Ee; unfold lexer.ret, lexer.syntaxErrorHere, lexer.bind, lexer.get_l, lexer.return_ in E1;
        injection E1 as <- <- E1; [discriminate | split; [exact A | split; [exact Ee | lia]]].
    - unfold lexer.ret in E1. injection E1 as <- <-. split; [exact HL0 | split; [exact Heof0 | lia]]. }
  clear E1. destruct Sg as (HL1 & Ef1 & Mf1).
  (* integer part *)
  nstep E. bn E E1.
  { destruct (_ =? 48).
    - bn E1 E2; [lx_unfold E2; destruct (lexer.advance_l l1) as [? [|]]; discriminate|].
      nstep E1. dif E1 Ee; [discriminate|]. dif E1 Ed; discriminate.
    - bn E1 E2; [exact (advDigits_term fuel _ _ HL1 Ef1 ltac:(lia) E2)|].
      nstep E1. dif E1 Ee; [|discriminate].
      unfold lexer.bind, lexer.endTail, lexer.upd_t, lexer.return_ in E1.
      match type of E1 with context[scanner.EndTail ?s] => destruct (scanner.EndTail s) end.
      discriminate. }
  assert (Ip : LI l2 /\ lexer.eof l2 = false /\ (mu l2 <= mu l)%nat).
  { destruct (_ =? 48).
    - bs E1 E2. destruct (adv_spec _ _ _ _ _ HL1 Ef1 E2) as (-> & (A & B & _) & _).
      destruct x as [[]|e]; [|destruct E1 as (_ & _ & E1); discriminate].
      sstep E1. dif E1 Ee; [apply syntaxErrorHere_eq in E1 as (_ & _ & E1); discriminate|].
      dif E1 Ed; [apply syntaxErrorHere_eq in E1 as (_ & _ & E1); discriminate|].
      unfold lexer.ret in E1. injection E1 as <- <-. split; [exact A | split; [exact Ee | lia]].
    - bs E1 E2. destruct (advDigits_spec _ _ _ _ _ _ HL1 Ef1 E2) as (-> & (A & B & _) & _).
      destruct x as [[]|e]; [|destruct E1 as (_ & _ & E1); discriminate].
      sstep E1. dif E1 Ee.
      { unfold lexer.bind, lexer.endTail, lexer.upd_t, lexer.return_ in E1.
        match type of E1 with context[scanner.EndTail ?s] => destruct (scanner.EndTail s) end.
        discriminate. }
      unfold lexer.ret in E1. injection E1 as <- <-. split; [exact A | split; [exact Ee | lia]]. }
  clear E1. destruct Ip as (HL2 & Ef2 & Mf2).
  (* decimal *)
  nstep E. bn E E1.
  { destruct (_ =? 46); [|discriminate].
    nstep E1. bn E1 E2; [exact (advDigits_term fuel _ _ HL2 Ef2 ltac:(lia) E2)|].
    nstep E1. dif E1 Ee; discriminate. }
  assert (Dp : LI l3 /\ lexer.eof l3 = false /\ (mu l3 <= mu l)%nat).
  { destruct (_ =? 46).
    - sstep E1. bs E1 E2. destruct (advDigits_spec _ _ _ _ _ _ HL2 Ef2 E2) as (-> & (A & B & _) & _).
      destruct x as [[]|e]; [|destruct E1 as (_ & _ & E1); discriminate].
      sstep E1. dif E1 Ee; unfold lexer.ret, lexer.return_ in E1; injection E1 as <- <- E1;
        [discriminate | split; [exact A | split; [exact Ee | lia]]].
    - unfold lexer.ret in E1. injection E1 as <- <-. split; [exact HL2 | split; [exact Ef2 | lia]]. }
  clear E1. destruct Dp as (HL3 & Ef3 & Mf3).
  (* exponent *)
  nstep E. bn E E1.
  { destruct (_ || _); [|discriminate].
    nstep E1. bn E1 E2; [lx_unfold E2; destruct (lexer.advance_l l3) as [? [|]]; discriminate|].
    destruct (adv_spec _ _ _ _ _ HL3 Ef3 E2) as (-> & (A & B & _) & _).
    nstep E1. dif E1 Ee; [discriminate|]. nstep E1.
    dif E1 Ed; [exact (advDigits_term fuel _ _ A Ee ltac:(lia) E1) | discriminate]. }
  nstep E. unfold lexer.bind, lexer.endTail, lexer.upd_t, lexer.return_ in E.
  match type of E with context[scanner.EndTail ?s] => destruct (scanner.EndTail s) end.
  discriminate.
Qed.

Lemma expectDot_spec (l l' : lexer) t t' x :
  LI l -> lexer.eof l = false -> lexer.expectDot l t = Some (l', t', x) ->
  t' = t /\ Step l l' /\ x <> inr None /\
  (x = inl tt -> lexer.eof l' = false /\ (mu l' < mu l)%nat /\
                 lexer.lastIndex l' = lexer.lastIndex l + 1).
Proof.
  intros HL Heof E. unfold lexer.expectDot in E.
  bs E E1. destruct (adv_spec _ _ _ _ _ HL Heof E1) as (-> & St & P & Q).
  destruct x0 as [[]|e]; [| destruct E as (-> & -> & ->); split; [reflexivity | split; [exact St | split; [exact Q | discriminate]]]].
  destruct (P eq_refl) as [P1 P2].
  sstep E. sstep E. dif E Ee.
  { unfold lexer.return_ in E. injection E as <- <- <-.
    split; [reflexivity | split; [exact St | split; discriminate]]. }
  dif E Ed; unfold lexer.return_, lexer.ret in E; injection E as <- <- <-;
    (split; [reflexivity | split; [exact St | split; [discriminate|]]]); [discriminate|].
  intros _. split; [exact Ee | split; assumption].
Qed.

Lemma expectDot_some (l : lexer) t : lexer.expectDot l t <> None.
Proof.
  unfold lexer.expectDot. lx_unfold_g.
  destruct (lexer.advance_l l) as [l1 [|]]; cbn beta iota; [|discriminate].
  destruct (lexer.eof l1); [discriminate|]. destruct (negb _); discriminate.
Qed.

Lemma readSpread_spec (l l' : lexer) t t' r :
  LI l -> lexer.eof l = false -> lexer.readSpread l t = Some (l', t', r) ->
  Step l l' /\ (forall u, r <> inl u) /\
  (r = inr None -> (mu l' < mu l)%nat /\ token.kind t' = token.Spread /\
     token.Start t' = token.Start t /\ token.End t' = token.Start t + 3 /\
     lexer.lastIndex l' = lexer.lastIndex l + 3).
Proof.
  intros HL Heof E. unfold lexer.readSpread in E.
  bs E E1. destruct (expectDot_spec _ _ _ _ _ HL Heof E1) as (-> & St1 & Q1 & P1).
  destruct x as [[]|[e|]]; [| destruct E as (-> & -> & ->); split; [exact St1 | split; discriminate]
                           | exfalso; exact (Q1 eq_refl)].
  destruct (P1 eq_refl) as (Ef1 & M1 & L1). pose proof St1 as (HL1 & _).
  bs E E2. destruct (expectDot_spec _ _ _ _ _ HL1 Ef1 E2) as (-> & St2 & Q2 & P2).
  assert (St12 := Step_trans _ _ _ St1 St2).
  destruct x as [[]|[e|]]; [| destruct E as (-> & -> & ->); split; [exact St12 | split; discriminate]
                           | exfalso; exact (Q2 eq_refl)].
  destruct (P2 eq_refl) as (Ef2 & M2 & L2). pose proof St2 as (HL2 & _).
  sstep E. bs E E3. destruct (adv_spec _ _ _ _ _ HL2 Ef2 E3) as (-> & St3 & P3 & Q3).
  assert (St13 := Step_trans _ _ _ St12 St3).
  destruct x as [[]|[e|]]; [| destruct E as (-> & -> & ->); split; [exact St13 | split; discriminate]
                           | exfalso; exact (Q3 eq_refl)].
  destruct (P3 eq_refl) as (M3 & L3).
  unfold lexer.return_ in E. injection E as <- <- <-.
  split; [exact St13|]. split; [discriminate|]. intros _.
  split; [lia|]. split; [reflexivity|]. cbn [token.Start token.End token.kind]. split; [reflexivity|].
  split; [reflexivity | lia].
Qed.

Lemma readSpread_some (l : lexer) t : lexer.readSpread l t <> None.
Proof.
  unfold lexer.readSpread. intro E.
  bn E E1; [exact (expectDot_some _ _ E1)|].
  bn E E2; [exact (expectDot_some _ _ E2)|].
  nstep E. unfold lexer.bind at 1 in E. lx_unfold E.
  destruct (lexer.advance_l _) as [? [|]]; discriminate.
Qed.

Lemma RunePunctuators_not_EOF r k : token.RunePunctuators r = Some k -> k <> token.EOF.
Proof.
  unfold token.RunePunctuators.
  repeat match goal with |- context[if ?c then _ else _] => destruct c end;
    intro E; try discriminate; injection E as <-; discriminate.
Qed.

Lemma Lex_body_spec (fuel : nat) (l l' : lexer) t' r :
  LI l -> lexer.Lex_body fuel l token.zero = Some (l', t', r) ->
  Step l l' /\ (forall u, r <> inl u) /\
  (lexer.eof l = true -> token.kind t' = token.EOF /\ r = inr None) /\
  (r = inr None ->
   lexer.lastIndex l <= token.Start t' <= lexer.lastIndex l' /\
   ((token.kind t' = token.EOF /\ lexer.eof l' = true /\ token.End t' = token.Start t') \/
    (token.kind t' <> token.EOF /\ (mu l' < mu l)%nat /\
     ((token.Start t' <= token.End t' <= lexer.lastIndex l') \/
      (token.kind t' = token.Float /\ lexer.eof l' = true /\ token.End t' = 0))))).
Proof.
  intros HL E. unfold lexer.Lex_body in E.
  bs E E1. unfold lexer.advanceToNextToken in E1.
  destruct (lexer.advanceToNextToken_loop fuel l) as [[l1 ok]|] eqn:Ea; [|discriminate].
  injection E1 as <- <- <-.
  destruct (proj1 (ATN_CL_spec fuel) _ _ _ HL Ea) as (St1 & Ok1 & Eo1).
  pose proof St1 as (HL1 & M1 & L1).
  destruct ok; cbn beta iota delta [negb] in E.
  2:{ unfold lexer.get_l, lexer.bind, lexer.return_ in E. injection E as <- <- <-.
      split; [exact St1|]. split; [discriminate|].
      split; [intros Ee; exfalso; destruct fuel; [discriminate|];
              cbn [lexer.advanceToNextToken_loop] in Ea; rewrite Ee in Ea; discriminate|].
      intro Hr. injection Hr as Hr. exfalso; exact (Ok1 eq_refl Hr). }
  sstep E. sstep E.
  set (t1 := token.set_Start token.zero (lexer.lastIndex l1)) in *.
  assert (S1 : token.Start t1 = lexer.lastIndex l1) by reflexivity.
  assert (N1 : token.End t1 = 0) by reflexivity.
  clearbody t1.
  dif E Ee.
  { sstep E. unfold lexer.return_ in E. injection E as <- <- <-.
    split; [exact St1|]. split; [discriminate|].
    split; [intros _; split; reflexivity|].
    intros _. cbn [token.Start token.End token.kind token.set_End token.set_kind].
    split; [lia|]. left. split; [reflexivity | split; [exact Ee | reflexivity]]. }
  sstep E.
  assert (Hnl : lexer.eof l = false)
    by (destruct (lexer.eof l) eqn:X; [specialize (Eo1 eq_refl); subst l1; congruence | reflexivity]).
  enough (G : Step l l' /\ (forall u, r <> inl u) /\
   (r = inr None ->
    lexer.lastIndex l <= token.Start t' <= lexer.lastIndex l' /\
    ((token.kind t' = token.EOF /\ lexer.eof l' = true /\ token.End t' = token.Start t') \/
     (token.kind t' <> token.EOF /\ (mu l' < mu l)%nat /\
      ((token.Start t' <= token.End t' <= lexer.lastIndex l') \/
       (token.kind t' = token.Float /\ lexer.eof l' = true /\ token.End t' = 0))))))
    by (destruct G as (A & B & C); split; [exact A | split; [exact B | split; [intro X; congruence | exact C]]]).
  clear Eo1 Ok1.
  destruct (token.RunePunctuators _) as [k|] eqn:Ep.
  { sstep E. bs E E2. destruct (adv_spec _ _ _ _ _ HL1 Ee E2) as (-> & St2 & P2 & Q2).
    assert (St12 := Step_trans _ _ _ St1 St2).
    destruct x as [[]|[e|]]; [| destruct E as (-> & -> & ->); split; [exact St12 | split; discriminate]
                             | exfalso; exact (Q2 eq_refl)].
    destruct (P2 eq_refl) as [M2 L2].
    unfold lexer.return_ in E. injection E as <- <- <-.
    split; [exact St12|]. split; [discriminate|]. intros _.
    cbn [token.Start token.End token.kind]. split; [lia|]. right.
    split; [exact (RunePunctuators_not_EOF _ _ Ep)|]. split; [lia|]. left; lia. }
  dif E Ec1.
  { unfold lexer.readName in E. sstep E. bs E E2.
    unfold lexer.startTail in E2. injection E2 as <- <- <-. cbn beta iota in E.
    destruct (LI_start_tail l1 HL1) as [HL2 M2].
    destruct (RNL_spec _ _ _ _ _ _ HL2 Ee E) as (St2 & K2 & S2 & P2).
    split; [split; [exact (proj1 St2) | pose proof St2 as (_ & ? & ?); split; [lia | simpl in *; lia]]|].
    split; [intros u Hu; subst r; exact (RNL_not_inl _ _ _ _ _ _ E)|].
    intro Hr. destruct (P2 Hr) as (P3 & P4 & P5). pose proof St2 as (_ & ? & ?).
    cbn [lexer.lastIndex lexer.set_scanner] in *.
    rewrite S2. cbn [token.Start token.set_kind]. rewrite S1. split; [lia|]. right.
    rewrite K2. split; [discriminate|]. split; [lia|]. left. rewrite P5. lia. }
  dif E Ec2.
  { destruct (readNumber_spec _ _ _ _ _ _ HL1 Ee E) as (St2 & S2 & P1 & P2).
    split; [exact (Step_trans _ _ _ St1 St2)|]. split; [exact P1|].
    intro Hr. destruct (P2 Hr) as (P3 & P4 & P5). pose proof St2 as (_ & ? & ?).
    rewrite S2, S1. split; [lia|]. right. split; [exact P4|]. split; [lia|].
    destruct P5 as [P5|P5]; [left; lia | right; rewrite N1 in P5; exact P5]. }
  dif E Ec3.
  { sstep E. unfold lexer.return_ in E. injection E as <- <- <-.
    split; [exact St1 | split; discriminate]. }
  dif E Ec4.
  { unfold lexer.readString in E. sstep E.
    destruct (RSL_spec _ _ _ _ _ _ _ HL1 Ee E) as (St2 & K2 & S2 & P2).
    split; [exact (Step_trans _ _ _ St1 St2)|].
    split; [intros u Hu; subst r; exact (RSL_not_inl _ _ _ _ _ _ _ E)|].
    intro Hr. destruct (P2 Hr) as (P3 & P4 & P5). pose proof St2 as (_ & ? & ?).
    rewrite S2. cbn [token.Start token.set_kind]. rewrite S1. split; [lia|]. right.
    rewrite K2. split; [discriminate|]. split; [lia|]. left. lia. }
  dif E Ec5.
  { destruct (readSpread_spec _ _ _ _ _ HL1 Ee E) as (St2 & P1 & P2).
    split; [exact (Step_trans _ _ _ St1 St2)|]. split; [exact P1|].
    intro Hr. destruct (P2 Hr) as (P3 & P4 & P5 & P6 & P7).
    rewrite P5, S1. split; [lia|]. right. rewrite P4. split; [discriminate|]. split; [lia|].
    left. lia. }
  sstep E. unfold lexer.return_ in E. injection E as <- <- <-.
  split; [exact St1 | split; discriminate].
Qed.

Lemma Lex_body_term (fuel : nat) (l : lexer) t :
  LI l -> (2 * mu l < fuel)%nat -> lexer.Lex_body fuel l t <> None.
Proof.
  intros HL Hf E. unfold lexer.Lex_body in E.
  bn E E1.
  { unfold lexer.advanceToNextToken in E1.
    destruct (lexer.advanceToNextToken_loop fuel l) as [[l1 ok]|] eqn:Ea; [discriminate|].
    exact (proj1 (ATN_CL_term fuel) _ HL Hf Ea). }
  unfold lexer.advanceToNextToken in E1.
  destruct (lexer.advanceToNextToken_loop fuel l) as [[l1 ok]|] eqn:Ea; [|discriminate].
  injection E1 as <- <- <-.
  destruct (proj1 (ATN_CL_spec fuel) _ _ _ HL Ea) as ((HL1 & M1 & _) & _).
  destruct ok; cbn beta iota delta [negb] in E; [|discriminate].
  nstep E. nstep E. dif E Ee; [discriminate|].
  nstep E.
  destruct (token.RunePunctuators _) as [k|].
  { nstep E. bn E E2; [lx_unfold E2; destruct (lexer.advance_l l1) as [? [|]]; discriminate|].
    discriminate. }
  dif E Ec1.
  { unfold lexer.readName in E. nstep E. bn E E2; [discriminate|].
    unfold lexer.startTail in E2. injection E2 as <- <- <-. cbn beta iota in E.
    destruct (LI_start_tail l1 HL1) as [HL2 M2].
    refine (RNL_term _ _ _ HL2 Ee _ E). lia. }
  dif E Ec2; [refine (readNumber_term _ _ _ HL1 Ee _ E); lia|].
  dif E Ec3; [nstep E; discriminate|].
  dif E Ec4.
  { unfold lexer.readString in E. nstep E. refine (RSL_term _ _ _ _ HL1 Ee _ E). lia. }
  dif E Ec5; [exact (readSpread_some _ _ E)|].
  nstep E. discriminate.
Qed.

(** [Lex] on a lexer with the invariant, from the zero token. *)
Lemma Lex_spec (fuel : nat) (l l' : lexer) t' e :
  LI l -> lexer.Lex fuel l token.zero = Some (l', t', e) ->
  LI l' /\ (mu l' <= mu l)%nat /\ lexer.lastIndex l <= lexer.lastIndex l' /\
  (lexer.eof l = true -> token.kind t' = token.EOF /\ e = None) /\
  (e = None ->
   lexer.lastIndex l <= token.Start t' <= lexer.lastIndex l' /\
   ((token.kind t' = token.EOF /\ lexer.eof l' = true /\ token.End t' = token.Start t') \/
    (token.kind t' <> token.EOF /\ (mu l' < mu l)%nat /\
     ((token.Start t' <= token.End t' <= lexer.lastIndex l') \/
      (token.kind t' = token.Float /\ lexer.eof l' = true /\ token.End t' = 0))))).
Proof.
  intros HL E. unfold lexer.Lex in E.
  destruct (lexer.Lex_body fuel l token.zero) as [[[l1 t1] [u|e1]]|] eqn:Eb; [| |discriminate].
  - destruct (Lex_body_spec _ _ _ _ _ HL Eb) as (_ & P & _). exfalso; exact (P u eq_refl).
  - injection E as <- <- <-.
    destruct (Lex_body_spec _ _ _ _ _ HL Eb) as ((A & B & C) & _ & D & F).
    split; [exact A | split; [exact B | split; [exact C|]]].
    split; [intro X; destruct (D X) as [D1 D2]; injection D2 as ->; split; [exact D1 | reflexivity]|].
    intros ->. exact (F eq_refl).
Qed.

Lemma Lex_term (fuel : nat) (l : lexer) t :
  LI l -> (2 * mu l < fuel)%nat -> lexer.Lex fuel l t <> None.
Proof.
  intros HL Hf. unfold lexer.Lex.
  destruct (lexer.Lex_body fuel l t) as [[[l1 t1] [u|e1]]|] eqn:Eb; try discriminate.
  exfalso; exact (Lex_body_term _ _ _ HL Hf Eb).
Qed.
End L.
End LexFacts.

Module ParseFacts.
Import measure.

(** ** The rules of [PSpec] *)
Section Rules.
Context {S : Type}.
Local Abbreviation parser := (@parser.parser S).

Lemma PSpec_bind {A B} (m : parser.PM A) (k : A -> parser.PM B) (p : parser) Q (Bd : Prop) :
  PSpec m p (fun a p1 => PSpec (k a) p1 Q Bd) Bd -> PSpec (parser.bind m k) p Q Bd.
Proof. unfold PSpec, parser.bind. destruct (m p) as [[a p1]| |]; auto. Qed.

Lemma PSpec_conseq {A} (m : parser.PM A) (p : parser) (Q Q' : A -> parser -> Prop) (Bd Bd' : Prop) :
  PSpec m p Q Bd -> (forall a p', Q a p' -> Q' a p') -> (Bd -> Bd') -> PSpec m p Q' Bd'.
Proof. unfold PSpec. destruct (m p) as [[a p1]| |]; auto. Qed.

Lemma PSpec_ret {A} (a : A) (p : parser) Q (Bd : Prop) : Q a p -> PSpec (parser.ret a) p Q Bd.
Proof. exact (fun H => H). Qed.

Lemma PSpec_fail {A} e (p : parser) (Q : A -> parser -> Prop) (Bd : Prop) :
  PSpec (parser.fail e) p Q Bd.
Proof. exact I. Qed.

Lemma PSpec_oof {A} (p : parser) (Q : A -> parser -> Prop) (Bd : Prop) :
  Bd -> PSpec parser.outOfFuel p Q Bd.
Proof. exact (fun H => H). Qed.

Lemma PSpec_lastTok (p : parser) Q (Bd : Prop) :
  Q (parser.last p) p -> PSpec parser.lastTok p Q Bd.
Proof. exact (fun H => H). Qed.

Lemma PSpec_getPrevEnd (p : parser) Q (Bd : Prop) :
  Q (parser.prevEnd p) p -> PSpec parser.getPrevEnd p Q Bd.
Proof. exact (fun H => H). Qed.

Lemma PSpec_ok {A} (m : parser.PM A) (p : parser) Q (Bd : Prop) a p' :
  PSpec m p Q Bd -> m p = parser.Ok (a, p') -> Q a p'.
Proof. unfold PSpec. intros H0 E. rewrite E in H0. exact H0. Qed.

Lemma PSpec_oof_inv {A} (m : parser.PM A) (p : parser) Q (Bd : Prop) :
  PSpec m p Q Bd -> m p = parser.OutOfFuel -> Bd.
Proof. unfold PSpec. intros H0 E. rewrite E in H0. exact H0. Qed.

End Rules.

(** One step of a proof by [PSpec]: the bind, or a primitive. *)
Ltac ps_step :=
  match goal with
  | |- PSpec (parser.bind _ _) _ _ _ => apply PSpec_bind
  | |- PSpec parser.lastTok _ _ _ => apply PSpec_lastTok; cbv beta
  | |- PSpec parser.getPrevEnd _ _ _ => apply PSpec_getPrevEnd; cbv beta
  | |- PSpec (parser.ret _) _ _ _ => apply PSpec_ret; cbv beta
  | |- PSpec (parser.fail _) _ _ _ => apply PSpec_fail
  | |- PSpec parser.outOfFuel _ _ _ => apply PSpec_oof
  end.


Section P.
Context {S : Type} `{scanner.Scanner S}.
Variable rem : S -> nat.
Variable wf : S -> Prop.
Hypothesis scan_none : forall s s', wf s -> scanner.Scan s = (s', None) ->
  wf s' /\ (rem s' < rem s)%nat.
Hypothesis scan_some : forall s s' e, wf s -> scanner.Scan s = (s', Some e) ->
  wf s' /\ (rem s' <= rem s)%nat /\
  (scanner.Rune s' = 0 \/ scanner.Rune s' = utf8.RuneError).
Hypothesis start_tail : forall s, wf s ->
  wf (scanner.StartTail s) /\ rem (scanner.StartTail s) = rem s /\
  scanner.Rune (scanner.StartTail s) = scanner.Rune s.
Hypothesis end_tail : forall s, wf s ->
  wf (fst (scanner.EndTail s)) /\ rem (fst (scanner.EndTail s)) = rem s /\
  scanner.Rune (fst (scanner.EndTail s)) = scanner.Rune s.
Variable N : Z.

Local Abbreviation parser := (@parser.parser S).
Local Abbreviation mu := (measure.mu rem).
Local Abbreviation nu := (measure.nu rem).
Local Abbreviation LI := (measure.LI rem wf N).
Local Abbreviation PInv := (measure.PInv rem wf N).
Local Abbreviation Adv := (measure.Adv rem wf N).
Local Abbreviation Cons := (measure.Cons rem wf N).
Local Abbreviation Opt := (measure.Opt rem wf N).
Local Abbreviation Weak := (measure.Weak rem wf N).

Lemma nu_mu (p : parser) : (mu (parser.lex p) <= nu p)%nat.
Proof. unfold measure.nu. lia. Qed.

Lemma nu_not_EOF (p : parser) :
  token.kind (parser.last p) <> token.EOF -> nu p = Datatypes.S (mu (parser.lex p)).
Proof.
  unfold measure.nu. intro Hk.
  destruct (token.Kind_eqb _ _) eqn:E; [|lia].
  exfalso. apply Hk. destruct (token.kind (parser.last p)); try discriminate; reflexivity.
Qed.

Lemma nu_EOF (p : parser) :
  token.kind (parser.last p) = token.EOF -> nu p = mu (parser.lex p).
Proof. unfold measure.nu. intros ->. simpl. lia. Qed.

Lemma PInv_N (p : parser) : PInv p -> 0 <= N.
Proof. intros ((_ & _ & H1 & H2) & _). lia. Qed.

Lemma PInv_start_end (p : parser) :
  PInv p -> token.kind (parser.last p) <> token.Float ->
  token.Start (parser.last p) <= token.End (parser.last p).
Proof.
  intros (_ & _ & He & Hn & _) Hf.
  destruct (token.Kind_eqb (token.kind (parser.last p)) token.EOF) eqn:Ek.
  - assert (Ek' : token.kind (parser.last p) = token.EOF)
      by (destruct (token.kind (parser.last p)); try discriminate; reflexivity).
    destruct (He Ek'). lia.
  - assert (Ek' : token.kind (parser.last p) <> token.EOF)
      by (intro X; rewrite X in Ek; discriminate).
    destruct (Hn Ek') as [X | (X & _)]; [lia | contradiction].
Qed.

Lemma advance_spec (n : nat) (p : parser) :
  PInv p -> PSpec (parser.advance n) p (fun _ p' => Adv p p') (n <= 2 * mu (parser.lex p))%nat.
Proof.
  intros HP. pose proof HP as (HL & HS & He & Hn & Hpe).
  unfold PSpec, parser.advance.
  destruct (lexer.Lex n (parser.lex p) token.zero) as [[[l' t'] e]|] eqn:E.
  2:{ destruct (Nat.le_gt_cases n (2 * mu (parser.lex p))) as [X|X]; [exact X|].
      exfalso. exact (LexFacts.Lex_term rem wf scan_none scan_some start_tail N n _ _ HL X E). }
  destruct e as [e|]; [exact I|].
  destruct (LexFacts.Lex_spec rem wf scan_none scan_some start_tail end_tail N n _ _ _ _ HL E)
    as (HL' & Hm & Hli & Heof & Hnone).
  destruct (Hnone eq_refl) as (Hst & Hk).
  set (p' := parser.mkParser l' (token.End (parser.last p)) t').
  assert (HP' : PInv p').
  { split; [exact HL'|]. cbn [parser.last parser.lex parser.prevEnd p'].
    split; [pose proof HL as (_ & _ & ? & _); lia|].
    split; [intro X; destruct Hk as [(_ & Y & Z) | (Y & _)]; [split; assumption | contradiction]|].
    split; [intro X; destruct Hk as [(Y & _) | (_ & _ & Y)]; [contradiction | exact Y]|].
    pose proof HL as (_ & _ & ? & ?).
    destruct (token.Kind_eqb (token.kind (parser.last p)) token.EOF) eqn:Ek.
    - assert (Ek' : token.kind (parser.last p) = token.EOF)
        by (destruct (token.kind (parser.last p)); try discriminate; reflexivity).
      destruct (He Ek'). lia.
    - assert (Ek' : token.kind (parser.last p) <> token.EOF)
        by (intro X; rewrite X in Ek; discriminate).
      destruct (Hn Ek') as [X | (_ & _ & X)]; lia. }
  split; [exact HP'|].
  assert (Hnu : (nu p' <= nu p)%nat /\
                (token.kind (parser.last p) <> token.EOF -> (nu p' < nu p)%nat) /\
                (token.kind (parser.last p) = token.EOF -> token.kind (parser.last p') = token.EOF)).
  { destruct (token.Kind_eqb (token.kind (parser.last p)) token.EOF) eqn:Ek.
    - assert (Ek' : token.kind (parser.last p) = token.EOF)
        by (destruct (token.kind (parser.last p)); try discriminate; reflexivity).
      destruct (He Ek') as [Heof1 _]. destruct (Heof Heof1) as [Hk' _].
      rewrite (nu_EOF p Ek'), (nu_EOF p' Hk'). cbn [parser.lex p'].
      split; [lia | split; [contradiction | auto]].
    - assert (Ek' : token.kind (parser.last p) <> token.EOF)
        by (intro X; rewrite X in Ek; discriminate).
      rewrite (nu_not_EOF p Ek').
      assert (Hlt : (nu p' <= mu (parser.lex p))%nat).
      { destruct Hk as [(Y & _) | (Y & Z & _)].
        - rewrite (nu_EOF p' Y). cbn [parser.lex p']. exact Hm.
        - rewrite (nu_not_EOF p' Y). cbn [parser.lex p']. lia. }
      split; [lia | split; [lia | contradiction]]. }
  destruct Hnu as (Hnu1 & Hnu2 & Hnu3).
  split; [exact Hnu1|]. split; [exact Hnu2|].
  split; [cbn [parser.last p']; lia|].
  split; [reflexivity|].
  split; [|exact Hnu3].
  destruct (token.Kind_eqb (token.kind (parser.last p)) token.EOF) eqn:Ek.
  - assert (Ek' : token.kind (parser.last p) = token.EOF)
      by (destruct (token.kind (parser.last p)); try discriminate; reflexivity).
    destruct (He Ek'). left; lia.
  - assert (Ek' : token.kind (parser.last p) <> token.EOF)
      by (intro X; rewrite X in Ek; discriminate).
    destruct (Hn Ek') as [X | (X & Y & _)]; [left; lia | right].
    split; [exact X|]. destruct (Heof Y) as [Z _]. exact Z.
Qed.


Lemma Adv_Cons (good : Prop) (p p' : parser) :
  PInv p -> Adv p p' -> token.kind (parser.last p) <> token.EOF ->
  token.kind (parser.last p) <> token.Float -> good -> Cons good p p'.
Proof.
  intros HP (HP' & _ & Hlt & Hst & Hpe & _ & _) He Hf Hg.
  assert (X := PInv_start_end p HP Hf).
  split; [exact HP' | split; [exact He | split; [exact (Hlt He) | split; [exact Hst | split; [lia | exact Hg]]]]].
Qed.

Lemma skip_spec (n : nat) (k : token.Kind) (p : parser) :
  PInv p ->
  PSpec (parser.skip n k) p
    (fun b p' => (b = false -> p' = p /\ token.kind (parser.last p) <> k) /\
                 (b = true -> token.kind (parser.last p) = k /\ Adv p p'))
    (n < 1 + 8 * nu p)%nat.
Proof.
  intros HP. unfold parser.skip. ps_step. ps_step.
  destruct (token.Kind_eqb (token.kind (parser.last p)) k) eqn:Ek.
  - assert (Ek' : token.kind (parser.last p) = k)
      by (destruct (token.kind (parser.last p)), k; try discriminate; reflexivity).
    ps_step. eapply PSpec_conseq; [exact (advance_spec n p HP) | | pose proof (nu_mu p); lia].
    intros [] p' Ha. ps_step. split; [discriminate | intros _; split; [exact Ek' | exact Ha]].
  - ps_step. split; [intros _; split; [reflexivity|] | discriminate].
    intro X; rewrite X in Ek; destruct k; discriminate.
Qed.

Lemma expect_spec (n : nat) (k : token.Kind) (p : parser) :
  PInv p -> k <> token.EOF -> k <> token.Float ->
  PSpec (parser.expect n k) p
    (fun t p' => t = parser.last p /\ token.kind t = k /\ parser.prevEnd p' = token.End t /\
                 Cons True p p')
    (n < 1 + 8 * nu p)%nat.
Proof.
  intros HP He Hf. unfold parser.expect. ps_step. ps_step.
  destruct (token.Kind_eqb (token.kind (parser.last p)) k) eqn:Ek.
  - assert (Ek' : token.kind (parser.last p) = k)
      by (destruct (token.kind (parser.last p)), k; try discriminate; reflexivity).
    ps_step. eapply PSpec_conseq; [exact (advance_spec n p HP) | | pose proof (nu_mu p); lia].
    intros [] p' Ha. ps_step. split; [reflexivity | split; [exact Ek'|]].
    split; [exact (proj1 (proj2 (proj2 (proj2 (proj2 Ha)))))|].
    apply Adv_Cons; [exact HP | exact Ha | congruence | congruence | exact I].
  - ps_step.
Qed.

Lemma expectKeyword_spec (n : nat) v (p : parser) :
  PInv p ->
  PSpec (parser.expectKeyword n v) p
    (fun t p' => t = parser.last p /\ token.kind t = token.Name /\
                 parser.prevEnd p' = token.End t /\ Cons True p p')
    (n < 1 + 8 * nu p)%nat.
Proof.
  intros HP. unfold parser.expectKeyword. ps_step. ps_step.
  destruct (token.Kind_eqb (token.kind (parser.last p)) token.Name && _) eqn:Ek.
  - apply andb_true_iff in Ek as [Ek _].
    assert (Ek' : token.kind (parser.last p) = token.Name)
      by (destruct (token.kind (parser.last p)); try discriminate; reflexivity).
    ps_step. eapply PSpec_conseq; [exact (advance_spec n p HP) | | pose proof (nu_mu p); lia].
    intros [] p' Ha. ps_step. split; [reflexivity | split; [exact Ek'|]].
    split; [exact (proj1 (proj2 (proj2 (proj2 (proj2 Ha)))))|].
    apply Adv_Cons; [exact HP | exact Ha | congruence | congruence | exact I].
  - ps_step.
Qed.

Lemma parseName_spec (n : nat) (p : parser) :
  PInv p ->
  PSpec (parser.parseName n) p (fun a p' => Cons (spans.nameOK N a) p p') (n < 1 + 8 * nu p)%nat.
Proof.
  intros HP. unfold parser.parseName. ps_step.
  eapply PSpec_conseq; [exact (expect_spec n token.Name p HP ltac:(discriminate) ltac:(discriminate)) | | auto].
  intros t p' (-> & Hk & Hpe' & (HP' & He & Hlt & Hst & Hpe & _)). ps_step.
  split; [exact HP' | split; [exact He | split; [exact Hlt | split; [exact Hst | split; [exact Hpe|]]]]].
  pose proof HP as (_ & (? & _) & _). pose proof HP' as (_ & _ & _ & _ & ?).
  unfold spans.nameOK, spans.locOK; cbn [ast.Start ast.End]. lia.
Qed.


Ltac pinv H :=
  let X := fresh "X" in pose proof H as (_ & X & _ & _ & ?); destruct X.

Ltac dcons H :=
  unfold measure.Cons in H; destruct H as (?HP & ?Hne & ?Hnu & ?Hst & ?Hpe & H).

Ltac cons_fin :=
  unfold measure.Cons; split; [assumption|]; split; [congruence|];
  split; [lia|]; split; [lia|]; split; [lia|].

Lemma parseNamedType_spec (n : nat) (p : parser) :
  PInv p ->
  PSpec (parser.parseNamedType n) p (fun a p' => Cons (spans.nameOK N a) p p') (n < 1 + 8 * nu p)%nat.
Proof. exact (parseName_spec n p). Qed.

Lemma parseVariable_spec (n : nat) (p : parser) :
  PInv p ->
  PSpec (parser.parseVariable n) p (fun a p' => Cons (spans.variableOK N a) p p') (n < 1 + 8 * nu p)%nat.
Proof.
  intros HP. unfold parser.parseVariable. ps_step. ps_step. ps_step.
  eapply PSpec_conseq; [exact (expect_spec n token.Dollar p HP ltac:(discriminate) ltac:(discriminate)) | | auto].
  intros t p1 (_ & Hk & _ & Hc1). dcons Hc1. ps_step.
  eapply PSpec_conseq; [exact (parseName_spec n p1 HP0) | | intro; lia].
  intros nm p2 Hc2. dcons Hc2. ps_step. ps_step.
  pinv HP. pinv HP1. cons_fin. split; [unfold spans.locOK; cbn [ast.Start ast.End]; lia | exact Hc2].
Qed.

Lemma parseFragmentName_spec (n : nat) (p : parser) :
  PInv p ->
  PSpec (parser.parseFragmentName n) p (fun a p' => Cons (spans.nameOK N a) p p') (n < 1 + 8 * nu p)%nat.
Proof.
  intros HP. unfold parser.parseFragmentName. ps_step. ps_step.
  destruct (String.eqb _ _); [ps_step | exact (parseName_spec n p HP)].
Qed.


Ltac dweak H :=
  unfold measure.Weak in H; destruct H as (?HP & ?Hne & ?Hnu & ?Hst & [(?Hpe & H) | ?Heof]).

Section Loops.
Context {A : Type} (parseFn : nat -> @parser.PM S A) (good : A -> Prop) (c : nat) (close : token.Kind).
Hypothesis close_not_EOF : close <> token.EOF.
Hypothesis close_not_Float : close <> token.Float.
Hypothesis c_pos : (1 <= c)%nat.

Lemma any_loop_spec (n : nat) :
  (forall g, (g < n)%nat -> forall p, PInv p ->
     PSpec (parseFn g) p (fun a p' => Weak (good a) p p') (g < c + 8 * nu p)%nat) ->
  forall p, PInv p ->
  PSpec (parser.any_loop parseFn close n) p (fun xs p' => Cons (Forall good xs) p p')
    (n < c + 1 + 8 * nu p)%nat.
Proof.
  induction n as [|f IH]; intros Hfn p HP; cbn [parser.any_loop]; [ps_step; lia|].
  ps_step. eapply PSpec_conseq; [exact (skip_spec f close p HP) | | intro; lia].
  intros b p1 (Hf & Ht). destruct b.
  - destruct (Ht eq_refl) as [Hk Ha]. ps_step.
    apply Adv_Cons; [exact HP | exact Ha | congruence | congruence | constructor].
  - destruct (Hf eq_refl) as [-> Hk]. ps_step.
    eapply PSpec_conseq; [exact (Hfn f ltac:(lia) p HP) | | intro; lia].
    intros x p2 Hw. dweak Hw.
    + ps_step. eapply PSpec_conseq; [exact (IH (fun g Hg => Hfn g ltac:(lia)) p2 HP0) | | intro; lia].
      intros xs p3 Hc. dcons Hc. ps_step. cons_fin. constructor; assumption.
    + ps_step. eapply PSpec_conseq; [exact (IH (fun g Hg => Hfn g ltac:(lia)) p2 HP0) | | intro; lia].
      intros xs p3 Hc. dcons Hc. contradiction.
Qed.

Lemma many_loop_spec (n : nat) :
  (forall g, (g < n)%nat -> forall p, PInv p ->
     PSpec (parseFn g) p (fun a p' => Weak (good a) p p') (g < c + 8 * nu p)%nat) ->
  forall p, PInv p ->
  PSpec (parser.many_loop parseFn close n) p (fun xs p' => Cons (Forall good xs) p p')
    (n < c + 1 + 8 * nu p)%nat.
Proof.
  induction n as [|f IH]; intros Hfn p HP; cbn [parser.many_loop]; [ps_step; lia|].
  ps_step. eapply PSpec_conseq; [exact (Hfn f ltac:(lia) p HP) | | intro; lia].
  intros x p1 Hw. ps_step.
  assert (HP1 : PInv p1) by exact (proj1 Hw).
  assert (Hnu1 : (nu p1 < nu p)%nat) by exact (proj1 (proj2 (proj2 Hw))).
  eapply PSpec_conseq; [exact (skip_spec f close p1 HP1) | | intro; lia].
  intros b p2 (Hf & Ht). destruct b.
  - destruct (Ht eq_refl) as [Hk Ha]. ps_step. dweak Hw; [|congruence].
    pose proof (Adv_Cons True p1 p2 HP1 Ha ltac:(congruence) ltac:(congruence) I) as Hc.
    dcons Hc. cons_fin. constructor; [exact Hw | constructor].
  - destruct (Hf eq_refl) as [-> Hk]. ps_step.
    eapply PSpec_conseq; [exact (IH (fun g Hg => Hfn g ltac:(lia)) p1 HP1) | | intro; lia].
    intros xs p3 Hc. dcons Hc. ps_step. dweak Hw; [|contradiction].
    cons_fin. constructor; assumption.
Qed.

Lemma any_spec (n : nat) (open : token.Kind) :
  open <> token.EOF -> open <> token.Float -> (c <= 8)%nat ->
  (forall g, (g < n)%nat -> forall p, PInv p ->
     PSpec (parseFn g) p (fun a p' => Weak (good a) p p') (g < c + 8 * nu p)%nat) ->
  forall p, PInv p ->
  PSpec (parser.any n open parseFn close) p (fun xs p' => Cons (Forall good xs) p p')
    (n < 1 + 8 * nu p)%nat.
Proof.
  intros Ho1 Ho2 Hc8 Hfn p HP. unfold parser.any. ps_step.
  eapply PSpec_conseq; [exact (expect_spec n open p HP Ho1 Ho2) | | auto].
  intros t p1 (_ & _ & _ & Hc1). dcons Hc1.
  eapply PSpec_conseq; [exact (any_loop_spec n Hfn p1 HP0) | | intro; lia].
  intros xs p2 Hc2. dcons Hc2. cons_fin. exact Hc2.
Qed.

Lemma many_spec (n : nat) (open : token.Kind) :
  open <> token.EOF -> open <> token.Float -> (c <= 8)%nat ->
  (forall g, (g < n)%nat -> forall p, PInv p ->
     PSpec (parseFn g) p (fun a p' => Weak (good a) p p') (g < c + 8 * nu p)%nat) ->
  forall p, PInv p ->
  PSpec (parser.many n open parseFn close) p (fun xs p' => Cons (Forall good xs) p p')
    (n < 1 + 8 * nu p)%nat.
Proof.
  intros Ho1 Ho2 Hc8 Hfn p HP. unfold parser.many. ps_step.
  eapply PSpec_conseq; [exact (expect_spec n open p HP Ho1 Ho2) | | auto].
  intros t p1 (_ & _ & _ & Hc1). dcons Hc1.
  eapply PSpec_conseq; [exact (many_loop_spec n Hfn p1 HP0) | | intro; lia].
  intros xs p2 Hc2. dcons Hc2. cons_fin. exact Hc2.
Qed.

End Loops.


Lemma Cons_Weak (g : Prop) (p p' : parser) : Cons g p p' -> Weak g p p'.
Proof.
  intros (A1 & A2 & A3 & A4 & A5 & A6).
  split; [exact A1 | split; [exact A2 | split; [exact A3 | split; [exact A4 | left; split; assumption]]]].
Qed.

Lemma valueOK_List l vs :
  spans.locOK N l -> Forall (spans.valueOK N) vs -> spans.valueOK N (ast.List l vs).
Proof. intros Hl Hv. simpl. split; [exact Hl|]. induction Hv; simpl; auto. Qed.

Lemma valueOK_Object l fs :
  spans.locOK N l -> Forall (spans.objectFieldOK N) fs -> spans.valueOK N (ast.Object l fs).
Proof. intros Hl Hv. simpl. split; [exact Hl|]. induction Hv; simpl; auto. Qed.

Ltac advance_leaf p HP :=
  ps_step; unfold parser.advanceLoc; ps_step;
  eapply PSpec_conseq; [exact (advance_spec _ _ HP) | | pose proof (nu_mu p); intro; lia];
  let a := fresh in let p1 := fresh "p" in let Ha := fresh "Ha" in
  intros a p1 Ha; repeat ps_step.

Lemma parseValueLiteral_spec (n : nat) :
  forall isConst (p : parser), PInv p ->
  PSpec (parser.parseValueLiteral n isConst) p (fun v p' => Weak (spans.valueOK N v) p p')
    (n < 2 + 8 * nu p)%nat.
Proof.
  induction n as [n IH] using lt_wf_ind. intros isConst p HP.
  destruct n as [|f]; cbn [parser.parseValueLiteral]; [ps_step; lia|].
  ps_step. ps_step. pinv HP.
  destruct (token.kind (parser.last p)) eqn:Ek.
  all: try solve [repeat ps_step].
  - (* Dollar *)
    destruct isConst; cbn [negb]; [ps_step|].
    ps_step. eapply PSpec_conseq; [exact (parseVariable_spec f p HP) | | intro; lia].
    intros v p1 Hc. ps_step. apply Cons_Weak. dcons Hc. cons_fin. exact Hc.
  - (* BracketL *)
    ps_step.
    eapply PSpec_conseq;
      [exact (any_spec (fun g => parser.parseValueLiteral g isConst) (spans.valueOK N) 2 token.BracketR
                ltac:(discriminate) ltac:(discriminate) ltac:(lia) f token.BracketL
                ltac:(discriminate) ltac:(discriminate) ltac:(lia)
                (fun g Hg p0 HP0 => IH g ltac:(lia) isConst p0 HP0) p HP) | | intro; lia].
    intros vs p1 Hc. dcons Hc. ps_step. ps_step. apply Cons_Weak.
    pinv HP0. cons_fin. apply valueOK_List; [unfold spans.locOK; cbn [ast.Start ast.End]; lia | exact Hc].
  - (* BraceL *)
    ps_step.
    eapply PSpec_conseq;
      [refine (any_spec _ (spans.objectFieldOK N) 1 token.BraceR
                ltac:(discriminate) ltac:(discriminate) ltac:(lia) f token.BraceL
                ltac:(discriminate) ltac:(discriminate) ltac:(lia) _ p HP) | | intro; lia].
    + intros g Hg p0 HP0. cbv beta. ps_step. ps_step. pinv HP0. ps_step.
      eapply PSpec_conseq; [exact (parseName_spec g p0 HP0) | | auto].
      intros nm p1 Hc1. dcons Hc1. ps_step.
      eapply PSpec_conseq;
        [exact (expect_spec g token.Colon p1 HP1 ltac:(discriminate) ltac:(discriminate)) | | intro; lia].
      intros t p2 (_ & _ & _ & Hc2). dcons Hc2. ps_step.
      eapply PSpec_conseq; [exact (IH g ltac:(lia) isConst p2 HP2) | | intro; lia].
      intros v p3 Hw. ps_step. ps_step. dweak Hw.
      * pinv HP3. unfold measure.Weak. split; [assumption|]. split; [congruence|].
        split; [lia|]. split; [lia|]. left. split; [lia|].
        cbn [spans.objectFieldOK]. split; [unfold spans.locOK; cbn [ast.Start ast.End]; lia|].
        split; assumption.
      * unfold measure.Weak. split; [assumption|]. split; [congruence|].
        split; [lia|]. split; [lia|]. right. exact Heof.
    + intros fs p1 Hc. dcons Hc. ps_step. ps_step. apply Cons_Weak.
      pinv HP0. cons_fin. apply valueOK_Object; [unfold spans.locOK; cbn [ast.Start ast.End]; lia | exact Hc].
  - (* Name *)
    destruct (_ || _).
    + advance_leaf p HP. apply Cons_Weak. apply Adv_Cons; try congruence.
      destruct Ha as (HP1 & _ & _ & _ & Hpe & _). pinv HP1.
      assert (X := PInv_start_end p HP ltac:(congruence)).
      unfold spans.valueOK, spans.locOK; cbn [ast.Start ast.End]; lia.
    + destruct (negb _); [|repeat ps_step].
      advance_leaf p HP. apply Cons_Weak. apply Adv_Cons; try congruence.
      destruct Ha as (HP1 & _ & _ & _ & Hpe & _). pinv HP1.
      assert (X := PInv_start_end p HP ltac:(congruence)).
      unfold spans.valueOK, spans.locOK; cbn [ast.Start ast.End]; lia.
  - (* Int *)
    advance_leaf p HP. apply Cons_Weak. apply Adv_Cons; try congruence.
    destruct Ha as (HP1 & _ & _ & _ & Hpe & _). pinv HP1.
    assert (X := PInv_start_end p HP ltac:(congruence)).
    unfold spans.valueOK, spans.locOK; cbn [ast.Start ast.End]; lia.
  - (* Float *)
    advance_leaf p HP.
    destruct Ha as (HP1 & _ & Hlt & Hst & Hpe & Hse & _). pinv HP1.
    unfold measure.Weak. split; [assumption|]. split; [congruence|]. split; [apply Hlt; congruence|].
    split; [lia|].
    destruct Hse as [Hse | (_ & Hse)]; [left | right; exact Hse].
    split; [lia|]. unfold spans.valueOK, spans.locOK; cbn [ast.Start ast.End]; lia.
  - (* String *)
    advance_leaf p HP. apply Cons_Weak. apply Adv_Cons; try congruence.
    destruct Ha as (HP1 & _ & _ & _ & Hpe & _). pinv HP1.
    assert (X := PInv_start_end p HP ltac:(congruence)).
    unfold spans.valueOK, spans.locOK; cbn [ast.Start ast.End]; lia.
Qed.

Ltac opt_triv := unfold measure.Opt; split; [assumption | split; [left; reflexivity|]].
Ltac opt_fin :=
  unfold measure.Opt; split; [assumption|];
  split; [right; split; [congruence|]; split; [lia|]; split; lia|].
Ltac dopt H :=
  unfold measure.Opt in H;
  destruct H as (?HP & [?Heq | (?Hne & ?Hnu & ?Hst & ?Hpe)] & H); [subst|].
Ltac locok := unfold spans.locOK; cbn [ast.Start ast.End]; lia.

Lemma parseArgument_spec (n : nat) (p : parser) :
  PInv p ->
  PSpec (parser.parseArgument n) p (fun a p' => Weak (spans.argumentOK N a) p p') (n < 1 + 8 * nu p)%nat.
Proof.
  intros HP. unfold parser.parseArgument. ps_step. ps_step. pinv HP. ps_step.
  eapply PSpec_conseq; [exact (parseName_spec n p HP) | | auto].
  intros nm p1 Hc1. dcons Hc1. ps_step.
  eapply PSpec_conseq;
    [exact (expect_spec n token.Colon p1 HP0 ltac:(discriminate) ltac:(discriminate)) | | intro; lia].
  intros t p2 (_ & _ & _ & Hc2). dcons Hc2. ps_step.
  eapply PSpec_conseq; [exact (parseValueLiteral_spec n false p2 HP1) | | intro; lia].
  intros v p3 Hw. ps_step. ps_step. dweak Hw.
  - pinv HP2. unfold measure.Weak. split; [assumption|]. split; [congruence|].
    split; [lia|]. split; [lia|]. left. split; [lia|].
    cbn [spans.argumentOK]. split; [locok|]. split; assumption.
  - unfold measure.Weak. split; [assumption|]. split; [congruence|].
    split; [lia|]. split; [lia|]. right. exact Heof.
Qed.

Lemma parseArguments_spec (n : nat) (p : parser) :
  PInv p ->
  PSpec (parser.parseArguments n) p (fun a p' => Opt (Forall (spans.argumentOK N) a) p p')
    (n < 1 + 8 * nu p)%nat.
Proof.
  intros HP. unfold parser.parseArguments. ps_step. ps_step.
  destruct (token.Kind_eqb _ _); [|ps_step; opt_triv; constructor].
  eapply PSpec_conseq;
    [exact (many_spec parser.parseArgument (spans.argumentOK N) 1 token.ParenR
              ltac:(discriminate) ltac:(discriminate) ltac:(lia) n token.ParenL
              ltac:(discriminate) ltac:(discriminate) ltac:(lia)
              (fun g _ p0 HP0 => parseArgument_spec g p0 HP0) p HP) | | auto].
  intros args p1 Hc. dcons Hc. opt_fin. exact Hc.
Qed.

Lemma parseDirective_spec (n : nat) (p : parser) :
  PInv p ->
  PSpec (parser.parseDirective n) p (fun a p' => Cons (spans.directiveOK N a) p p')
    (n < 1 + 8 * nu p)%nat.
Proof.
  intros HP. unfold parser.parseDirective. ps_step. ps_step. pinv HP. ps_step.
  eapply PSpec_conseq;
    [exact (expect_spec n token.At p HP ltac:(discriminate) ltac:(discriminate)) | | auto].
  intros t p1 (_ & _ & _ & Hc1). dcons Hc1. ps_step.
  eapply PSpec_conseq; [exact (parseName_spec n p1 HP0) | | intro; lia].
  intros nm p2 Hc2. dcons Hc2. ps_step.
  eapply PSpec_conseq; [exact (parseArguments_spec n p2 HP1) | | intro; lia].
  intros args p3 Ho. ps_step. ps_step. dopt Ho.
  - pinv HP2. cons_fin. cbn [spans.directiveOK]. split; [locok|]. split; assumption.
  - pinv HP2. cons_fin. cbn [spans.directiveOK]. split; [locok|]. split; assumption.
Qed.

Lemma parseDirectives_spec (n : nat) :
  forall (p : parser), PInv p ->
  PSpec (parser.parseDirectives n) p (fun a p' => Opt (Forall (spans.directiveOK N) a) p p')
    (n < 2 + 8 * nu p)%nat.
Proof.
  induction n as [|f IH]; intros p HP; cbn [parser.parseDirectives]; [ps_step; lia|].
  ps_step. ps_step.
  destruct (token.Kind_eqb _ _); [|ps_step; opt_triv; constructor].
  ps_step. eapply PSpec_conseq; [exact (parseDirective_spec f p HP) | | intro; lia].
  intros d p1 Hc1. dcons Hc1. ps_step.
  eapply PSpec_conseq; [exact (IH p1 HP0) | | intro; lia].
  intros ds p2 Ho. ps_step. dopt Ho.
  - opt_fin. constructor; assumption.
  - opt_fin. constructor; assumption.
Qed.

Ltac cstep L := eapply PSpec_conseq; [exact L | | intro; lia].

Lemma parseRefType_spec (n : nat) :
  forall (p : parser), PInv p ->
  PSpec (parser.parseRefType n) p (fun a p' => Cons (spans.refTypeOK N a) p p')
    (n < 2 + 8 * nu p)%nat.
Proof.
  induction n as [|f IH]; intros p HP; cbn [parser.parseRefType]; [ps_step; lia|].
  ps_step. ps_step. pinv HP. ps_step.
  cstep (skip_spec f token.BracketL p HP).
  intros b p1 [Hf Ht]. ps_step.
  eapply (PSpec_conseq _ _ (fun t p' => Cons (spans.refTypeOK N t) p p')); [| | exact (fun h => h)].
  - destruct b.
    + destruct (Ht eq_refl) as [Hk (HP1 & _ & Hlt & Hst1 & _ & _ & _)]. clear Hf Ht.
      specialize (Hlt ltac:(congruence)). ps_step.
      cstep (IH p1 HP1). intros et p2 (HP2 & _ & Hnu2 & Hst2 & Hpe2 & Hg2). ps_step.
      cstep (expect_spec f token.BracketR p2 HP2 ltac:(discriminate) ltac:(discriminate)).
      intros t p3 (_ & _ & _ & HP3 & _ & Hnu3 & Hst3 & Hpe3 & _). repeat ps_step.
      pinv HP3. cons_fin. cbn [spans.refTypeOK]. split; [locok | exact Hg2].
    + destruct (Hf eq_refl) as [-> _]. clear Hf Ht.
      ps_step. cstep (parseNamedType_spec f p HP). intros nt p2 Hc. ps_step. exact Hc.
  - clear Hf Ht. intros t p3 (HP3 & Hne & Hnu3 & Hst3 & Hpe3 & Hg3). ps_step.
    cstep (skip_spec f token.Bang p3 HP3). intros b2 p4 [Hf Ht]. destruct b2.
    + destruct (Ht eq_refl) as [Hk (HP4 & _ & Hlt & Hst4 & Hpe4 & _ & _)]. clear Hf Ht.
      specialize (Hlt ltac:(congruence)).
      pose proof (PInv_start_end p3 HP3 ltac:(congruence)). repeat ps_step.
      pinv HP4. cons_fin. cbn [spans.refTypeOK]. split; [locok | exact Hg3].
    + destruct (Hf eq_refl) as [-> _]. clear Hf Ht. ps_step. cons_fin. exact Hg3.
Qed.

Lemma selectionSetOK_mk l sels :
  spans.locOK N l -> Forall (spans.selectionOK N) sels ->
  spans.selectionSetOK N (ast.mkSelectionSet l sels).
Proof. intros Hl Hv. simpl. split; [exact Hl|]. induction Hv; simpl; auto. Qed.

Lemma zeroLoc_OK (p : parser) : PInv p -> spans.locOK N ast.zeroLoc.
Proof. intro HP. pose proof (PInv_N p HP). unfold spans.locOK, ast.zeroLoc; cbn; lia. Qed.

Ltac cfin := unfold measure.Cons; repeat (split; [first [assumption | lia] |]); first [assumption | lia].

Lemma Cons_PInv g (p p' : parser) : Cons g p p' -> PInv p'.
Proof. intros H0; apply H0. Qed.

Lemma Opt_PInv g (p p' : parser) : Opt g p p' -> PInv p'.
Proof. intros H0; apply H0. Qed.

Lemma Adv_PInv (p p' : parser) : Adv p p' -> PInv p'.
Proof. intros H0; apply H0. Qed.

Lemma Cons_good g (p p' : parser) : Cons g p p' -> g.
Proof. intros (_ & _ & _ & _ & _ & H0); exact H0. Qed.

Lemma Opt_good g (p p' : parser) : Opt g p p' -> g.
Proof. intros (_ & _ & H0); exact H0. Qed.

Lemma Opt_le g (p p' : parser) : Opt g p p' ->
  (nu p' <= nu p)%nat /\ token.Start (parser.last p) <= token.Start (parser.last p').
Proof. intros (_ & [-> | (_ & A & B & _)] & _); lia. Qed.

Lemma Cons_with g g' (p p' : parser) : Cons g p p' -> g' -> Cons g' p p'.
Proof. intros (A & B & C & D & E & _) G; cfin. Qed.

Lemma Cons_Cons g g' (p p1 p2 : parser) : Cons g p p1 -> Cons g' p1 p2 -> Cons g p p2.
Proof.
  intros (_ & B & C & D & E & G) (A' & _ & C' & D' & E' & _).
  cfin.
Qed.

Lemma Cons_Opt g g' (p p1 p2 : parser) : Cons g p p1 -> Opt g' p1 p2 -> Cons g p p2.
Proof.
  intros (_ & B & C & D & E & G) (A' & [-> | (_ & C' & D' & E')] & _).
  - cfin.
  - cfin.
Qed.

Lemma Cons_to_Opt g (p p' : parser) : Cons g p p' -> Opt g p p'.
Proof.
  intros (A & B & C & D & E & G). split; [exact A|]. split; [right; repeat (split; [assumption|]); assumption | exact G].
Qed.

Lemma Adv_Cons_trans g (p1 p2 p3 : parser) : Adv p1 p2 -> Cons g p2 p3 -> Cons g p1 p3.
Proof.
  intros (_ & A2 & A3 & A4 & _ & _ & A7) (B1 & B2 & B3 & B4 & B5 & B6).
  assert (K : token.kind (parser.last p1) <> token.EOF) by (intro K; exact (B2 (A7 K))).
  cfin.
Qed.

Lemma Cons_loc g (p p' : parser) : PInv p -> Cons g p p' ->
  spans.locOK N (ast.mkLoc (token.Start (parser.last p)) (parser.prevEnd p')).
Proof.
  intros HP (HP' & _ & _ & _ & E & _). pinv HP. pinv HP'. locok.
Qed.

Ltac cfacts H := let X := fresh in pose proof H as X; unfold measure.Cons in X;
  destruct X as (_ & _ & ? & ? & ? & _).
Ltac ofacts H := let X := fresh in pose proof (Opt_le _ _ _ H) as [? ?].
Ltac afacts H := let X := fresh in pose proof H as X; unfold measure.Adv in X;
  destruct X as (_ & ? & ? & ? & ? & _ & _).

Lemma zeroName_OK (p : parser) : PInv p -> spans.nameOK N ast.zeroName.
Proof. exact (zeroLoc_OK p). Qed.

Lemma selection_spec (n : nat) :
  (forall p, PInv p -> PSpec (parser.parseSelectionSet n) p
     (fun a p' => Cons (spans.selectionSetOK N a) p p') (n < 2 + 8 * nu p)%nat) /\
  (forall p, PInv p -> PSpec (parser.parseSelection n) p
     (fun a p' => Cons (spans.selectionOK N a) p p') (n < 3 + 8 * nu p)%nat) /\
  (forall p, PInv p -> PSpec (parser.parseField n) p
     (fun a p' => Cons (spans.selectionOK N a) p p') (n < 2 + 8 * nu p)%nat) /\
  (forall p, PInv p -> PSpec (parser.parseFragment n) p
     (fun a p' => Cons (spans.selectionOK N a) p p') (n < 2 + 8 * nu p)%nat).
Proof.
  induction n as [n IH] using lt_wf_ind. destruct n as [|f].
  { repeat split; intros p HP; cbn [parser.parseSelectionSet parser.parseSelection parser.parseField parser.parseFragment]; ps_step; lia. }
  destruct (IH f ltac:(lia)) as (ISS & ISel & IFd & IFr).
  split; [|split; [|split]]; intros p HP.
  - (* parseSelectionSet *)
    cbn [parser.parseSelectionSet]. ps_step. ps_step. pinv HP. ps_step.
    cstep (many_spec parser.parseSelection (spans.selectionOK N) 3 token.BraceR
             ltac:(discriminate) ltac:(discriminate) ltac:(lia) f token.BraceL
             ltac:(discriminate) ltac:(discriminate) ltac:(lia)
             (fun g Hg p0 HP0 =>
                PSpec_conseq _ _ _ _ _ _ (proj1 (proj2 (IH g (Nat.lt_lt_succ_r _ _ Hg))) p0 HP0)
                  (fun a p' Hc => Cons_Weak _ _ _ Hc) (fun h => h)) p HP).
    intros sels p1 Hc. repeat ps_step. apply (Cons_with _ _ _ _ Hc).
    apply selectionSetOK_mk; [exact (Cons_loc _ _ _ HP Hc) | exact (Cons_good _ _ _ Hc)].
  - (* parseSelection *)
    cbn [parser.parseSelection]. ps_step. ps_step.
    destruct (token.Kind_eqb _ _); [cstep (IFr p HP) | cstep (IFd p HP)]; auto.
  - (* parseField *)
    cbn [parser.parseField]. ps_step. ps_step. ps_step.
    cstep (parseName_spec f p HP). intros nm p1 Hc1. cfacts Hc1. ps_step.
    cstep (skip_spec f token.Colon p1 (Cons_PInv _ _ _ Hc1)). intros b p2 [Hf Ht]. ps_step.
    eapply (PSpec_conseq _ _
      (fun an p' => Cons (spans.nameOK N (fst an) /\ spans.nameOK N (snd an)) p p'));
      [| | exact (fun h => h)].
    + destruct b.
      * destruct (Ht eq_refl) as [Hk Ha]. afacts Ha. ps_step.
        cstep (parseName_spec f p2 (Adv_PInv _ _ Ha)). intros nm2 p3 Hc3. ps_step.
        apply (Cons_with _ _ _ _ (Cons_Cons _ _ _ _ _ Hc1 (Cons_Cons _ _ _ _ _
                 (Adv_Cons True p1 p2 (Cons_PInv _ _ _ Hc1) Ha ltac:(congruence) ltac:(congruence) I) Hc3))).
        cbn [fst snd]. split; [exact (Cons_good _ _ _ Hc1) | exact (Cons_good _ _ _ Hc3)].
      * destruct (Hf eq_refl) as [-> _]. ps_step. apply (Cons_with _ _ _ _ Hc1).
        cbn [fst snd]. split; [exact (zeroName_OK p HP) | exact (Cons_good _ _ _ Hc1)].
    + clear Hf Ht. intros an p3 Hc3. cfacts Hc3. ps_step.
      cstep (parseArguments_spec f p3 (Cons_PInv _ _ _ Hc3)). intros args p4 Ho4. ofacts Ho4. ps_step.
      cstep (parseDirectives_spec f p4 (Opt_PInv _ _ _ Ho4)). intros dirs p5 Ho5. ofacts Ho5.
      ps_step. ps_step. ps_step.
      eapply (PSpec_conseq _ _ (fun ss p' => Opt (spans.selectionSetOK N ss) p5 p'));
        [| | exact (fun h => h)].
      * destruct (token.Kind_eqb _ _).
        -- cstep (ISS p5 (Opt_PInv _ _ _ Ho5)). intros ss p6 Hc6. exact (Cons_to_Opt _ _ _ Hc6).
        -- ps_step. unfold measure.Opt. split; [exact (Opt_PInv _ _ _ Ho5) | split; [left; reflexivity|]]. apply selectionSetOK_mk; [exact (zeroLoc_OK p HP) | constructor].
      * intros ss p6 Ho6. ps_step. ps_step.
        pose proof (Cons_Opt _ _ _ _ _ (Cons_Opt _ _ _ _ _ (Cons_Opt _ _ _ _ _ Hc3 Ho4) Ho5) Ho6) as Hc.
        apply (Cons_with _ _ _ _ Hc). destruct (Cons_good _ _ _ Hc3) as [Ga Gn].
        cbn [spans.selectionOK ast.Start ast.End]. split; [exact (Cons_loc _ _ _ HP Hc)|].
        split; [exact Ga|]. split; [exact Gn|]. split; [exact (Opt_good _ _ _ Ho4)|].
        split; [exact (Opt_good _ _ _ Ho5) | exact (Opt_good _ _ _ Ho6)].
  - (* parseFragment *)
    cbn [parser.parseFragment]. ps_step. ps_step. ps_step.
    cstep (expect_spec f token.Spread p HP ltac:(discriminate) ltac:(discriminate)).
    intros t1 p1 (_ & _ & _ & Hc1). cfacts Hc1. ps_step. ps_step.
    destruct (_ && _).
    + ps_step. cstep (parseFragmentName_spec f p1 (Cons_PInv _ _ _ Hc1)). intros nm p2 Hc2.
      cfacts Hc2. ps_step.
      cstep (parseDirectives_spec f p2 (Cons_PInv _ _ _ Hc2)). intros ds p3 Ho3. ps_step. ps_step.
      pose proof (Cons_Opt _ _ _ _ _ (Cons_Cons _ _ _ _ _ Hc1 Hc2) Ho3) as Hc.
      apply (Cons_with _ _ _ _ Hc). cbn [spans.selectionOK].
      split; [exact (Cons_loc _ _ _ HP Hc)|].
      split; [exact (Cons_good _ _ _ Hc2) | exact (Opt_good _ _ _ Ho3)].
    + ps_step.
      eapply (PSpec_conseq _ _ (fun nt p' => Opt (spans.nameOK N nt) p1 p'));
        [| | exact (fun h => h)].
      * destruct (String.eqb _ _).
        -- ps_step. pose proof (nu_mu p1).
           cstep (advance_spec f p1 (Cons_PInv _ _ _ Hc1)). intros [] p2 Ha. afacts Ha.
           cstep (parseNamedType_spec f p2 (Adv_PInv _ _ Ha)). intros nt p3 Hc3.
           exact (Cons_to_Opt _ _ _ (Adv_Cons_trans _ _ _ _ Ha Hc3)).
        -- ps_step. unfold measure.Opt. split; [exact (Cons_PInv _ _ _ Hc1) | split; [left; reflexivity|]]. exact (zeroName_OK p HP).
      * intros nt p2 Ho2. ofacts Ho2. ps_step.
        cstep (parseDirectives_spec f p2 (Opt_PInv _ _ _ Ho2)). intros ds p3 Ho3. ofacts Ho3.
        ps_step. cstep (ISS p3 (Opt_PInv _ _ _ Ho3)). intros ss p4 Hc4. ps_step. ps_step.
        pose proof (Cons_Cons _ _ _ _ _ (Cons_Opt _ _ _ _ _ (Cons_Opt _ _ _ _ _ Hc1 Ho2) Ho3) Hc4) as Hc.
        apply (Cons_with _ _ _ _ Hc). cbn [spans.selectionOK].
        split; [exact (Cons_loc _ _ _ HP Hc)|]. split; [exact (Opt_good _ _ _ Ho2)|].
        split; [exact (Opt_good _ _ _ Ho3) | exact (Cons_good _ _ _ Hc4)].
Qed.

Lemma Cons_end g g' (p p' : parser) : PInv p -> Cons g p p' ->
  (spans.locOK N (ast.mkLoc (token.Start (parser.last p)) (parser.prevEnd p')) -> g -> g') ->
  Cons g' p p'.
Proof.
  intros HP Hc Hg. apply (Cons_with _ _ _ _ Hc).
  exact (Hg (Cons_loc _ _ _ HP Hc) (Cons_good _ _ _ Hc)).
Qed.

Lemma Cons_Adv_any g (p p1 p2 : parser) : Cons g p p1 -> Adv p1 p2 ->
  token.kind (parser.last p1) <> token.Float -> Cons g p p2.
Proof.
  intros Hc Ha Hf. pose proof (PInv_start_end p1 (Cons_PInv _ _ _ Hc) Hf).
  destruct Hc as (_ & B & C & D & E & G). destruct Ha as (A' & B' & _ & D' & E' & _).
  cfin.
Qed.

Lemma Cons_Weak_end g g' g'' (p p1 p2 : parser) : PInv p -> Cons g p p1 -> Weak g' p1 p2 ->
  (spans.locOK N (ast.mkLoc (token.Start (parser.last p)) (parser.prevEnd p2)) -> g -> g' -> g'') ->
  Weak g'' p p2.
Proof.
  intros HP Hc (A' & _ & C' & D' & W) Hg. pose proof Hc as (_ & B & C & D & E & G).
  unfold measure.Weak. split; [exact A'|]. split; [exact B|]. split; [lia|]. split; [lia|].
  destruct W as [(E' & G') | W]; [left | right; exact W].
  split; [lia|]. apply Hg; [|exact G | exact G']. pinv HP. pinv A'. locok.
Qed.

Lemma parseVarDef_spec (n : nat) (p : parser) :
  PInv p ->
  PSpec (parser.parseVarDef n) p (fun a p' => Weak (spans.varDefOK N a) p p') (n < 1 + 8 * nu p)%nat.
Proof.
  intros HP. unfold parser.parseVarDef. ps_step. ps_step. ps_step.
  cstep (parseVariable_spec n p HP). intros v p1 Hc1. cfacts Hc1. ps_step.
  cstep (expect_spec n token.Colon p1 (Cons_PInv _ _ _ Hc1) ltac:(discriminate) ltac:(discriminate)).
  intros t p2 (_ & _ & _ & Hc2). cfacts Hc2. ps_step.
  cstep (parseRefType_spec n p2 (Cons_PInv _ _ _ Hc2)). intros rt p3 Hc3. cfacts Hc3.
  pose proof (Cons_Cons _ _ _ _ _ (Cons_Cons _ _ _ _ _ Hc1 Hc2) Hc3) as Hc. ps_step.
  cstep (skip_spec n token.Equals p3 (Cons_PInv _ _ _ Hc3)). intros b p4 [Hf Ht]. ps_step.
  destruct b.
  - destruct (Ht eq_refl) as [Hk Ha]. clear Hf Ht. afacts Ha.
    pose proof (Cons_Adv_any _ _ _ _ Hc Ha ltac:(congruence)) as Hc4. ps_step.
    cstep (parseValueLiteral_spec n true p4 (Adv_PInv _ _ Ha)). intros dv p5 Hw. repeat ps_step.
    apply (Cons_Weak_end _ _ _ _ _ _ HP Hc4 Hw). intros Hl G G'. cbn [spans.varDefOK].
    split; [exact Hl|]. split; [exact G|]. split; [exact (Cons_good _ _ _ Hc3) | exact G'].
  - destruct (Hf eq_refl) as [-> _]. clear Hf Ht. repeat ps_step.
    apply Cons_Weak. apply (Cons_end _ _ _ _ HP Hc). intros Hl G. cbn [spans.varDefOK].
    split; [exact Hl|]. split; [exact G|]. split; [exact (Cons_good _ _ _ Hc3) | exact I].
Qed.

Lemma parseVarDefs_spec (n : nat) (p : parser) :
  PInv p ->
  PSpec (parser.parseVarDefs n) p (fun a p' => Opt (Forall (spans.varDefOK N) a) p p')
    (n < 1 + 8 * nu p)%nat.
Proof.
  intros HP. unfold parser.parseVarDefs. ps_step. ps_step.
  destruct (token.Kind_eqb _ _); [|ps_step; opt_triv; constructor].
  cstep (many_spec parser.parseVarDef (spans.varDefOK N) 1 token.ParenR
           ltac:(discriminate) ltac:(discriminate) ltac:(lia) n token.ParenL
           ltac:(discriminate) ltac:(discriminate) ltac:(lia)
           (fun g _ p0 HP0 => parseVarDef_spec g p0 HP0) p HP).
  intros vds p1 Hc. exact (Cons_to_Opt _ _ _ Hc).
Qed.

Lemma parseOpDef_spec (n : nat) (p : parser) :
  PInv p ->
  PSpec (parser.parseOpDef n) p (fun a p' => Cons (spans.defOK N a) p p') (n < 2 + 8 * nu p)%nat.
Proof.
  intros HP. pose proof (proj1 (selection_spec n)) as SS.
  unfold parser.parseOpDef. ps_step. ps_step.
  destruct (token.Kind_eqb _ _).
  - ps_step. cstep (SS p HP). intros ss p1 Hc1. repeat ps_step.
    apply (Cons_end _ _ _ _ HP Hc1). intros Hl G. cbn [spans.defOK].
    split; [exact Hl|]. split; [exact (zeroName_OK p HP)|].
    split; [constructor|]. split; [constructor | exact G].
  - ps_step. cstep (expect_spec n token.Name p HP ltac:(discriminate) ltac:(discriminate)).
    intros t p1 (_ & _ & _ & Hc1). cfacts Hc1. cbv beta.
    destruct (parser.parseOperation _); [|ps_step].
    ps_step. ps_step. ps_step.
    eapply (PSpec_conseq _ _ (fun nm p' => Opt (spans.nameOK N nm) p1 p')); [| | exact (fun h => h)].
    + destruct (token.Kind_eqb _ _).
      * cstep (parseName_spec n p1 (Cons_PInv _ _ _ Hc1)). intros nm p2 Hc2.
        exact (Cons_to_Opt _ _ _ Hc2).
      * ps_step. unfold measure.Opt. split; [exact (Cons_PInv _ _ _ Hc1)|].
        split; [left; reflexivity | exact (zeroName_OK p HP)].
    + intros nm p2 Ho2. ofacts Ho2. ps_step.
      cstep (parseVarDefs_spec n p2 (Opt_PInv _ _ _ Ho2)). intros vds p3 Ho3. ofacts Ho3. ps_step.
      cstep (parseDirectives_spec n p3 (Opt_PInv _ _ _ Ho3)). intros ds p4 Ho4. ofacts Ho4. ps_step.
      cstep (SS p4 (Opt_PInv _ _ _ Ho4)). intros ss p5 Hc5. repeat ps_step.
      pose proof (Cons_Cons _ _ _ _ _
        (Cons_Opt _ _ _ _ _ (Cons_Opt _ _ _ _ _ (Cons_Opt _ _ _ _ _ Hc1 Ho2) Ho3) Ho4) Hc5) as Hc.
      apply (Cons_end _ _ _ _ HP Hc). intros Hl _. cbn [spans.defOK].
      split; [exact Hl|]. split; [exact (Opt_good _ _ _ Ho2)|].
      split; [exact (Opt_good _ _ _ Ho3)|].
      split; [exact (Opt_good _ _ _ Ho4) | exact (Cons_good _ _ _ Hc5)].
Qed.

Lemma parseFragmentDef_spec (n : nat) (p : parser) :
  PInv p ->
  PSpec (parser.parseFragmentDef n) p (fun a p' => Cons (spans.defOK N a) p p') (n < 1 + 8 * nu p)%nat.
Proof.
  intros HP. pose proof (proj1 (selection_spec n)) as SS.
  unfold parser.parseFragmentDef. ps_step. ps_step. ps_step.
  cstep (expectKeyword_spec n "fragment" p HP). intros t1 p1 (_ & _ & _ & Hc1). cfacts Hc1. ps_step.
  cstep (parseFragmentName_spec n p1 (Cons_PInv _ _ _ Hc1)). intros nm p2 Hc2. cfacts Hc2. ps_step.
  cstep (expectKeyword_spec n "on" p2 (Cons_PInv _ _ _ Hc2)). intros t3 p3 (_ & _ & _ & Hc3).
  cfacts Hc3. ps_step.
  cstep (parseNamedType_spec n p3 (Cons_PInv _ _ _ Hc3)). intros tc p4 Hc4. cfacts Hc4. ps_step.
  cstep (parseDirectives_spec n p4 (Cons_PInv _ _ _ Hc4)). intros ds p5 Ho5. ofacts Ho5. ps_step.
  cstep (SS p5 (Opt_PInv _ _ _ Ho5)). intros ss p6 Hc6. repeat ps_step.
  pose proof (Cons_Cons _ _ _ _ _ (Cons_Opt _ _ _ _ _ (Cons_Cons _ _ _ _ _ (Cons_Cons _ _ _ _ _
    (Cons_Cons _ _ _ _ _ Hc1 Hc2) Hc3) Hc4) Ho5) Hc6) as Hc.
  apply (Cons_end _ _ _ _ HP Hc). intros Hl _. cbn [spans.defOK].
  split; [exact Hl|]. split; [exact (Cons_good _ _ _ Hc2)|]. split; [exact (Cons_good _ _ _ Hc4)|].
  split; [exact (Opt_good _ _ _ Ho5) | exact (Cons_good _ _ _ Hc6)].
Qed.

Lemma implements_loop_spec (n : nat) :
  forall (p : parser), PInv p ->
  PSpec (parser.implements_loop n) p (fun a p' => Opt (Forall (spans.nameOK N) a) p p')
    (n < 2 + 8 * nu p)%nat.
Proof.
  induction n as [|f IH]; intros p HP; cbn [parser.implements_loop]; [ps_step; lia|].
  ps_step. ps_step.
  destruct (token.kind (parser.last p)) eqn:Ek; try solve [ps_step; opt_triv; constructor].
  all: ps_step; cstep (parseNamedType_spec f p HP); intros nt p1 Hc1; cfacts Hc1; ps_step;
    cstep (IH p1 (Cons_PInv _ _ _ Hc1)); intros nts p2 Ho2; ps_step;
    apply Cons_to_Opt; apply (Cons_with _ _ _ _ (Cons_Opt _ _ _ _ _ Hc1 Ho2));
    constructor; [exact (Cons_good _ _ _ Hc1) | exact (Opt_good _ _ _ Ho2)].
Qed.

Lemma parseImplementsInterfaces_spec (n : nat) (p : parser) :
  PInv p ->
  PSpec (parser.parseImplementsInterfaces n) p
    (fun a p' => Opt (Forall (spans.nameOK N) a) p p') (n < 1 + 8 * nu p)%nat.
Proof.
  intros HP. unfold parser.parseImplementsInterfaces. ps_step. ps_step.
  destruct (String.eqb _ _); [|ps_step; opt_triv; constructor].
  ps_step. pose proof (nu_mu p). cstep (advance_spec n p HP). intros [] p1 Ha. afacts Ha. ps_step.
  cstep (parseNamedType_spec n p1 (Adv_PInv _ _ Ha)). intros nt p2 Hc2.
  pose proof (Adv_Cons_trans _ _ _ _ Ha Hc2) as Hc. cfacts Hc. ps_step.
  cstep (implements_loop_spec n p2 (Cons_PInv _ _ _ Hc)). intros nts p3 Ho3. ps_step.
  apply Cons_to_Opt. apply (Cons_with _ _ _ _ (Cons_Opt _ _ _ _ _ Hc Ho3)).
  constructor; [exact (Cons_good _ _ _ Hc) | exact (Opt_good _ _ _ Ho3)].
Qed.

Lemma parseInputValueDef_spec (n : nat) (p : parser) :
  PInv p ->
  PSpec (parser.parseInputValueDef n) p (fun a p' => Weak (spans.inputValueDefOK N a) p p')
    (n < 1 + 8 * nu p)%nat.
Proof.
  intros HP. unfold parser.parseInputValueDef. ps_step. ps_step. ps_step.
  cstep (parseName_spec n p HP). intros v p1 Hc1. cfacts Hc1. ps_step.
  cstep (expect_spec n token.Colon p1 (Cons_PInv _ _ _ Hc1) ltac:(discriminate) ltac:(discriminate)).
  intros t p2 (_ & _ & _ & Hc2). cfacts Hc2. ps_step.
  cstep (parseRefType_spec n p2 (Cons_PInv _ _ _ Hc2)). intros rt p3 Hc3. cfacts Hc3.
  pose proof (Cons_Cons _ _ _ _ _ (Cons_Cons _ _ _ _ _ Hc1 Hc2) Hc3) as Hc. ps_step.
  cstep (skip_spec n token.Equals p3 (Cons_PInv _ _ _ Hc3)). intros b p4 [Hf Ht]. ps_step.
  destruct b.
  - destruct (Ht eq_refl) as [Hk Ha]. clear Hf Ht. afacts Ha.
    pose proof (Cons_Adv_any _ _ _ _ Hc Ha ltac:(congruence)) as Hc4. ps_step.
    cstep (parseValueLiteral_spec n true p4 (Adv_PInv _ _ Ha)). intros dv p5 Hw. repeat ps_step.
    apply (Cons_Weak_end _ _ _ _ _ _ HP Hc4 Hw). intros Hl G G'. cbn [spans.inputValueDefOK].
    split; [exact Hl|]. split; [exact G|]. split; [exact (Cons_good _ _ _ Hc3) | exact G'].
  - destruct (Hf eq_refl) as [-> _]. clear Hf Ht. repeat ps_step.
    apply Cons_Weak. apply (Cons_end _ _ _ _ HP Hc). intros Hl G. cbn [spans.inputValueDefOK].
    split; [exact Hl|]. split; [exact G|]. split; [exact (Cons_good _ _ _ Hc3) | exact I].
Qed.

Lemma parseArgumentsDef_spec (n : nat) (p : parser) :
  PInv p ->
  PSpec (parser.parseArgumentsDef n) p
    (fun a p' => Opt (Forall (spans.inputValueDefOK N) a) p p') (n < 1 + 8 * nu p)%nat.
Proof.
  intros HP. unfold parser.parseArgumentsDef. ps_step. ps_step.
  destruct (token.Kind_eqb _ _); cbn [negb]; [|ps_step; opt_triv; constructor].
  cstep (many_spec parser.parseInputValueDef (spans.inputValueDefOK N) 1 token.ParenR
           ltac:(discriminate) ltac:(discriminate) ltac:(lia) n token.ParenL
           ltac:(discriminate) ltac:(discriminate) ltac:(lia)
           (fun g _ p0 HP0 => parseInputValueDef_spec g p0 HP0) p HP).
  intros vds p1 Hc. exact (Cons_to_Opt _ _ _ Hc).
Qed.

Lemma parseFieldDef_spec (n : nat) (p : parser) :
  PInv p ->
  PSpec (parser.parseFieldDef n) p (fun a p' => Cons (spans.fieldDefOK N a) p p')
    (n < 1 + 8 * nu p)%nat.
Proof.
  intros HP. unfold parser.parseFieldDef. ps_step. ps_step. ps_step.
  cstep (parseName_spec n p HP). intros nm p1 Hc1. cfacts Hc1. ps_step.
  cstep (parseArgumentsDef_spec n p1 (Cons_PInv _ _ _ Hc1)). intros args p2 Ho2. ofacts Ho2. ps_step.
  cstep (expect_spec n token.Colon p2 (Opt_PInv _ _ _ Ho2) ltac:(discriminate) ltac:(discriminate)).
  intros t p3 (_ & _ & _ & Hc3). cfacts Hc3. ps_step.
  cstep (parseRefType_spec n p3 (Cons_PInv _ _ _ Hc3)). intros rt p4 Hc4. repeat ps_step.
  pose proof (Cons_Cons _ _ _ _ _ (Cons_Cons _ _ _ _ _ (Cons_Opt _ _ _ _ _ Hc1 Ho2) Hc3) Hc4) as Hc.
  apply (Cons_end _ _ _ _ HP Hc). intros Hl G. cbn [spans.fieldDefOK].
  split; [exact Hl|]. split; [exact G|].
  split; [exact (Opt_good _ _ _ Ho2) | exact (Cons_good _ _ _ Hc4)].
Qed.

Lemma parseObjTypeDef_spec (n : nat) (Start : Z) (p : parser) :
  PInv p -> 0 <= Start <= token.Start (parser.last p) ->
  PSpec (parser.parseObjTypeDef n Start) p (fun a p' => Cons (spans.objTypeDefOK N a) p p')
    (n < 1 + 8 * nu p)%nat.
Proof.
  intros HP HS. unfold parser.parseObjTypeDef. ps_step.
  cstep (expectKeyword_spec n "type" p HP). intros t1 p1 (_ & _ & _ & Hc1). cfacts Hc1. ps_step.
  cstep (parseName_spec n p1 (Cons_PInv _ _ _ Hc1)). intros nm p2 Hc2. cfacts Hc2. ps_step.
  cstep (parseImplementsInterfaces_spec n p2 (Cons_PInv _ _ _ Hc2)). intros is p3 Ho3.
  ofacts Ho3. ps_step.
  cstep (any_spec parser.parseFieldDef (spans.fieldDefOK N) 1 token.BraceR
           ltac:(discriminate) ltac:(discriminate) ltac:(lia) n token.BraceL
           ltac:(discriminate) ltac:(discriminate) ltac:(lia)
           (fun g _ p0 HP0 => PSpec_conseq _ _ _ _ _ _ (parseFieldDef_spec g p0 HP0)
                                (fun a p' Hc => Cons_Weak _ _ _ Hc) (fun h => h))
           p3 (Opt_PInv _ _ _ Ho3)).
  intros fds p4 Hc4. repeat ps_step.
  pose proof (Cons_Cons _ _ _ _ _ (Cons_Opt _ _ _ _ _ (Cons_Cons _ _ _ _ _ Hc1 Hc2) Ho3) Hc4) as Hc.
  apply (Cons_end _ _ _ _ HP Hc). intros Hl _. cbn [spans.objTypeDefOK].
  split; [unfold spans.locOK in *; cbn [ast.Start ast.End] in *; lia|].
  split; [exact (Cons_good _ _ _ Hc2)|].
  split; [exact (Opt_good _ _ _ Ho3) | exact (Cons_good _ _ _ Hc4)].
Qed.

Lemma parseInterfaceTypeDef_spec (n : nat) (p : parser) :
  PInv p ->
  PSpec (parser.parseInterfaceTypeDef n) p (fun a p' => Cons (spans.typeDefOK N a) p p')
    (n < 1 + 8 * nu p)%nat.
Proof.
  intros HP. unfold parser.parseInterfaceTypeDef. ps_step. ps_step. ps_step.
  cstep (expectKeyword_spec n "interface" p HP). intros t1 p1 (_ & _ & _ & Hc1). cfacts Hc1. ps_step.
  cstep (parseName_spec n p1 (Cons_PInv _ _ _ Hc1)). intros nm p2 Hc2. cfacts Hc2. ps_step.
  cstep (any_spec parser.parseFieldDef (spans.fieldDefOK N) 1 token.BraceR
           ltac:(discriminate) ltac:(discriminate) ltac:(lia) n token.BraceL
           ltac:(discriminate) ltac:(discriminate) ltac:(lia)
           (fun g _ p0 HP0 => PSpec_conseq _ _ _ _ _ _ (parseFieldDef_spec g p0 HP0)
                                (fun a p' Hc => Cons_Weak _ _ _ Hc) (fun h => h))
           p2 (Cons_PInv _ _ _ Hc2)).
  intros fds p3 Hc3. repeat ps_step.
  pose proof (Cons_Cons _ _ _ _ _ (Cons_Cons _ _ _ _ _ Hc1 Hc2) Hc3) as Hc.
  apply (Cons_end _ _ _ _ HP Hc). intros Hl _. cbn [spans.typeDefOK].
  split; [exact Hl|]. split; [exact (Cons_good _ _ _ Hc2) | exact (Cons_good _ _ _ Hc3)].
Qed.

Lemma unionMembers_loop_spec (n : nat) :
  forall (p : parser), PInv p ->
  PSpec (parser.unionMembers_loop n) p (fun a p' => Cons (Forall (spans.nameOK N) a) p p')
    (n < 2 + 8 * nu p)%nat.
Proof.
  induction n as [|f IH]; intros p HP; cbn [parser.unionMembers_loop]; [ps_step; lia|].
  ps_step. cstep (parseNamedType_spec f p HP). intros nt p1 Hc1. cfacts Hc1. ps_step.
  cstep (skip_spec f token.Pipe p1 (Cons_PInv _ _ _ Hc1)). intros b p2 [Hf Ht]. destruct b.
  - destruct (Ht eq_refl) as [Hk Ha]. clear Hf Ht. afacts Ha. ps_step.
    cstep (IH p2 (Adv_PInv _ _ Ha)). intros nts p3 Hc3. ps_step.
    apply (Cons_with _ _ _ _ (Cons_Cons _ _ _ _ _ (Cons_Adv_any _ _ _ _ Hc1 Ha ltac:(congruence)) Hc3)).
    constructor; [exact (Cons_good _ _ _ Hc1) | exact (Cons_good _ _ _ Hc3)].
  - destruct (Hf eq_refl) as [-> _]. ps_step. apply (Cons_with _ _ _ _ Hc1).
    constructor; [exact (Cons_good _ _ _ Hc1) | constructor].
Qed.

Lemma parseUnionTypeDef_spec (n : nat) (p : parser) :
  PInv p ->
  PSpec (parser.parseUnionTypeDef n) p (fun a p' => Cons (spans.typeDefOK N a) p p')
    (n < 1 + 8 * nu p)%nat.
Proof.
  intros HP. unfold parser.parseUnionTypeDef. ps_step. ps_step. ps_step.
  cstep (expectKeyword_spec n "union" p HP). intros t1 p1 (_ & _ & _ & Hc1). cfacts Hc1. ps_step.
  cstep (parseName_spec n p1 (Cons_PInv _ _ _ Hc1)). intros nm p2 Hc2. cfacts Hc2. ps_step.
  cstep (expect_spec n token.Equals p2 (Cons_PInv _ _ _ Hc2) ltac:(discriminate) ltac:(discriminate)).
  intros t3 p3 (_ & _ & _ & Hc3). cfacts Hc3. ps_step. unfold parser.parseUnionMembers.
  cstep (unionMembers_loop_spec n p3 (Cons_PInv _ _ _ Hc3)). intros nts p4 Hc4. repeat ps_step.
  pose proof (Cons_Cons _ _ _ _ _ (Cons_Cons _ _ _ _ _ (Cons_Cons _ _ _ _ _ Hc1 Hc2) Hc3) Hc4) as Hc.
  apply (Cons_end _ _ _ _ HP Hc). intros Hl _. cbn [spans.typeDefOK].
  split; [exact Hl|]. split; [exact (Cons_good _ _ _ Hc2) | exact (Cons_good _ _ _ Hc4)].
Qed.

Lemma parseScalarTypeDef_spec (n : nat) (p : parser) :
  PInv p ->
  PSpec (parser.parseScalarTypeDef n) p (fun a p' => Cons (spans.typeDefOK N a) p p')
    (n < 1 + 8 * nu p)%nat.
Proof.
  intros HP. unfold parser.parseScalarTypeDef. ps_step. ps_step. ps_step.
  cstep (expectKeyword_spec n "scalar" p HP). intros t1 p1 (_ & _ & _ & Hc1). cfacts Hc1. ps_step.
  cstep (parseName_spec n p1 (Cons_PInv _ _ _ Hc1)). intros nm p2 Hc2. repeat ps_step.
  pose proof (Cons_Cons _ _ _ _ _ Hc1 Hc2) as Hc.
  apply (Cons_end _ _ _ _ HP Hc). intros Hl _. cbn [spans.typeDefOK].
  split; [exact Hl | exact (Cons_good _ _ _ Hc2)].
Qed.

Lemma parseEnumTypeDef_spec (n : nat) (p : parser) :
  PInv p ->
  PSpec (parser.parseEnumTypeDef n) p (fun a p' => Cons (spans.typeDefOK N a) p p')
    (n < 1 + 8 * nu p)%nat.
Proof.
  intros HP. unfold parser.parseEnumTypeDef. ps_step. ps_step. ps_step.
  cstep (expectKeyword_spec n "enum" p HP). intros t1 p1 (_ & _ & _ & Hc1). cfacts Hc1. ps_step.
  cstep (parseName_spec n p1 (Cons_PInv _ _ _ Hc1)). intros nm p2 Hc2. cfacts Hc2. ps_step.
  cstep (many_spec parser.parseEnumValueDef (spans.nameOK N) 1 token.BraceR
           ltac:(discriminate) ltac:(discriminate) ltac:(lia) n token.BraceL
           ltac:(discriminate) ltac:(discriminate) ltac:(lia)
           (fun g _ p0 HP0 => PSpec_conseq _ _ _ _ _ _ (parseName_spec g p0 HP0)
                                (fun a p' Hc => Cons_Weak _ _ _ Hc) (fun h => h))
           p2 (Cons_PInv _ _ _ Hc2)).
  intros vs p3 Hc3. repeat ps_step.
  pose proof (Cons_Cons _ _ _ _ _ (Cons_Cons _ _ _ _ _ Hc1 Hc2) Hc3) as Hc.
  apply (Cons_end _ _ _ _ HP Hc). intros Hl _. cbn [spans.typeDefOK].
  split; [exact Hl|]. split; [exact (Cons_good _ _ _ Hc2) | exact (Cons_good _ _ _ Hc3)].
Qed.

Lemma parseInputObjTypeDef_spec (n : nat) (p : parser) :
  PInv p ->
  PSpec (parser.parseInputObjTypeDef n) p (fun a p' => Cons (spans.typeDefOK N a) p p')
    (n < 1 + 8 * nu p)%nat.
Proof.
  intros HP. unfold parser.parseInputObjTypeDef. ps_step. ps_step. ps_step.
  cstep (expectKeyword_spec n "input" p HP). intros t1 p1 (_ & _ & _ & Hc1). cfacts Hc1. ps_step.
  cstep (parseName_spec n p1 (Cons_PInv _ _ _ Hc1)). intros nm p2 Hc2. cfacts Hc2. ps_step.
  cstep (any_spec parser.parseInputValueDef (spans.inputValueDefOK N) 1 token.BraceR
           ltac:(discriminate) ltac:(discriminate) ltac:(lia) n token.BraceL
           ltac:(discriminate) ltac:(discriminate) ltac:(lia)
           (fun g _ p0 HP0 => parseInputValueDef_spec g p0 HP0)
           p2 (Cons_PInv _ _ _ Hc2)).
  intros fs p3 Hc3. repeat ps_step.
  pose proof (Cons_Cons _ _ _ _ _ (Cons_Cons _ _ _ _ _ Hc1 Hc2) Hc3) as Hc.
  apply (Cons_end _ _ _ _ HP Hc). intros Hl _. cbn [spans.typeDefOK].
  split; [exact Hl|]. split; [exact (Cons_good _ _ _ Hc2) | exact (Cons_good _ _ _ Hc3)].
Qed.

Lemma parseTypeExtDef_spec (n : nat) (p : parser) :
  PInv p ->
  PSpec (parser.parseTypeExtDef n) p (fun a p' => Cons (spans.typeDefOK N a) p p')
    (n < 1 + 8 * nu p)%nat.
Proof.
  intros HP. unfold parser.parseTypeExtDef. ps_step. ps_step. pinv HP. ps_step.
  cstep (expectKeyword_spec n "extend" p HP). intros t1 p1 (_ & _ & _ & Hc1). cfacts Hc1. ps_step.
  cstep (parseObjTypeDef_spec n (token.Start (parser.last p)) p1 (Cons_PInv _ _ _ Hc1) ltac:(lia)).
  intros o p2 Hc2. ps_step.
  apply (Cons_with _ _ _ _ (Cons_Cons _ _ _ _ _ Hc1 Hc2)). exact (Cons_good _ _ _ Hc2).
Qed.

Lemma parseTypeDef_spec (n : nat) (p : parser) :
  PInv p ->
  PSpec (parser.parseTypeDef n) p (fun a p' => Cons (spans.typeDefOK N a) p p')
    (n < 1 + 8 * nu p)%nat.
Proof.
  intros HP. unfold parser.parseTypeDef. ps_step. ps_step. pinv HP.
  destruct (String.eqb _ _).
  { ps_step. cstep (parseObjTypeDef_spec n (token.Start (parser.last p)) p HP ltac:(lia)). intros o p1 Hc. ps_step. exact Hc. }
  destruct (String.eqb _ _); [cstep (parseInterfaceTypeDef_spec n p HP); auto|].
  destruct (String.eqb _ _); [cstep (parseUnionTypeDef_spec n p HP); auto|].
  destruct (String.eqb _ _); [cstep (parseScalarTypeDef_spec n p HP); auto|].
  destruct (String.eqb _ _); [cstep (parseEnumTypeDef_spec n p HP); auto|].
  destruct (String.eqb _ _); [cstep (parseInputObjTypeDef_spec n p HP); auto|].
  destruct (String.eqb _ _); [cstep (parseTypeExtDef_spec n p HP); auto|].
  ps_step.
Qed.

Lemma parseDefinition_spec (n : nat) (p : parser) :
  PInv p ->
  PSpec (parser.parseDefinition n) p (fun a p' => Cons (spans.defOK N a) p p')
    (n < 2 + 8 * nu p)%nat.
Proof.
  intros HP. unfold parser.parseDefinition. ps_step. ps_step.
  destruct (token.kind (parser.last p)); try solve [ps_step].
  - cstep (parseOpDef_spec n p HP); auto.
  - destruct (_ || _ || _); [cstep (parseOpDef_spec n p HP); auto|].
    destruct (String.eqb _ _); [cstep (parseFragmentDef_spec n p HP); auto|].
    destruct (parser.isTypeDefKeyword _); [|ps_step].
    ps_step. cstep (parseTypeDef_spec n p HP). intros d p1 Hc. ps_step. exact Hc.
Qed.

Lemma document_loop_spec (n : nat) :
  forall (p : parser), PInv p ->
  PSpec (parser.document_loop n) p (fun a p' => Cons (Forall (spans.defOK N) a) p p')
    (n < 3 + 8 * nu p)%nat.
Proof.
  induction n as [|f IH]; intros p HP; cbn [parser.document_loop]; [ps_step; lia|].
  ps_step. cstep (parseDefinition_spec f p HP). intros d p1 Hc1. cfacts Hc1. ps_step.
  cstep (skip_spec f token.EOF p1 (Cons_PInv _ _ _ Hc1)). intros b p2 [Hf Ht]. destruct b.
  - destruct (Ht eq_refl) as [Hk Ha]. clear Hf Ht. ps_step.
    apply (Cons_with _ _ _ _ (Cons_Adv_any _ _ _ _ Hc1 Ha ltac:(congruence))).
    constructor; [exact (Cons_good _ _ _ Hc1) | constructor].
  - destruct (Hf eq_refl) as [-> _]. clear Hf Ht. ps_step.
    cstep (IH p1 (Cons_PInv _ _ _ Hc1)). intros ds p3 Hc3. ps_step.
    apply (Cons_with _ _ _ _ (Cons_Cons _ _ _ _ _ Hc1 Hc3)).
    constructor; [exact (Cons_good _ _ _ Hc1) | exact (Cons_good _ _ _ Hc3)].
Qed.

Lemma parseDocument_spec (n : nat) (p : parser) :
  PInv p ->
  PSpec (parser.parseDocument n) p (fun a p' => Cons (spans.documentOK N a) p p')
    (n < 3 + 8 * nu p)%nat.
Proof.
  intros HP. unfold parser.parseDocument. ps_step. ps_step. ps_step.
  cstep (document_loop_spec n p HP). intros ds p1 Hc1. repeat ps_step.
  apply (Cons_end _ _ _ _ HP Hc1). intros Hl G. cbn [spans.documentOK]. split; assumption.
Qed.

Lemma NewLexer_spec (s0 : S) (l : @lexer.lexer S) :
  wf s0 -> Z.of_nat (rem s0) = N -> lexer.NewLexer s0 = inl l ->
  LI l /\ (mu l <= rem s0)%nat.
Proof.
  intros Hwf HN. unfold lexer.NewLexer.
  destruct (lexer.advance_l _) as [l1 ok] eqn:E. destruct ok; [|discriminate].
  intro X; injection X as <-. unfold lexer.advance_l in E. cbn [lexer.scanner lexer.eof] in E.
  destruct (scanner.Scan s0) as [s' [e|]] eqn:Es.
  - destruct (scan_some _ _ _ Hwf Es) as (Hwf' & Hr & Hrune).
    destruct e; [injection E as <- | inversion E | inversion E].
    unfold measure.LI, measure.mu; cbn [lexer.scanner lexer.eof lexer.lastIndex].
    split; [split; [exact Hwf' | split; [intros; exact Hrune | lia]] | lia].
  - destruct (scan_none _ _ Hwf Es) as (Hwf' & Hr).
    injection E as <-.
    unfold measure.LI, measure.mu; cbn [lexer.scanner lexer.eof lexer.lastIndex].
    split; [split; [exact Hwf' | split; [discriminate | lia]] | lia].
Qed.

Lemma newParser_spec (n : nat) (l : @lexer.lexer S) (p : parser) :
  LI l -> parser.newParser n l = parser.Ok p -> PInv p /\ (nu p <= mu l + 1)%nat.
Proof.
  intros HL. unfold parser.newParser.
  destruct (lexer.Lex n l token.zero) as [[[l' t'] [e|]]|] eqn:E; try discriminate.
  intro X; injection X as <-.
  destruct (LexFacts.Lex_spec rem wf scan_none scan_some start_tail end_tail N n _ _ _ _ HL E)
    as (HL' & Hm & Hli & _ & Hnone).
  destruct (Hnone eq_refl) as (Hst & Hk).
  pose proof HL as (_ & _ & ? & ?).
  split.
  - split; [exact HL'|]. cbn [parser.last parser.lex parser.prevEnd].
    split; [lia|].
    split; [intro X; destruct Hk as [(_ & Y & Z) | (Y & _)]; [split; assumption | contradiction]|].
    split; [intro X; destruct Hk as [(Y & _) | (_ & _ & Y)]; [contradiction | exact Y]|].
    pose proof (measure.mu rem l). lia.
  - unfold measure.nu. cbn [parser.lex parser.last].
    destruct (token.Kind_eqb _ _); lia.
Qed.

Lemma newParser_term (n : nat) (l : @lexer.lexer S) :
  LI l -> (2 * mu l < n)%nat -> parser.newParser n l <> parser.OutOfFuel.
Proof.
  intros HL Hn. unfold parser.newParser.
  pose proof (LexFacts.Lex_term rem wf scan_none scan_some start_tail N n l token.zero HL Hn) as T.
  destruct (lexer.Lex n l token.zero) as [[[l' t'] [e|]]|]; [discriminate | discriminate | contradiction].
Qed.

Lemma parseWith_spec (n : nat) (s0 : S) d :
  wf s0 -> Z.of_nat (rem s0) = N ->
  parser.parseWith n (lexer.NewLexer s0) = parser.Ok d -> spans.documentOK N d.
Proof.
  intros Hwf HN. unfold parser.parseWith.
  destruct (lexer.NewLexer s0) as [l|e] eqn:EL; [|discriminate].
  destruct (NewLexer_spec s0 l Hwf HN EL) as [HL _].
  destruct (parser.newParser n l) as [p| |] eqn:EP; try discriminate.
  destruct (newParser_spec n l p HL EP) as [HP _].
  destruct (parser.parseDocument n p) as [[d' p']| |] eqn:ED; try discriminate.
  intro X; injection X as <-.
  exact (Cons_good _ _ _ (PSpec_ok _ _ _ _ _ _ (parseDocument_spec n p HP) ED)).
Qed.

Lemma parseWith_term (n : nat) (s0 : S) :
  wf s0 -> Z.of_nat (rem s0) = N -> (8 * rem s0 + 11 <= n)%nat ->
  parser.parseWith n (lexer.NewLexer s0) <> parser.OutOfFuel.
Proof.
  intros Hwf HN Hn. unfold parser.parseWith.
  destruct (lexer.NewLexer s0) as [l|e] eqn:EL; [|discriminate].
  destruct (NewLexer_spec s0 l Hwf HN EL) as [HL Hm].
  destruct (parser.newParser n l) as [p| |] eqn:EP; try discriminate.
  2:{ exfalso; exact (newParser_term n l HL ltac:(lia) EP). }
  destruct (newParser_spec n l p HL EP) as [HP Hnu].
  destruct (parser.parseDocument n p) as [[d' p']| |] eqn:ED; try discriminate.
  intros _. pose proof (PSpec_oof_inv _ _ _ _ (parseDocument_spec n p HP) ED). lia.
Qed.

End P.
End ParseFacts.


(** * Properties *)
Module Facts.
Import parser.
Open Scope string_scope.

(** C5: [ParseString "{a,b}"] succeeds with a Document spanning [0,5]
    holding one unnamed Query operation whose selection set holds the
    Fields [a] at [1,1] and [b] at [3,3]. *)
Theorem parseString_ab : ParseString "{a,b}" = Ok (run.doc_ab "a" "b").
Proof. vm_compute. reflexivity. Qed.

(** C1: on the same bytes [{a,b}] the two entry points disagree: the
    reader-backed scanner's tail keeps the rune that ends a name, so the
    names come out as ["a,"] and ["b}"] instead of ["a"] and ["b"]. *)
Theorem parseReader_differs_ab :
  ParseString "{a,b}" = Ok (run.doc_ab "a" "b") /\
  ParseReader "{a,b}" = Ok (run.doc_ab "a," "b}") /\
  ParseString "{a,b}" <> ParseReader "{a,b}".
Proof.
  vm_compute. split; [reflexivity | split; [reflexivity |]].
  intro E. inversion E.
Qed.


(** C3: a variable under [isConst] is reported with the bare
    [errors.New("variable may not be constant")], not as a [SyntaxError]
    with a position. *)
Theorem const_variable_bare_error :
  ParseString "query ($v: Int = $x) {a}"
    = Err (errors.errorString "variable may not be constant") /\
  errors.is_SyntaxError (errors.errorString "variable may not be constant") = false.
Proof. vm_compute. split; reflexivity. Qed.

Section EmptyBrackets.
Context {S : Type} `{scanner.Scanner S}.

Lemma many_first_fails {A} (parseFn : nat -> PM A) (open close : token.Kind) (f : nat)
    (p p1 : parser) (e : errors.error) :
  token.kind (parser.last p) = open -> parser.advance (Datatypes.S f) p = Ok (tt, p1) ->
  parseFn f p1 = Err e ->
  parser.many (Datatypes.S f) open parseFn close p = Err e.
Proof.
  intros Hk Ha Hf. unfold parser.many, parser.expect, parser.lastTok, parser.get, parser.bind, parser.ret.
  rewrite Hk. destruct open; cbn [token.Kind_eqb]; rewrite Ha; cbn [parser.many_loop];
  unfold parser.bind; rewrite Hf; reflexivity.
Qed.

Lemma any_close_empty {A} (parseFn : nat -> PM A) (open close : token.Kind) (f : nat)
    (p p1 p2 : parser) :
  token.kind (parser.last p) = open -> parser.advance (Datatypes.S f) p = Ok (tt, p1) ->
  token.kind (parser.last p1) = close -> parser.advance f p1 = Ok (tt, p2) ->
  parser.any (Datatypes.S f) open parseFn close p = Ok ([], p2).
Proof.
  intros Hk Ha Hk1 Ha1.
  unfold parser.any, parser.expect, parser.lastTok, parser.get, parser.bind, parser.ret.
  rewrite Hk. destruct open; cbn [token.Kind_eqb]; rewrite Ha; cbn [parser.any_loop];
  unfold parser.skip, parser.lastTok, parser.get, parser.bind, parser.ret; rewrite Hk1;
  destruct close; cbn [token.Kind_eqb]; rewrite Ha1; reflexivity.
Qed.

Lemma expect_other {A} (k : token.Kind) (f : nat) (p : parser) (m : token.Token -> PM A) :
  token.Kind_eqb (token.kind (parser.last p)) k = false ->
  parser.bind (parser.expect f k) m p
  = Err (errors.SyntaxError (token.Start (parser.last p)) "expected a token but found another").
Proof.
  intro E. unfold parser.expect, parser.lastTok, parser.get, parser.bind, parser.ret.
  rewrite E. reflexivity.
Qed.

End EmptyBrackets.

(** C7: a [many] context (one or more) rejects an immediately closed pair
    and an [any] context (zero or more) accepts it with zero elements.  For
    every parser on every scanner whose token is the opening bracket and
    whose next token is the closing one, [()] as variable definitions and
    [{}] as an enum body fail with the [SyntaxError] of [expect] at the
    closing token, while [{}] as an object type or interface body (field
    definitions), as an input object body (input value definitions) and as
    an object value give no elements, once the token after the closing
    bracket is read.  On whole documents: [query () {a}] and [enum E {}]
    fail, [type T {}], [interface I {}], [input I {}] and [{a(x:{})}] give
    empty lists. *)
Theorem empty_brackets :
  (forall (S : Type) (I : scanner.Scanner S) (f : nat) (p p1 : @parser.parser S),
     token.kind (parser.last p) = token.ParenL -> parser.advance (Datatypes.S f) p = Ok (tt, p1) ->
     token.kind (parser.last p1) = token.ParenR ->
     parser.many (Datatypes.S f) token.ParenL parser.parseVarDef token.ParenR p
       = Err (errors.SyntaxError (token.Start (parser.last p1)) "expected a token but found another") /\
     parser.parseVarDefs (Datatypes.S f) p
       = Err (errors.SyntaxError (token.Start (parser.last p1)) "expected a token but found another")) /\
  (forall (S : Type) (I : scanner.Scanner S) (f : nat) (p p1 : @parser.parser S),
     token.kind (parser.last p) = token.BraceL -> parser.advance (Datatypes.S f) p = Ok (tt, p1) ->
     token.kind (parser.last p1) = token.BraceR ->
     parser.many (Datatypes.S f) token.BraceL parser.parseEnumValueDef token.BraceR p
       = Err (errors.SyntaxError (token.Start (parser.last p1)) "expected a token but found another")) /\
  (forall (S : Type) (I : scanner.Scanner S) (f : nat) (p p1 p2 : @parser.parser S) (isConst : bool),
     token.kind (parser.last p) = token.BraceL -> parser.advance (Datatypes.S f) p = Ok (tt, p1) ->
     token.kind (parser.last p1) = token.BraceR -> parser.advance f p1 = Ok (tt, p2) ->
     parser.any (Datatypes.S f) token.BraceL parser.parseFieldDef token.BraceR p = Ok ([], p2) /\
     parser.any (Datatypes.S f) token.BraceL parser.parseInputValueDef token.BraceR p = Ok ([], p2) /\
     parser.parseValueLiteral (Datatypes.S (Datatypes.S f)) isConst p
       = Ok (ast.Object (ast.mkLoc (token.Start (parser.last p)) (parser.prevEnd p2)) [], p2)) /\
  ParseString "query () {a}" = Err (errors.SyntaxError 7 "expected a token but found another") /\
  ParseString "enum E {}" = Err (errors.SyntaxError 8 "expected a token but found another") /\
  ParseString "type T {}" =
    Ok (ast.mkDocument (ast.mkLoc 0 9)
          [ast.TypeDefD (ast.ObjTypeDefT
             (ast.mkObjTypeDef (ast.mkLoc 0 9) (ast.mkName (ast.mkLoc 5 5) "T") [] []))]) /\
  ParseString "interface I {}" =
    Ok (ast.mkDocument (ast.mkLoc 0 14)
          [ast.TypeDefD (ast.InterfaceTypeDef (ast.mkLoc 0 14)
                                              (ast.mkName (ast.mkLoc 10 10) "I") [])]) /\
  ParseString "input I {}" =
    Ok (ast.mkDocument (ast.mkLoc 0 10)
          [ast.TypeDefD (ast.InputObjTypeDef (ast.mkLoc 0 10)
                                             (ast.mkName (ast.mkLoc 6 6) "I") [])]) /\
  ParseString "{a(x:{})}" =
    Ok (ast.mkDocument (ast.mkLoc 0 9)
          [ast.OpDef (ast.mkLoc 0 9) ast.Query ast.zeroName [] []
             (ast.mkSelectionSet (ast.mkLoc 0 9)
                [ast.Field (ast.mkLoc 1 8) ast.zeroName (ast.mkName (ast.mkLoc 1 1) "a")
                   [ast.mkArgument (ast.mkLoc 3 7) (ast.mkName (ast.mkLoc 3 3) "x")
                                   (ast.Object (ast.mkLoc 5 7) [])]
                   [] ast.zeroSelectionSet])]).
Proof.
  split; [|split; [|split]].
  - intros S I f p p1 Hk Ha Hk1.
    assert (E : parser.many (Datatypes.S f) token.ParenL parser.parseVarDef token.ParenR p
       = Err (errors.SyntaxError (token.Start (parser.last p1)) "expected a token but found another")).
    { apply (many_first_fails _ _ _ f p p1 _ Hk Ha).
      cbv [parser.parseVarDef parser.parseVariable parser.lastTok parser.get parser.bind
           parser.ret parser.expect parser.fail].
      rewrite Hk1. reflexivity. }
    split; [exact E|].
    unfold parser.parseVarDefs, parser.lastTok, parser.get.
    unfold parser.bind at 1 2. unfold parser.ret at 1 2.
    rewrite Hk. exact E.
  - intros S I f p p1 Hk Ha Hk1.
    apply (many_first_fails _ _ _ f p p1 _ Hk Ha).
    cbv [parser.parseEnumValueDef parser.parseName parser.lastTok parser.get parser.bind
         parser.ret parser.expect parser.fail].
    rewrite Hk1. reflexivity.
  - intros S I f p p1 p2 isConst Hk Ha Hk1 Ha1.
    split; [exact (any_close_empty _ _ _ f p p1 p2 Hk Ha Hk1 Ha1)|].
    split; [exact (any_close_empty _ _ _ f p p1 p2 Hk Ha Hk1 Ha1)|].
    cbn [parser.parseValueLiteral]. unfold parser.lastTok, parser.get.
    unfold parser.bind at 1 2. unfold parser.ret at 1. cbv beta.
    rewrite Hk. unfold parser.bind at 1.
    rewrite (any_close_empty _ _ _ f p p1 p2 Hk Ha Hk1 Ha1).
    reflexivity.
  - vm_compute. repeat split; reflexivity.
Qed.

(** The witness of C7: the parsers of [()] and [{}]. *)
Lemma empty_brackets_witness :
  let p := run.parserOf "()" in
  let q := run.parserOf "{}" in
  let p1 := run.afterAdvance 3 p in
  let q1 := run.afterAdvance 3 q in
  let q2 := run.afterAdvance 2 q1 in
  parser.many 3 token.ParenL parser.parseVarDef token.ParenR p
    = Err (errors.SyntaxError 1 "expected a token but found another") /\
  parser.many 3 token.BraceL parser.parseEnumValueDef token.BraceR q
    = Err (errors.SyntaxError 1 "expected a token but found another") /\
  parser.any 3 token.BraceL parser.parseFieldDef token.BraceR q = Ok ([], q2) /\
  parser.parseValueLiteral 4 true q = Ok (ast.Object (ast.mkLoc 0 2) [], q2).
Proof.
  intros p q p1 q1 q2.
  destruct empty_brackets as [Hv [He [Ha _]]].
  destruct (Hv _ _ 2%nat p p1 ltac:(vm_compute; reflexivity) ltac:(vm_compute; reflexivity)
              ltac:(vm_compute; reflexivity)) as [E1 _].
  destruct (Ha _ _ 2%nat q q1 q2 true ltac:(vm_compute; reflexivity) ltac:(vm_compute; reflexivity)
              ltac:(vm_compute; reflexivity) ltac:(vm_compute; reflexivity)) as [E3 [_ E4]].
  split; [exact E1|]. split.
  - exact (He _ _ 2%nat q q1 ltac:(vm_compute; reflexivity) ltac:(vm_compute; reflexivity)
             ltac:(vm_compute; reflexivity)).
  - split; [exact E3 | exact E4].
Defined.



Section Values.
Context {S : Type} `{scanner.Scanner S}.

(** C9: in value position a Name token [true] or [false] gives a Boolean
    node, any other Name but [null] gives an Enum node, both spanning the
    token, and [null] gives the generic [SyntaxError] at the token's
    start. *)
Theorem parseValueLiteral_name (f : nat) (isConst : bool) (p p' : @parser S) :
  token.kind (last p) = token.Name ->
  advance f p = Ok (tt, p') ->
  let t := last p in
  let v := token.Value t in
  ((v = "true" \/ v = "false") ->
     parseValueLiteral (Datatypes.S f) isConst p
     = Ok (ast.Boolean (ast.mkLoc (token.Start t) (token.End t)) (String.eqb v "true"), p')) /\
  (v <> "true" -> v <> "false" -> v <> "null" ->
     parseValueLiteral (Datatypes.S f) isConst p
     = Ok (ast.Enum (ast.mkLoc (token.Start t) (token.End t)) v, p')) /\
  (v = "null" ->
     parseValueLiteral (Datatypes.S f) isConst p
     = Err (errors.SyntaxError (token.Start t) "unexpected kind")).
Proof.
  intros Hk Ha t v.
  assert (Hp' : prevEnd p' = token.End (last p)).
  { unfold advance in Ha.
    destruct (lexer.Lex f (lex p) token.zero) as [[[l' t'] [e|]]|]; inversion Ha; reflexivity. }
  subst t v.
  cbn [parseValueLiteral]. unfold advanceLoc, lastTok, getPrevEnd, bind, get, ret, fail.
  cbv beta iota. rewrite Hk.
  split; [|split].
  - intros [E|E]; rewrite E; cbn -[advance]; rewrite Ha; cbn; rewrite Hp'; reflexivity.
  - intros E1 E2 E3.
    apply String.eqb_neq in E1, E2, E3. rewrite E1, E2, E3. cbn -[advance].
    rewrite Ha; cbn; rewrite Hp'; reflexivity.
  - intros E. rewrite E. reflexivity.
Qed.

End Values.

(** The witness of C9: [true ] as a value. *)
Lemma parseValueLiteral_name_witness :
  let p := run.parserOf "true " in
  token.kind (last p) = token.Name /\
  advance 4 p = Ok (tt, run.afterAdvance 4 p) /\
  parseValueLiteral 5 false p
    = Ok (ast.Boolean (ast.mkLoc 0 3) true, run.afterAdvance 4 p).
Proof.
  intro p.
  assert (Hk : token.kind (last p) = token.Name) by (vm_compute; reflexivity).
  assert (Ha : advance 4 p = Ok (tt, run.afterAdvance 4 p)) by (vm_compute; reflexivity).
  split; [exact Hk | split; [exact Ha |]].
  destruct (parseValueLiteral_name 4 false p (run.afterAdvance 4 p) Hk Ha) as [HB _].
  rewrite HB; [vm_compute; reflexivity | left; vm_compute; reflexivity].
Defined.

(** C9: a document containing the value [null] fails. *)
Theorem null_value_fails :
  ParseString "{a(x:null)}" = Err (errors.SyntaxError 5 "unexpected kind") /\
  ParseString "query ($v: Int = null) {a}" = Err (errors.SyntaxError 17 "unexpected kind").
Proof. vm_compute. split; reflexivity. Qed.

(** [stringScanner.Scan] reports no error but [io.EOF]. *)
Lemma string_Scan_error_EOF (s s' : scanner.stringScanner) (e : errors.error) :
  scanner.string_Scan s = (s', Some e) -> e = errors.io_EOF.
Proof.
  unfold scanner.string_Scan.
  destruct (scanner.lastIndex s >=? len (scanner.source s)); [intro E; inversion E; reflexivity|].
  destruct (utf8.DecodeRune _) as [r w].
  destruct ((r =? utf8.RuneError) && (0 =? 0))%Z; intro E; inversion E; reflexivity.
Qed.

(** ** Lexer facts over any scanner whose only error is [io.EOF] *)
Section LexerFacts.
Context {S : Type} `{scanner.Scanner S}.
Hypothesis HScan : forall s s' e, scanner.Scan s = (s', Some e) -> e = errors.io_EOF.

Lemma advance_l_ok (l : @lexer.lexer S) :
  snd (lexer.advance_l l) = true /\
  lexer.lastIndex (fst (lexer.advance_l l)) = lexer.lastIndex l + 1.
Proof.
  unfold lexer.advance_l.
  destruct (scanner.Scan (lexer.scanner l)) as [s [e|]] eqn:E.
  - apply HScan in E. subst. simpl. auto.
  - simpl. auto.
Qed.

Lemma readURunes_err k (l : @lexer.lexer S) t l' t' r :
  lexer.readURunes k l t = Some (l', t', r) ->
  lexer.lastIndex l <= lexer.lastIndex l' /\
  (forall pos msg, r = inr (Some (errors.SyntaxError pos msg)) ->
     pos = lexer.lastIndex l' /\ msg = "invalid unicode; unexpected EOF").
Proof.
  revert l t l' t' r. induction k as [|k IH]; intros l t l' t' r Hr.
  - cbn in Hr. inversion Hr; subst. split; [lia | intros ? ? E; discriminate].
  - cbn [lexer.readURunes] in Hr.
    unfold lexer.syntaxErrorHere, lexer.adv, lexer.advance, lexer.rune, lexer.get_l,
      lexer.return_, lexer.ret, lexer.bind in Hr.
    destruct (advance_l_ok l) as [Hb Hi].
    destruct (lexer.advance_l l) as [l1 b] eqn:Ea; simpl in Hb, Hi; subst b.
    cbn beta iota delta [negb] in Hr.
    destruct (lexer.eof l1).
    + inversion Hr; subst. split; [lia | intros ? ? E; inversion E; split; reflexivity].
    + destruct (lexer.readURunes k l1 t) as [[[l2 t2] [rs|e]]|] eqn:Er; [| |discriminate].
      * inversion Hr; subst. apply IH in Er. split; [lia | intros ? ? E; discriminate].
      * inversion Hr; subst. apply IH in Er. destruct Er as [Er1 Er2].
        split; [lia | exact Er2].
Qed.

Lemma readString_loop_err fuel value (l : @lexer.lexer S) t l' t' pos msg :
  lexer.readString_loop fuel value l t = Some (l', t', inr (Some (errors.SyntaxError pos msg))) ->
  pos = lexer.lastIndex l' /\ lexer.lastIndex l < pos /\
  (msg = "unterminated string" ->
   lexer.eof l' = true \/ scanner.Rune (lexer.scanner l') = token.LF \/
   scanner.Rune (lexer.scanner l') = token.CR).
Proof.
  revert value l t l' t' pos. induction fuel as [|f IH]; intros value l t l' t' pos Hr; [discriminate|].
  cbn [lexer.readString_loop] in Hr.
  unfold lexer.syntaxErrorHere, lexer.adv, lexer.advance, lexer.rune, lexer.get_l,
    lexer.upd_t, lexer.return_, lexer.ret, lexer.bind in Hr.
  destruct (advance_l_ok l) as [Hb Hi].
  destruct (lexer.advance_l l) as [l1 b] eqn:Ea; simpl in Hb, Hi; subst b.
  cbn beta iota delta [negb] in Hr.
  destruct (lexer.eof l1 || _ || _) eqn:Eu.
  { inversion Hr; subst. split; [reflexivity | split; [lia|]]. intros _.
    apply orb_true_iff in Eu as [Eu|Eu]; [apply orb_true_iff in Eu as [Eu|Eu]|].
    - left; exact Eu.
    - right; left; apply Z.eqb_eq; exact Eu.
    - right; right; apply Z.eqb_eq; exact Eu. }
  destruct (_ =? 34)%Z.
  { destruct (advance_l_ok l1) as [Hb2 Hi2].
    destruct (lexer.advance_l l1) as [l2 b] eqn:Ea2; simpl in Hb2; subst b.
    discriminate. }
  destruct (_ && _).
  { inversion Hr; subst. split; [reflexivity | split; [lia | discriminate]]. }
  destruct (negb _).
  { apply IH in Hr. destruct Hr as [? [? ?]]. split; [assumption | split; [lia | assumption]]. }
  destruct (advance_l_ok l1) as [Hb2 Hi2].
  destruct (lexer.advance_l l1) as [l2 b] eqn:Ea2; simpl in Hb2, Hi2; subst b.
  cbn beta iota delta [negb] in Hr.
  destruct (lexer.escape _).
  { apply IH in Hr. destruct Hr as [? [? ?]]. split; [assumption | split; [lia | assumption]]. }
  destruct (_ =? 117)%Z; [| inversion Hr; subst; split; [reflexivity | split; [lia | discriminate]]].
  destruct (lexer.readURunes 4 l2 t) as [[[l3 t3] [rs|e]]|] eqn:Er; [| |discriminate].
  - apply readURunes_err in Er. destruct Er as [Er _].
    destruct (hex.DecodeString _) as [bs [e|]].
    + inversion Hr; subst. split; [reflexivity | split; [lia | discriminate]].
    + destruct (_ <? 0)%Z.
      * inversion Hr; subst. split; [reflexivity | split; [lia | discriminate]].
      * apply IH in Hr. destruct Hr as [? [? ?]]. split; [assumption | split; [lia | assumption]].
  - apply readURunes_err in Er. destruct Er as [Er1 Er2].
    inversion Hr; subst. specialize (Er2 _ _ eq_refl) as [? ->].
    split; [assumption | split; [lia | discriminate]].
Qed.
End LexerFacts.

(** C8 fails as stated: the string [\uGGGG] after a quote has no closing
    quote, its first illegal rune [G] is at offset 3, yet the error is at
    offset 6, the last of the four runes read after [\u]. *)
Lemma readString_bad_hex_offset :
  run.lexString (run.quote ++ "\uGGGG")
    = Some (token.mkToken token.String 0 0 "", Some (errors.SyntaxError 6 "hex")) /\
  nth 3 (bytes_of (run.quote ++ "\uGGGG")) 0 = 71 /\ hex.fromHexChar 71 = None.
Proof. vm_compute. repeat split. Qed.


(** C4: [stringScanner.Scan] reports [io.EOF], the end-of-input signal,
    whenever the bytes after the last rune do not start with a valid
    encoding of a rune other than U+FFFD, also when they lie before the end
    of the source: the local [n] is never assigned, so [n == 0] always
    holds.  On the bytes [FF 61] it stops at offset 0 of a two-byte source,
    while [bufferedScanner.Scan] returns U+FFFD with no error. *)
Theorem string_Scan_EOF_before_end (s : scanner.stringScanner) :
  scanner.lastIndex s < len (scanner.source s) ->
  fst (utf8.DecodeRune (skipn (Z.to_nat (scanner.lastIndex s + scanner.lastWidth s))
                              (bytes_of (scanner.source s)))) = utf8.RuneError ->
  snd (scanner.string_Scan s) = Some errors.io_EOF /\
  scanner.lastIndex (fst (scanner.string_Scan s)) = scanner.lastIndex s + scanner.lastWidth s /\
  (let s0 := scanner.NewStringScanner (string_of_bytes [255; 97]) in
   let b0 := scanner.NewBufferedScanner (bufio.NewReader (string_of_bytes [255; 97])) in
   snd (scanner.string_Scan s0) = Some errors.io_EOF /\
   scanner.lastIndex (fst (scanner.string_Scan s0)) = 0 /\ len (scanner.source s0) = 2 /\
   snd (scanner.buffered_Scan b0) = None /\
   scanner.blast (fst (scanner.buffered_Scan b0)) = utf8.RuneError).
Proof.
  intros Hl Hd. unfold scanner.string_Scan at 1 2.
  destruct (Z.geb_spec (scanner.lastIndex s) (len (scanner.source s))); [lia|].
  destruct (utf8.DecodeRune _) as [r w]. cbn [fst] in Hd. subst r.
  rewrite Z.eqb_refl. cbn. split; [reflexivity | split; [reflexivity|]].
  vm_compute. repeat split.
Qed.

(** The witness of C4: an invalid byte after a valid rune. *)
Lemma string_Scan_EOF_before_end_witness :
  let s := {| scanner.source := string_of_bytes [97; 255; 98]; scanner.last := 97;
              scanner.lastIndex := 0; scanner.lastWidth := 1; scanner.tailIndex := 0 |} in
  snd (scanner.string_Scan s) = Some errors.io_EOF /\
  scanner.lastIndex (fst (scanner.string_Scan s)) = 1 /\ 1 < len (scanner.source s).
Proof.
  intro s.
  destruct (string_Scan_EOF_before_end s ltac:(vm_compute; reflexivity)
              ltac:(vm_compute; reflexivity)) as [H1 [H2 _]].
  split; [exact H1 | split; [exact H2 | vm_compute; reflexivity]].
Defined.





Lemma string_wf_New (s : string) : measure.string_wf (scanner.NewStringScanner s).
Proof. unfold measure.string_wf; cbn. split; [lia | split; [lia | left; reflexivity]]. Qed.

Lemma string_rem_New (s : string) :
  (measure.string_rem (scanner.NewStringScanner s) <= String.length s)%nat.
Proof.
  unfold measure.string_rem; cbn [scanner.lastIndex scanner.lastWidth scanner.NewStringScanner scanner.source].
  rewrite <- RuneFacts.bytes_of_length. apply RuneFacts.RuneCount_le_length.
Qed.

Lemma buffered_rem_New (s : string) :
  (measure.buffered_rem (scanner.NewBufferedScanner (bufio.NewReader s)) <= String.length s)%nat.
Proof.
  unfold measure.buffered_rem; cbn.
  rewrite <- RuneFacts.bytes_of_length. apply RuneFacts.RuneCount_le_length.
Qed.

(** C6: whenever [ParseString] or [ParseReader] succeeds on a source [s],
    every node of the Document (the Document itself and all its
    descendants) has [0 <= Start <= End <= n], [n] the number of runes of
    [s]. *)
Theorem parse_spans_in_source (s : string) (d : ast.Document) :
  (ParseString s = Ok d -> spans.documentOK (measure.RuneCountInString s) d) /\
  (ParseReader s = Ok d -> spans.documentOK (measure.RuneCountInString s) d).
Proof.
  split; intro E.
  - exact (ParseFacts.parseWith_spec measure.string_rem measure.string_wf
             RuneFacts.string_scan_none RuneFacts.string_scan_some
             RuneFacts.string_start_tail RuneFacts.string_end_tail
             _ (fuelFor s) (scanner.NewStringScanner s) d (string_wf_New s) eq_refl E).
  - exact (ParseFacts.parseWith_spec measure.buffered_rem measure.buffered_wf
             RuneFacts.buffered_scan_none RuneFacts.buffered_scan_some
             RuneFacts.buffered_start_tail RuneFacts.buffered_end_tail
             _ (fuelFor s) (scanner.NewBufferedScanner (bufio.NewReader s)) d I eq_refl E).
Qed.

Lemma parse_spans_in_source_witness :
  ParseString "{a,b}" = Ok (run.doc_ab "a" "b") /\
  spans.documentOK (measure.RuneCountInString "{a,b}") (run.doc_ab "a" "b").
Proof.
  assert (E : ParseString "{a,b}" = Ok (run.doc_ab "a" "b")) by (vm_compute; reflexivity).
  split; [exact E | exact (proj1 (parse_spans_in_source "{a,b}" (run.doc_ab "a" "b")) E)].
Defined.

(** C10: lexing and parsing terminate: on every source both entry points
    return a Document or an error within the fuel [fuelFor], and [Lex] on
    any lexer in the invariant returns within twice its measure plus one
    steps, for both scanners. *)
Theorem parse_terminates :
  (forall s, ParseString s <> OutOfFuel) /\ (forall s, ParseReader s <> OutOfFuel) /\
  (forall N (l : @lexer.lexer scanner.stringScanner) t,
     measure.LI measure.string_rem measure.string_wf N l ->
     lexer.Lex (2 * measure.mu measure.string_rem l + 1) l t <> None) /\
  (forall N (l : @lexer.lexer scanner.bufferedScanner) t,
     measure.LI measure.buffered_rem measure.buffered_wf N l ->
     lexer.Lex (2 * measure.mu measure.buffered_rem l + 1) l t <> None).
Proof.
  split; [|split; [|split]].
  - intro s. pose proof (string_rem_New s).
    exact (ParseFacts.parseWith_term measure.string_rem measure.string_wf
             RuneFacts.string_scan_none RuneFacts.string_scan_some
             RuneFacts.string_start_tail RuneFacts.string_end_tail
             _ (fuelFor s) (scanner.NewStringScanner s) (string_wf_New s) eq_refl
             ltac:(unfold fuelFor; lia)).
  - intro s. pose proof (buffered_rem_New s).
    exact (ParseFacts.parseWith_term measure.buffered_rem measure.buffered_wf
             RuneFacts.buffered_scan_none RuneFacts.buffered_scan_some
             RuneFacts.buffered_start_tail RuneFacts.buffered_end_tail
             _ (fuelFor s) (scanner.NewBufferedScanner (bufio.NewReader s)) I eq_refl
             ltac:(unfold fuelFor; lia)).
  - intros N l t HL.
    exact (LexFacts.Lex_term measure.string_rem measure.string_wf
             RuneFacts.string_scan_none RuneFacts.string_scan_some RuneFacts.string_start_tail
             N (2 * measure.mu measure.string_rem l + 1) l t HL ltac:(lia)).
  - intros N l t HL.
    exact (LexFacts.Lex_term measure.buffered_rem measure.buffered_wf
             RuneFacts.buffered_scan_none RuneFacts.buffered_scan_some RuneFacts.buffered_start_tail
             N (2 * measure.mu measure.buffered_rem l + 1) l t HL ltac:(lia)).
Qed.

Lemma parse_terminates_witness :
  measure.LI measure.string_rem measure.string_wf 5 (run.stringLexerOf "{a,b}") /\
  lexer.Lex (2 * measure.mu measure.string_rem (run.stringLexerOf "{a,b}") + 1)
    (run.stringLexerOf "{a,b}") token.zero <> None.
Proof.
  assert (HL : measure.LI measure.string_rem measure.string_wf 5 (run.stringLexerOf "{a,b}")).
  { vm_compute. repeat split; intros; try discriminate. exfalso; auto. }
  split; [exact HL | exact (proj1 (proj2 (proj2 parse_terminates)) 5 _ token.zero HL)].
Defined.

End Facts.

Module Extra.


(* A scalar value other than U+FFFD. *)
Local Abbreviation okRune := (fun c => utf8.ValidRune c = true /\ c <> utf8.RuneError).

Lemma okRune_bounds c :
  okRune c -> 0 <= c <= utf8.MaxRune /\ ~ (utf8.surrogateMin <= c <= utf8.surrogateMax) /\
              c <> utf8.RuneError.
Proof.
  unfold utf8.ValidRune, utf8.MaxRune, utf8.surrogateMin, utf8.surrogateMax.
  intros [Hv Hr]. split; [|split; [|exact Hr]];
  destruct (Z.leb_spec 0 c), (Z.ltb_spec c 55296), (Z.ltb_spec 57343 c), (Z.leb_spec c 1114111);
    cbn in Hv; try discriminate; lia.
Qed.

Lemma EncodeRune_shape c :
  okRune c ->
  Forall (fun b => 0 <= b < 256) (utf8.EncodeRune c) /\
  (c < 128 -> utf8.EncodeRune c = [c]) /\
  (128 <= c -> exists b rest, utf8.EncodeRune c = b :: rest /\ 128 <= b).
Proof.
  intro Hok. destruct (okRune_bounds c Hok) as (Hc & Hs & Hr).
  unfold utf8.MaxRune, utf8.surrogateMin, utf8.surrogateMax, utf8.RuneError in *.
  destruct (Z.le_gt_cases c 127).
  { rewrite Utf8Facts.EncodeRune_1 by lia.
    split; [repeat constructor; lia | split; [reflexivity | lia]]. }
  destruct (Z.le_gt_cases c 2047).
  { rewrite Utf8Facts.EncodeRune_2 by lia.
    split; [repeat constructor; Z.div_mod_to_equations; lia | split; [lia|]].
    intros _. eexists _, _. split; [reflexivity | Z.div_mod_to_equations; lia]. }
  destruct (Z.le_gt_cases c 65535).
  { rewrite Utf8Facts.EncodeRune_3 by lia.
    split; [repeat constructor; Z.div_mod_to_equations; lia | split; [lia|]].
    intros _. eexists _, _. split; [reflexivity | Z.div_mod_to_equations; lia]. }
  rewrite Utf8Facts.EncodeRune_4 by lia.
  split; [repeat constructor; Z.div_mod_to_equations; lia | split; [lia|]].
  intros _. eexists _, _. split; [reflexivity | Z.div_mod_to_equations; lia].
Qed.

Lemma bytes_of_string_of_bytes (B : list Z) :
  Forall (fun b => 0 <= b < 256) B -> bytes_of (string_of_bytes B) = B.
Proof.
  induction 1 as [|b B Hb _ IH]; [reflexivity|].
  unfold bytes_of, string_of_bytes in *. cbn [map list_ascii_of_string string_of_list_ascii].
  rewrite IH. f_equal. unfold byte_of_ascii, ascii_of_byte.
  rewrite nat_ascii_embedding by lia. lia.
Qed.

Lemma flat_map_EncodeRune_bytes (cs : list Z) :
  Forall okRune cs -> Forall (fun b => 0 <= b < 256) (flat_map utf8.EncodeRune cs).
Proof.
  induction 1 as [|c cs Hc _ IH]; [constructor|].
  cbn [flat_map]. apply Forall_app. split; [exact (proj1 (EncodeRune_shape c Hc)) | exact IH].
Qed.

Lemma substring_all (s : string) : substring 0 (String.length s) s = s.
Proof. induction s as [|a s IH]; [reflexivity | cbn; rewrite IH; reflexivity]. Qed.

Lemma DecodeRune_okRune c rest :
  okRune c -> utf8.DecodeRune (utf8.EncodeRune c ++ rest) = (c, Z.of_nat (length (utf8.EncodeRune c))).
Proof.
  intro Hok. destruct (okRune_bounds c Hok) as (Hc & Hs & _).
  exact (Utf8Facts.DecodeRune_EncodeRune c rest Hc Hs).
Qed.

Lemma EncodeRune_length_pos c : okRune c -> (1 <= length (utf8.EncodeRune c))%nat.
Proof.
  intro Hc. destruct (EncodeRune_shape c Hc) as (_ & H1 & H2).
  destruct (Z.lt_ge_cases c 128) as [h|h].
  - rewrite (H1 h). cbn; lia.
  - destruct (H2 h) as (b & rest & -> & _). cbn; lia.
Qed.

(** The string scanner from a state whose remaining bytes encode [rest]. *)
Lemma string_scanAll (rest : list Z) (s : scanner.stringScanner) (fuel : nat) :
  Forall okRune rest -> (length rest < fuel)%nat ->
  0 <= scanner.lastIndex s -> 0 <= scanner.lastWidth s ->
  scanner.lastIndex s + scanner.lastWidth s <= len (scanner.source s) ->
  skipn (Z.to_nat (scanner.lastIndex s + scanner.lastWidth s)) (bytes_of (scanner.source s))
    = flat_map utf8.EncodeRune rest ->
  exists s', run.scanAll fuel s = (rest, s', Some errors.io_EOF) /\
    scanner.source s' = scanner.source s /\ scanner.tailIndex s' = scanner.tailIndex s /\
    scanner.lastIndex s' = len (scanner.source s).
Proof.
  revert s fuel. induction rest as [|c rest IH]; intros s fuel Hok Hf H0 H1 H2 Hb.
  - destruct fuel as [|f]; [cbn in Hf; lia|].
    cbn [run.scanAll scanner.Scan scanner.stringScanner_Scanner]. unfold scanner.string_Scan.
    destruct (Z.geb_spec (scanner.lastIndex s) (len (scanner.source s))).
    + exists s. split; [reflexivity | split; [reflexivity | split; [reflexivity | lia]]].
    + cbn [flat_map] in Hb. rewrite Hb. cbn.
      eexists. split; [reflexivity|]. cbn. split; [reflexivity | split; [reflexivity|]].
      assert (Hl : length (skipn (Z.to_nat (scanner.lastIndex s + scanner.lastWidth s))
                (bytes_of (scanner.source s))) = 0%nat) by (rewrite Hb; reflexivity).
      rewrite length_skipn, RuneFacts.bytes_of_length in Hl. unfold len in *. lia.
  - inversion Hok as [|? ? Hc Hok']; subst.
    destruct fuel as [|f]; [cbn in Hf; lia|].
    assert (Hlen := f_equal (@length Z) Hb).
    rewrite length_skipn, RuneFacts.bytes_of_length in Hlen.
    cbn [flat_map] in Hlen. rewrite length_app in Hlen.
    assert (Hw := EncodeRune_length_pos c Hc).
    cbn [run.scanAll scanner.Scan scanner.stringScanner_Scanner]. unfold scanner.string_Scan.
    destruct (Z.geb_spec (scanner.lastIndex s) (len (scanner.source s))).
    { unfold len in *. lia. }
    cbn [flat_map] in Hb. rewrite Hb, (DecodeRune_okRune c _ Hc).
    destruct Hc as [_ Hc3].
    apply Z.eqb_neq in Hc3. rewrite Hc3. cbn [andb].
    set (s1 := {| scanner.source := scanner.source s; scanner.last := c;
                  scanner.lastIndex := scanner.lastIndex s + scanner.lastWidth s;
                  scanner.lastWidth := Z.of_nat (length (utf8.EncodeRune c));
                  scanner.tailIndex := scanner.tailIndex s |}).
    destruct (IH s1 f Hok' ltac:(cbn [length] in Hf; lia)) as (s' & E & Es & Et & El);
      cbn [s1 scanner.lastIndex scanner.lastWidth scanner.source]; try lia.
    + unfold len in *. lia.
    + rewrite RuneFacts.skipn_skipn_Z by lia. rewrite Hb, Nat2Z.id, skipn_app, skipn_all, Nat.sub_diag.
      reflexivity.
    + rewrite E. exists s'. split; [reflexivity|]. exact (conj Es (conj Et El)).
Qed.

(** X1: [parseOperation] accepts exactly the three strings of
    [OpType.String]: it maps [v] to [o] iff [v] is the name of [o]. *)
Theorem parseOperation_OpType_String (v : string) (o : ast.OpType) :
  parser.parseOperation v = Some o <-> v = ast.OpType_String o.
Proof.
  unfold parser.parseOperation. split.
  - destruct (String.eqb_spec v "query"%string); [intro E; injection E as <-; exact e|].
    destruct (String.eqb_spec v "mutation"%string); [intro E; injection E as <-; exact e|].
    destruct (String.eqb_spec v "subscription"%string); [intro E; injection E as <-; exact e|].
    discriminate.
  - intros ->. destruct o; reflexivity.
Qed.

(** X2: [Kind.String] gives distinct kinds distinct strings. *)
Theorem Kind_String_injective (a b : token.Kind) :
  token.Kind_String a = token.Kind_String b <-> a = b.
Proof. split; [destruct a, b; cbn; congruence | intros ->; reflexivity]. Qed.

(** X3: the string of the kind [RunePunctuators] gives a rune is that
    rune's UTF-8 encoding; and every kind whose string is one character is
    the punctuator kind of that character. *)
Theorem RunePunctuators_Kind_String :
  (forall r k, token.RunePunctuators r = Some k ->
     token.Kind_String k = string_of_bytes (utf8.EncodeRune r)) /\
  (forall k a, token.Kind_String k = String.String a EmptyString ->
     token.RunePunctuators (byte_of_ascii a) = Some k).
Proof.
  split.
  - intros r k. unfold token.RunePunctuators.
    repeat match goal with
           | |- context [if Z.eqb r ?c then _ else _] =>
             destruct (Z.eqb_spec r c); [subst r; intro E; injection E as <-; reflexivity|]
           end.
    discriminate.
  - intros k a. destruct k; cbn; try discriminate; intro E; injection E as <-; reflexivity.
Qed.

Lemma RunePunctuators_Kind_String_witness :
  token.RunePunctuators 123 = Some token.BraceL /\
  token.Kind_String token.BraceL = string_of_bytes (utf8.EncodeRune 123) /\
  token.Kind_String token.BraceL = String.String "{"%char EmptyString /\
  token.RunePunctuators (byte_of_ascii "{"%char) = Some token.BraceL.
Proof.
  split; [reflexivity|]. split; [exact (proj1 RunePunctuators_Kind_String 123 _ eq_refl)|].
  split; [reflexivity|]. exact (proj2 RunePunctuators_Kind_String token.BraceL "{"%char eq_refl).
Defined.

Lemma Lex_eof_eq {S} `{scanner.Scanner S} (fuel : nat) (l : @lexer.lexer S) (t : token.Token) :
  lexer.eof l = true ->
  lexer.Lex (Datatypes.S fuel) l t =
    Some (l, token.mkToken token.EOF (lexer.lastIndex l) (lexer.lastIndex l) (token.Value t), None).
Proof.
  intro He. unfold lexer.Lex, lexer.Lex_body, lexer.advanceToNextToken, lexer.bind.
  cbn [lexer.advanceToNextToken_loop]. rewrite He. cbn. rewrite He. reflexivity.
Qed.

(** X4: at the end of the source [Lex] returns no error and fills in an
    [EOF] token at the lexer's offset, keeping the token's previous [Value];
    the lexer is unchanged. *)
Theorem Lex_at_EOF {S} `{scanner.Scanner S} (fuel : nat) (l : @lexer.lexer S) (t : token.Token) :
  lexer.eof l = true ->
  lexer.Lex (Datatypes.S fuel) l t =
    Some (l, token.mkToken token.EOF (lexer.lastIndex l) (lexer.lastIndex l) (token.Value t), None).
Proof. exact (Lex_eof_eq fuel l t). Qed.

Lemma Lex_at_EOF_witness :
  let l := run.stringLexerOf EmptyString in
  lexer.eof l = true /\
  lexer.Lex 1 l (token.mkToken token.Name 0 1 "a"%string) =
    Some (l, token.mkToken token.EOF 0 0 "a"%string, None).
Proof.
  intro l. assert (He : lexer.eof l = true) by reflexivity.
  split; [exact He | exact (Lex_at_EOF 0 l _ He)].
Defined.

Lemma ReadRune_EncodeRune (b : bufio.Reader) c rest :
  okRune c -> bufio.unread b = utf8.EncodeRune c ++ rest ->
  bufio.ReadRune b = ({| bufio.unread := rest |}, c, Z.of_nat (length (utf8.EncodeRune c)), None).
Proof.
  intros Hok Hu. unfold bufio.ReadRune. rewrite Hu.
  rewrite (DecodeRune_okRune c rest Hok).
  destruct (EncodeRune_shape c Hok) as (_ & H1 & H2).
  destruct (Z.lt_ge_cases c 128) as [h|h].
  - rewrite (H1 h). cbn [app length]. unfold utf8.RuneSelf.
    destruct (Z.ltb_spec c 128); [|lia]. reflexivity.
  - destruct (H2 h) as (b0 & r0 & E & Hb0). rewrite E. cbn [app]. unfold utf8.RuneSelf.
    destruct (Z.ltb_spec b0 128); [lia|].
    rewrite Nat2Z.id. change (b0 :: r0 ++ rest) with ((b0 :: r0) ++ rest).
    rewrite skipn_app, skipn_all, Nat.sub_diag. reflexivity.
Qed.

(** The buffered scanner from a state whose reader holds the encoding of [rest]. *)
Lemma buffered_scanAll (rest : list Z) (s : scanner.bufferedScanner) (fuel : nat) :
  Forall okRune rest -> (length rest < fuel)%nat ->
  bufio.unread (scanner.bsource s) = flat_map utf8.EncodeRune rest ->
  exists s', run.scanAll fuel s = (rest, s', Some errors.io_EOF) /\
    scanner.tailing s' = scanner.tailing s /\
    scanner.tail s' = (if scanner.tailing s then scanner.tail s ++ flat_map utf8.EncodeRune rest
                       else scanner.tail s).
Proof.
  revert s fuel. induction rest as [|c rest IH]; intros s fuel Hok Hf Hb.
  - destruct fuel as [|f]; [cbn in Hf; lia|].
    cbn [run.scanAll scanner.Scan scanner.bufferedScanner_Scanner]. unfold scanner.buffered_Scan.
    unfold bufio.ReadRune. rewrite Hb. cbn [flat_map].
    eexists. split; [reflexivity|]. cbn. split; [reflexivity|].
    destruct (scanner.tailing s); [rewrite app_nil_r|]; reflexivity.
  - inversion Hok as [|? ? Hc Hok']; subst.
    destruct fuel as [|f]; [cbn in Hf; lia|].
    cbn [run.scanAll scanner.Scan scanner.bufferedScanner_Scanner]. unfold scanner.buffered_Scan.
    cbn [flat_map] in Hb. rewrite (ReadRune_EncodeRune _ c _ Hc Hb).
    set (s1 := {| scanner.bsource := {| bufio.unread := flat_map utf8.EncodeRune rest |};
                  scanner.blast := c; scanner.tailing := scanner.tailing s;
                  scanner.tail := if scanner.tailing s then scanner.tail s ++ utf8.EncodeRune c
                                  else scanner.tail s |}).
    destruct (IH s1 f Hok' ltac:(cbn [length] in Hf; lia) eq_refl) as (s' & E & Et & El).
    rewrite E. exists s'. split; [reflexivity|]. split; [exact Et|].
    rewrite El. cbn [s1 scanner.tailing scanner.tail]. cbn [flat_map].
    destruct (scanner.tailing s); [rewrite app_assoc|]; reflexivity.
Qed.

(** X5: on a source that encodes the runes [cs] (valid, none U+FFFD), both
    scanners deliver exactly [cs], one per [Scan], and then [io.EOF]. *)
Theorem scanners_deliver_runes (cs : list Z) (fuel : nat) :
  Forall (fun c => utf8.ValidRune c = true /\ c <> utf8.RuneError) cs -> (length cs < fuel)%nat ->
  let src := string_of_bytes (flat_map utf8.EncodeRune cs) in
  (exists s', run.scanAll fuel (scanner.NewStringScanner src) = (cs, s', Some errors.io_EOF)) /\
  (exists s', run.scanAll fuel (scanner.NewBufferedScanner (bufio.NewReader src))
                = (cs, s', Some errors.io_EOF)).
Proof.
  intros Hok Hf src.
  assert (Hsrc : bytes_of src = flat_map utf8.EncodeRune cs)
    by exact (bytes_of_string_of_bytes _ (flat_map_EncodeRune_bytes cs Hok)).
  split.
  - destruct (string_scanAll cs (scanner.NewStringScanner src) fuel Hok Hf) as (s' & E & _);
      cbn [scanner.NewStringScanner scanner.lastIndex scanner.lastWidth scanner.source]; try lia.
    + unfold len. lia.
    + exact Hsrc.
    + exists s'. exact E.
  - destruct (buffered_scanAll cs (scanner.NewBufferedScanner (bufio.NewReader src)) fuel Hok Hf Hsrc)
      as (s' & E & _).
    exists s'. exact E.
Qed.

Lemma scanners_deliver_runes_witness :
  let src := string_of_bytes (flat_map utf8.EncodeRune [102; 233; 8364]) in
  Forall (fun c => utf8.ValidRune c = true /\ c <> utf8.RuneError) [102; 233; 8364] /\
  (exists s', run.scanAll 4 (scanner.NewStringScanner src) = ([102; 233; 8364], s', Some errors.io_EOF)) /\
  (exists s', run.scanAll 4 (scanner.NewBufferedScanner (bufio.NewReader src))
                = ([102; 233; 8364], s', Some errors.io_EOF)).
Proof.
  intro src.
  assert (Hok : Forall (fun c => utf8.ValidRune c = true /\ c <> utf8.RuneError) [102; 233; 8364])
    by (repeat constructor; discriminate).
  split; [exact Hok | exact (scanners_deliver_runes _ 4 Hok ltac:(cbn; lia))].
Defined.

(** X6: the scanner tests' pattern: after the first [Scan], [StartTail],
    scanning to the end and [EndTail] give back the whole source, with both
    scanners. *)
Theorem scanners_tail_whole_source (c : Z) (cs : list Z) (fuel : nat) :
  Forall (fun c => utf8.ValidRune c = true /\ c <> utf8.RuneError) (c :: cs) ->
  (length cs < fuel)%nat ->
  let src := string_of_bytes (flat_map utf8.EncodeRune (c :: cs)) in
  (exists s1 s2, scanner.Scan (scanner.NewStringScanner src) = (s1, None) /\ scanner.Rune s1 = c /\
     run.scanAll fuel (scanner.StartTail s1) = (cs, s2, Some errors.io_EOF) /\
     snd (scanner.EndTail s2) = src) /\
  (exists s1 s2, scanner.Scan (scanner.NewBufferedScanner (bufio.NewReader src)) = (s1, None) /\
     scanner.Rune s1 = c /\
     run.scanAll fuel (scanner.StartTail s1) = (cs, s2, Some errors.io_EOF) /\
     snd (scanner.EndTail s2) = src).
Proof.
  intros Hok Hf src.
  assert (Hsrc : bytes_of src = flat_map utf8.EncodeRune (c :: cs))
    by exact (bytes_of_string_of_bytes _ (flat_map_EncodeRune_bytes _ Hok)).
  inversion Hok as [|? ? Hc Hok']; subst.
  assert (Hw := EncodeRune_length_pos c Hc).
  assert (Hlen := f_equal (@length Z) Hsrc). rewrite RuneFacts.bytes_of_length in Hlen.
  cbn [flat_map] in Hlen. rewrite length_app in Hlen.
  split.
  - cbn [scanner.Scan scanner.stringScanner_Scanner]. unfold scanner.string_Scan.
    cbn [scanner.NewStringScanner scanner.lastIndex scanner.lastWidth scanner.source].
    destruct (Z.geb_spec 0 (len src)); [unfold len in *; lia|].
    rewrite Hsrc. change (Z.to_nat (0 + 0)) with 0%nat. cbn [skipn flat_map]. rewrite (DecodeRune_okRune c _ Hc).
    destruct Hc as [_ Hc3]. apply Z.eqb_neq in Hc3. rewrite Hc3. cbn [andb].
    eexists _. 
    destruct (string_scanAll cs (scanner.StartTail
      {| scanner.source := src; scanner.last := c; scanner.lastIndex := 0 + 0;
         scanner.lastWidth := Z.of_nat (length (utf8.EncodeRune c)); scanner.tailIndex := 0 |})
      fuel Hok' Hf) as (s2 & E & Es & Et & El);
      cbn [scanner.StartTail scanner.stringScanner_Scanner scanner.string_StartTail
           scanner.lastIndex scanner.lastWidth scanner.source]; try lia.
    + unfold len. lia.
    + rewrite Hsrc. cbn [flat_map].
      replace (Z.to_nat (0 + 0 + Z.of_nat (length (utf8.EncodeRune c)))) with (length (utf8.EncodeRune c)) by lia.
      rewrite skipn_app, skipn_all, Nat.sub_diag. reflexivity.
    + exists s2. split; [reflexivity | split; [reflexivity | split; [exact E|]]].
      cbn [scanner.EndTail scanner.stringScanner_Scanner scanner.string_EndTail snd].
      rewrite Es, Et, El. cbn [scanner.StartTail scanner.stringScanner_Scanner
        scanner.string_StartTail scanner.lastIndex scanner.source scanner.tailIndex].
      unfold slice, len. rewrite Z.sub_0_r, Nat2Z.id. exact (substring_all src).
  - cbn [scanner.Scan scanner.bufferedScanner_Scanner]. unfold scanner.buffered_Scan.
    cbn [scanner.NewBufferedScanner scanner.bsource].
    rewrite (ReadRune_EncodeRune (bufio.NewReader src) c (flat_map utf8.EncodeRune cs) Hc Hsrc).
    eexists _.
    destruct (buffered_scanAll cs (scanner.buffered_StartTail
      {| scanner.bsource := {| bufio.unread := flat_map utf8.EncodeRune cs |};
         scanner.blast := c; scanner.tailing := false; scanner.tail := [] |}) fuel Hok' Hf eq_refl)
      as (s2 & E & Et & El).
    exists s2. split; [reflexivity | split; [reflexivity | split; [exact E|]]].
    cbn [scanner.EndTail scanner.bufferedScanner_Scanner scanner.buffered_EndTail snd].
    rewrite El. cbn [scanner.StartTail scanner.bufferedScanner_Scanner scanner.buffered_StartTail
      scanner.tailing scanner.tail scanner.blast].
    change (utf8.EncodeRune c ++ flat_map utf8.EncodeRune cs) with (flat_map utf8.EncodeRune (c :: cs)).
    fold src. unfold slice, len. rewrite Z.sub_0_r, Nat2Z.id. exact (substring_all src).
Qed.

Lemma scanners_tail_whole_source_witness :
  let src := string_of_bytes (flat_map utf8.EncodeRune [102; 111; 111]) in
  Forall (fun c => utf8.ValidRune c = true /\ c <> utf8.RuneError) [102; 111; 111] /\
  (exists s1 s2, scanner.Scan (scanner.NewStringScanner src) = (s1, None) /\ scanner.Rune s1 = 102 /\
     run.scanAll 3 (scanner.StartTail s1) = ([111; 111], s2, Some errors.io_EOF) /\
     snd (scanner.EndTail s2) = src).
Proof.
  intro src.
  assert (Hok : Forall (fun c => utf8.ValidRune c = true /\ c <> utf8.RuneError) [102; 111; 111])
    by (repeat constructor; discriminate).
  split; [exact Hok | exact (proj1 (scanners_tail_whole_source 102 [111; 111] 3 Hok ltac:(cbn; lia)))].
Defined.

Lemma fromHexChar_range c x : hex.fromHexChar c = Some x -> 0 <= x < 16.
Proof.
  unfold hex.fromHexChar.
  destruct (Z.leb_spec 48 c), (Z.leb_spec c 57); cbn [andb];
    try (intro E; injection E as <-; lia);
  destruct (Z.leb_spec 97 c), (Z.leb_spec c 102); cbn [andb];
    try (intro E; injection E as <-; lia);
  destruct (Z.leb_spec 65 c), (Z.leb_spec c 70); cbn [andb];
    try (intro E; injection E as <-; lia); discriminate.
Qed.

(** X7: [hex.Decode] reports no error iff the input has even length and
    every byte is a hex digit. *)
Theorem Decode_no_error (src : list Z) :
  snd (hex.Decode src) = None <->
  Nat.even (length src) = true /\ Forall (fun b => hex.fromHexChar b <> None) src.
Proof.
  assert (H : forall n src, (length src <= n)%nat ->
    snd (hex.Decode src) = None <->
    Nat.even (length src) = true /\ Forall (fun b => hex.fromHexChar b <> None) src).
  { induction n as [|n IH]; intros [|p [|q rest]] Hn.
    - cbn. split; [intros _; split; [reflexivity | constructor] | reflexivity].
    - cbn in Hn; lia.
    - cbn in Hn; lia.
    - cbn. split; [intros _; split; [reflexivity | constructor] | reflexivity].
    - cbn [hex.Decode length Nat.even]. destruct (hex.fromHexChar p) eqn:Ep; cbn [snd].
      + split; [discriminate|]. intros [Hev _]. discriminate Hev.
      + split; [discriminate|]. intros [_ Hf]. inversion Hf; contradiction.
    - cbn [hex.Decode length]. change (Nat.even (S (S (length rest)))) with (Nat.even (length rest)).
      assert (IHr := IH rest ltac:(cbn [length] in Hn; lia)).
      destruct (hex.fromHexChar p) eqn:Ep; [destruct (hex.fromHexChar q) eqn:Eq|].
      + destruct (hex.Decode rest) as [out e] eqn:Ed. cbn [snd] in IHr |- *. rewrite IHr.
        split.
        * intros [Hev Hf]. split; [exact Hev | constructor; [congruence | constructor; [congruence | exact Hf]]].
        * intros [Hev Hf]. inversion Hf as [|? ? _ Hf']. inversion Hf' as [|? ? _ Hf''].
          exact (conj Hev Hf'').
      + cbn [snd]. split; [discriminate|]. intros [_ Hf]. inversion Hf as [|? ? _ Hf'].
        inversion Hf'; contradiction.
      + cbn [snd]. split; [discriminate|]. intros [_ Hf]. inversion Hf; contradiction. }
  exact (H _ src (le_n _)).
Qed.

(** X8: the [\u] path of [readString]: four hex digits decode to two bytes,
    and [BigEndian.Uint16] of them is the 16-bit value the digits denote. *)
Theorem DecodeString_Uint16 (a b c d x1 x2 x3 x4 : Z) :
  hex.fromHexChar a = Some x1 -> hex.fromHexChar b = Some x2 ->
  hex.fromHexChar c = Some x3 -> hex.fromHexChar d = Some x4 ->
  hex.DecodeString [a; b; c; d] = ([16 * x1 + x2; 16 * x3 + x4], None) /\
  hex.BigEndian_Uint16 [16 * x1 + x2; 16 * x3 + x4] = 4096 * x1 + 256 * x2 + 16 * x3 + x4 /\
  0 <= 4096 * x1 + 256 * x2 + 16 * x3 + x4 < 65536.
Proof.
  intros E1 E2 E3 E4.
  pose proof (fromHexChar_range _ _ E1). pose proof (fromHexChar_range _ _ E2).
  pose proof (fromHexChar_range _ _ E3). pose proof (fromHexChar_range _ _ E4).
  unfold hex.DecodeString. cbn [hex.Decode]. rewrite E1, E2, E3, E4.
  rewrite !(Utf8Facts.shiftl_lor _ _ 4) by (cbn; lia). cbn [Z.pow Z.pow_pos Pos.iter].
  split; [f_equal; f_equal; f_equal; [lia|f_equal; lia]|].
  unfold hex.BigEndian_Uint16. cbn [nth].
  rewrite Z.lor_comm, (Utf8Facts.shiftl_lor _ _ 8) by (try change (2 ^ 8) with 256; lia). change (2 ^ 8) with 256. split; lia.
Qed.

Lemma DecodeString_Uint16_witness :
  hex.DecodeString [48; 48; 101; 57] = ([0; 233], None) /\
  hex.BigEndian_Uint16 [0; 233] = 233.
Proof.
  destruct (DecodeString_Uint16 48 48 101 57 0 0 14 9 eq_refl eq_refl eq_refl eq_refl) as (E & U & _).
  split; [exact E | exact U].
Defined.

Lemma document_loop_nonempty {S} `{scanner.Scanner S} (n : nat) (p p' : @parser.parser S) ds :
  parser.document_loop n p = parser.Ok (ds, p') -> exists d ds', ds = d :: ds'.
Proof.
  destruct n as [|f]; [discriminate|]. cbn [parser.document_loop].
  unfold parser.bind. destruct (parser.parseDefinition f p) as [[d p1]| |]; try discriminate.
  destruct (parser.skip f token.EOF p1) as [[b p2]| |]; try discriminate.
  destruct b.
  - unfold parser.ret. intro E. injection E as <- _. eauto.
  - destruct (parser.document_loop f p2) as [[ds2 p3]| |]; try discriminate.
    unfold parser.ret. intro E. injection E as <- _. eauto.
Qed.

Lemma parseWith_nonempty {S} `{scanner.Scanner S} (n : nat) (nl : @lexer.lexer S + errors.error) d :
  parser.parseWith n nl = parser.Ok d -> exists loc def defs, d = ast.mkDocument loc (def :: defs).
Proof.
  unfold parser.parseWith. destruct nl as [l|e]; [|discriminate].
  destruct (parser.newParser n l) as [p| |]; try discriminate.
  intro X.
  cbv [parser.parseDocument parser.bind parser.lastTok parser.getPrevEnd parser.get parser.ret] in X.
  destruct (parser.document_loop n p) as [[ds p']| |] eqn:E; try discriminate.
  destruct (document_loop_nonempty n p p' ds E) as (def & defs & ->).
  injection X as <-. eauto.
Qed.

(** X9: a document parsed with either entry point holds at least one
    definition. *)
Theorem parse_has_definition (s : string) (d : ast.Document) :
  (parser.ParseString s = parser.Ok d \/ parser.ParseReader s = parser.Ok d) ->
  exists loc def defs, d = ast.mkDocument loc (def :: defs).
Proof. intros [E|E]; exact (parseWith_nonempty _ _ _ E). Qed.

Lemma parse_has_definition_witness :
  parser.ParseString "{a,b}"%string = parser.Ok (run.doc_ab "a" "b") /\
  exists loc def defs, run.doc_ab "a" "b" = ast.mkDocument loc (def :: defs).
Proof.
  assert (E : parser.ParseString "{a,b}"%string = parser.Ok (run.doc_ab "a" "b"))
    by (vm_compute; reflexivity).
  split; [exact E | exact (parse_has_definition _ _ (or_introl E))].
Defined.

Section Doc.
Context {S : Type} `{scanner.Scanner S}.
Variable rem : S -> nat.
Variable wf : S -> Prop.
Hypothesis scan_none : forall s s', wf s -> scanner.Scan s = (s', None) ->
  wf s' /\ (rem s' < rem s)%nat.
Hypothesis scan_some : forall s s' e, wf s -> scanner.Scan s = (s', Some e) ->
  wf s' /\ (rem s' <= rem s)%nat /\
  (scanner.Rune s' = 0 \/ scanner.Rune s' = utf8.RuneError).
Hypothesis start_tail : forall s, wf s ->
  wf (scanner.StartTail s) /\ rem (scanner.StartTail s) = rem s /\
  scanner.Rune (scanner.StartTail s) = scanner.Rune s.
Hypothesis end_tail : forall s, wf s ->
  wf (fst (scanner.EndTail s)) /\ rem (fst (scanner.EndTail s)) = rem s /\
  scanner.Rune (fst (scanner.EndTail s)) = scanner.Rune s.
Variable N : Z.

Lemma document_loop_EOF (n : nat) : forall (p p' : @parser.parser S) ds,
  measure.PInv rem wf N p -> parser.document_loop n p = parser.Ok (ds, p') ->
  token.kind (parser.last p') = token.EOF /\ lexer.eof (parser.lex p') = true.
Proof.
  induction n as [|f IH]; intros p p' ds HP X; [discriminate X|]. cbn [parser.document_loop] in X.
  unfold parser.bind at 1 in X.
  destruct (parser.parseDefinition f p) as [[d p1]| |] eqn:Ed; try discriminate X.
  assert (HP1 : measure.PInv rem wf N p1).
  { exact (ParseFacts.Cons_PInv rem wf N _ _ _
             (ParseFacts.PSpec_ok _ _ _ _ _ _
                (ParseFacts.parseDefinition_spec rem wf scan_none scan_some start_tail end_tail
                   N f p HP) Ed)). }
  unfold parser.skip, parser.lastTok, parser.get, parser.ret in X. cbv [parser.bind] in X.
  destruct (token.Kind_eqb (token.kind (parser.last p1)) token.EOF) eqn:Ek.
  - assert (Hk : token.kind (parser.last p1) = token.EOF)
      by (destruct (token.kind (parser.last p1)); try discriminate; reflexivity).
    destruct HP1 as (_ & _ & HE & _). destruct (HE Hk) as [He _].
    unfold parser.advance in X. destruct f as [|f']; [cbn in X; discriminate X|].
    rewrite (Lex_eof_eq f' (parser.lex p1) token.zero He) in X.
    injection X as _ <-. cbn. split; [reflexivity | exact He].
  - destruct (parser.document_loop f p1) as [[ds1 p3]| |] eqn:E3; try discriminate X.
    injection X as _ <-. exact (IH p1 p3 ds1 HP1 E3).
Qed.

Lemma parseWith_EOF (n : nat) (s0 : S) (l : @lexer.lexer S) (p p' : @parser.parser S) d :
  wf s0 -> Z.of_nat (rem s0) = N ->
  lexer.NewLexer s0 = inl l -> parser.newParser n l = parser.Ok p ->
  parser.parseDocument n p = parser.Ok (d, p') ->
  token.kind (parser.last p') = token.EOF /\ lexer.eof (parser.lex p') = true.
Proof.
  intros Hwf HN EL EP.
  destruct (ParseFacts.NewLexer_spec rem wf scan_none scan_some N s0 l Hwf HN EL)
    as [HL _].
  destruct (ParseFacts.newParser_spec rem wf scan_none scan_some start_tail end_tail N n l p HL EP)
    as [HP _].
  intro X.
  cbv [parser.parseDocument parser.bind parser.lastTok parser.getPrevEnd parser.get parser.ret] in X.
  destruct (parser.document_loop n p) as [[ds p3]| |] eqn:E; try discriminate. injection X as _ <-. exact (document_loop_EOF n p p3 ds HP E).
Qed.
End Doc.

(** X10: [parseDocument] succeeds only once the lexer is at the end of the
    source, with the last token [EOF], for both lexers. *)
Theorem parseDocument_reads_to_EOF (n : nat) (s : string) :
  (forall l p d p', lexer.NewStringLexer s = inl l -> parser.newParser n l = parser.Ok p ->
     parser.parseDocument n p = parser.Ok (d, p') ->
     token.kind (parser.last p') = token.EOF /\ lexer.eof (parser.lex p') = true) /\
  (forall l p d p', lexer.NewReaderLexer s = inl l -> parser.newParser n l = parser.Ok p ->
     parser.parseDocument n p = parser.Ok (d, p') ->
     token.kind (parser.last p') = token.EOF /\ lexer.eof (parser.lex p') = true).
Proof.
  split; intros l p d p' EL EP ED.
  - exact (parseWith_EOF measure.string_rem measure.string_wf
             RuneFacts.string_scan_none RuneFacts.string_scan_some
             RuneFacts.string_start_tail RuneFacts.string_end_tail
             _ n (scanner.NewStringScanner s) l p p' d (Facts.string_wf_New s) eq_refl EL EP ED).
  - exact (parseWith_EOF measure.buffered_rem measure.buffered_wf
             RuneFacts.buffered_scan_none RuneFacts.buffered_scan_some
             RuneFacts.buffered_start_tail RuneFacts.buffered_end_tail
             _ n (scanner.NewBufferedScanner (bufio.NewReader s)) l p p' d I eq_refl EL EP ED).
Qed.

Lemma parseDocument_reads_to_EOF_witness :
  let s := "{a}"%string in
  let n := parser.fuelFor s in
  exists l p d p', lexer.NewStringLexer s = inl l /\ parser.newParser n l = parser.Ok p /\
    parser.parseDocument n p = parser.Ok (d, p') /\
    token.kind (parser.last p') = token.EOF /\ lexer.eof (parser.lex p') = true.
Proof.
  intros s n.
  assert (EL : lexer.NewStringLexer s = inl (run.stringLexerOf s)) by (vm_compute; reflexivity).
  assert (EP : parser.newParser n (run.stringLexerOf s) = parser.Ok (run.parserOf s))
    by (vm_compute; reflexivity).
  destruct (parser.parseDocument n (run.parserOf s)) as [[d p']| |] eqn:ED;
    [| vm_compute in ED; discriminate ED | vm_compute in ED; discriminate ED].
  exists (run.stringLexerOf s), (run.parserOf s), d, p'.
  split; [exact EL | split; [exact EP | split; [exact ED |]]].
  exact (proj1 (parseDocument_reads_to_EOF n s) _ _ _ _ EL EP ED).
Defined.

End Extra.

Module Extra2.
Import Extra.

(* Turn boolean comparisons of the hypotheses into arithmetic. *)
Ltac zbool :=
  repeat match goal with
  | H : (_ || _)%bool = true |- _ => apply orb_true_iff in H
  | H : (_ || _)%bool = false |- _ => apply orb_false_iff in H
  | H : (_ && _)%bool = true |- _ => apply andb_true_iff in H
  | H : (_ && _)%bool = false |- _ => apply andb_false_iff in H
  | H : (_ =? _) = true |- _ => apply Z.eqb_eq in H
  | H : (_ =? _) = false |- _ => apply Z.eqb_neq in H
  | H : (_ <=? _) = true |- _ => apply Z.leb_le in H
  | H : (_ <=? _) = false |- _ => apply Z.leb_gt in H
  | H : (_ <? _) = true |- _ => apply Z.ltb_lt in H
  | H : (_ <? _) = false |- _ => apply Z.ltb_ge in H
  | H : _ /\ _ |- _ => destruct H
  | H : _ \/ _ |- _ => destruct H
  end.

Ltac bool_false E :=
  match goal with |- ?b = false => destruct b eqn:E; [exfalso|reflexivity] end.

Lemma name_char_class r :
  lexer.isNameChar r = true -> 0 <= r < 128 /\ r <> utf8.RuneError.
Proof.
  unfold lexer.isNameChar, lexer.isDigit, lexer.isUpperLetter, lexer.isLowerLetter, utf8.RuneError.
  intro E. zbool; lia.
Qed.

Lemma name_start_class r :
  lexer.isNameChar r = true -> lexer.isDigit r = false ->
  lexer.isWhitespace r = false /\ (r =? 35) = false /\ token.RunePunctuators r = None /\
  ((r =? 95) || lexer.isUpperLetter r || lexer.isLowerLetter r)%bool = true.
Proof.
  intros E D. assert (Hc : r = 95 \/ 65 <= r <= 90 \/ 97 <= r <= 122).
  { unfold lexer.isNameChar, lexer.isDigit, lexer.isUpperLetter, lexer.isLowerLetter in *.
    zbool; lia. }
  split; [|split; [|split]].
  - bool_false W. unfold lexer.isWhitespace, token.BOM, token.TAB, token.SPACE, token.LF,
      token.CR, token.COMMA in W. zbool; lia.
  - bool_false W. zbool; lia.
  - unfold token.RunePunctuators.
    repeat match goal with
           | |- context [if Z.eqb r ?c then _ else _] => destruct (Z.eqb_spec r c); [lia|]
           end; reflexivity.
  - unfold lexer.isUpperLetter, lexer.isLowerLetter.
    destruct Hc as [->|[Hc|Hc]]; [reflexivity| |];
      destruct (Z.eqb_spec r 95); destruct (Z.leb_spec 65 r); destruct (Z.leb_spec r 90);
      destruct (Z.leb_spec 97 r); destruct (Z.leb_spec r 122); cbn; try reflexivity; lia.
Qed.

Lemma DecodeRune_ascii b rest : 0 <= b < 128 -> utf8.DecodeRune (b :: rest) = (b, 1).
Proof.
  intro Hb. unfold utf8.DecodeRune, utf8.first. destruct (Z.ltb_spec b 128); [reflexivity | lia].
Qed.

(* What may follow a name: the end of the source or an ASCII byte that
   cannot continue the name. *)
Local Abbreviation nameEnd := (fun (rest : list Z) =>
  rest = [] \/ exists b r', rest = b :: r' /\ 0 <= b < 128 /\ lexer.isNameChar b = false).

(** [readName]'s loop on a string scanner at the name character at byte
    and rune offset [i], the rest of the name being [ns]. *)
Lemma string_RNL (ns restB : list Z) : forall (i : Z) (src : string) c t (fuel : nat),
  Forall (fun b => lexer.isNameChar b = true) ns -> nameEnd restB ->
  0 <= i -> i + 1 <= len src ->
  skipn (Z.to_nat (i + 1)) (bytes_of src) = ns ++ restB ->
  (length ns < fuel)%nat ->
  exists l', lexer.readName_loop fuel
    (lexer.mkLexer {| scanner.source := src; scanner.last := c; scanner.lastIndex := i;
                      scanner.lastWidth := 1; scanner.tailIndex := 0 |} None i false) t
    = Some (l', token.set_Value (token.set_End t (i + Z.of_nat (length ns)))
                 (slice src 0 (i + 1 + Z.of_nat (length ns))), inr None).
Proof.
  induction ns as [|b ns IH]; intros i src c t fuel Hns Hend Hi Hlen Hb Hf;
    (destruct fuel as [|f]; [cbn in Hf; lia|]).
  - cbn [lexer.readName_loop]. unfold lexer.advance, lexer.bind, lexer.advance_l.
    cbn [lexer.scanner scanner.Scan scanner.stringScanner_Scanner]. unfold scanner.string_Scan.
    cbn [scanner.lastIndex scanner.lastWidth scanner.source].
    destruct (Z.geb_spec i (len src)); [lia|].
    rewrite Hb. cbn [app].
    destruct Hend as [->|(b & r' & -> & Hb1 & Hb2)].
    + cbn [utf8.DecodeRune]. cbn [Z.eqb andb utf8.RuneError].
      eexists. cbn. unfold lexer.return_, slice.
      replace (i + 1 - 1) with (i + 0) by lia. replace (i + 1 - 0) with (i + 1 + 0 - 0) by lia.
      reflexivity.
    + rewrite (DecodeRune_ascii b r' Hb1).
      assert (Hr : (b =? utf8.RuneError) = false)
        by (apply Z.eqb_neq; unfold utf8.RuneError; lia).
      rewrite Hr. cbn [andb].
      unfold lexer.rune, lexer.get_l, lexer.endTail, lexer.upd_t, lexer.return_.
      cbn [lexer.scanner scanner.Rune scanner.stringScanner_Scanner scanner.last]. rewrite Hb2.
      eexists. cbn. unfold lexer.return_, slice.
      replace (i + 1 - 1) with (i + 0) by lia. replace (i + 1 - 0) with (i + 1 + 0 - 0) by lia.
      reflexivity.
  - inversion Hns as [|? ? Hb1 Hns']; subst.
    destruct (name_char_class b Hb1) as [Hba Hbe].
    assert (Hl := f_equal (@length Z) Hb). rewrite length_skipn, RuneFacts.bytes_of_length in Hl.
    cbn [app length] in Hl.
    cbn [lexer.readName_loop]. unfold lexer.advance, lexer.bind at 1, lexer.advance_l.
    cbn [lexer.scanner scanner.Scan scanner.stringScanner_Scanner]. unfold scanner.string_Scan.
    cbn [scanner.lastIndex scanner.lastWidth scanner.source].
    destruct (Z.geb_spec i (len src)); [lia|].
    rewrite Hb. cbn [app]. rewrite (DecodeRune_ascii b _ Hba).
    assert (Hr : (b =? utf8.RuneError) = false) by (apply Z.eqb_neq; exact Hbe).
    rewrite Hr. cbn [andb lexer.eof lexer.lastIndex].
    unfold lexer.bind, lexer.rune. cbn [lexer.scanner scanner.Rune scanner.stringScanner_Scanner scanner.last].
    rewrite Hb1.
    destruct (IH (i + 1) src b t f Hns' Hend ltac:(lia) ltac:(unfold len in *; lia)
                ltac:(rewrite (RuneFacts.skipn_skipn_Z (i + 1) 1) by lia; rewrite Hb; reflexivity)
                ltac:(cbn [length] in Hf; lia)) as (l' & E).
    exists l'. cbn [scanner.tailIndex]. rewrite E.
    replace (i + 1 + Z.of_nat (length ns)) with (i + Z.of_nat (length (b :: ns))) by (cbn [length]; lia).
    replace (i + 1 + 1 + Z.of_nat (length ns)) with (i + 1 + Z.of_nat (length (b :: ns))) by (cbn [length]; lia).
    reflexivity.
Qed.

(** [readName]'s loop on a tailing buffered scanner holding the tail [T],
    the rest of the name being [ns]. *)
Lemma buffered_RNL (ns restB : list Z) : forall (T : list Z) c (i : Z) t (fuel : nat),
  Forall (fun b => lexer.isNameChar b = true) ns -> nameEnd restB ->
  (length ns < fuel)%nat ->
  exists l', lexer.readName_loop fuel
    (lexer.mkLexer {| scanner.bsource := {| bufio.unread := ns ++ restB |}; scanner.blast := c;
                      scanner.tailing := true; scanner.tail := T |} None i false) t
    = Some (l', token.set_Value (token.set_End t (i + Z.of_nat (length ns)))
                 (let v := string_of_bytes (T ++ ns ++ firstn 1 restB) in slice v 0 (len v)),
            inr None).
Proof.
  induction ns as [|b ns IH]; intros T c i t fuel Hns Hend Hf;
    (destruct fuel as [|f]; [cbn in Hf; lia|]).
  - destruct Hend as [->|(b & r' & -> & Hb1 & Hb2)].
    + eexists. cbn. rewrite app_nil_r. replace (i + 1 - 1) with (i + 0) by lia. reflexivity.
    + cbn [lexer.readName_loop]. unfold lexer.advance, lexer.bind, lexer.advance_l.
      cbn [lexer.scanner scanner.Scan scanner.bufferedScanner_Scanner]. unfold scanner.buffered_Scan.
      cbn [app bufio.ReadRune bufio.unread scanner.bsource scanner.tailing scanner.tail]. unfold utf8.RuneSelf.
      destruct (Z.ltb_spec b 128); [|lia].
      unfold lexer.rune, lexer.get_l, lexer.endTail, lexer.upd_t, lexer.return_.
      cbn [lexer.scanner scanner.Rune scanner.bufferedScanner_Scanner scanner.blast].
      rewrite Hb2. rewrite (Utf8Facts.EncodeRune_1 b) by lia.
      eexists. cbn. replace (i + 1 - 1) with (i + 0) by lia. reflexivity.
  - inversion Hns as [|? ? Hb1 Hns']; subst.
    destruct (name_char_class b Hb1) as [Hba Hbe].
    cbn [lexer.readName_loop]. unfold lexer.advance, lexer.bind at 1, lexer.advance_l.
    cbn [lexer.scanner scanner.Scan scanner.bufferedScanner_Scanner]. unfold scanner.buffered_Scan.
    cbn [app bufio.ReadRune bufio.unread scanner.bsource scanner.tailing scanner.tail]. unfold utf8.RuneSelf.
    destruct (Z.ltb_spec b 128); [|lia].
    cbn [Z.to_nat Pos.to_nat Pos.iter_op Nat.add skipn scanner.tailing].
    rewrite (Utf8Facts.EncodeRune_1 b) by lia.
    unfold lexer.bind, lexer.rune. cbn [lexer.scanner scanner.Rune scanner.bufferedScanner_Scanner scanner.blast].
    rewrite Hb1.
    destruct (IH (T ++ [b]) b (i + 1) t f Hns' Hend ltac:(cbn [length] in Hf; lia)) as (l' & E).
    exists l'. replace (skipn (PosDef.Pos.to_nat 1) (b :: ns ++ restB)) with (ns ++ restB) by reflexivity. cbn [lexer.lastIndex lexer.eof]. rewrite E.
    replace (i + 1 + Z.of_nat (length ns)) with (i + Z.of_nat (length (b :: ns))) by (cbn [length]; lia).
    rewrite <- app_assoc. reflexivity.
Qed.

Lemma string_of_bytes_bytes_of (s : string) : string_of_bytes (bytes_of s) = s.
Proof.
  induction s as [|a s IH]; [reflexivity|].
  unfold string_of_bytes, bytes_of in *. cbn. rewrite IH. f_equal.
  unfold ascii_of_byte, byte_of_ascii. rewrite Nat2Z.id. apply ascii_nat_embedding.
Qed.

Lemma string_of_bytes_app (x y : list Z) :
  string_of_bytes (x ++ y) = String.append (string_of_bytes x) (string_of_bytes y).
Proof.
  induction x as [|a x IH]; [reflexivity|]. unfold string_of_bytes in *. cbn. rewrite IH. reflexivity.
Qed.

Lemma bytes_of_append (a b : string) : bytes_of (String.append a b) = bytes_of a ++ bytes_of b.
Proof.
  induction a as [|c a IH]; [reflexivity|]. unfold bytes_of in *. cbn. rewrite IH. reflexivity.
Qed.

Lemma substring_prefix (a b : string) : substring 0 (String.length a) (String.append a b) = a.
Proof.
  induction a as [|c a IH]; [destruct b; reflexivity|]. cbn. rewrite IH. reflexivity.
Qed.

Lemma bytes_of_substring_1 (s : string) : bytes_of (substring 0 1 s) = firstn 1 (bytes_of s).
Proof. destruct s as [|a s]; [reflexivity|]. destruct s; reflexivity. Qed.

(** [Lex] at a rune that starts a name goes to [readName]. *)
Lemma Lex_body_name {S} `{scanner.Scanner S} (fuel : nat) (l : @lexer.lexer S) (t : token.Token) :
  lexer.eof l = false -> lexer.isNameChar (scanner.Rune (lexer.scanner l)) = true ->
  lexer.isDigit (scanner.Rune (lexer.scanner l)) = false ->
  lexer.Lex_body (Datatypes.S fuel) l t
  = lexer.readName (Datatypes.S fuel) l (token.set_Start t (lexer.lastIndex l)).
Proof.
  intros He Hn Hd. destruct (name_start_class _ Hn Hd) as (Hw & H35 & Hp & Hs).
  unfold lexer.Lex_body, lexer.advanceToNextToken, lexer.bind at 1.
  cbn [lexer.advanceToNextToken_loop]. rewrite He, Hw, H35.
  cbv beta iota zeta delta [lexer.bind lexer.get_l lexer.upd_t lexer.rune]. cbv beta iota zeta delta [negb]. rewrite He. cbv beta iota zeta delta [token.set_Start]. cbn [lexer.scanner lexer.eof lexer.lastIndex]. rewrite Hp, Hs. reflexivity.
Qed.

(** X11: a name at the start of the source, followed by its end or an ASCII
    rune that cannot continue it, lexes to a [Name] token spanning its runes
    (End inclusive).  The string lexer's [Value] is the name; the reader
    lexer's [Value] also holds the rune that ended it. *)
Theorem lex_name_token (nm rest : string) :
  nm <> EmptyString ->
  Forall (fun b => lexer.isNameChar b = true) (bytes_of nm) ->
  lexer.isDigit (hd 0 (bytes_of nm)) = false ->
  (rest = EmptyString \/ exists a r', rest = String a r' /\
     byte_of_ascii a < 128 /\ lexer.isNameChar (byte_of_ascii a) = false) ->
  run.lexString (String.append nm rest)
    = Some (token.mkToken token.Name 0 (len nm - 1) nm, None) /\
  run.lexReader (String.append nm rest)
    = Some (token.mkToken token.Name 0 (len nm - 1) (String.append nm (substring 0 1 rest)), None).
Proof.
  intros Hne Hall Hd Hrest.
  destruct (bytes_of nm) as [|n0 ns] eqn:Enm.
  { destruct nm; [congruence | discriminate Enm]. }
  inversion Hall as [|? ? Hn0 Hns]; subst. cbn [hd] in Hd.
  destruct (name_char_class n0 Hn0) as [Hn0a Hn0e].
  assert (Hlen : String.length nm = Datatypes.S (length ns)).
  { rewrite <- RuneFacts.bytes_of_length, Enm. reflexivity. }
  assert (Hend : nameEnd (bytes_of rest)).
  { destruct Hrest as [->|(a & r' & -> & Ha1 & Ha2)]; [left; reflexivity|].
    right. exists (byte_of_ascii a), (bytes_of r'). split; [reflexivity|].
    split; [|exact Ha2]. split; [unfold byte_of_ascii; lia | exact Ha1]. }
  assert (Hsrc : bytes_of (String.append nm rest) = n0 :: ns ++ bytes_of rest).
  { rewrite bytes_of_append, Enm. reflexivity. }
  assert (Hr0 : (n0 =? utf8.RuneError) = false) by (apply Z.eqb_neq; exact Hn0e).
  assert (HL : len nm - 1 = 0 + Z.of_nat (length ns)) by (unfold len; rewrite Hlen; lia).
  split.
  - unfold run.lexString, run.lexFirstWith, lexer.NewStringLexer, lexer.NewLexer, lexer.advance_l.
    cbn [scanner.Scan scanner.stringScanner_Scanner]. unfold scanner.string_Scan, scanner.NewStringScanner.
    cbn [lexer.scanner scanner.lastIndex scanner.lastWidth scanner.source].
    destruct (Z.geb_spec 0 (len (String.append nm rest))) as [Hc|_].
    { unfold len in Hc. rewrite <- RuneFacts.bytes_of_length, Hsrc in Hc. cbn [length] in Hc. lia. }
    change (Z.to_nat (0 + 0)) with 0%nat. cbn [skipn]. rewrite Hsrc, DecodeRune_ascii by lia.
    rewrite Hr0. cbn [andb]. rewrite Nat.add_1_r. unfold lexer.Lex.
    rewrite Lex_body_name by first [reflexivity | exact Hn0 | exact Hd].
    unfold lexer.readName, lexer.bind at 1, lexer.upd_t.
    unfold lexer.bind at 1, lexer.startTail.
    cbn [lexer.set_scanner lexer.scanner lexer.err lexer.lastIndex lexer.eof
         scanner.StartTail scanner.stringScanner_Scanner].
    unfold scanner.string_StartTail.
    cbn [scanner.source scanner.last scanner.lastIndex scanner.lastWidth].
    unfold lexer.set_scanner. cbn [lexer.scanner lexer.err lexer.lastIndex lexer.eof].
    change (0 + 0) with 0. change (-1 + 1) with 0.
    destruct (string_RNL ns (bytes_of rest) 0 (String.append nm rest) n0
                (token.set_kind (token.set_Start token.zero 0) token.Name)
                (Datatypes.S (String.length (String.append nm rest))) Hns Hend ltac:(lia)
                ltac:(unfold len; rewrite <- RuneFacts.bytes_of_length, Hsrc; cbn [length]; lia)
                ltac:(rewrite Hsrc; reflexivity)
                ltac:(rewrite <- RuneFacts.bytes_of_length, Hsrc; cbn [length];
                      rewrite length_app; lia)) as (l' & E).
    rewrite E. cbv beta iota. rewrite HL. unfold slice.
    replace (Z.to_nat (0 + 1 + Z.of_nat (length ns) - 0)) with (String.length nm) by lia.
    change (Z.to_nat 0) with 0%nat. rewrite substring_prefix. reflexivity.
  - unfold run.lexReader, run.lexFirstWith, lexer.NewReaderLexer, lexer.NewLexer, lexer.advance_l.
    cbn [scanner.Scan scanner.bufferedScanner_Scanner].
    unfold scanner.buffered_Scan, scanner.NewBufferedScanner, bufio.NewReader.
    cbn [lexer.scanner scanner.bsource scanner.tailing scanner.tail].
    rewrite Hsrc. cbn [bufio.ReadRune bufio.unread]. unfold utf8.RuneSelf.
    destruct (Z.ltb_spec n0 128) as [_|]; [|lia].
    replace (skipn (Z.to_nat 1) (n0 :: ns ++ bytes_of rest)) with (ns ++ bytes_of rest)
      by reflexivity.
    rewrite Nat.add_1_r. unfold lexer.Lex.
    rewrite Lex_body_name by first [reflexivity | exact Hn0 | exact Hd].
    unfold lexer.readName, lexer.bind at 1, lexer.upd_t.
    unfold lexer.bind at 1, lexer.startTail.
    cbn [lexer.set_scanner lexer.scanner lexer.err lexer.lastIndex lexer.eof
         scanner.StartTail scanner.bufferedScanner_Scanner].
    unfold scanner.buffered_StartTail.
    cbn [scanner.bsource scanner.blast]. rewrite (Utf8Facts.EncodeRune_1 n0) by lia.
    change (-1 + 1) with 0.
    destruct (buffered_RNL ns (bytes_of rest) [n0] n0 0
                (token.set_kind (token.set_Start token.zero 0) token.Name)
                (Datatypes.S (String.length (String.append nm rest))) Hns Hend
                ltac:(rewrite <- RuneFacts.bytes_of_length, Hsrc; cbn [length];
                      rewrite length_app; lia)) as (l' & E).
    unfold lexer.set_scanner. cbn [lexer.err lexer.lastIndex lexer.eof]. rewrite E. cbv beta iota. rewrite HL.
    replace ([n0] ++ ns ++ firstn 1 (bytes_of rest))
      with (bytes_of (String.append nm (substring 0 1 rest)))
      by (rewrite bytes_of_append, Enm, bytes_of_substring_1; reflexivity).
    rewrite string_of_bytes_bytes_of. unfold slice, len.
    rewrite Z.sub_0_r, Nat2Z.id. change (Z.to_nat 0) with 0%nat.
    rewrite substring_all. reflexivity.
Qed.

Lemma lex_name_token_witness :
  run.lexString "ab(x"%string = Some (token.mkToken token.Name 0 1 "ab"%string, None) /\
  run.lexReader "ab(x"%string = Some (token.mkToken token.Name 0 1 "ab("%string, None).
Proof.
  assert (H1 : "ab"%string <> EmptyString) by discriminate.
  assert (H2 : Forall (fun b => lexer.isNameChar b = true) (bytes_of "ab"%string))
    by (repeat constructor).
  assert (H3 : lexer.isDigit (hd 0 (bytes_of "ab"%string)) = false) by reflexivity.
  assert (H4 : "(x"%string = EmptyString \/ exists a r', "(x"%string = String a r' /\
     byte_of_ascii a < 128 /\ lexer.isNameChar (byte_of_ascii a) = false).
  { right. exists "("%char, "x"%string. split; [reflexivity | split; [cbv; reflexivity | reflexivity]]. }
  exact (lex_name_token "ab"%string "(x"%string H1 H2 H3 H4).
Defined.

(** [stringScanner.Scan] reports no error but [io.EOF]. *)
Lemma string_Scan_EOF (s s' : scanner.stringScanner) (e : errors.error) :
  scanner.string_Scan s = (s', Some e) -> e = errors.io_EOF.
Proof.
  unfold scanner.string_Scan. destruct (_ >=? _).
  - intro E. injection E as _ E. congruence.
  - destruct (utf8.DecodeRune _) as [r w]. destruct (_ && _);
      intro E; injection E as _ E; congruence.
Qed.

(** [bufio.Reader.ReadRune] reports no error but [io.EOF]. *)
Lemma ReadRune_EOF (b b' : bufio.Reader) r w (e : errors.error) :
  bufio.ReadRune b = (b', r, w, Some e) -> e = errors.io_EOF.
Proof.
  unfold bufio.ReadRune. destruct (bufio.unread b) as [|c q].
  - intro E. injection E as _ _ _ E. congruence.
  - destruct (if c <? utf8.RuneSelf then _ else _) as [r0 w0]. intro E. discriminate E.
Qed.

Lemma buffered_Scan_EOF (s s' : scanner.bufferedScanner) (e : errors.error) :
  scanner.buffered_Scan s = (s', Some e) -> e = errors.io_EOF.
Proof.
  unfold scanner.buffered_Scan. destruct (bufio.ReadRune _) as [[[rd r] w] er] eqn:E.
  destruct er as [e'|].
  - intro X. injection X as _ X. subst. exact (ReadRune_EOF _ _ _ _ _ E).
  - intro X. discriminate X.
Qed.

(** [advance] succeeds whenever [Scan] reports no error but [io.EOF]. *)
Lemma advance_l_no_err {S} `{scanner.Scanner S} (l : @lexer.lexer S) :
  (forall s' e, scanner.Scan (lexer.scanner l) = (s', Some e) -> e = errors.io_EOF) ->
  snd (lexer.advance_l l) = true /\ lexer.err (fst (lexer.advance_l l)) = None.
Proof.
  intro HS. unfold lexer.advance_l.
  destruct (scanner.Scan (lexer.scanner l)) as [s' [e|]] eqn:E.
  - rewrite (HS s' e eq_refl). split; reflexivity.
  - split; reflexivity.
Qed.

Lemma string_advance_ok (l : @lexer.lexer scanner.stringScanner) :
  snd (lexer.advance_l l) = true /\ lexer.err (fst (lexer.advance_l l)) = None.
Proof. apply advance_l_no_err. exact (fun s' e => string_Scan_EOF _ s' e). Qed.

Lemma buffered_advance_ok (l : @lexer.lexer scanner.bufferedScanner) :
  snd (lexer.advance_l l) = true /\ lexer.err (fst (lexer.advance_l l)) = None.
Proof. apply advance_l_no_err. exact (fun s' e => buffered_Scan_EOF _ s' e). Qed.

Lemma NewLexer_inl {S} `{scanner.Scanner S} (s0 : S) :
  (forall l : @lexer.lexer S, snd (lexer.advance_l l) = true) ->
  exists l, lexer.NewLexer s0 = inl l /\ lexer.err l = None /\ lexer.lastIndex l = 0.
Proof.
  intro HA. unfold lexer.NewLexer.
  specialize (HA (lexer.mkLexer s0 None (-1) false)).
  unfold lexer.advance_l in *. cbn [lexer.scanner lexer.lastIndex lexer.eof lexer.err] in *.
  destruct (scanner.Scan s0) as [s' [e|]].
  - destruct e; cbn in HA |- *; try discriminate HA. eexists. split; [reflexivity | split; reflexivity].
  - eexists. split; [reflexivity | split; reflexivity].
Qed.

(** X12: [advance] never fails on the string scanner, nor on a buffered
    scanner over an in-memory [bufio.Reader] whose [ReadRune] fails only
    with [io.EOF], and records no error, so [NewStringLexer] and
    [NewReaderLexer] over a [strings.Reader] never return an error. *)
Theorem advance_never_fails :
  (forall l : @lexer.lexer scanner.stringScanner,
     snd (lexer.advance_l l) = true /\ lexer.err (fst (lexer.advance_l l)) = None) /\
  (forall l : @lexer.lexer scanner.bufferedScanner,
     snd (lexer.advance_l l) = true /\ lexer.err (fst (lexer.advance_l l)) = None) /\
  (forall s, exists l, lexer.NewStringLexer s = inl l /\ lexer.err l = None /\ lexer.lastIndex l = 0) /\
  (forall s, exists l, lexer.NewReaderLexer s = inl l /\ lexer.err l = None /\ lexer.lastIndex l = 0).
Proof.
  split; [exact string_advance_ok|]. split; [exact buffered_advance_ok|]. split.
  - intro s. apply NewLexer_inl. intro l. exact (proj1 (string_advance_ok l)).
  - intro s. apply NewLexer_inl. intro l. exact (proj1 (buffered_advance_ok l)).
Qed.

Lemma punct_class r k :
  token.RunePunctuators r = Some k ->
  0 <= r < 128 /\ lexer.isWhitespace r = false /\ (r =? 35) = false.
Proof.
  unfold token.RunePunctuators. intro E.
  repeat match type of E with
         | context [if Z.eqb r ?c then _ else _] =>
           destruct (Z.eqb_spec r c) as [->|]; [split; [lia | split; reflexivity]|]
         end.
  discriminate E.
Qed.

(** [Lex] at a punctuator: the one-rune token, then [advance]. *)
Lemma Lex_punct {S} `{scanner.Scanner S} (fuel : nat) (l : @lexer.lexer S) t k :
  lexer.eof l = false -> token.RunePunctuators (scanner.Rune (lexer.scanner l)) = Some k ->
  snd (lexer.advance_l l) = true ->
  lexer.Lex (Datatypes.S fuel) l t
  = Some (fst (lexer.advance_l l),
          token.mkToken k (lexer.lastIndex l) (lexer.lastIndex l + 1)
            (string_of_bytes (utf8.EncodeRune (scanner.Rune (lexer.scanner l)))), None).
Proof.
  intros He Hp Ha. destruct (punct_class _ _ Hp) as (_ & Hw & H35).
  unfold lexer.Lex, lexer.Lex_body, lexer.advanceToNextToken, lexer.bind at 1.
  cbn [lexer.advanceToNextToken_loop]. rewrite He, Hw, H35.
  cbv beta iota zeta delta [lexer.bind lexer.get_l lexer.upd_t lexer.rune].
  cbv beta iota zeta delta [negb]. rewrite He. cbv beta iota zeta delta [token.set_Start].
  cbn [lexer.scanner lexer.eof lexer.lastIndex]. rewrite Hp.
  unfold lexer.adv, lexer.bind, lexer.advance.
  destruct (lexer.advance_l l) as [l' ok]. cbn in Ha. subst ok. reflexivity.
Qed.

Lemma string_of_bytes_EncodeRune_ascii (a : ascii) :
  byte_of_ascii a < 128 ->
  string_of_bytes (utf8.EncodeRune (byte_of_ascii a)) = String a EmptyString.
Proof.
  intro Ha. rewrite Utf8Facts.EncodeRune_1 by (unfold byte_of_ascii in *; lia).
  exact (string_of_bytes_bytes_of (String a EmptyString)).
Qed.

(** X14: a punctuator at the start of the source lexes, with both lexers,
    to a token of its kind spanning [0, 1) whose [Value] is the
    punctuator. *)
Theorem lex_punctuator (a : ascii) (rest : string) (k : token.Kind) :
  token.RunePunctuators (byte_of_ascii a) = Some k ->
  run.lexString (String a rest) = Some (token.mkToken k 0 1 (String a EmptyString), None) /\
  run.lexReader (String a rest) = Some (token.mkToken k 0 1 (String a EmptyString), None).
Proof.
  intro Hp. destruct (punct_class _ _ Hp) as (Ha & _ & _).
  assert (Hr0 : (byte_of_ascii a =? utf8.RuneError) = false)
    by (apply Z.eqb_neq; unfold utf8.RuneError; lia).
  split.
  - unfold run.lexString, run.lexFirstWith, lexer.NewStringLexer, lexer.NewLexer.
    unfold lexer.advance_l.
    cbn [scanner.Scan scanner.stringScanner_Scanner]. unfold scanner.string_Scan, scanner.NewStringScanner.
    cbn [lexer.scanner scanner.lastIndex scanner.lastWidth scanner.source].
    destruct (Z.geb_spec 0 (len (String a rest))) as [Hc|_].
    { unfold len in Hc. cbn [String.length] in Hc. lia. }
    change (Z.to_nat (0 + 0)) with 0%nat. cbn [skipn bytes_of map list_ascii_of_string].
    rewrite DecodeRune_ascii by exact Ha. rewrite Hr0. cbn [andb].
    rewrite Nat.add_1_r. rewrite Lex_punct with (k := k) by first [reflexivity | exact Hp |
      exact (proj1 (string_advance_ok _))].
    cbn [scanner.Rune scanner.stringScanner_Scanner lexer.scanner scanner.last lexer.lastIndex].
    rewrite string_of_bytes_EncodeRune_ascii by exact (proj2 Ha). reflexivity.
  - unfold run.lexReader, run.lexFirstWith, lexer.NewReaderLexer, lexer.NewLexer.
    unfold lexer.advance_l.
    cbn [scanner.Scan scanner.bufferedScanner_Scanner].
    unfold scanner.buffered_Scan, scanner.NewBufferedScanner, bufio.NewReader.
    cbn [lexer.scanner scanner.bsource scanner.tailing scanner.tail bytes_of map
         list_ascii_of_string bufio.ReadRune bufio.unread].
    unfold utf8.RuneSelf. destruct (Z.ltb_spec (byte_of_ascii a) 128) as [_|]; [|lia].
    rewrite Nat.add_1_r. rewrite Lex_punct with (k := k) by first [reflexivity | exact Hp |
      exact (proj1 (buffered_advance_ok _))].
    cbn [scanner.Rune scanner.bufferedScanner_Scanner lexer.scanner scanner.blast lexer.lastIndex].
    rewrite string_of_bytes_EncodeRune_ascii by exact (proj2 Ha). reflexivity.
Qed.

Lemma lex_punctuator_witness :
  token.RunePunctuators (byte_of_ascii "{"%char) = Some token.BraceL /\
  run.lexString "{a}"%string = Some (token.mkToken token.BraceL 0 1 "{"%string, None) /\
  run.lexReader "{a}"%string = Some (token.mkToken token.BraceL 0 1 "{"%string, None).
Proof.
  assert (Hp : token.RunePunctuators (byte_of_ascii "{"%char) = Some token.BraceL) by reflexivity.
  split; [exact Hp | exact (lex_punctuator "{"%char "a}"%string token.BraceL Hp)].
Defined.

(** X13: on a source whose first rune decodes to U+FFFD, the string lexer
    returns an [EOF] token at once, while the reader lexer returns the
    SyntaxError "unexpected character" at offset 0. *)
Theorem lex_RuneError_start (s : string) :
  s <> EmptyString -> fst (utf8.DecodeRuneInString s) = utf8.RuneError ->
  run.lexString s = Some (token.mkToken token.EOF 0 0 EmptyString, None) /\
  run.lexReader s = Some (token.zero, Some (errors.SyntaxError 0 "unexpected character"%string)).
Proof.
  intros Hne Hd. unfold utf8.DecodeRuneInString in Hd.
  destruct (bytes_of s) as [|c q] eqn:Es.
  { destruct s; [congruence | discriminate Es]. }
  assert (Hlen : (1 <= String.length s)%nat)
    by (rewrite <- RuneFacts.bytes_of_length, Es; cbn [length]; lia).
  split.
  - unfold run.lexString, run.lexFirstWith, lexer.NewStringLexer, lexer.NewLexer.
    unfold lexer.advance_l.
    cbn [scanner.Scan scanner.stringScanner_Scanner]. unfold scanner.string_Scan, scanner.NewStringScanner.
    cbn [lexer.scanner scanner.lastIndex scanner.lastWidth scanner.source].
    destruct (Z.geb_spec 0 (len s)) as [Hc|_]; [unfold len in Hc; lia|].
    change (Z.to_nat (0 + 0)) with 0%nat. cbn [skipn]. rewrite Es.
    destruct (utf8.DecodeRune (c :: q)) as [r w]. cbn [fst] in Hd. subst r.
    rewrite Z.eqb_refl. cbn [andb Z.eqb]. cbv beta iota zeta. rewrite Nat.add_1_r.
    rewrite Lex_eof_eq by reflexivity. reflexivity.
  - unfold run.lexReader, run.lexFirstWith, lexer.NewReaderLexer, lexer.NewLexer.
    unfold lexer.advance_l.
    cbn [scanner.Scan scanner.bufferedScanner_Scanner].
    unfold scanner.buffered_Scan, scanner.NewBufferedScanner, bufio.NewReader.
    cbn [lexer.scanner scanner.bsource scanner.tailing scanner.tail].
    unfold bufio.ReadRune. cbn [bufio.unread]. rewrite Es. unfold utf8.RuneSelf.
    destruct (Z.ltb_spec c 128) as [Hc|_].
    { cbn [utf8.DecodeRune] in Hd. unfold utf8.first in Hd.
      destruct (Z.ltb_spec c 128); [|lia]. cbn [fst] in Hd. unfold utf8.RuneError in Hd. lia. }
    destruct (utf8.DecodeRune (c :: q)) as [r w]. cbn [fst] in Hd. subst r.
    rewrite Nat.add_1_r. reflexivity.
Qed.

Lemma lex_RuneError_start_witness :
  let s := String (ascii_of_nat 255) EmptyString in
  s <> EmptyString /\ fst (utf8.DecodeRuneInString s) = utf8.RuneError /\
  run.lexString s = Some (token.mkToken token.EOF 0 0 EmptyString, None) /\
  run.lexReader s = Some (token.zero, Some (errors.SyntaxError 0 "unexpected character"%string)).
Proof.
  intro s. assert (H1 : s <> EmptyString) by discriminate.
  assert (H2 : fst (utf8.DecodeRuneInString s) = utf8.RuneError) by reflexivity.
  split; [exact H1 | split; [exact H2 | exact (lex_RuneError_start s H1 H2)]].
Defined.

Lemma bind_Ok {S} `{scanner.Scanner S} {A B} (m : @parser.PM S A) (k : A -> @parser.PM S B)
  (p : @parser.parser S) r :
  parser.bind m k p = parser.Ok r -> exists a p1, m p = parser.Ok (a, p1) /\ k a p1 = parser.Ok r.
Proof.
  unfold parser.bind. destruct (m p) as [[a p1]| |]; intro X; try discriminate X.
  exists a, p1. split; [reflexivity | exact X].
Qed.

(* Split a successful [bind] of the hypothesis [X]. *)
Ltac bind_inv X :=
  let a := fresh "a" in let p1 := fresh "p" in let E := fresh "E" in let Y := fresh "Y" in
  destruct (bind_Ok _ _ _ _ X) as (a & p1 & E & Y); clear X; rename Y into X.

Lemma parseOperation_String (v : string) (o : ast.OpType) :
  parser.parseOperation v = Some o -> v = ast.OpType_String o.
Proof.
  unfold parser.parseOperation.
  destruct (String.eqb_spec v "query"%string) as [->|_]; [intro X; injection X as <-; reflexivity|].
  destruct (String.eqb_spec v "mutation"%string) as [->|_]; [intro X; injection X as <-; reflexivity|].
  destruct (String.eqb_spec v "subscription"%string) as [->|_]; [intro X; injection X as <-; reflexivity|].
  intro X; discriminate X.
Qed.

(** X15: the definition [parseDefinition] returns matches its first token:
    [{] gives an anonymous query with no variables or directives; a name
    [query], [mutation] or [subscription] an operation of that type; the
    name [fragment] a fragment; a type keyword a type definition.
    Operations and fragments start at the first token. *)
Theorem parseDefinition_dispatch {S} `{scanner.Scanner S} (n : nat) (p p' : @parser.parser S)
  (d : ast.Def) :
  parser.parseDefinition n p = parser.Ok (d, p') ->
  let t := parser.last p in
  match d with
  | ast.OpDef loc op nm vds dirs _ =>
    ast.Start loc = token.Start t /\
    ((token.kind t = token.BraceL /\ op = ast.Query /\ nm = ast.zeroName /\ vds = [] /\ dirs = []) \/
     (token.kind t = token.Name /\ token.Value t = ast.OpType_String op))
  | ast.FragmentDef loc _ _ _ _ =>
    ast.Start loc = token.Start t /\ token.kind t = token.Name /\
    token.Value t = "fragment"%string
  | ast.TypeDefD _ => token.kind t = token.Name /\ parser.isTypeDefKeyword (token.Value t) = true
  end.
Proof.
  intro X. unfold parser.parseDefinition, parser.lastTok, parser.get, parser.bind at 1 2 in X.
  cbv beta iota in X. unfold parser.ret at 1 in X.
  destruct (token.kind (parser.last p)) eqn:K; try discriminate X.
  - (* [{]: the query shorthand *)
    unfold parser.parseOpDef, parser.lastTok, parser.get, parser.bind at 1 2 in X.
    cbv beta iota in X. unfold parser.ret at 1 in X. rewrite K in X. cbn [token.Kind_eqb] in X.
    bind_inv X. unfold parser.getPrevEnd, parser.get, parser.bind at 1 2, parser.ret in X.
    cbv beta iota in X. injection X as <- _. cbn. split; [reflexivity|].
    left. repeat split; assumption || reflexivity.
  - (* a name: the keyword selects the definition *)
    destruct (String.eqb (token.Value (parser.last p)) "query"
              || String.eqb (token.Value (parser.last p)) "mutation"
              || String.eqb (token.Value (parser.last p)) "subscription")%bool eqn:Kw.
    + unfold parser.parseOpDef, parser.lastTok, parser.get, parser.bind at 1 2 in X.
      cbv beta iota in X. unfold parser.ret at 1 in X. rewrite K in X. cbn [token.Kind_eqb] in X.
      bind_inv X.
      unfold parser.expect, parser.lastTok, parser.get, parser.bind at 1 2 in E.
      cbv beta iota in E. unfold parser.ret at 1 in E. rewrite K in E. cbn [token.Kind_eqb] in E.
      bind_inv E. unfold parser.ret in E. injection E as <- _.
      destruct (parser.parseOperation (token.Value (parser.last p))) as [op|] eqn:Po;
        [|discriminate X].
      repeat bind_inv X. unfold parser.ret in X. injection X as <- _. cbn.
      split; [reflexivity|]. right. split; [exact K|]. exact (parseOperation_String _ _ Po).
    + destruct (String.eqb_spec (token.Value (parser.last p)) "fragment"%string) as [Fr|_].
      * unfold parser.parseFragmentDef, parser.lastTok, parser.get, parser.bind at 1 2 in X.
        cbv beta iota in X. unfold parser.ret at 1 in X.
        repeat bind_inv X. unfold parser.ret in X. injection X as <- _. cbn.
        split; [reflexivity | split; [exact K | exact Fr]].
      * destruct (parser.isTypeDefKeyword (token.Value (parser.last p))) eqn:Td; [|discriminate X].
        bind_inv X. unfold parser.ret in X. injection X as <- _. cbn.
        split; [exact K | exact Td].
Qed.

Lemma parseDefinition_dispatch_witness :
  let p := run.parserOf "mutation m {a}"%string in
  exists d p', parser.parseDefinition 64 p = parser.Ok (d, p') /\
  match d with
  | ast.OpDef loc op nm vds dirs _ =>
    ast.Start loc = token.Start (parser.last p) /\
    ((token.kind (parser.last p) = token.BraceL /\ op = ast.Query /\ nm = ast.zeroName /\
      vds = [] /\ dirs = []) \/
     (token.kind (parser.last p) = token.Name /\ token.Value (parser.last p) = ast.OpType_String op))
  | ast.FragmentDef loc _ _ _ _ =>
    ast.Start loc = token.Start (parser.last p) /\ token.kind (parser.last p) = token.Name /\
    token.Value (parser.last p) = "fragment"%string
  | ast.TypeDefD _ =>
    token.kind (parser.last p) = token.Name /\
    parser.isTypeDefKeyword (token.Value (parser.last p)) = true
  end.
Proof.
  intro p. destruct (parser.parseDefinition 64 p) as [[d p']|e|] eqn:E.
  - exists d, p'. split; [reflexivity | exact (parseDefinition_dispatch 64 p p' d E)].
  - vm_compute in E. discriminate E.
  - vm_compute in E. discriminate E.
Defined.

(* A scalar value other than U+FFFD. *)
Local Abbreviation okRune := (fun c => utf8.ValidRune c = true /\ c <> utf8.RuneError).

(* A rune [readString] copies to the value as it is: no quote, no
   backslash, no control character but TAB. *)
Local Abbreviation strChar := (fun c => okRune c /\ (32 <= c \/ c = 9) /\ c <> 34 /\ c <> 92).

(** [Lex] at a double quote goes to [readString]. *)
Lemma Lex_body_quote {S} `{scanner.Scanner S} (fuel : nat) (l : @lexer.lexer S) (t : token.Token) :
  lexer.eof l = false -> scanner.Rune (lexer.scanner l) = 34 ->
  lexer.Lex_body (Datatypes.S fuel) l t
  = lexer.readString (Datatypes.S fuel) l (token.set_Start t (lexer.lastIndex l)).
Proof.
  intros He Hr.
  unfold lexer.Lex_body, lexer.advanceToNextToken, lexer.bind at 1.
  cbn [lexer.advanceToNextToken_loop]. rewrite He, Hr. cbv beta iota zeta delta [lexer.isWhitespace token.BOM token.TAB token.SPACE token.LF
    token.CR token.COMMA Z.eqb Pos.eqb orb].
  cbv beta iota zeta delta [lexer.bind lexer.get_l lexer.upd_t lexer.rune].
  cbv beta iota zeta delta [negb]. rewrite He. cbv beta iota zeta delta [token.set_Start].
  cbn [lexer.scanner lexer.eof lexer.lastIndex]. rewrite Hr. reflexivity.
Qed.

(** The string-character steps of [readString]'s loop, for a scanner whose
    next step delivers [c] without error and keeps [eof] false. *)
Lemma RSL_char {S} `{scanner.Scanner S} (f : nat) value (l : @lexer.lexer S) t c :
  snd (lexer.advance_l l) = true -> lexer.eof (fst (lexer.advance_l l)) = false ->
  scanner.Rune (lexer.scanner (fst (lexer.advance_l l))) = c -> strChar c ->
  lexer.readString_loop (Datatypes.S f) value l t
  = lexer.readString_loop f (value ++ utf8.EncodeRune c) (fst (lexer.advance_l l)) t.
Proof.
  intros Ha He Hr (Hok & Hc & H34 & H92).
  cbn [lexer.readString_loop]. unfold lexer.bind at 1, lexer.advance.
  destruct (lexer.advance_l l) as [l1 ok]. cbn in Ha, He, Hr. subst ok.
  unfold lexer.bind, lexer.rune, lexer.get_l. cbn [negb]. rewrite He, Hr.
  destruct Hok as [_ Hre]. unfold utf8.RuneError in Hre.
  destruct (Z.eqb_spec c token.LF); [unfold token.LF in *; lia|].
  destruct (Z.eqb_spec c token.CR); [unfold token.CR in *; lia|].
  destruct (Z.eqb_spec c 34); [lia|].
  destruct (Z.eqb_spec c token.TAB) as [Ht|Ht]; cbn [orb negb andb].
  - rewrite andb_false_r. destruct (Z.eqb_spec c 92); [lia|]. reflexivity.
  - destruct (Z.ltb_spec c token.SPACE); [unfold token.SPACE, token.TAB in *; lia|].
    cbn [andb]. destruct (Z.eqb_spec c 92); [lia|]. reflexivity.
Qed.

(** The closing quote of [readString]'s loop. *)
Lemma RSL_quote {S} `{scanner.Scanner S} (f : nat) value (l : @lexer.lexer S) t :
  snd (lexer.advance_l l) = true -> lexer.eof (fst (lexer.advance_l l)) = false ->
  scanner.Rune (lexer.scanner (fst (lexer.advance_l l))) = 34 ->
  snd (lexer.advance_l (fst (lexer.advance_l l))) = true ->
  lexer.readString_loop (Datatypes.S f) value l t
  = Some (fst (lexer.advance_l (fst (lexer.advance_l l))),
          token.set_Value (token.set_End t (lexer.lastIndex (fst (lexer.advance_l l))))
            (string_of_bytes value), inr None).
Proof.
  intros Ha He Hr Ha2.
  cbn [lexer.readString_loop]. unfold lexer.bind at 1, lexer.advance.
  destruct (lexer.advance_l l) as [l1 ok]. cbn in Ha, He, Hr, Ha2 |- *. subst ok.
  unfold lexer.bind, lexer.rune, lexer.get_l. cbn [negb]. rewrite He, Hr.
  cbn [Z.eqb orb token.LF token.CR Pos.eqb].
  unfold lexer.upd_t, lexer.adv, lexer.bind, lexer.advance.
  destruct (lexer.advance_l l1) as [l2 ok]. cbn in Ha2. subst ok. reflexivity.
Qed.

Lemma string_advance_rune (src : string) li lw ti c0 e i c rest :
  okRune c -> 0 <= li -> 0 <= lw ->
  skipn (Z.to_nat (li + lw)) (bytes_of src) = utf8.EncodeRune c ++ rest ->
  lexer.advance_l (lexer.mkLexer {| scanner.source := src; scanner.last := c0;
      scanner.lastIndex := li; scanner.lastWidth := lw; scanner.tailIndex := ti |} e i false)
  = (lexer.mkLexer {| scanner.source := src; scanner.last := c;
      scanner.lastIndex := li + lw; scanner.lastWidth := Z.of_nat (length (utf8.EncodeRune c));
      scanner.tailIndex := ti |} None (i + 1) false, true).
Proof.
  intros Hok Hli Hlw Hb.
  assert (Hl := f_equal (@length Z) Hb). rewrite length_skipn, RuneFacts.bytes_of_length in Hl.
  rewrite length_app in Hl. assert (Hw := EncodeRune_length_pos c Hok).
  unfold lexer.advance_l. cbn [lexer.scanner scanner.Scan scanner.stringScanner_Scanner].
  unfold scanner.string_Scan. cbn [scanner.lastIndex scanner.lastWidth scanner.source].
  destruct (Z.geb_spec li (len src)); [unfold len in *; lia|].
  rewrite Hb, (DecodeRune_okRune c rest Hok).
  destruct Hok as [_ Hr]. apply Z.eqb_neq in Hr. rewrite Hr. reflexivity.
Qed.

Lemma buffered_advance_rune rest bl tg T e i c :
  okRune c ->
  lexer.advance_l (lexer.mkLexer {| scanner.bsource := {| bufio.unread := utf8.EncodeRune c ++ rest |};
      scanner.blast := bl; scanner.tailing := tg; scanner.tail := T |} e i false)
  = (lexer.mkLexer {| scanner.bsource := {| bufio.unread := rest |}; scanner.blast := c;
      scanner.tailing := tg; scanner.tail := if tg then T ++ utf8.EncodeRune c else T |}
      None (i + 1) false, true).
Proof.
  intro Hok. unfold lexer.advance_l. cbn [lexer.scanner scanner.Scan scanner.bufferedScanner_Scanner].
  unfold scanner.buffered_Scan. cbn [scanner.bsource scanner.tailing scanner.tail].
  rewrite (ReadRune_EncodeRune {| bufio.unread := utf8.EncodeRune c ++ rest |} c rest Hok eq_refl). reflexivity.
Qed.

Lemma okRune_34 : okRune 34.
Proof. split; [reflexivity | unfold utf8.RuneError; lia]. Qed.

(** [readString]'s loop on a string scanner: the runes [cs], then the
    closing quote. *)
Lemma string_RSL (restB cs : list Z) : forall (src : string) li lw ti c0 i value t (fuel : nat),
  Forall strChar cs -> 0 <= li -> 0 <= lw ->
  skipn (Z.to_nat (li + lw)) (bytes_of src) = flat_map utf8.EncodeRune cs ++ 34 :: restB ->
  (length cs < fuel)%nat ->
  exists l', lexer.readString_loop fuel value
    (lexer.mkLexer {| scanner.source := src; scanner.last := c0; scanner.lastIndex := li;
                      scanner.lastWidth := lw; scanner.tailIndex := ti |} None i false) t
    = Some (l', token.set_Value (token.set_End t (i + Z.of_nat (length cs) + 1))
                  (string_of_bytes (value ++ flat_map utf8.EncodeRune cs)), inr None).
Proof.
  induction cs as [|c cs IH]; intros src li lw ti c0 i value t fuel Hcs Hli Hlw Hb Hf;
    (destruct fuel as [|f]; [cbn in Hf; lia|]).
  - cbn [flat_map app] in Hb. change (34 :: restB) with ([34] ++ restB) in Hb.
    rewrite <- (Utf8Facts.EncodeRune_1 34) in Hb by lia.
    assert (HA := string_advance_rune src li lw ti c0 None i 34 restB okRune_34 Hli Hlw Hb).
    cbn [length] in *. rewrite Utf8Facts.EncodeRune_1 in HA by lia.
    cbn [length] in HA.
    rewrite RSL_quote; rewrite ?HA; cbn [fst snd lexer.eof lexer.scanner scanner.Rune
      scanner.stringScanner_Scanner scanner.last lexer.lastIndex]; try reflexivity.
    + eexists. rewrite app_nil_r. replace (i + Z.of_nat 0 + 1) with (i + 1) by lia. reflexivity.
    + exact (proj1 (string_advance_ok _)).
  - inversion Hcs as [|? ? Hc Hcs']; subst.
    cbn [flat_map] in Hb. rewrite <- app_assoc in Hb.
    assert (HA := string_advance_rune src li lw ti c0 None i c _ (proj1 Hc) Hli Hlw Hb).
    rewrite RSL_char with (c := c); rewrite ?HA; try reflexivity; [|exact Hc].
    cbn [fst].
    destruct (IH src (li + lw) (Z.of_nat (length (utf8.EncodeRune c))) ti c (i + 1)
                (value ++ utf8.EncodeRune c) t f Hcs' ltac:(lia) ltac:(lia)
                ltac:(rewrite RuneFacts.skipn_skipn_Z by lia; rewrite Hb, Nat2Z.id, skipn_app,
                        skipn_all, Nat.sub_diag; reflexivity)
                ltac:(cbn [length] in Hf; lia)) as (l' & E).
    exists l'. rewrite E. cbn [flat_map length]. rewrite app_assoc.
    replace (i + 1 + Z.of_nat (length cs) + 1) with (i + Z.of_nat (Datatypes.S (length cs)) + 1)
      by lia.
    reflexivity.
Qed.

(** [readString]'s loop on a buffered scanner. *)
Lemma buffered_RSL (restB cs : list Z) : forall bl tg T i value t (fuel : nat),
  Forall strChar cs -> (length cs < fuel)%nat ->
  exists l', lexer.readString_loop fuel value
    (lexer.mkLexer {| scanner.bsource := {| bufio.unread := flat_map utf8.EncodeRune cs ++ 34 :: restB |};
                      scanner.blast := bl; scanner.tailing := tg; scanner.tail := T |} None i false) t
    = Some (l', token.set_Value (token.set_End t (i + Z.of_nat (length cs) + 1))
                  (string_of_bytes (value ++ flat_map utf8.EncodeRune cs)), inr None).
Proof.
  induction cs as [|c cs IH]; intros bl tg T i value t fuel Hcs Hf;
    (destruct fuel as [|f]; [cbn in Hf; lia|]).
  - cbn [flat_map app].
    assert (HA := buffered_advance_rune restB bl tg T None i 34 okRune_34).
    rewrite Utf8Facts.EncodeRune_1 in HA by lia. cbn [app] in HA, HA.
    rewrite RSL_quote; rewrite ?HA; cbn [fst snd lexer.eof lexer.scanner scanner.Rune
      scanner.bufferedScanner_Scanner scanner.blast lexer.lastIndex]; try reflexivity.
    + eexists. rewrite app_nil_r. cbn [length]. replace (i + Z.of_nat 0 + 1) with (i + 1) by lia. reflexivity.
    + exact (proj1 (buffered_advance_ok _)).
  - inversion Hcs as [|? ? Hc Hcs']; subst.
    cbn [flat_map]. rewrite <- app_assoc.
    assert (HA := buffered_advance_rune (flat_map utf8.EncodeRune cs ++ 34 :: restB) bl tg T None i c
                    (proj1 Hc)).
    rewrite RSL_char with (c := c); rewrite ?HA; try reflexivity; [|exact Hc].
    cbn [fst].
    destruct (IH c tg (if tg then T ++ utf8.EncodeRune c else T) (i + 1)
                (value ++ utf8.EncodeRune c) t f Hcs' ltac:(cbn [length] in Hf; lia)) as (l' & E).
    exists l'. rewrite E. cbn [flat_map length]. rewrite app_assoc.
    replace (i + 1 + Z.of_nat (length cs) + 1) with (i + Z.of_nat (Datatypes.S (length cs)) + 1)
      by lia.
    reflexivity.
Qed.

Lemma flat_map_EncodeRune_length (cs : list Z) :
  Forall okRune cs -> (length cs <= length (flat_map utf8.EncodeRune cs))%nat.
Proof.
  induction 1 as [|c cs Hc _ IH]; [cbn; lia|].
  cbn [flat_map length]. rewrite length_app. pose proof (EncodeRune_length_pos c Hc). lia.
Qed.

(** X16: a quoted string of plain runes (no quote, backslash or control
    character but TAB) lexes, with both lexers, to a [String] token from 0
    to the rune offset of the closing quote, whose [Value] is the runes
    between the quotes. *)
Theorem lex_plain_string (cs : list Z) (rest : string) :
  Forall strChar cs ->
  let body := string_of_bytes (flat_map utf8.EncodeRune cs) in
  let src := String.append (String.append run.quote (String.append body run.quote)) rest in
  run.lexString src
    = Some (token.mkToken token.String 0 (Z.of_nat (length cs) + 1) body, None) /\
  run.lexReader src
    = Some (token.mkToken token.String 0 (Z.of_nat (length cs) + 1) body, None).
Proof.
  intros Hcs body src.
  assert (Hok : Forall okRune cs) by (eapply Forall_impl; [|exact Hcs]; intros c Hc; exact (proj1 Hc)).
  assert (Hbody : bytes_of body = flat_map utf8.EncodeRune cs)
    by exact (bytes_of_string_of_bytes _ (flat_map_EncodeRune_bytes cs Hok)).
  assert (Hsrc : bytes_of src = utf8.EncodeRune 34 ++ (flat_map utf8.EncodeRune cs ++ 34 :: bytes_of rest)).
  { unfold src. rewrite !bytes_of_append, Hbody. rewrite Utf8Facts.EncodeRune_1 by lia.
    cbn. rewrite <- app_assoc. reflexivity. }
  assert (Hf : (length cs < Datatypes.S (String.length src))%nat).
  { rewrite <- RuneFacts.bytes_of_length, Hsrc, Utf8Facts.EncodeRune_1 by lia.
    cbn [app length]. rewrite length_app. cbn [length].
    pose proof (flat_map_EncodeRune_length cs Hok). lia. }
  assert (HE : token.set_Value (token.set_End (token.set_kind (token.set_Start token.zero (-1 + 1))
                 token.String) (-1 + 1 + Z.of_nat (length cs) + 1))
                 (string_of_bytes ([] ++ flat_map utf8.EncodeRune cs))
               = token.mkToken token.String 0 (Z.of_nat (length cs) + 1) body).
  { replace (-1 + 1 + Z.of_nat (length cs) + 1) with (Z.of_nat (length cs) + 1) by lia. reflexivity. }
  split.
  - unfold run.lexString, run.lexFirstWith, lexer.NewStringLexer, lexer.NewLexer,
      scanner.NewStringScanner.
    rewrite (string_advance_rune src 0 0 0 0 None (-1) 34 _ okRune_34 ltac:(lia) ltac:(lia)
               ltac:(change (Z.to_nat (0 + 0)) with 0%nat; exact Hsrc)).
    rewrite Nat.add_1_r. unfold lexer.Lex.
    rewrite Lex_body_quote by reflexivity.
    unfold lexer.readString, lexer.bind at 1, lexer.upd_t.
    destruct (string_RSL (bytes_of rest) cs src (0 + 0) (Z.of_nat (length (utf8.EncodeRune 34))) 0
                34 (-1 + 1) [] (token.set_kind (token.set_Start token.zero (-1 + 1)) token.String)
                (Datatypes.S (String.length src)) Hcs ltac:(lia) ltac:(lia)
                ltac:(rewrite Hsrc, Utf8Facts.EncodeRune_1 by lia; reflexivity) Hf) as (l' & E).
    cbn [lexer.lastIndex]. rewrite E. cbv beta iota. rewrite HE. reflexivity.
  - unfold run.lexReader, run.lexFirstWith, lexer.NewReaderLexer, lexer.NewLexer,
      scanner.NewBufferedScanner, bufio.NewReader.
    rewrite Hsrc, (buffered_advance_rune _ 0 false [] None (-1) 34 okRune_34).
    rewrite Nat.add_1_r. unfold lexer.Lex.
    rewrite Lex_body_quote by reflexivity.
    unfold lexer.readString, lexer.bind at 1, lexer.upd_t.
    destruct (buffered_RSL (bytes_of rest) cs 34 false [] (-1 + 1) []
                (token.set_kind (token.set_Start token.zero (-1 + 1)) token.String)
                (Datatypes.S (String.length src)) Hcs Hf) as (l' & E).
    cbn [lexer.lastIndex]. rewrite E. cbv beta iota. rewrite HE. reflexivity.
Qed.

Lemma lex_plain_string_witness :
  Forall strChar [104; 233; 32; 8364] /\
  (let body := string_of_bytes (flat_map utf8.EncodeRune [104; 233; 32; 8364]) in
   let src := String.append (String.append run.quote (String.append body run.quote)) "}"%string in
   run.lexString src = Some (token.mkToken token.String 0 5 body, None) /\
   run.lexReader src = Some (token.mkToken token.String 0 5 body, None)).
Proof.
  assert (H : Forall strChar [104; 233; 32; 8364])
    by (repeat constructor; try discriminate; lia).
  split; [exact H | exact (lex_plain_string [104; 233; 32; 8364] "}"%string H)].
Defined.

(* A rune [advanceToNextToken] skips. *)
Local Abbreviation wsRune := (fun c => okRune c /\ lexer.isWhitespace c = true).

(** [Lex] when [advanceToNextToken] stops at a punctuator. *)
Lemma Lex_ATN_punct {S} `{scanner.Scanner S} (fuel : nat) (l l1 : @lexer.lexer S) t k :
  lexer.advanceToNextToken_loop fuel l = Some (l1, true) ->
  lexer.eof l1 = false -> token.RunePunctuators (scanner.Rune (lexer.scanner l1)) = Some k ->
  snd (lexer.advance_l l1) = true ->
  lexer.Lex fuel l t
  = Some (fst (lexer.advance_l l1),
          token.mkToken k (lexer.lastIndex l1) (lexer.lastIndex l1 + 1)
            (string_of_bytes (utf8.EncodeRune (scanner.Rune (lexer.scanner l1)))), None).
Proof.
  intros HA He Hp Ha.
  unfold lexer.Lex, lexer.Lex_body, lexer.advanceToNextToken, lexer.bind at 1. rewrite HA.
  cbv beta iota zeta delta [lexer.bind lexer.get_l lexer.upd_t lexer.rune].
  cbv beta iota zeta delta [negb]. rewrite He. cbv beta iota zeta delta [token.set_Start].
  cbn [lexer.scanner lexer.eof lexer.lastIndex]. rewrite Hp.
  unfold lexer.adv, lexer.bind, lexer.advance.
  destruct (lexer.advance_l l1) as [l' ok]. cbn in Ha. subst ok. reflexivity.
Qed.

(** [advanceToNextToken]'s loop on a string scanner at the whitespace rune
    [c0], followed by the whitespace runes [ws] and the rune [c]. *)
Lemma string_ATN (restB ws : list Z) : forall (src : string) li lw ti c0 i c (fuel : nat),
  lexer.isWhitespace c0 = true -> Forall wsRune ws -> okRune c ->
  lexer.isWhitespace c = false -> (c =? 35) = false -> 0 <= li -> 0 <= lw ->
  skipn (Z.to_nat (li + lw)) (bytes_of src) = flat_map utf8.EncodeRune ws ++ utf8.EncodeRune c ++ restB ->
  (length ws + 1 < fuel)%nat ->
  exists li', lexer.advanceToNextToken_loop fuel
    (lexer.mkLexer {| scanner.source := src; scanner.last := c0; scanner.lastIndex := li;
                      scanner.lastWidth := lw; scanner.tailIndex := ti |} None i false)
    = Some (lexer.mkLexer {| scanner.source := src; scanner.last := c; scanner.lastIndex := li';
                      scanner.lastWidth := Z.of_nat (length (utf8.EncodeRune c));
                      scanner.tailIndex := ti |} None (i + Z.of_nat (length ws) + 1) false, true).
Proof.
  induction ws as [|w ws IH]; intros src li lw ti c0 i c fuel Hc0 Hws Hc Hcw Hc35 Hli Hlw Hb Hf;
    (destruct fuel as [|f]; [cbn in Hf; lia|]).
  - cbn [flat_map app] in Hb.
    cbn [lexer.advanceToNextToken_loop lexer.eof lexer.scanner scanner.Rune
         scanner.stringScanner_Scanner scanner.last]. rewrite Hc0.
    rewrite (string_advance_rune src li lw ti c0 None i c restB Hc Hli Hlw Hb).
    destruct f as [|f]; [cbn in Hf; lia|].
    cbn [lexer.advanceToNextToken_loop lexer.eof lexer.scanner scanner.Rune
         scanner.stringScanner_Scanner scanner.last]. rewrite Hcw, Hc35.
    exists (li + lw). cbn [length]. replace (i + Z.of_nat 0 + 1) with (i + 1) by lia. reflexivity.
  - inversion Hws as [|? ? [Hw Hww] Hws']; subst.
    cbn [flat_map] in Hb. rewrite <- app_assoc in Hb.
    assert (Hl := f_equal (@length Z) Hb). rewrite length_skipn, RuneFacts.bytes_of_length in Hl.
    cbn [lexer.advanceToNextToken_loop lexer.eof lexer.scanner scanner.Rune
         scanner.stringScanner_Scanner scanner.last]. rewrite Hc0.
    rewrite (string_advance_rune src li lw ti c0 None i w _ Hw Hli Hlw Hb).
    destruct (IH src (li + lw) (Z.of_nat (length (utf8.EncodeRune w))) ti w (i + 1) c f Hww Hws' Hc
                Hcw Hc35 ltac:(lia) ltac:(lia)
                ltac:(rewrite RuneFacts.skipn_skipn_Z by lia; rewrite Hb, Nat2Z.id, skipn_app,
                        skipn_all, Nat.sub_diag; reflexivity)
                ltac:(cbn [length] in Hf; lia)) as (li' & E).
    exists li'. rewrite E. cbn [length].
    replace (i + 1 + Z.of_nat (length ws) + 1) with (i + Z.of_nat (Datatypes.S (length ws)) + 1) by lia.
    reflexivity.
Qed.

(** The same on a buffered scanner. *)
Lemma buffered_ATN (restB ws : list Z) : forall c0 tg T i c (fuel : nat),
  lexer.isWhitespace c0 = true -> Forall wsRune ws -> okRune c ->
  lexer.isWhitespace c = false -> (c =? 35) = false ->
  (length ws + 1 < fuel)%nat ->
  exists T', lexer.advanceToNextToken_loop fuel
    (lexer.mkLexer {| scanner.bsource :=
                        {| bufio.unread := flat_map utf8.EncodeRune ws ++ utf8.EncodeRune c ++ restB |};
                      scanner.blast := c0; scanner.tailing := tg; scanner.tail := T |} None i false)
    = Some (lexer.mkLexer {| scanner.bsource := {| bufio.unread := restB |}; scanner.blast := c;
                      scanner.tailing := tg; scanner.tail := T' |} None (i + Z.of_nat (length ws) + 1) false,
            true).
Proof.
  induction ws as [|w ws IH]; intros c0 tg T i c fuel Hc0 Hws Hc Hcw Hc35 Hf;
    (destruct fuel as [|f]; [cbn in Hf; lia|]).
  - cbn [flat_map app].
    cbn [lexer.advanceToNextToken_loop lexer.eof lexer.scanner scanner.Rune
         scanner.bufferedScanner_Scanner scanner.blast]. rewrite Hc0.
    rewrite (buffered_advance_rune restB c0 tg T None i c Hc).
    destruct f as [|f]; [cbn in Hf; lia|].
    cbn [lexer.advanceToNextToken_loop lexer.eof lexer.scanner scanner.Rune
         scanner.bufferedScanner_Scanner scanner.blast]. rewrite Hcw, Hc35.
    eexists. cbn [length]. replace (i + Z.of_nat 0 + 1) with (i + 1) by lia. reflexivity.
  - inversion Hws as [|? ? [Hw Hww] Hws']; subst.
    cbn [flat_map]. rewrite <- app_assoc.
    cbn [lexer.advanceToNextToken_loop lexer.eof lexer.scanner scanner.Rune
         scanner.bufferedScanner_Scanner scanner.blast]. rewrite Hc0.
    rewrite (buffered_advance_rune _ c0 tg T None i w Hw).
    destruct (IH w tg (if tg then T ++ utf8.EncodeRune w else T) (i + 1) c f Hww Hws' Hc
                Hcw Hc35 ltac:(cbn [length] in Hf; lia)) as (T' & E).
    exists T'. rewrite E. cbn [length].
    replace (i + 1 + Z.of_nat (length ws) + 1) with (i + Z.of_nat (Datatypes.S (length ws)) + 1) by lia.
    reflexivity.
Qed.

Lemma okRune_ascii b : 0 <= b < 128 -> okRune b.
Proof.
  intro Hb. unfold utf8.ValidRune, utf8.surrogateMin, utf8.RuneError.
  destruct (Z.leb_spec 0 b); [|lia]. destruct (Z.ltb_spec b 55296); [|lia]. split; [reflexivity | lia].
Qed.

(** X17: whitespace before a punctuator is skipped: the token starts at the
    rune offset past the whitespace (a BOM counts one), with both
    lexers. *)
Theorem lex_skips_whitespace (ws : list Z) (a : ascii) (rest : string) (k : token.Kind) :
  Forall wsRune ws -> token.RunePunctuators (byte_of_ascii a) = Some k ->
  let src := String.append (string_of_bytes (flat_map utf8.EncodeRune ws)) (String a rest) in
  let n := Z.of_nat (length ws) in
  run.lexString src = Some (token.mkToken k n (n + 1) (String a EmptyString), None) /\
  run.lexReader src = Some (token.mkToken k n (n + 1) (String a EmptyString), None).
Proof.
  intros Hws Hp src n.
  destruct (punct_class _ _ Hp) as (Ha & Hwa & H35a).
  assert (Hoka := okRune_ascii _ Ha).
  assert (Hok : Forall okRune ws) by (eapply Forall_impl; [|exact Hws]; intros c Hc; exact (proj1 Hc)).
  assert (Hsrc : bytes_of src = flat_map utf8.EncodeRune ws ++ utf8.EncodeRune (byte_of_ascii a) ++ bytes_of rest).
  { unfold src. rewrite bytes_of_append, (bytes_of_string_of_bytes _ (flat_map_EncodeRune_bytes ws Hok)).
    rewrite Utf8Facts.EncodeRune_1 by lia. reflexivity. }
  assert (Hf : (length ws + 1 < Datatypes.S (String.length src))%nat).
  { rewrite <- RuneFacts.bytes_of_length, Hsrc, Utf8Facts.EncodeRune_1 by lia.
    rewrite length_app. cbn [app length].
    pose proof (flat_map_EncodeRune_length ws Hok). lia. }
  assert (Hv : string_of_bytes (utf8.EncodeRune (byte_of_ascii a)) = String a EmptyString)
    by exact (string_of_bytes_EncodeRune_ascii a (proj2 Ha)).
  destruct ws as [|w ws'].
  - (* no whitespace: [advanceToNextToken] stops at once *)
    cbn [flat_map app] in Hsrc.
    split.
    + unfold run.lexString, run.lexFirstWith, lexer.NewStringLexer, lexer.NewLexer,
        scanner.NewStringScanner.
      rewrite (string_advance_rune src 0 0 0 0 None (-1) (byte_of_ascii a) _ Hoka ltac:(lia) ltac:(lia)
                 ltac:(change (Z.to_nat (0 + 0)) with 0%nat; exact Hsrc)).
      rewrite Nat.add_1_r. cbv beta iota zeta.
      rewrite Lex_ATN_punct with (k := k) (l1 := lexer.mkLexer
          {| scanner.source := src; scanner.last := byte_of_ascii a; scanner.lastIndex := 0 + 0;
             scanner.lastWidth := Z.of_nat (length (utf8.EncodeRune (byte_of_ascii a)));
             scanner.tailIndex := 0 |} None (-1 + 1) false);
        [| cbn [lexer.advanceToNextToken_loop lexer.eof lexer.scanner scanner.Rune
                scanner.stringScanner_Scanner scanner.last]; rewrite Hwa, H35a; reflexivity
         | reflexivity | exact Hp | exact (proj1 (string_advance_ok _))].
      cbn [lexer.scanner scanner.Rune scanner.stringScanner_Scanner scanner.last lexer.lastIndex].
      rewrite Hv. reflexivity.
    + unfold run.lexReader, run.lexFirstWith, lexer.NewReaderLexer, lexer.NewLexer,
        scanner.NewBufferedScanner, bufio.NewReader.
      rewrite Hsrc, (buffered_advance_rune _ 0 false [] None (-1) (byte_of_ascii a) Hoka).
      rewrite Nat.add_1_r. cbv beta iota zeta.
      rewrite Lex_ATN_punct with (k := k) (l1 := lexer.mkLexer
          {| scanner.bsource := {| bufio.unread := bytes_of rest |}; scanner.blast := byte_of_ascii a;
             scanner.tailing := false; scanner.tail := [] |} None (-1 + 1) false);
        [| cbn [lexer.advanceToNextToken_loop lexer.eof lexer.scanner scanner.Rune
                scanner.bufferedScanner_Scanner scanner.blast]; rewrite Hwa, H35a; reflexivity
         | reflexivity | exact Hp | exact (proj1 (buffered_advance_ok _))].
      cbn [lexer.scanner scanner.Rune scanner.bufferedScanner_Scanner scanner.blast lexer.lastIndex].
      rewrite Hv. reflexivity.
  - inversion Hws as [|? ? [Hw Hww] Hws']; subst.
    cbn [flat_map] in Hsrc. rewrite <- app_assoc in Hsrc.
    assert (Hn : n = -1 + 1 + Z.of_nat (length ws') + 1) by (unfold n; cbn [length]; lia).
    rewrite Hn. split.
    + unfold run.lexString, run.lexFirstWith, lexer.NewStringLexer, lexer.NewLexer,
        scanner.NewStringScanner.
      rewrite (string_advance_rune src 0 0 0 0 None (-1) w _ Hw ltac:(lia) ltac:(lia)
                 ltac:(change (Z.to_nat (0 + 0)) with 0%nat; exact Hsrc)).
      rewrite Nat.add_1_r. cbv beta iota zeta.
      destruct (string_ATN (bytes_of rest) ws' src (0 + 0) (Z.of_nat (length (utf8.EncodeRune w))) 0 w
                  (-1 + 1) (byte_of_ascii a) (Datatypes.S (String.length src)) Hww Hws' Hoka Hwa H35a
                  ltac:(lia) ltac:(lia)
                  ltac:(rewrite Hsrc; replace (Z.to_nat (0 + 0 + Z.of_nat (length (utf8.EncodeRune w))))
                          with (length (utf8.EncodeRune w)) by lia;
                        rewrite skipn_app, skipn_all, Nat.sub_diag; reflexivity)
                  ltac:(cbn [length] in Hf; lia)) as (li' & HA).
      rewrite (Lex_ATN_punct _ _ _ token.zero k HA eq_refl Hp (proj1 (string_advance_ok _))).
      cbn [lexer.scanner scanner.Rune scanner.stringScanner_Scanner scanner.last lexer.lastIndex].
      rewrite Hv. reflexivity.
    + unfold run.lexReader, run.lexFirstWith, lexer.NewReaderLexer, lexer.NewLexer,
        scanner.NewBufferedScanner, bufio.NewReader.
      rewrite Hsrc, (buffered_advance_rune _ 0 false [] None (-1) w Hw).
      rewrite Nat.add_1_r. cbv beta iota zeta.
      destruct (buffered_ATN (bytes_of rest) ws' w false [] (-1 + 1) (byte_of_ascii a)
                  (Datatypes.S (String.length src)) Hww Hws' Hoka Hwa H35a
                  ltac:(cbn [length] in Hf; lia)) as (T' & HA).
      rewrite (Lex_ATN_punct _ _ _ token.zero k HA eq_refl Hp (proj1 (buffered_advance_ok _))).
      cbn [lexer.scanner scanner.Rune scanner.bufferedScanner_Scanner scanner.blast lexer.lastIndex].
      rewrite Hv. reflexivity.
Qed.

Lemma lex_skips_whitespace_witness :
  Forall wsRune [65279; 32; 44; 10] /\
  token.RunePunctuators (byte_of_ascii "}"%char) = Some token.BraceR /\
  (let src := String.append (string_of_bytes (flat_map utf8.EncodeRune [65279; 32; 44; 10]))
                            "}a"%string in
   run.lexString src = Some (token.mkToken token.BraceR 4 5 "}"%string, None) /\
   run.lexReader src = Some (token.mkToken token.BraceR 4 5 "}"%string, None)).
Proof.
  assert (H1 : Forall wsRune [65279; 32; 44; 10])
    by (repeat constructor; try reflexivity; discriminate).
  assert (H2 : token.RunePunctuators (byte_of_ascii "}"%char) = Some token.BraceR) by reflexivity.
  split; [exact H1 | split; [exact H2 | exact (lex_skips_whitespace _ "}"%char "a"%string _ H1 H2)]].
Defined.

End Extra2.

Module Extra3.
Import Extra Extra2.

Local Abbreviation okRune := (fun c => utf8.ValidRune c = true /\ c <> utf8.RuneError).

Lemma Lex_body_dot {S} `{scanner.Scanner S} (fuel : nat) (l : @lexer.lexer S) (t : token.Token) :
  lexer.eof l = false -> scanner.Rune (lexer.scanner l) = 46 ->
  lexer.Lex_body (Datatypes.S fuel) l t
  = lexer.readSpread l (token.set_Start t (lexer.lastIndex l)).
Proof.
  intros He Hr.
  unfold lexer.Lex_body, lexer.advanceToNextToken, lexer.bind at 1.
  cbn [lexer.advanceToNextToken_loop]. rewrite He, Hr. cbv beta iota zeta delta [lexer.isWhitespace token.BOM token.TAB token.SPACE token.LF
    token.CR token.COMMA Z.eqb Pos.eqb orb].
  cbv beta iota zeta delta [lexer.bind lexer.get_l lexer.upd_t lexer.rune].
  cbv beta iota zeta delta [negb]. rewrite He. cbv beta iota zeta delta [token.set_Start].
  cbn [lexer.scanner lexer.eof lexer.lastIndex]. rewrite Hr. reflexivity.
Qed.

(** One [expectDot] after an [advance] that succeeds. *)
Lemma expectDot_step {S} `{scanner.Scanner S} (l l1 : @lexer.lexer S) t :
  lexer.advance_l l = (l1, true) ->
  lexer.expectDot l t
  = Some (l1, t, if lexer.eof l1 then inr (Some (errors.SyntaxError (token.Start t) "unexpected EOF"%string))
                 else if negb (scanner.Rune (lexer.scanner l1) =? 46)
                 then inr (Some (errors.SyntaxError (token.Start t) "unexpected character"%string))
                 else inl tt).
Proof.
  intro Ha. unfold lexer.expectDot, lexer.adv, lexer.bind, lexer.advance.
  rewrite Ha. cbv beta iota zeta delta [lexer.get_l lexer.get_t lexer.ret lexer.return_].
  destruct (lexer.eof l1); [reflexivity|]. destruct (negb _); reflexivity.
Qed.

Lemma string_advance_ascii (src : string) li lw ti c0 e i c rest :
  0 <= c < 128 -> 0 <= li -> 0 <= lw ->
  skipn (Z.to_nat (li + lw)) (bytes_of src) = c :: rest ->
  lexer.advance_l (lexer.mkLexer {| scanner.source := src; scanner.last := c0;
      scanner.lastIndex := li; scanner.lastWidth := lw; scanner.tailIndex := ti |} e i false)
  = (lexer.mkLexer {| scanner.source := src; scanner.last := c;
      scanner.lastIndex := li + lw; scanner.lastWidth := 1;
      scanner.tailIndex := ti |} None (i + 1) false, true).
Proof.
  intros Hc Hli Hlw Hb.
  assert (E : utf8.EncodeRune c = [c]) by (apply Utf8Facts.EncodeRune_1; lia).
  rewrite (string_advance_rune src li lw ti c0 e i c rest (okRune_ascii c Hc) Hli Hlw
             ltac:(rewrite E; exact Hb)).
  rewrite E. reflexivity.
Qed.

Lemma buffered_advance_ascii c rest bl tg T e i :
  0 <= c < 128 ->
  lexer.advance_l (lexer.mkLexer {| scanner.bsource := {| bufio.unread := c :: rest |};
      scanner.blast := bl; scanner.tailing := tg; scanner.tail := T |} e i false)
  = (lexer.mkLexer {| scanner.bsource := {| bufio.unread := rest |}; scanner.blast := c;
      scanner.tailing := tg; scanner.tail := if tg then T ++ [c] else T |}
      None (i + 1) false, true).
Proof.
  intro Hc. assert (E : utf8.EncodeRune c = [c]) by (apply Utf8Facts.EncodeRune_1; lia).
  change (c :: rest) with ([c] ++ rest). rewrite <- E.
  rewrite (buffered_advance_rune rest bl tg T e i c (okRune_ascii c Hc)). rewrite E. reflexivity.
Qed.

(* The steps of [readSpread] after a successful [advance]. *)
Ltac spread_step adv :=
  unfold lexer.bind at 1; erewrite expectDot_step; [|adv];
  cbn [lexer.eof lexer.scanner scanner.Rune scanner.stringScanner_Scanner
       scanner.bufferedScanner_Scanner scanner.last scanner.blast Z.eqb Pos.eqb negb].

Ltac spread_end :=
  cbv beta iota zeta delta [lexer.bind lexer.upd_t lexer.adv lexer.advance];
  match goal with |- context [lexer.advance_l ?L] =>
    let Ha := fresh "Ha" in
    first [destruct (string_advance_ok L) as [Ha _] | destruct (buffered_advance_ok L) as [Ha _]];
    destruct (lexer.advance_l L) as [? ?]; cbn in Ha; subst
  end; reflexivity.

Lemma lex_spread_s (rest : string) :
  run.lexString (String.append "..."%string rest)
    = Some (token.mkToken token.Spread 0 3 "..."%string, None).
Proof.
  set (src := String.append "..."%string rest).
  assert (Hsrc : bytes_of src = 46 :: 46 :: 46 :: bytes_of rest)
    by (unfold src; rewrite bytes_of_append; reflexivity).
  unfold run.lexString, run.lexFirstWith, lexer.NewStringLexer, lexer.NewLexer,
    scanner.NewStringScanner.
  rewrite (string_advance_ascii src 0 0 0 0 None (-1) 46 (46 :: 46 :: bytes_of rest)
             ltac:(lia) ltac:(lia) ltac:(lia) ltac:(rewrite Hsrc; reflexivity)).
  rewrite Nat.add_1_r. unfold lexer.Lex. rewrite Lex_body_dot by reflexivity.
  cbn [lexer.lastIndex]. unfold lexer.readSpread.
  spread_step ltac:(eapply string_advance_ascii; cycle 3; [rewrite Hsrc; reflexivity | lia..]).
  spread_step ltac:(eapply string_advance_ascii; cycle 3; [rewrite Hsrc; reflexivity | lia..]).
  spread_end.
Qed.

Lemma lex_spread_r (rest : string) :
  run.lexReader (String.append "..."%string rest)
    = Some (token.mkToken token.Spread 0 3 "..."%string, None).
Proof.
  unfold run.lexReader, run.lexFirstWith, lexer.NewReaderLexer, lexer.NewLexer,
    scanner.NewBufferedScanner, bufio.NewReader.
  rewrite bytes_of_append. cbn [bytes_of list_ascii_of_string map app byte_of_ascii].
  change (byte_of_ascii "."%char) with 46. rewrite buffered_advance_ascii by lia.
  rewrite Nat.add_1_r. unfold lexer.Lex. rewrite Lex_body_dot by reflexivity.
  cbn [lexer.lastIndex]. unfold lexer.readSpread.
  spread_step ltac:(apply buffered_advance_ascii; lia).
  spread_step ltac:(apply buffered_advance_ascii; lia).
  spread_end.
Qed.
Lemma byte_of_ascii_dot (a : ascii) : a <> "."%char -> (byte_of_ascii a =? 46) = false.
Proof.
  intro Ha. apply Z.eqb_neq. intro E. apply Ha.
  rewrite <- (ascii_nat_embedding a). unfold byte_of_ascii in E.
  replace (nat_of_ascii a) with 46%nat by lia. reflexivity.
Qed.

Lemma lex_bad_spread_char (pre : string) (a : ascii) (r' : string) :
  pre = "."%string \/ pre = ".."%string ->
  byte_of_ascii a < 128 -> a <> "."%char ->
  let e := errors.SyntaxError 0 "unexpected character"%string in
  run.lexString (String.append pre (String a r')) = Some (token.zero, Some e) /\
  run.lexReader (String.append pre (String a r')) = Some (token.zero, Some e).
Proof.
  intros Hpre Ha Hd e.
  assert (Ha' : 0 <= byte_of_ascii a < 128) by (unfold byte_of_ascii in *; lia).
  assert (Hn := byte_of_ascii_dot a Hd).
  split.
  - set (src := String.append pre (String a r')).
    unfold run.lexString, run.lexFirstWith, lexer.NewStringLexer, lexer.NewLexer,
      scanner.NewStringScanner.
    destruct Hpre as [-> | ->].
    + assert (Hsrc : bytes_of src = 46 :: byte_of_ascii a :: bytes_of r') by reflexivity.
      rewrite (string_advance_ascii src 0 0 0 0 None (-1) 46 (byte_of_ascii a :: bytes_of r')
                 ltac:(lia) ltac:(lia) ltac:(lia) ltac:(rewrite Hsrc; reflexivity)).
      rewrite Nat.add_1_r. unfold lexer.Lex. rewrite Lex_body_dot by reflexivity.
      cbn [lexer.lastIndex]. unfold lexer.readSpread.
      spread_step ltac:(eapply string_advance_ascii; cycle 3; [rewrite Hsrc; reflexivity | lia..]).
      rewrite Hn. reflexivity.
    + assert (Hsrc : bytes_of src = 46 :: 46 :: byte_of_ascii a :: bytes_of r') by reflexivity.
      rewrite (string_advance_ascii src 0 0 0 0 None (-1) 46 (46 :: byte_of_ascii a :: bytes_of r')
                 ltac:(lia) ltac:(lia) ltac:(lia) ltac:(rewrite Hsrc; reflexivity)).
      rewrite Nat.add_1_r. unfold lexer.Lex. rewrite Lex_body_dot by reflexivity.
      cbn [lexer.lastIndex]. unfold lexer.readSpread.
      spread_step ltac:(eapply string_advance_ascii; cycle 3; [rewrite Hsrc; reflexivity | lia..]).
      spread_step ltac:(eapply string_advance_ascii; cycle 3; [rewrite Hsrc; reflexivity | lia..]).
      rewrite Hn. reflexivity.
  - unfold run.lexReader, run.lexFirstWith, lexer.NewReaderLexer, lexer.NewLexer,
      scanner.NewBufferedScanner, bufio.NewReader.
    destruct Hpre as [-> | ->]; rewrite bytes_of_append;
      cbn [bytes_of list_ascii_of_string map app]; change (byte_of_ascii "."%char) with 46;
      rewrite buffered_advance_ascii by lia;
      rewrite Nat.add_1_r; unfold lexer.Lex; rewrite Lex_body_dot by reflexivity;
      cbn [lexer.lastIndex]; unfold lexer.readSpread.
    + spread_step ltac:(apply buffered_advance_ascii; lia). rewrite Hn. reflexivity.
    + spread_step ltac:(apply buffered_advance_ascii; lia).
      spread_step ltac:(apply buffered_advance_ascii; lia). rewrite Hn. reflexivity.
Qed.

(* A legal comment character of [advanceToNextToken]. *)
Local Abbreviation commentRune := (fun c => okRune c /\ (c = token.TAB \/ (token.US < c /\ c <> token.LF /\ c <> token.CR))).

Lemma commentRune_test c :
  commentRune c ->
  ((c =? token.TAB) || ((token.US <? c) && negb (c =? token.LF) && negb (c =? token.CR)))%bool = true.
Proof.
  intros (_ & [->|(H1 & H2 & H3)]); [reflexivity|].
  apply orb_true_iff. right. apply andb_true_iff. split; [apply andb_true_iff; split|].
  - apply Z.ltb_lt. exact H1.
  - apply negb_true_iff, Z.eqb_neq. exact H2.
  - apply negb_true_iff, Z.eqb_neq. exact H3.
Qed.

(** [comment_loop] on a string scanner: the comment runes [cs], then the
    rune [c] that ends the comment. *)
Lemma string_CL (restB cs : list Z) : forall (src : string) li lw ti c0 i c (fuel : nat),
  Forall commentRune cs -> okRune c ->
  ((c =? token.TAB) || ((token.US <? c) && negb (c =? token.LF) && negb (c =? token.CR)))%bool = false ->
  0 <= li -> 0 <= lw ->
  skipn (Z.to_nat (li + lw)) (bytes_of src) = flat_map utf8.EncodeRune cs ++ utf8.EncodeRune c ++ restB ->
  (length cs < fuel)%nat ->
  exists li', 0 <= li' /\
    skipn (Z.to_nat (li' + Z.of_nat (length (utf8.EncodeRune c)))) (bytes_of src) = restB /\
    lexer.comment_loop fuel
    (lexer.mkLexer {| scanner.source := src; scanner.last := c0; scanner.lastIndex := li;
                      scanner.lastWidth := lw; scanner.tailIndex := ti |} None i false)
    = lexer.advanceToNextToken_loop (fuel - length cs - 1)
        (lexer.mkLexer {| scanner.source := src; scanner.last := c; scanner.lastIndex := li';
                          scanner.lastWidth := Z.of_nat (length (utf8.EncodeRune c));
                          scanner.tailIndex := ti |} None (i + Z.of_nat (length cs) + 1) false).
Proof.
  induction cs as [|w cs IH]; intros src li lw ti c0 i c fuel Hcs Hc Ht Hli Hlw Hb Hf;
    (destruct fuel as [|f]; [cbn in Hf; lia|]).
  - cbn [flat_map app] in Hb. cbn [lexer.comment_loop].
    rewrite (string_advance_rune src li lw ti c0 None i c restB Hc Hli Hlw Hb).
    cbn [lexer.eof lexer.scanner scanner.Rune scanner.stringScanner_Scanner scanner.last].
    rewrite Ht. exists (li + lw). split; [lia|]. split.
    { rewrite RuneFacts.skipn_skipn_Z by lia. rewrite Hb, Nat2Z.id, skipn_app, skipn_all,
        Nat.sub_diag. reflexivity. }
    cbn [length].
    replace (Datatypes.S f - 0 - 1)%nat with f by lia.
    replace (i + Z.of_nat 0 + 1) with (i + 1) by lia. reflexivity.
  - inversion Hcs as [|? ? Hw Hcs']; subst.
    cbn [flat_map] in Hb. rewrite <- app_assoc in Hb.
    cbn [lexer.comment_loop].
    rewrite (string_advance_rune src li lw ti c0 None i w _ (proj1 Hw) Hli Hlw Hb).
    cbn [lexer.eof lexer.scanner scanner.Rune scanner.stringScanner_Scanner scanner.last].
    rewrite (commentRune_test w Hw).
    destruct (IH src (li + lw) (Z.of_nat (length (utf8.EncodeRune w))) ti w (i + 1) c f Hcs' Hc Ht
                ltac:(lia) ltac:(lia)
                ltac:(rewrite RuneFacts.skipn_skipn_Z by lia; rewrite Hb, Nat2Z.id, skipn_app,
                        skipn_all, Nat.sub_diag; reflexivity)
                ltac:(cbn [length] in Hf; lia)) as (li' & Hli' & Hs & E).
    exists li'. split; [exact Hli'|]. split; [exact Hs|]. rewrite E. cbn [length].
    replace (f - length cs - 1)%nat with (Datatypes.S f - Datatypes.S (length cs) - 1)%nat by lia.
    replace (i + 1 + Z.of_nat (length cs) + 1) with (i + Z.of_nat (Datatypes.S (length cs)) + 1) by lia.
    reflexivity.
Qed.

(** [comment_loop] on a string scanner when the comment [cs] runs to the
    end of the source. *)
Lemma string_CL_eof (cs : list Z) : forall (src : string) li lw ti c0 i (fuel : nat),
  Forall commentRune cs -> 0 <= li < len src -> 0 <= lw ->
  skipn (Z.to_nat (li + lw)) (bytes_of src) = flat_map utf8.EncodeRune cs ->
  (length cs < fuel)%nat ->
  exists l', lexer.comment_loop fuel
    (lexer.mkLexer {| scanner.source := src; scanner.last := c0; scanner.lastIndex := li;
                      scanner.lastWidth := lw; scanner.tailIndex := ti |} None i false)
    = Some (l', true) /\ lexer.eof l' = true /\ lexer.lastIndex l' = i + Z.of_nat (length cs) + 1.
Proof.
  induction cs as [|w cs IH]; intros src li lw ti c0 i fuel Hcs Hli Hlw Hb Hf;
    (destruct fuel as [|f]; [cbn in Hf; lia|]).
  - cbn [flat_map] in Hb. cbn [lexer.comment_loop]. unfold lexer.advance_l.
    cbn [lexer.scanner scanner.Scan scanner.stringScanner_Scanner].
    unfold scanner.string_Scan. cbn [scanner.lastIndex scanner.lastWidth scanner.source].
    destruct (Z.geb_spec li (len src)); [lia|]. rewrite Hb.
    eexists. split; [reflexivity|]. split; [reflexivity|]. cbn [lexer.lastIndex length]. lia.
  - inversion Hcs as [|? ? Hw Hcs']; subst.
    cbn [flat_map] in Hb.
    assert (Hl := f_equal (@length Z) Hb). rewrite length_skipn, RuneFacts.bytes_of_length in Hl.
    rewrite length_app in Hl. pose proof (EncodeRune_length_pos w (proj1 Hw)).
    cbn [lexer.comment_loop].
    rewrite (string_advance_rune src li lw ti c0 None i w _ (proj1 Hw) (proj1 Hli) Hlw Hb).
    cbn [lexer.eof lexer.scanner scanner.Rune scanner.stringScanner_Scanner scanner.last].
    rewrite (commentRune_test w Hw).
    destruct (IH src (li + lw) (Z.of_nat (length (utf8.EncodeRune w))) ti w (i + 1) f Hcs'
                ltac:(unfold len; lia) ltac:(lia)
                ltac:(rewrite RuneFacts.skipn_skipn_Z by lia; rewrite Hb, Nat2Z.id, skipn_app,
                        skipn_all, Nat.sub_diag; reflexivity)
                ltac:(cbn [length] in Hf; lia)) as (l' & E & He & Hi).
    exists l'. split; [exact E|]. split; [exact He|]. rewrite Hi. cbn [length]. lia.
Qed.

(** The same two on a buffered scanner. *)
Lemma buffered_CL (restB cs : list Z) : forall c0 tg T i c (fuel : nat),
  Forall commentRune cs -> okRune c ->
  ((c =? token.TAB) || ((token.US <? c) && negb (c =? token.LF) && negb (c =? token.CR)))%bool = false ->
  (length cs < fuel)%nat ->
  exists T', lexer.comment_loop fuel
    (lexer.mkLexer {| scanner.bsource :=
                        {| bufio.unread := flat_map utf8.EncodeRune cs ++ utf8.EncodeRune c ++ restB |};
                      scanner.blast := c0; scanner.tailing := tg; scanner.tail := T |} None i false)
    = lexer.advanceToNextToken_loop (fuel - length cs - 1)
        (lexer.mkLexer {| scanner.bsource := {| bufio.unread := restB |}; scanner.blast := c;
                          scanner.tailing := tg; scanner.tail := T' |} None (i + Z.of_nat (length cs) + 1) false).
Proof.
  induction cs as [|w cs IH]; intros c0 tg T i c fuel Hcs Hc Ht Hf;
    (destruct fuel as [|f]; [cbn in Hf; lia|]).
  - cbn [flat_map app]. cbn [lexer.comment_loop].
    rewrite (buffered_advance_rune restB c0 tg T None i c Hc).
    cbn [lexer.eof lexer.scanner scanner.Rune scanner.bufferedScanner_Scanner scanner.blast].
    rewrite Ht. eexists. cbn [length].
    replace (Datatypes.S f - 0 - 1)%nat with f by lia.
    replace (i + Z.of_nat 0 + 1) with (i + 1) by lia. reflexivity.
  - inversion Hcs as [|? ? Hw Hcs']; subst.
    cbn [flat_map]. rewrite <- app_assoc. cbn [lexer.comment_loop].
    rewrite (buffered_advance_rune _ c0 tg T None i w (proj1 Hw)).
    cbn [lexer.eof lexer.scanner scanner.Rune scanner.bufferedScanner_Scanner scanner.blast].
    rewrite (commentRune_test w Hw).
    destruct (IH w tg (if tg then T ++ utf8.EncodeRune w else T) (i + 1) c f Hcs' Hc Ht
                ltac:(cbn [length] in Hf; lia)) as (T' & E).
    exists T'. rewrite E. cbn [length].
    replace (f - length cs - 1)%nat with (Datatypes.S f - Datatypes.S (length cs) - 1)%nat by lia.
    replace (i + 1 + Z.of_nat (length cs) + 1) with (i + Z.of_nat (Datatypes.S (length cs)) + 1) by lia.
    reflexivity.
Qed.

Lemma buffered_CL_eof (cs : list Z) : forall c0 tg T i (fuel : nat),
  Forall commentRune cs -> (length cs < fuel)%nat ->
  exists l', lexer.comment_loop fuel
    (lexer.mkLexer {| scanner.bsource := {| bufio.unread := flat_map utf8.EncodeRune cs |};
                      scanner.blast := c0; scanner.tailing := tg; scanner.tail := T |} None i false)
    = Some (l', true) /\ lexer.eof l' = true /\ lexer.lastIndex l' = i + Z.of_nat (length cs) + 1.
Proof.
  induction cs as [|w cs IH]; intros c0 tg T i fuel Hcs Hf;
    (destruct fuel as [|f]; [cbn in Hf; lia|]).
  - eexists. split; [reflexivity|]. split; [reflexivity|]. cbn. lia.
  - inversion Hcs as [|? ? Hw Hcs']; subst.
    cbn [flat_map]. cbn [lexer.comment_loop].
    rewrite (buffered_advance_rune _ c0 tg T None i w (proj1 Hw)).
    cbn [lexer.eof lexer.scanner scanner.Rune scanner.bufferedScanner_Scanner scanner.blast].
    rewrite (commentRune_test w Hw).
    destruct (IH w tg (if tg then T ++ utf8.EncodeRune w else T) (i + 1) f Hcs'
                ltac:(cbn [length] in Hf; lia)) as (l' & E & He & Hi).
    exists l'. split; [exact E|]. split; [exact He|]. rewrite Hi. cbn [length]. lia.
Qed.

(** [Lex] when [advanceToNextToken] reaches the end of the source. *)
Lemma Lex_ATN_eof {S} `{scanner.Scanner S} (fuel : nat) (l l1 : @lexer.lexer S) t :
  lexer.advanceToNextToken_loop fuel l = Some (l1, true) -> lexer.eof l1 = true ->
  lexer.Lex fuel l t
  = Some (l1, token.mkToken token.EOF (lexer.lastIndex l1) (lexer.lastIndex l1) (token.Value t), None).
Proof.
  intros HA He.
  unfold lexer.Lex, lexer.Lex_body, lexer.advanceToNextToken, lexer.bind at 1. rewrite HA.
  cbv beta iota zeta delta [lexer.bind lexer.get_l lexer.upd_t lexer.rune lexer.return_].
  cbv beta iota zeta delta [negb]. rewrite He. reflexivity.
Qed.

Lemma ATN_hash {S} `{scanner.Scanner S} (f : nat) (l : @lexer.lexer S) :
  lexer.eof l = false -> scanner.Rune (lexer.scanner l) = 35 ->
  lexer.advanceToNextToken_loop (Datatypes.S f) l = lexer.comment_loop f l.
Proof. intros He Hr. cbn [lexer.advanceToNextToken_loop]. rewrite He, Hr. reflexivity. Qed.

Lemma commentRune_okRune cs : Forall commentRune cs -> Forall okRune cs.
Proof. intro H. eapply Forall_impl; [|exact H]. intros c Hc. exact (proj1 Hc). Qed.

Lemma lex_comment_punct_s (cs : list Z) (nl : Z) (a : ascii) (rest : string) (k : token.Kind) :
  Forall commentRune cs -> nl = token.LF \/ nl = token.CR ->
  token.RunePunctuators (byte_of_ascii a) = Some k ->
  let n := Z.of_nat (length cs) in
  let src := String.append (string_of_bytes (flat_map utf8.EncodeRune (35 :: cs ++ [nl]))) (String a rest) in
  run.lexString src = Some (token.mkToken k (n + 2) (n + 3) (String a EmptyString), None) /\
  run.lexReader src = Some (token.mkToken k (n + 2) (n + 3) (String a EmptyString), None).
Proof.
  intros Hcs Hnl Hp n src.
  destruct (punct_class _ _ Hp) as (Ha & Hwa & H35a).
  assert (Hoka := okRune_ascii _ Ha).
  assert (Hok := commentRune_okRune cs Hcs).
  assert (Hnl' : 0 <= nl < 128) by (destruct Hnl as [->| ->]; unfold token.LF, token.CR; lia).
  assert (Hoknl := okRune_ascii _ Hnl').
  assert (Ok35 := okRune_ascii 35 ltac:(lia)).
  assert (Hwnl : lexer.isWhitespace nl = true) by (destruct Hnl as [->| ->]; reflexivity).
  assert (Htnl : ((nl =? token.TAB) || ((token.US <? nl) && negb (nl =? token.LF) && negb (nl =? token.CR)))%bool = false)
    by (destruct Hnl as [->| ->]; reflexivity).
  assert (Hsrc : bytes_of src = utf8.EncodeRune 35 ++ (flat_map utf8.EncodeRune cs ++ utf8.EncodeRune nl ++
                   (utf8.EncodeRune (byte_of_ascii a) ++ bytes_of rest))).
  { unfold src. rewrite bytes_of_append, bytes_of_string_of_bytes.
    - cbn [flat_map]. rewrite flat_map_app. cbn [flat_map]. rewrite app_nil_r.
      rewrite (Utf8Facts.EncodeRune_1 (byte_of_ascii a)) by lia. cbn [bytes_of list_ascii_of_string map].
      rewrite <- !app_assoc. reflexivity.
    - apply flat_map_EncodeRune_bytes. constructor; [exact Ok35|]. apply Forall_app.
      split; [exact Hok | constructor; [exact Hoknl | constructor]]. }
  assert (E35 : utf8.EncodeRune 35 = [35]) by (apply Utf8Facts.EncodeRune_1; lia).
  assert (Enl : utf8.EncodeRune nl = [nl]) by (apply Utf8Facts.EncodeRune_1; lia).
  assert (Hf : (length cs + 3 <= String.length src)%nat).
  { rewrite <- RuneFacts.bytes_of_length, Hsrc, E35, Enl, Utf8Facts.EncodeRune_1 by lia.
    rewrite !length_app. cbn [length]. pose proof (flat_map_EncodeRune_length cs Hok). lia. }
  assert (Hv : string_of_bytes (utf8.EncodeRune (byte_of_ascii a)) = String a EmptyString)
    by exact (string_of_bytes_EncodeRune_ascii a (proj2 Ha)).
  split.
  - unfold run.lexString, run.lexFirstWith, lexer.NewStringLexer, lexer.NewLexer,
      scanner.NewStringScanner.
    rewrite (string_advance_rune src 0 0 0 0 None (-1) 35 _ Ok35 ltac:(lia) ltac:(lia)
               ltac:(change (Z.to_nat (0 + 0)) with 0%nat; exact Hsrc)).
    rewrite Nat.add_1_r. cbv beta iota zeta.
    destruct (string_CL (utf8.EncodeRune (byte_of_ascii a) ++ bytes_of rest) cs src (0 + 0)
                (Z.of_nat (length (utf8.EncodeRune 35))) 0 35 (-1 + 1) nl (String.length src)
                Hcs Hoknl Htnl ltac:(lia) ltac:(lia)
                ltac:(rewrite Hsrc, E35; reflexivity) ltac:(lia)) as (li' & Hli' & Hs & HC).
    destruct (string_ATN (bytes_of rest) [] src li' (Z.of_nat (length (utf8.EncodeRune nl))) 0 nl
                (-1 + 1 + Z.of_nat (length cs) + 1) (byte_of_ascii a) (String.length src - length cs - 1)
                Hwnl (Forall_nil _) Hoka Hwa H35a Hli' ltac:(lia) ltac:(rewrite Hs; reflexivity)
                ltac:(cbn [length]; lia)) as (li2 & HA).
    rewrite <- HC in HA.
    rewrite <- ATN_hash in HA by reflexivity.
    rewrite (Lex_ATN_punct _ _ _ token.zero k HA eq_refl Hp (proj1 (string_advance_ok _))).
    cbn [lexer.scanner scanner.Rune scanner.stringScanner_Scanner scanner.last lexer.lastIndex].
    rewrite Hv. unfold n. cbn [length]. do 2 f_equal; f_equal; lia.
  - unfold run.lexReader, run.lexFirstWith, lexer.NewReaderLexer, lexer.NewLexer,
      scanner.NewBufferedScanner, bufio.NewReader.
    rewrite Hsrc, (buffered_advance_rune _ 0 false [] None (-1) 35 Ok35).
    rewrite Nat.add_1_r. cbv beta iota zeta.
    destruct (buffered_CL (utf8.EncodeRune (byte_of_ascii a) ++ bytes_of rest) cs 35 false [] (-1 + 1) nl
                (String.length src) Hcs Hoknl Htnl ltac:(lia)) as (T' & HC).
    destruct (buffered_ATN (bytes_of rest) [] nl false T' (-1 + 1 + Z.of_nat (length cs) + 1) (byte_of_ascii a)
                (String.length src - length cs - 1) Hwnl (Forall_nil _) Hoka Hwa H35a
                ltac:(cbn [length]; lia)) as (T2 & HA).
    cbn [flat_map app] in HA. rewrite <- HC in HA.
    rewrite <- ATN_hash in HA by reflexivity.
    rewrite (Lex_ATN_punct _ _ _ token.zero k HA eq_refl Hp (proj1 (buffered_advance_ok _))).
    cbn [lexer.scanner scanner.Rune scanner.bufferedScanner_Scanner scanner.blast lexer.lastIndex].
    rewrite Hv. unfold n. cbn [length]. do 2 f_equal; f_equal; lia.
Qed.

Lemma lex_comment_eof (cs : list Z) :
  Forall commentRune cs ->
  let n := Z.of_nat (length cs) in
  let src := string_of_bytes (flat_map utf8.EncodeRune (35 :: cs)) in
  run.lexString src = Some (token.mkToken token.EOF (n + 1) (n + 1) EmptyString, None) /\
  run.lexReader src = Some (token.mkToken token.EOF (n + 1) (n + 1) EmptyString, None).
Proof.
  intros Hcs n src.
  assert (Hok := commentRune_okRune cs Hcs).
  assert (Ok35 := okRune_ascii 35 ltac:(lia)).
  assert (E35 : utf8.EncodeRune 35 = [35]) by (apply Utf8Facts.EncodeRune_1; lia).
  assert (Hsrc : bytes_of src = utf8.EncodeRune 35 ++ flat_map utf8.EncodeRune cs).
  { unfold src. rewrite bytes_of_string_of_bytes; [reflexivity|].
    apply flat_map_EncodeRune_bytes. constructor; [exact Ok35 | exact Hok]. }
  assert (Hf : (length cs + 1 <= String.length src)%nat).
  { rewrite <- RuneFacts.bytes_of_length, Hsrc, E35.
    cbn [app length]. pose proof (flat_map_EncodeRune_length cs Hok). lia. }
  split.
  - unfold run.lexString, run.lexFirstWith, lexer.NewStringLexer, lexer.NewLexer,
      scanner.NewStringScanner.
    rewrite (string_advance_rune src 0 0 0 0 None (-1) 35 _ Ok35 ltac:(lia) ltac:(lia)
               ltac:(change (Z.to_nat (0 + 0)) with 0%nat; exact Hsrc)).
    rewrite Nat.add_1_r. cbv beta iota zeta.
    destruct (string_CL_eof cs src (0 + 0) (Z.of_nat (length (utf8.EncodeRune 35))) 0 35 (-1 + 1)
                (String.length src) Hcs ltac:(unfold len; lia) ltac:(lia)
                ltac:(rewrite Hsrc, E35; reflexivity) ltac:(lia)) as (l' & HC & He & Hi).
    rewrite <- ATN_hash in HC by reflexivity.
    rewrite (Lex_ATN_eof _ _ _ token.zero HC He), Hi.
    unfold n. do 2 f_equal; f_equal; lia.
  - unfold run.lexReader, run.lexFirstWith, lexer.NewReaderLexer, lexer.NewLexer,
      scanner.NewBufferedScanner, bufio.NewReader.
    rewrite Hsrc, (buffered_advance_rune _ 0 false [] None (-1) 35 Ok35).
    rewrite Nat.add_1_r. cbv beta iota zeta.
    destruct (buffered_CL_eof cs 35 false [] (-1 + 1) (String.length src) Hcs ltac:(lia))
      as (l' & HC & He & Hi).
    rewrite <- ATN_hash in HC by reflexivity.
    rewrite (Lex_ATN_eof _ _ _ token.zero HC He), Hi.
    unfold n. do 2 f_equal; f_equal; lia.
Qed.

Local Abbreviation strChar := (fun c => okRune c /\ (32 <= c \/ c = 9) /\ c <> 34 /\ c <> 92).

(* The items of a string literal: [inl c] a plain rune, [inr e] the escape
   [\e]; their source bytes, the bytes they add to the value, and the runes
   they span. *)
Local Abbreviation itemOK := (fun (it : Z + Z) =>
  match it with inl c => strChar c | inr e => lexer.escape e <> None end).
Local Abbreviation itemSrc := (fun (it : Z + Z) =>
  match it with inl c => utf8.EncodeRune c | inr e => [92; e] end).
Local Abbreviation itemVal := (fun (it : Z + Z) =>
  match it with
  | inl c => utf8.EncodeRune c
  | inr e => match lexer.escape e with Some v => utf8.EncodeRune v | None => [] end
  end).
Local Abbreviation itemRunes := (fun (it : Z + Z) => match it with inl _ => 1%nat | inr _ => 2%nat end).

Lemma escape_class e v : lexer.escape e = Some v -> 0 <= e < 128.
Proof.
  unfold lexer.escape. intro E.
  repeat match type of E with
         | context [if Z.eqb e ?c then _ else _] =>
           destruct (Z.eqb_spec e c) as [->|]; [lia|]
         end.
  discriminate E.
Qed.

(** A single-character escape in [readString]'s loop. *)
Lemma RSL_escape {S} `{scanner.Scanner S} (f : nat) value (l l1 l2 : @lexer.lexer S) t e v :
  lexer.advance_l l = (l1, true) -> lexer.eof l1 = false -> scanner.Rune (lexer.scanner l1) = 92 ->
  lexer.advance_l l1 = (l2, true) -> scanner.Rune (lexer.scanner l2) = e -> lexer.escape e = Some v ->
  lexer.readString_loop (Datatypes.S f) value l t
  = lexer.readString_loop f (value ++ utf8.EncodeRune v) l2 t.
Proof.
  intros Ha He Hr Ha2 Hr2 Hv.
  cbn [lexer.readString_loop]. unfold lexer.bind at 1, lexer.advance. rewrite Ha.
  unfold lexer.bind, lexer.rune, lexer.get_l. cbn [negb]. rewrite He, Hr.
  cbn [Z.eqb orb andb negb token.LF token.CR token.SPACE token.TAB Pos.eqb Z.ltb Z.compare Pos.compare
       Pos.compare_cont].
  unfold lexer.adv, lexer.bind, lexer.advance. rewrite Ha2.
  cbv beta iota zeta delta [lexer.ret lexer.rune]. rewrite Hr2, Hv. reflexivity.
Qed.

(** [readString]'s loop on a string scanner: the items [its], then the
    closing quote. *)
Lemma string_RSLi (restB : list Z) (its : list (Z + Z)) :
  forall (src : string) li lw ti c0 i value t (fuel : nat),
  Forall itemOK its -> 0 <= li -> 0 <= lw ->
  skipn (Z.to_nat (li + lw)) (bytes_of src) = flat_map itemSrc its ++ 34 :: restB ->
  (length its < fuel)%nat ->
  exists l', lexer.readString_loop fuel value
    (lexer.mkLexer {| scanner.source := src; scanner.last := c0; scanner.lastIndex := li;
                      scanner.lastWidth := lw; scanner.tailIndex := ti |} None i false) t
    = Some (l', token.set_Value (token.set_End t (i + Z.of_nat (list_sum (map itemRunes its)) + 1))
                  (string_of_bytes (value ++ flat_map itemVal its)), inr None).
Proof.
  induction its as [|it its IH]; intros src li lw ti c0 i value t fuel Hits Hli Hlw Hb Hf;
    (destruct fuel as [|f]; [cbn in Hf; lia|]).
  - cbn [flat_map app] in Hb.
    assert (HA := string_advance_ascii src li lw ti c0 None i 34 restB ltac:(lia) Hli Hlw Hb).
    rewrite RSL_quote; rewrite ?HA; [| reflexivity | reflexivity | reflexivity
                                     | exact (proj1 (string_advance_ok _))].
    eexists. cbn [fst lexer.lastIndex flat_map map]. change (list_sum []) with 0%nat.
    rewrite app_nil_r. replace (i + Z.of_nat 0 + 1) with (i + 1) by lia. reflexivity.
  - inversion Hits as [|? ? Hit Hits']; subst.
    cbn [flat_map] in Hb. rewrite <- app_assoc in Hb.
    cbn [flat_map map]. change (list_sum (?x :: ?l)) with (x + list_sum l)%nat.
    destruct it as [c|e].
    + assert (HA := string_advance_rune src li lw ti c0 None i c _ (proj1 Hit) Hli Hlw Hb).
      rewrite RSL_char with (c := c); rewrite ?HA; try reflexivity; [|exact Hit].
      cbn [fst].
      destruct (IH src (li + lw) (Z.of_nat (length (utf8.EncodeRune c))) ti c (i + 1)
                  (value ++ utf8.EncodeRune c) t f Hits' ltac:(lia) ltac:(lia)
                  ltac:(rewrite RuneFacts.skipn_skipn_Z by lia; rewrite Hb, Nat2Z.id, skipn_app,
                          skipn_all, Nat.sub_diag; reflexivity)
                  ltac:(cbn [length] in Hf; lia)) as (l' & E).
      exists l'. rewrite E. rewrite app_assoc.
      replace (i + 1 + Z.of_nat (list_sum (map itemRunes its)) + 1)
        with (i + Z.of_nat (1 + list_sum (map itemRunes its)) + 1) by lia.
      reflexivity.
    + destruct (lexer.escape e) as [v|] eqn:Hv; [|exfalso; exact (Hit eq_refl)].
      assert (He := escape_class e v Hv).
      cbn [app] in Hb.
      assert (HA1 := string_advance_ascii src li lw ti c0 None i 92 _ ltac:(lia) Hli Hlw Hb).
      assert (HA2 := string_advance_ascii src (li + lw) 1 ti 92 None (i + 1) e
                       (flat_map itemSrc its ++ 34 :: restB) He ltac:(lia) ltac:(lia)
                       ltac:(rewrite RuneFacts.skipn_skipn_Z by lia; rewrite Hb; reflexivity)).
      rewrite (RSL_escape f value _ _ _ t e v HA1 eq_refl eq_refl HA2 eq_refl Hv).
      destruct f as [|f]; [cbn in Hf; lia|].
      destruct (IH src (li + lw + 1) 1 ti e (i + 1 + 1)
                  (value ++ utf8.EncodeRune v) t (Datatypes.S f) Hits' ltac:(lia) ltac:(lia)
                  ltac:(rewrite RuneFacts.skipn_skipn_Z by lia; rewrite RuneFacts.skipn_skipn_Z by lia;
                        rewrite Hb; reflexivity)
                  ltac:(cbn [length] in Hf; lia)) as (l' & E).
      exists l'. rewrite E. rewrite app_assoc.
      replace (i + 1 + 1 + Z.of_nat (list_sum (map itemRunes its)) + 1)
        with (i + Z.of_nat (2 + list_sum (map itemRunes its)) + 1) by lia.
      reflexivity.
Qed.

(** The same on a buffered scanner. *)
Lemma buffered_RSLi (restB : list Z) (its : list (Z + Z)) :
  forall bl tg T i value t (fuel : nat),
  Forall itemOK its -> (length its < fuel)%nat ->
  exists l', lexer.readString_loop fuel value
    (lexer.mkLexer {| scanner.bsource := {| bufio.unread := flat_map itemSrc its ++ 34 :: restB |};
                      scanner.blast := bl; scanner.tailing := tg; scanner.tail := T |} None i false) t
    = Some (l', token.set_Value (token.set_End t (i + Z.of_nat (list_sum (map itemRunes its)) + 1))
                  (string_of_bytes (value ++ flat_map itemVal its)), inr None).
Proof.
  induction its as [|it its IH]; intros bl tg T i value t fuel Hits Hf;
    (destruct fuel as [|f]; [cbn in Hf; lia|]).
  - cbn [flat_map app].
    assert (HA := buffered_advance_ascii 34 restB bl tg T None i ltac:(lia)).
    rewrite RSL_quote; rewrite ?HA; [| reflexivity | reflexivity | reflexivity
                                     | exact (proj1 (buffered_advance_ok _))].
    eexists. cbn [fst lexer.lastIndex flat_map map]. change (list_sum []) with 0%nat.
    rewrite app_nil_r. replace (i + Z.of_nat 0 + 1) with (i + 1) by lia. reflexivity.
  - inversion Hits as [|? ? Hit Hits']; subst.
    cbn [flat_map]. rewrite <- app_assoc.
    cbn [map]. change (list_sum (?x :: ?l)) with (x + list_sum l)%nat.
    destruct it as [c|e].
    + assert (HA := buffered_advance_rune (flat_map itemSrc its ++ 34 :: restB) bl tg T None i c
                      (proj1 Hit)).
      rewrite RSL_char with (c := c); rewrite ?HA; try reflexivity; [|exact Hit].
      cbn [fst].
      destruct (IH c tg (if tg then T ++ utf8.EncodeRune c else T) (i + 1)
                  (value ++ utf8.EncodeRune c) t f Hits' ltac:(cbn [length] in Hf; lia)) as (l' & E).
      exists l'. rewrite E. rewrite app_assoc.
      replace (i + 1 + Z.of_nat (list_sum (map itemRunes its)) + 1)
        with (i + Z.of_nat (1 + list_sum (map itemRunes its)) + 1) by lia.
      reflexivity.
    + destruct (lexer.escape e) as [v|] eqn:Hv; [|exfalso; exact (Hit eq_refl)].
      assert (He := escape_class e v Hv).
      cbn [app].
      assert (HA1 := buffered_advance_ascii 92 (e :: flat_map itemSrc its ++ 34 :: restB) bl tg T None i
                       ltac:(lia)).
      assert (HA2 := buffered_advance_ascii e (flat_map itemSrc its ++ 34 :: restB) 92 tg
                       (if tg then T ++ [92] else T) None (i + 1) He).
      rewrite (RSL_escape f value _ _ _ t e v HA1 eq_refl eq_refl HA2 eq_refl Hv).
      destruct f as [|f]; [cbn in Hf; lia|].
      destruct (IH e tg (if tg then (if tg then T ++ [92] else T) ++ [e] else (if tg then T ++ [92] else T))
                  (i + 1 + 1) (value ++ utf8.EncodeRune v) t (Datatypes.S f) Hits'
                  ltac:(cbn [length] in Hf; lia)) as (l' & E).
      exists l'. rewrite E. rewrite app_assoc.
      replace (i + 1 + 1 + Z.of_nat (list_sum (map itemRunes its)) + 1)
        with (i + Z.of_nat (2 + list_sum (map itemRunes its)) + 1) by lia.
      reflexivity.
Qed.

Lemma itemSrc_bytes (its : list (Z + Z)) :
  Forall itemOK its ->
  Forall (fun b => 0 <= b < 256) (flat_map itemSrc its) /\ (length its <= length (flat_map itemSrc its))%nat.
Proof.
  induction 1 as [|it its Hit _ [IH1 IH2]]; [split; [constructor | cbn; lia]|].
  cbn [flat_map]. rewrite length_app. destruct it as [c|e].
  - pose proof (EncodeRune_length_pos c (proj1 Hit)).
    assert (HB := flat_map_EncodeRune_bytes [c] (Forall_cons _ (proj1 Hit) (Forall_nil _))).
    cbn [flat_map] in HB. rewrite app_nil_r in HB.
    split; [apply Forall_app; split; assumption | cbn [length]; lia].
  - destruct (lexer.escape e) as [v|] eqn:Hv; [|exfalso; exact (Hit eq_refl)].
    pose proof (escape_class e v Hv).
    split; [apply Forall_app; split; [repeat constructor; lia | exact IH1] | cbn [length]; lia].
Qed.

Lemma lex_string_items_s (its : list (Z + Z)) (rest : string) :
  Forall itemOK its ->
  let src := String.append (string_of_bytes (34 :: flat_map itemSrc its ++ [34])) rest in
  let n := Z.of_nat (list_sum (map itemRunes its)) in
  let v := string_of_bytes (flat_map itemVal its) in
  run.lexString src = Some (token.mkToken token.String 0 (n + 1) v, None) /\
  run.lexReader src = Some (token.mkToken token.String 0 (n + 1) v, None).
Proof.
  intros Hits src n v.
  destruct (itemSrc_bytes its Hits) as [HB Hl].
  assert (Hsrc : bytes_of src = [34] ++ (flat_map itemSrc its ++ 34 :: bytes_of rest)).
  { unfold src. rewrite bytes_of_append, bytes_of_string_of_bytes.
    - cbn [app]. rewrite <- app_assoc. reflexivity.
    - constructor; [lia|]. apply Forall_app. split; [exact HB | repeat constructor; lia]. }
  assert (Hf : (length its < Datatypes.S (String.length src))%nat).
  { rewrite <- RuneFacts.bytes_of_length, Hsrc. cbn [app length]. rewrite length_app. lia. }
  assert (HE : token.set_Value (token.set_End (token.set_kind (token.set_Start token.zero (-1 + 1))
                 token.String) (-1 + 1 + n + 1)) (string_of_bytes ([] ++ flat_map itemVal its))
               = token.mkToken token.String 0 (n + 1) v).
  { replace (-1 + 1 + n + 1) with (n + 1) by lia. reflexivity. }
  split.
  - unfold run.lexString, run.lexFirstWith, lexer.NewStringLexer, lexer.NewLexer,
      scanner.NewStringScanner.
    rewrite (string_advance_ascii src 0 0 0 0 None (-1) 34 _ ltac:(lia) ltac:(lia) ltac:(lia)
               ltac:(change (Z.to_nat (0 + 0)) with 0%nat; exact Hsrc)).
    rewrite Nat.add_1_r. unfold lexer.Lex.
    rewrite Lex_body_quote by reflexivity.
    unfold lexer.readString, lexer.bind at 1, lexer.upd_t.
    destruct (string_RSLi (bytes_of rest) its src (0 + 0) 1 0 34 (-1 + 1) []
                (token.set_kind (token.set_Start token.zero (-1 + 1)) token.String)
                (Datatypes.S (String.length src)) Hits ltac:(lia) ltac:(lia)
                ltac:(rewrite Hsrc; reflexivity) Hf) as (l' & E).
    cbn [lexer.lastIndex]. rewrite E. cbv beta iota. fold n. rewrite HE. reflexivity.
  - unfold run.lexReader, run.lexFirstWith, lexer.NewReaderLexer, lexer.NewLexer,
      scanner.NewBufferedScanner, bufio.NewReader.
    rewrite Hsrc. cbn [app]. rewrite (buffered_advance_ascii 34 _ 0 false [] None (-1) ltac:(lia)).
    rewrite Nat.add_1_r. unfold lexer.Lex.
    rewrite Lex_body_quote by reflexivity.
    unfold lexer.readString, lexer.bind at 1, lexer.upd_t.
    destruct (buffered_RSLi (bytes_of rest) its 34 false [] (-1 + 1) []
                (token.set_kind (token.set_Start token.zero (-1 + 1)) token.String)
                (Datatypes.S (String.length src)) Hits Hf) as (l' & E).
    cbn [lexer.lastIndex]. rewrite E. cbv beta iota. fold n. rewrite HE. reflexivity.
Qed.

(** X18: a spread [...] at the start of the source lexes, with both lexers,
    to a [Spread] token from 0 to 3 whose [Value] is [...], whatever
    follows it. *)
Theorem lex_spread (rest : string) :
  run.lexString (String.append "..."%string rest)
    = Some (token.mkToken token.Spread 0 3 "..."%string, None) /\
  run.lexReader (String.append "..."%string rest)
    = Some (token.mkToken token.Spread 0 3 "..."%string, None).
Proof. split; [exact (lex_spread_s rest) | exact (lex_spread_r rest)]. Qed.

(** X19: one or two dots not followed by a third are a SyntaxError at the
    offset of the first dot: "unexpected EOF" at the end of the source,
    "unexpected character" before an ASCII rune other than a dot; with both
    lexers, the token keeps its zero value. *)
Theorem lex_bad_spread (pre rest : string) :
  pre = "."%string \/ pre = ".."%string ->
  rest = EmptyString \/ (exists a r', rest = String a r' /\ byte_of_ascii a < 128 /\ a <> "."%char) ->
  let e := errors.SyntaxError 0 (match rest with
                                 | EmptyString => "unexpected EOF"%string
                                 | String _ _ => "unexpected character"%string
                                 end) in
  run.lexString (String.append pre rest) = Some (token.zero, Some e) /\
  run.lexReader (String.append pre rest) = Some (token.zero, Some e).
Proof.
  intros Hpre [->|(a & r' & -> & Ha & Hd)] e.
  - destruct Hpre as [-> | ->]; split; vm_compute; reflexivity.
  - exact (lex_bad_spread_char pre a r' Hpre Ha Hd).
Qed.

Lemma lex_bad_spread_witness :
  (".."%string = "."%string \/ ".."%string = ".."%string) /\
  ("a"%string = EmptyString \/
   (exists a r', "a"%string = String a r' /\ byte_of_ascii a < 128 /\ a <> "."%char)) /\
  run.lexString "..a"%string
    = Some (token.zero, Some (errors.SyntaxError 0 "unexpected character"%string)) /\
  run.lexReader "..a"%string
    = Some (token.zero, Some (errors.SyntaxError 0 "unexpected character"%string)).
Proof.
  assert (H1 : ".."%string = "."%string \/ ".."%string = ".."%string) by (right; reflexivity).
  assert (H2 : "a"%string = EmptyString \/
               (exists a r', "a"%string = String a r' /\ byte_of_ascii a < 128 /\ a <> "."%char))
    by (right; exists "a"%char, EmptyString; split; [reflexivity | split; [vm_compute; reflexivity | discriminate]]).
  split; [exact H1 | split; [exact H2 | exact (lex_bad_spread ".."%string "a"%string H1 H2)]].
Defined.

(** X20: a comment ([#] and legal comment runes) is skipped by both lexers:
    after the LF or CR that ends it, a punctuator lexes at the rune offset
    past the comment and the line end; a comment that runs to the end of
    the source gives the [EOF] token at the rune offset of the end. *)
Theorem lex_skips_comment (cs : list Z) (nl : Z) (a : ascii) (rest : string) (k : token.Kind) :
  Forall commentRune cs -> nl = token.LF \/ nl = token.CR ->
  token.RunePunctuators (byte_of_ascii a) = Some k ->
  let n := Z.of_nat (length cs) in
  let src1 := String.append (string_of_bytes (flat_map utf8.EncodeRune (35 :: cs ++ [nl]))) (String a rest) in
  let src2 := string_of_bytes (flat_map utf8.EncodeRune (35 :: cs)) in
  run.lexString src1 = Some (token.mkToken k (n + 2) (n + 3) (String a EmptyString), None) /\
  run.lexReader src1 = Some (token.mkToken k (n + 2) (n + 3) (String a EmptyString), None) /\
  run.lexString src2 = Some (token.mkToken token.EOF (n + 1) (n + 1) EmptyString, None) /\
  run.lexReader src2 = Some (token.mkToken token.EOF (n + 1) (n + 1) EmptyString, None).
Proof.
  intros Hcs Hnl Hp n src1 src2.
  destruct (lex_comment_punct_s cs nl a rest k Hcs Hnl Hp) as [E1 E2].
  destruct (lex_comment_eof cs Hcs) as [E3 E4].
  split; [exact E1 | split; [exact E2 | split; [exact E3 | exact E4]]].
Qed.

Lemma lex_skips_comment_witness :
  Forall commentRune [32; 955; 9] /\ (10 = token.LF \/ 10 = token.CR) /\
  token.RunePunctuators (byte_of_ascii "}"%char) = Some token.BraceR /\
  (run.lexString (String.append (string_of_bytes (flat_map utf8.EncodeRune [35; 32; 955; 9; 10])) "}"%string)
     = Some (token.mkToken token.BraceR 5 6 "}"%string, None) /\
   run.lexReader (String.append (string_of_bytes (flat_map utf8.EncodeRune [35; 32; 955; 9; 10])) "}"%string)
     = Some (token.mkToken token.BraceR 5 6 "}"%string, None) /\
   run.lexString (string_of_bytes (flat_map utf8.EncodeRune [35; 32; 955; 9]))
     = Some (token.mkToken token.EOF 4 4 EmptyString, None) /\
   run.lexReader (string_of_bytes (flat_map utf8.EncodeRune [35; 32; 955; 9]))
     = Some (token.mkToken token.EOF 4 4 EmptyString, None)).
Proof.
  assert (H1 : Forall commentRune [32; 955; 9]).
  { repeat constructor; try reflexivity; try discriminate;
      unfold token.US, token.LF, token.CR, token.TAB; lia. }
  assert (H2 : 10 = token.LF \/ 10 = token.CR) by (left; reflexivity).
  assert (H3 : token.RunePunctuators (byte_of_ascii "}"%char) = Some token.BraceR) by reflexivity.
  split; [exact H1 | split; [exact H2 | split; [exact H3 |
    exact (lex_skips_comment [32; 955; 9] 10 "}"%char EmptyString token.BraceR H1 H2 H3)]]].
Defined.

(** X21: a quoted string of plain runes and single-character escapes (a
    backslash followed by a double quote, slash, backslash, b, f, n, r or t) lexes, with both
    lexers, to a [String] token from 0 to the rune offset of the closing
    quote, whose [Value] holds each plain rune and the character each
    escape denotes. *)
Theorem lex_string_escapes (its : list (Z + Z)) (rest : string) :
  Forall itemOK its ->
  let src := String.append (string_of_bytes (34 :: flat_map itemSrc its ++ [34])) rest in
  let n := Z.of_nat (list_sum (map itemRunes its)) in
  let v := string_of_bytes (flat_map itemVal its) in
  run.lexString src = Some (token.mkToken token.String 0 (n + 1) v, None) /\
  run.lexReader src = Some (token.mkToken token.String 0 (n + 1) v, None).
Proof. exact (lex_string_items_s its rest). Qed.

Lemma lex_string_escapes_witness :
  Forall itemOK [inl 97; inr 110; inr 34; inl 233] /\
  (let src := String.append (string_of_bytes (34 :: flat_map itemSrc [inl 97; inr 110; inr 34; inl 233] ++ [34]))
                            ","%string in
   let v := string_of_bytes (97 :: 10 :: 34 :: utf8.EncodeRune 233) in
   run.lexString src = Some (token.mkToken token.String 0 7 v, None) /\
   run.lexReader src = Some (token.mkToken token.String 0 7 v, None)).
Proof.
  assert (H : Forall itemOK [inl 97; inr 110; inr 34; inl 233])
    by (repeat constructor; try discriminate; lia).
  split; [exact H | exact (lex_string_escapes [inl 97; inr 110; inr 34; inl 233] ","%string H)].
Defined.

End Extra3.

Module Extra4.
Import Extra Extra2 Extra3.

Lemma fromHexChar_ascii c x : hex.fromHexChar c = Some x -> 48 <= c <= 102.
Proof.
  unfold hex.fromHexChar.
  destruct (Z.leb_spec 48 c), (Z.leb_spec c 57); cbn [andb]; try (intros; lia);
  destruct (Z.leb_spec 97 c), (Z.leb_spec c 102); cbn [andb]; try (intros; lia);
  destruct (Z.leb_spec 65 c), (Z.leb_spec c 70); cbn [andb]; try (intros; lia); discriminate.
Qed.

Lemma hex4_decode (a b c d x1 x2 x3 x4 : Z) :
  hex.fromHexChar a = Some x1 -> hex.fromHexChar b = Some x2 ->
  hex.fromHexChar c = Some x3 -> hex.fromHexChar d = Some x4 ->
  hex.DecodeString (flat_map utf8.EncodeRune [a; b; c; d]) = ([16 * x1 + x2; 16 * x3 + x4], None) /\
  hex.BigEndian_Uint16 [16 * x1 + x2; 16 * x3 + x4] = 4096 * x1 + 256 * x2 + 16 * x3 + x4.
Proof.
  intros E1 E2 E3 E4.
  pose proof (fromHexChar_range _ _ E1). pose proof (fromHexChar_range _ _ E2).
  pose proof (fromHexChar_range _ _ E3). pose proof (fromHexChar_range _ _ E4).
  pose proof (fromHexChar_ascii _ _ E1). pose proof (fromHexChar_ascii _ _ E2).
  pose proof (fromHexChar_ascii _ _ E3). pose proof (fromHexChar_ascii _ _ E4).
  cbn [flat_map]. rewrite !Utf8Facts.EncodeRune_1 by lia. cbn [app].
  unfold hex.DecodeString. cbn [hex.Decode]. rewrite E1, E2, E3, E4.
  rewrite !(Utf8Facts.shiftl_lor _ _ 4) by (cbn; lia). cbn [Z.pow Z.pow_pos Pos.iter].
  split; [f_equal; f_equal; f_equal; [lia|f_equal; lia]|].
  unfold hex.BigEndian_Uint16. cbn [nth].
  rewrite Z.lor_comm, (Utf8Facts.shiftl_lor _ _ 8) by (try change (2 ^ 8) with 256; lia).
  change (2 ^ 8) with 256. lia.
Qed.

(** A [\u] escape with four hex digits in [readString]'s loop. *)
Lemma RSL_unicode {S} `{scanner.Scanner S} (f : nat) value (l l1 l2 l3 l4 l5 l6 : @lexer.lexer S) t
    a b c d x1 x2 x3 x4 :
  lexer.advance_l l = (l1, true) -> lexer.eof l1 = false -> scanner.Rune (lexer.scanner l1) = 92 ->
  lexer.advance_l l1 = (l2, true) -> scanner.Rune (lexer.scanner l2) = 117 ->
  lexer.advance_l l2 = (l3, true) -> lexer.eof l3 = false -> scanner.Rune (lexer.scanner l3) = a ->
  lexer.advance_l l3 = (l4, true) -> lexer.eof l4 = false -> scanner.Rune (lexer.scanner l4) = b ->
  lexer.advance_l l4 = (l5, true) -> lexer.eof l5 = false -> scanner.Rune (lexer.scanner l5) = c ->
  lexer.advance_l l5 = (l6, true) -> lexer.eof l6 = false -> scanner.Rune (lexer.scanner l6) = d ->
  hex.fromHexChar a = Some x1 -> hex.fromHexChar b = Some x2 ->
  hex.fromHexChar c = Some x3 -> hex.fromHexChar d = Some x4 ->
  lexer.readString_loop (Datatypes.S f) value l t
  = lexer.readString_loop f (value ++ utf8.EncodeRune (4096 * x1 + 256 * x2 + 16 * x3 + x4)) l6 t.
Proof.
  intros Ha He Hr Ha2 Hr2 Ha3 He3 Hr3 Ha4 He4 Hr4 Ha5 He5 Hr5 Ha6 He6 Hr6 E1 E2 E3 E4.
  destruct (hex4_decode a b c d x1 x2 x3 x4 E1 E2 E3 E4) as [HD HU].
  pose proof (fromHexChar_range _ _ E1). pose proof (fromHexChar_range _ _ E2).
  pose proof (fromHexChar_range _ _ E3). pose proof (fromHexChar_range _ _ E4).
  cbn [lexer.readString_loop]. unfold lexer.bind at 1, lexer.advance. rewrite Ha.
  unfold lexer.bind, lexer.rune, lexer.get_l. cbn [negb]. rewrite He, Hr.
  cbn [Z.eqb orb andb negb token.LF token.CR token.SPACE token.TAB Pos.eqb Z.ltb Z.compare Pos.compare
       Pos.compare_cont].
  unfold lexer.adv, lexer.bind, lexer.advance. rewrite Ha2.
  cbv beta iota zeta delta [lexer.ret lexer.rune]. rewrite Hr2.
  cbv beta iota zeta delta [lexer.escape Z.eqb Pos.eqb].
  cbn [lexer.readURunes]. unfold lexer.adv, lexer.bind, lexer.advance, lexer.get_l, lexer.rune, lexer.ret.
  rewrite Ha3, He3, Hr3, Ha4, He4, Hr4, Ha5, He5, Hr5, Ha6, He6, Hr6.
  rewrite HD, HU. destruct (Z.ltb_spec (4096 * x1 + 256 * x2 + 16 * x3 + x4) 0); [lia|].
  reflexivity.
Qed.

Local Abbreviation okRune := (fun c => utf8.ValidRune c = true /\ c <> utf8.RuneError).
Local Abbreviation strChar := (fun c => okRune c /\ (32 <= c \/ c = 9) /\ c <> 34 /\ c <> 92).
Local Abbreviation hexv := (fun x => match hex.fromHexChar x with Some v => v | None => 0 end).

(* The items of a string literal: [inl (inl c)] a plain rune, [inl (inr e)]
   the escape [\e], [inr (a, b, c, d)] the escape [\u] with four hex digits; their source
   bytes, the bytes they add to the value, and the runes they span. *)
Local Abbreviation uitemOK := (fun (it : (Z + Z) + (Z * Z * Z * Z)) =>
  match it with
  | inl (inl c) => strChar c
  | inl (inr e) => lexer.escape e <> None
  | inr (a, b, c, d) => Forall (fun x => hex.fromHexChar x <> None) [a; b; c; d]
  end).
Local Abbreviation uitemSrc := (fun (it : (Z + Z) + (Z * Z * Z * Z)) =>
  match it with
  | inl (inl c) => utf8.EncodeRune c
  | inl (inr e) => [92; e]
  | inr (a, b, c, d) => [92; 117; a; b; c; d]
  end).
Local Abbreviation uitemVal := (fun (it : (Z + Z) + (Z * Z * Z * Z)) =>
  match it with
  | inl (inl c) => utf8.EncodeRune c
  | inl (inr e) => match lexer.escape e with Some v => utf8.EncodeRune v | None => [] end
  | inr (a, b, c, d) => utf8.EncodeRune (4096 * hexv a + 256 * hexv b + 16 * hexv c + hexv d)
  end).
Local Abbreviation uitemRunes := (fun (it : (Z + Z) + (Z * Z * Z * Z)) =>
  match it with inl (inl _) => 1%nat | inl (inr _) => 2%nat | inr _ => 6%nat end).

Lemma hexDigit_some x : hex.fromHexChar x <> None ->
  hex.fromHexChar x = Some (hexv x) /\ 0 <= x < 128.
Proof.
  intro H. destruct (hex.fromHexChar x) as [v|] eqn:E; [|contradiction].
  pose proof (fromHexChar_ascii _ _ E). rewrite E. split; [reflexivity | lia].
Qed.

Lemma skipn_next (p : Z) (l : list Z) x r :
  0 <= p -> skipn (Z.to_nat p) l = x :: r -> skipn (Z.to_nat (p + 1)) l = r.
Proof.
  intros Hp E. rewrite RuneFacts.skipn_skipn_Z by lia. rewrite E. reflexivity.
Qed.

(** [readString]'s loop on a string scanner: the items [its], then the
    closing quote. *)
Lemma string_RSLu (restB : list Z) (its : list ((Z + Z) + (Z * Z * Z * Z))) :
  forall (src : string) li lw ti c0 i value t (fuel : nat),
  Forall uitemOK its -> 0 <= li -> 0 <= lw ->
  skipn (Z.to_nat (li + lw)) (bytes_of src) = flat_map uitemSrc its ++ 34 :: restB ->
  (length its < fuel)%nat ->
  exists l', lexer.readString_loop fuel value
    (lexer.mkLexer {| scanner.source := src; scanner.last := c0; scanner.lastIndex := li;
                      scanner.lastWidth := lw; scanner.tailIndex := ti |} None i false) t
    = Some (l', token.set_Value (token.set_End t (i + Z.of_nat (list_sum (map uitemRunes its)) + 1))
                  (string_of_bytes (value ++ flat_map uitemVal its)), inr None).
Proof.
  induction its as [|it its IH]; intros src li lw ti c0 i value t fuel Hits Hli Hlw Hb Hf;
    (destruct fuel as [|f]; [cbn in Hf; lia|]).
  - cbn [flat_map app] in Hb.
    assert (HA := string_advance_ascii src li lw ti c0 None i 34 restB ltac:(lia) Hli Hlw Hb).
    rewrite RSL_quote; rewrite ?HA; [| reflexivity | reflexivity | reflexivity
                                     | exact (proj1 (string_advance_ok _))].
    eexists. cbn [fst lexer.lastIndex flat_map map]. change (list_sum []) with 0%nat.
    rewrite app_nil_r. replace (i + Z.of_nat 0 + 1) with (i + 1) by lia. reflexivity.
  - inversion Hits as [|? ? Hit Hits']; subst.
    cbn [flat_map] in Hb. rewrite <- app_assoc in Hb.
    cbn [flat_map map]. change (list_sum (?x :: ?l)) with (x + list_sum l)%nat.
    destruct it as [[c|e]|[[[a b] c] d]].
    + assert (HA := string_advance_rune src li lw ti c0 None i c _ (proj1 Hit) Hli Hlw Hb).
      rewrite RSL_char with (c := c); rewrite ?HA; try reflexivity; [|exact Hit].
      cbn [fst].
      destruct (IH src (li + lw) (Z.of_nat (length (utf8.EncodeRune c))) ti c (i + 1)
                  (value ++ utf8.EncodeRune c) t f Hits' ltac:(lia) ltac:(lia)
                  ltac:(rewrite RuneFacts.skipn_skipn_Z by lia; rewrite Hb, Nat2Z.id, skipn_app,
                          skipn_all, Nat.sub_diag; reflexivity)
                  ltac:(cbn [length] in Hf; lia)) as (l' & E).
      exists l'. rewrite E. rewrite app_assoc.
      replace (i + 1 + Z.of_nat (list_sum (map uitemRunes its)) + 1)
        with (i + Z.of_nat (1 + list_sum (map uitemRunes its)) + 1) by lia.
      reflexivity.
    + destruct (lexer.escape e) as [v|] eqn:Hv; [|exfalso; exact (Hit eq_refl)].
      assert (He := escape_class e v Hv).
      cbn [app] in Hb.
      assert (HA1 := string_advance_ascii src li lw ti c0 None i 92 _ ltac:(lia) Hli Hlw Hb).
      assert (HA2 := string_advance_ascii src (li + lw) 1 ti 92 None (i + 1) e
                       (flat_map uitemSrc its ++ 34 :: restB) He ltac:(lia) ltac:(lia)
                       ltac:(rewrite RuneFacts.skipn_skipn_Z by lia; rewrite Hb; reflexivity)).
      rewrite (RSL_escape f value _ _ _ t e v HA1 eq_refl eq_refl HA2 eq_refl Hv).
      destruct f as [|f]; [cbn in Hf; lia|].
      destruct (IH src (li + lw + 1) 1 ti e (i + 1 + 1)
                  (value ++ utf8.EncodeRune v) t (Datatypes.S f) Hits' ltac:(lia) ltac:(lia)
                  ltac:(rewrite RuneFacts.skipn_skipn_Z by lia; rewrite RuneFacts.skipn_skipn_Z by lia;
                        rewrite Hb; reflexivity)
                  ltac:(cbn [length] in Hf; lia)) as (l' & E).
      exists l'. rewrite E. rewrite app_assoc.
      replace (i + 1 + 1 + Z.of_nat (list_sum (map uitemRunes its)) + 1)
        with (i + Z.of_nat (2 + list_sum (map uitemRunes its)) + 1) by lia.
      reflexivity.
    + inversion Hit as [|? ? Ha Hit1]. inversion Hit1 as [|? ? Hb' Hit2].
      inversion Hit2 as [|? ? Hc Hit3]. inversion Hit3 as [|? ? Hd _].
      destruct (hexDigit_some a Ha) as [Ea Ra]. destruct (hexDigit_some b Hb') as [Eb Rb].
      destruct (hexDigit_some c Hc) as [Ec Rc]. destruct (hexDigit_some d Hd) as [Ed Rd].
      cbn [app] in Hb.
      set (q := flat_map uitemSrc its ++ 34 :: restB) in *.
      assert (B1 := skipn_next (li + lw) _ _ _ ltac:(lia) Hb).
      assert (B2 := skipn_next (li + lw + 1) _ _ _ ltac:(lia) B1).
      assert (B3 := skipn_next (li + lw + 1 + 1) _ _ _ ltac:(lia) B2).
      assert (B4 := skipn_next (li + lw + 1 + 1 + 1) _ _ _ ltac:(lia) B3).
      assert (B5 := skipn_next (li + lw + 1 + 1 + 1 + 1) _ _ _ ltac:(lia) B4).
      assert (HA1 := string_advance_ascii src li lw ti c0 None i 92 _ ltac:(lia) Hli Hlw Hb).
      assert (HA2 := string_advance_ascii src (li + lw) 1 ti 92 None (i + 1) 117 _
                       ltac:(lia) ltac:(lia) ltac:(lia) B1).
      assert (HA3 := string_advance_ascii src (li + lw + 1) 1 ti 117 None (i + 1 + 1) a _
                       Ra ltac:(lia) ltac:(lia) B2).
      assert (HA4 := string_advance_ascii src (li + lw + 1 + 1) 1 ti a None (i + 1 + 1 + 1) b _
                       Rb ltac:(lia) ltac:(lia) B3).
      assert (HA5 := string_advance_ascii src (li + lw + 1 + 1 + 1) 1 ti b None (i + 1 + 1 + 1 + 1) c _
                       Rc ltac:(lia) ltac:(lia) B4).
      assert (HA6 := string_advance_ascii src (li + lw + 1 + 1 + 1 + 1) 1 ti c None
                       (i + 1 + 1 + 1 + 1 + 1) d _ Rd ltac:(lia) ltac:(lia) B5).
      rewrite (RSL_unicode f value _ _ _ _ _ _ _ t a b c d _ _ _ _ HA1 eq_refl eq_refl HA2 eq_refl
                 HA3 eq_refl eq_refl HA4 eq_refl eq_refl HA5 eq_refl eq_refl HA6 eq_refl eq_refl
                 Ea Eb Ec Ed).
      destruct (IH src (li + lw + 1 + 1 + 1 + 1 + 1) 1 ti d (i + 1 + 1 + 1 + 1 + 1 + 1)
                  (value ++ utf8.EncodeRune (4096 * hexv a + 256 * hexv b + 16 * hexv c + hexv d))
                  t f Hits' ltac:(lia) ltac:(lia) ltac:(exact (skipn_next (li + lw + 1 + 1 + 1 + 1 + 1) _ _ _ ltac:(lia) B5))
                  ltac:(cbn [length] in Hf; lia)) as (l' & E).
      exists l'. rewrite E. rewrite app_assoc.
      replace (i + 1 + 1 + 1 + 1 + 1 + 1 + Z.of_nat (list_sum (map uitemRunes its)) + 1)
        with (i + Z.of_nat (6 + list_sum (map uitemRunes its)) + 1) by lia.
      reflexivity.
Qed.

(** The same on a buffered scanner. *)
Lemma buffered_RSLu (restB : list Z) (its : list ((Z + Z) + (Z * Z * Z * Z))) :
  forall bl tg T i value t (fuel : nat),
  Forall uitemOK its -> (length its < fuel)%nat ->
  exists l', lexer.readString_loop fuel value
    (lexer.mkLexer {| scanner.bsource := {| bufio.unread := flat_map uitemSrc its ++ 34 :: restB |};
                      scanner.blast := bl; scanner.tailing := tg; scanner.tail := T |} None i false) t
    = Some (l', token.set_Value (token.set_End t (i + Z.of_nat (list_sum (map uitemRunes its)) + 1))
                  (string_of_bytes (value ++ flat_map uitemVal its)), inr None).
Proof.
  induction its as [|it its IH]; intros bl tg T i value t fuel Hits Hf;
    (destruct fuel as [|f]; [cbn in Hf; lia|]).
  - cbn [flat_map app].
    assert (HA := buffered_advance_ascii 34 restB bl tg T None i ltac:(lia)).
    rewrite RSL_quote; rewrite ?HA; [| reflexivity | reflexivity | reflexivity
                                     | exact (proj1 (buffered_advance_ok _))].
    eexists. cbn [fst lexer.lastIndex flat_map map]. change (list_sum []) with 0%nat.
    rewrite app_nil_r. replace (i + Z.of_nat 0 + 1) with (i + 1) by lia. reflexivity.
  - inversion Hits as [|? ? Hit Hits']; subst.
    cbn [flat_map]. rewrite <- app_assoc.
    cbn [map]. change (list_sum (?x :: ?l)) with (x + list_sum l)%nat.
    destruct it as [[c|e]|[[[a b] c] d]].
    + assert (HA := buffered_advance_rune (flat_map uitemSrc its ++ 34 :: restB) bl tg T None i c
                      (proj1 Hit)).
      rewrite RSL_char with (c := c); rewrite ?HA; try reflexivity; [|exact Hit].
      cbn [fst].
      destruct (IH c tg (if tg then T ++ utf8.EncodeRune c else T) (i + 1)
                  (value ++ utf8.EncodeRune c) t f Hits' ltac:(cbn [length] in Hf; lia)) as (l' & E).
      exists l'. rewrite E. rewrite app_assoc.
      replace (i + 1 + Z.of_nat (list_sum (map uitemRunes its)) + 1)
        with (i + Z.of_nat (1 + list_sum (map uitemRunes its)) + 1) by lia.
      reflexivity.
    + destruct (lexer.escape e) as [v|] eqn:Hv; [|exfalso; exact (Hit eq_refl)].
      assert (He := escape_class e v Hv).
      cbn [app].
      assert (HA1 := buffered_advance_ascii 92 (e :: flat_map uitemSrc its ++ 34 :: restB) bl tg T None i
                       ltac:(lia)).
      assert (HA2 := buffered_advance_ascii e (flat_map uitemSrc its ++ 34 :: restB) 92 tg
                       (if tg then T ++ [92] else T) None (i + 1) He).
      rewrite (RSL_escape f value _ _ _ t e v HA1 eq_refl eq_refl HA2 eq_refl Hv).
      destruct f as [|f]; [cbn in Hf; lia|].
      destruct (IH e tg (if tg then (if tg then T ++ [92] else T) ++ [e] else (if tg then T ++ [92] else T))
                  (i + 1 + 1) (value ++ utf8.EncodeRune v) t (Datatypes.S f) Hits'
                  ltac:(cbn [length] in Hf; lia)) as (l' & E).
      exists l'. rewrite E. rewrite app_assoc.
      replace (i + 1 + 1 + Z.of_nat (list_sum (map uitemRunes its)) + 1)
        with (i + Z.of_nat (2 + list_sum (map uitemRunes its)) + 1) by lia.
      reflexivity.
    + inversion Hit as [|? ? Ha Hit1]. inversion Hit1 as [|? ? Hb' Hit2].
      inversion Hit2 as [|? ? Hc Hit3]. inversion Hit3 as [|? ? Hd _].
      destruct (hexDigit_some a Ha) as [Ea Ra]. destruct (hexDigit_some b Hb') as [Eb Rb].
      destruct (hexDigit_some c Hc) as [Ec Rc]. destruct (hexDigit_some d Hd) as [Ed Rd].
      cbn [app].
      set (q := flat_map uitemSrc its ++ 34 :: restB).
      set (T1 := if tg then T ++ [92] else T).
      set (T2 := if tg then T1 ++ [117] else T1).
      set (T3 := if tg then T2 ++ [a] else T2).
      set (T4 := if tg then T3 ++ [b] else T3).
      set (T5 := if tg then T4 ++ [c] else T4).
      set (T6 := if tg then T5 ++ [d] else T5).
      assert (HA1 := buffered_advance_ascii 92 (117 :: a :: b :: c :: d :: q) bl tg T None i ltac:(lia)).
      assert (HA2 := buffered_advance_ascii 117 (a :: b :: c :: d :: q) 92 tg T1 None (i + 1) ltac:(lia)).
      assert (HA3 := buffered_advance_ascii a (b :: c :: d :: q) 117 tg T2 None (i + 1 + 1) Ra).
      assert (HA4 := buffered_advance_ascii b (c :: d :: q) a tg T3 None (i + 1 + 1 + 1) Rb).
      assert (HA5 := buffered_advance_ascii c (d :: q) b tg T4 None (i + 1 + 1 + 1 + 1) Rc).
      assert (HA6 := buffered_advance_ascii d q c tg T5 None (i + 1 + 1 + 1 + 1 + 1) Rd).
      rewrite (RSL_unicode f value _ _ _ _ _ _ _ t a b c d _ _ _ _ HA1 eq_refl eq_refl HA2 eq_refl
                 HA3 eq_refl eq_refl HA4 eq_refl eq_refl HA5 eq_refl eq_refl HA6 eq_refl eq_refl
                 Ea Eb Ec Ed).
      destruct (IH d tg T6 (i + 1 + 1 + 1 + 1 + 1 + 1)
                  (value ++ utf8.EncodeRune (4096 * hexv a + 256 * hexv b + 16 * hexv c + hexv d))
                  t f Hits' ltac:(cbn [length] in Hf; lia)) as (l' & E).
      unfold T6, T5, T4, T3, T2, T1, q in *.
      exists l'. rewrite E. rewrite app_assoc.
      replace (i + 1 + 1 + 1 + 1 + 1 + 1 + Z.of_nat (list_sum (map uitemRunes its)) + 1)
        with (i + Z.of_nat (6 + list_sum (map uitemRunes its)) + 1) by lia.
      reflexivity.
Qed.

Lemma uitemSrc_bytes (its : list ((Z + Z) + (Z * Z * Z * Z))) :
  Forall uitemOK its ->
  Forall (fun b => 0 <= b < 256) (flat_map uitemSrc its) /\ (length its <= length (flat_map uitemSrc its))%nat.
Proof.
  induction 1 as [|it its Hit _ [IH1 IH2]]; [split; [constructor | cbn; lia]|].
  cbn [flat_map]. rewrite length_app. destruct it as [[c|e]|[[[a b] c] d]].
  - pose proof (EncodeRune_length_pos c (proj1 Hit)).
    assert (HB := flat_map_EncodeRune_bytes [c] (Forall_cons _ (proj1 Hit) (Forall_nil _))).
    cbn [flat_map] in HB. rewrite app_nil_r in HB.
    split; [apply Forall_app; split; assumption | cbn [length]; lia].
  - destruct (lexer.escape e) as [v|] eqn:Hv; [|exfalso; exact (Hit eq_refl)].
    pose proof (escape_class e v Hv).
    split; [apply Forall_app; split; [repeat constructor; lia | exact IH1] | cbn [length]; lia].
  - inversion Hit as [|? ? Ha Hit1]. inversion Hit1 as [|? ? Hb' Hit2].
    inversion Hit2 as [|? ? Hc Hit3]. inversion Hit3 as [|? ? Hd _].
    destruct (hexDigit_some a Ha) as [_ Ra]. destruct (hexDigit_some b Hb') as [_ Rb].
    destruct (hexDigit_some c Hc) as [_ Rc]. destruct (hexDigit_some d Hd) as [_ Rd].
    split; [apply Forall_app; split; [repeat constructor; lia | exact IH1] | cbn [length]; lia].
Qed.

Lemma lex_string_uitems (its : list ((Z + Z) + (Z * Z * Z * Z))) (rest : string) :
  Forall uitemOK its ->
  let src := String.append (string_of_bytes (34 :: flat_map uitemSrc its ++ [34])) rest in
  let n := Z.of_nat (list_sum (map uitemRunes its)) in
  let v := string_of_bytes (flat_map uitemVal its) in
  run.lexString src = Some (token.mkToken token.String 0 (n + 1) v, None) /\
  run.lexReader src = Some (token.mkToken token.String 0 (n + 1) v, None).
Proof.
  intros Hits src n v.
  destruct (uitemSrc_bytes its Hits) as [HB Hl].
  assert (Hsrc : bytes_of src = [34] ++ (flat_map uitemSrc its ++ 34 :: bytes_of rest)).
  { unfold src. rewrite bytes_of_append, bytes_of_string_of_bytes.
    - cbn [app]. rewrite <- app_assoc. reflexivity.
    - constructor; [lia|]. apply Forall_app. split; [exact HB | repeat constructor; lia]. }
  assert (Hf : (length its < Datatypes.S (String.length src))%nat).
  { rewrite <- RuneFacts.bytes_of_length, Hsrc. cbn [app length]. rewrite length_app. lia. }
  assert (HE : token.set_Value (token.set_End (token.set_kind (token.set_Start token.zero (-1 + 1))
                 token.String) (-1 + 1 + n + 1)) (string_of_bytes ([] ++ flat_map uitemVal its))
               = token.mkToken token.String 0 (n + 1) v).
  { replace (-1 + 1 + n + 1) with (n + 1) by lia. reflexivity. }
  split.
  - unfold run.lexString, run.lexFirstWith, lexer.NewStringLexer, lexer.NewLexer,
      scanner.NewStringScanner.
    rewrite (string_advance_ascii src 0 0 0 0 None (-1) 34 _ ltac:(lia) ltac:(lia) ltac:(lia)
               ltac:(change (Z.to_nat (0 + 0)) with 0%nat; exact Hsrc)).
    rewrite Nat.add_1_r. unfold lexer.Lex.
    rewrite Lex_body_quote by reflexivity.
    unfold lexer.readString, lexer.bind at 1, lexer.upd_t.
    destruct (string_RSLu (bytes_of rest) its src (0 + 0) 1 0 34 (-1 + 1) []
                (token.set_kind (token.set_Start token.zero (-1 + 1)) token.String)
                (Datatypes.S (String.length src)) Hits ltac:(lia) ltac:(lia)
                ltac:(rewrite Hsrc; reflexivity) Hf) as (l' & E).
    cbn [lexer.lastIndex]. rewrite E. cbv beta iota. fold n. rewrite HE. reflexivity.
  - unfold run.lexReader, run.lexFirstWith, lexer.NewReaderLexer, lexer.NewLexer,
      scanner.NewBufferedScanner, bufio.NewReader.
    rewrite Hsrc. cbn [app]. rewrite (buffered_advance_ascii 34 _ 0 false [] None (-1) ltac:(lia)).
    rewrite Nat.add_1_r. unfold lexer.Lex.
    rewrite Lex_body_quote by reflexivity.
    unfold lexer.readString, lexer.bind at 1, lexer.upd_t.
    destruct (buffered_RSLu (bytes_of rest) its 34 false [] (-1 + 1) []
                (token.set_kind (token.set_Start token.zero (-1 + 1)) token.String)
                (Datatypes.S (String.length src)) Hits Hf) as (l' & E).
    cbn [lexer.lastIndex]. rewrite E. cbv beta iota. fold n. rewrite HE. reflexivity.
Qed.

(** X22: a quoted string of plain runes, single-character escapes and
    [\u] escapes with four hex digits lexes, with both lexers, to a
    [String] token from 0 to the rune offset of the closing quote; a [\u]
    escape adds to the [Value] the UTF-8 encoding of the 16-bit value its
    digits denote (U+FFFD for a surrogate half). *)
Theorem lex_string_unicode (its : list ((Z + Z) + (Z * Z * Z * Z))) (rest : string) :
  Forall uitemOK its ->
  let src := String.append (string_of_bytes (34 :: flat_map uitemSrc its ++ [34])) rest in
  let n := Z.of_nat (list_sum (map uitemRunes its)) in
  let v := string_of_bytes (flat_map uitemVal its) in
  run.lexString src = Some (token.mkToken token.String 0 (n + 1) v, None) /\
  run.lexReader src = Some (token.mkToken token.String 0 (n + 1) v, None).
Proof. exact (lex_string_uitems its rest). Qed.

Lemma lex_string_unicode_witness :
  Forall uitemOK [inr (48, 48, 69, 49); inl (inl 120); inr (100, 56, 51, 100)] /\
  (let src := String.append
       (string_of_bytes (34 :: flat_map uitemSrc [inr (48, 48, 69, 49); inl (inl 120); inr (100, 56, 51, 100)]
                          ++ [34])) EmptyString in
   let v := string_of_bytes [195; 161; 120; 239; 191; 189] in
   run.lexString src = Some (token.mkToken token.String 0 14 v, None) /\
   run.lexReader src = Some (token.mkToken token.String 0 14 v, None)).
Proof.
  assert (H : Forall uitemOK [inr (48, 48, 69, 49); inl (inl 120); inr (100, 56, 51, 100)])
    by (repeat constructor; try discriminate; lia).
  split; [exact H |
    exact (lex_string_unicode [inr (48, 48, 69, 49); inl (inl 120); inr (100, 56, 51, 100)] EmptyString H)].
Defined.

Ltac skip_len Hb :=
  let Hl := fresh "Hl" in
  assert (Hl := f_equal (@length Z) Hb); rewrite length_skipn, RuneFacts.bytes_of_length in Hl;
  cbn [length app] in Hl; try rewrite length_app in Hl.

(** [readString]'s loop over the items [its] on a string scanner, up to
    what follows them. *)
Lemma string_RSLp (restB : list Z) (its : list ((Z + Z) + (Z * Z * Z * Z))) :
  forall (src : string) li lw ti c0 i value t (fuel : nat),
  Forall uitemOK its -> 0 <= li < len src -> 0 <= lw ->
  skipn (Z.to_nat (li + lw)) (bytes_of src) = flat_map uitemSrc its ++ restB ->
  (length its <= fuel)%nat ->
  exists c1 li1 lw1, 0 <= li1 < len src /\ 0 <= lw1 /\
    skipn (Z.to_nat (li1 + lw1)) (bytes_of src) = restB /\
    lexer.readString_loop fuel value
      (lexer.mkLexer {| scanner.source := src; scanner.last := c0; scanner.lastIndex := li;
                        scanner.lastWidth := lw; scanner.tailIndex := ti |} None i false) t
    = lexer.readString_loop (fuel - length its) (value ++ flat_map uitemVal its)
      (lexer.mkLexer {| scanner.source := src; scanner.last := c1; scanner.lastIndex := li1;
                        scanner.lastWidth := lw1; scanner.tailIndex := ti |} None
                     (i + Z.of_nat (list_sum (map uitemRunes its))) false) t.
Proof.
  induction its as [|it its IH]; intros src li lw ti c0 i value t fuel Hits Hli Hlw Hb Hf.
  - exists c0, li, lw. cbn [flat_map app length map] in *. change (list_sum []) with 0%nat.
    rewrite Nat.sub_0_r, app_nil_r, Z.add_0_r. auto.
  - destruct fuel as [|f]; [cbn in Hf; lia|].
    inversion Hits as [|? ? Hit Hits']; subst.
    cbn [flat_map] in Hb. rewrite <- app_assoc in Hb.
    cbn [flat_map map length]. change (list_sum (?x :: ?l)) with (x + list_sum l)%nat.
    rewrite Nat.sub_succ. rewrite (app_assoc value).
    destruct it as [[c|e]|[[[a b] c] d]].
    + pose proof (EncodeRune_length_pos c (proj1 Hit)). skip_len Hb.
      assert (HA := string_advance_rune src li lw ti c0 None i c _ (proj1 Hit) (proj1 Hli) Hlw Hb).
      rewrite RSL_char with (c := c); rewrite ?HA; try reflexivity; [|exact Hit].
      cbn [fst].
      destruct (IH src (li + lw) (Z.of_nat (length (utf8.EncodeRune c))) ti c (i + 1)
                  (value ++ utf8.EncodeRune c) t f Hits' ltac:(unfold len; lia) ltac:(lia)
                  ltac:(rewrite RuneFacts.skipn_skipn_Z by lia; rewrite Hb, Nat2Z.id, skipn_app,
                          skipn_all, Nat.sub_diag; reflexivity)
                  ltac:(cbn [length] in Hf; lia)) as (c1 & li1 & lw1 & P1 & P2 & P3 & E).
      exists c1, li1, lw1. split; [exact P1 | split; [exact P2 | split; [exact P3|]]].
      rewrite E. do 2 f_equal. lia.
    + destruct (lexer.escape e) as [v|] eqn:Hv; [|exfalso; exact (Hit eq_refl)].
      assert (He := escape_class e v Hv).
      cbn [app] in Hb. skip_len Hb.
      assert (HA1 := string_advance_ascii src li lw ti c0 None i 92 _ ltac:(lia) (proj1 Hli) Hlw Hb).
      assert (B1 := skipn_next (li + lw) _ _ _ ltac:(lia) Hb).
      assert (HA2 := string_advance_ascii src (li + lw) 1 ti 92 None (i + 1) e
                       (flat_map uitemSrc its ++ restB) He ltac:(lia) ltac:(lia) B1).
      rewrite (RSL_escape f value _ _ _ t e v HA1 eq_refl eq_refl HA2 eq_refl Hv).
      destruct (IH src (li + lw + 1) 1 ti e (i + 1 + 1)
                  (value ++ utf8.EncodeRune v) t f Hits' ltac:(unfold len; lia) ltac:(lia)
                  ltac:(exact (skipn_next (li + lw + 1) _ _ _ ltac:(lia) B1))
                  ltac:(cbn [length] in Hf; lia)) as (c1 & li1 & lw1 & P1 & P2 & P3 & E).
      exists c1, li1, lw1. split; [exact P1 | split; [exact P2 | split; [exact P3|]]].
      rewrite E. do 2 f_equal. lia.
    + inversion Hit as [|? ? Ha Hit1]. inversion Hit1 as [|? ? Hb' Hit2].
      inversion Hit2 as [|? ? Hc Hit3]. inversion Hit3 as [|? ? Hd _].
      destruct (hexDigit_some a Ha) as [Ea Ra]. destruct (hexDigit_some b Hb') as [Eb Rb].
      destruct (hexDigit_some c Hc) as [Ec Rc]. destruct (hexDigit_some d Hd) as [Ed Rd].
      cbn [app] in Hb. skip_len Hb.
      assert (B1 := skipn_next (li + lw) _ _ _ ltac:(lia) Hb).
      assert (B2 := skipn_next (li + lw + 1) _ _ _ ltac:(lia) B1).
      assert (B3 := skipn_next (li + lw + 1 + 1) _ _ _ ltac:(lia) B2).
      assert (B4 := skipn_next (li + lw + 1 + 1 + 1) _ _ _ ltac:(lia) B3).
      assert (B5 := skipn_next (li + lw + 1 + 1 + 1 + 1) _ _ _ ltac:(lia) B4).
      assert (HA1 := string_advance_ascii src li lw ti c0 None i 92 _ ltac:(lia) (proj1 Hli) Hlw Hb).
      assert (HA2 := string_advance_ascii src (li + lw) 1 ti 92 None (i + 1) 117 _
                       ltac:(lia) ltac:(lia) ltac:(lia) B1).
      assert (HA3 := string_advance_ascii src (li + lw + 1) 1 ti 117 None (i + 1 + 1) a _
                       Ra ltac:(lia) ltac:(lia) B2).
      assert (HA4 := string_advance_ascii src (li + lw + 1 + 1) 1 ti a None (i + 1 + 1 + 1) b _
                       Rb ltac:(lia) ltac:(lia) B3).
      assert (HA5 := string_advance_ascii src (li + lw + 1 + 1 + 1) 1 ti b None (i + 1 + 1 + 1 + 1) c _
                       Rc ltac:(lia) ltac:(lia) B4).
      assert (HA6 := string_advance_ascii src (li + lw + 1 + 1 + 1 + 1) 1 ti c None
                       (i + 1 + 1 + 1 + 1 + 1) d _ Rd ltac:(lia) ltac:(lia) B5).
      rewrite (RSL_unicode f value _ _ _ _ _ _ _ t a b c d _ _ _ _ HA1 eq_refl eq_refl HA2 eq_refl
                 HA3 eq_refl eq_refl HA4 eq_refl eq_refl HA5 eq_refl eq_refl HA6 eq_refl eq_refl
                 Ea Eb Ec Ed).
      destruct (IH src (li + lw + 1 + 1 + 1 + 1 + 1) 1 ti d (i + 1 + 1 + 1 + 1 + 1 + 1)
                  (value ++ utf8.EncodeRune (4096 * hexv a + 256 * hexv b + 16 * hexv c + hexv d))
                  t f Hits' ltac:(unfold len; lia) ltac:(lia)
                  ltac:(exact (skipn_next (li + lw + 1 + 1 + 1 + 1 + 1) _ _ _ ltac:(lia) B5))
                  ltac:(cbn [length] in Hf; lia)) as (c1 & li1 & lw1 & P1 & P2 & P3 & E).
      exists c1, li1, lw1. split; [exact P1 | split; [exact P2 | split; [exact P3|]]].
      rewrite E. do 2 f_equal. lia.
Qed.

(** The same on a buffered scanner. *)
Lemma buffered_RSLp (restB : list Z) (its : list ((Z + Z) + (Z * Z * Z * Z))) :
  forall bl tg T i value t (fuel : nat),
  Forall uitemOK its -> (length its <= fuel)%nat ->
  exists bl1 T1, lexer.readString_loop fuel value
    (lexer.mkLexer {| scanner.bsource := {| bufio.unread := flat_map uitemSrc its ++ restB |};
                      scanner.blast := bl; scanner.tailing := tg; scanner.tail := T |} None i false) t
    = lexer.readString_loop (fuel - length its) (value ++ flat_map uitemVal its)
      (lexer.mkLexer {| scanner.bsource := {| bufio.unread := restB |};
                        scanner.blast := bl1; scanner.tailing := tg; scanner.tail := T1 |} None
                     (i + Z.of_nat (list_sum (map uitemRunes its))) false) t.
Proof.
  induction its as [|it its IH]; intros bl tg T i value t fuel Hits Hf.
  - exists bl, T. cbn [flat_map app length map] in *. change (list_sum []) with 0%nat.
    rewrite Nat.sub_0_r, app_nil_r, Z.add_0_r. reflexivity.
  - destruct fuel as [|f]; [cbn in Hf; lia|].
    inversion Hits as [|? ? Hit Hits']; subst.
    cbn [flat_map]. rewrite <- app_assoc.
    cbn [map length]. change (list_sum (?x :: ?l)) with (x + list_sum l)%nat.
    rewrite Nat.sub_succ. rewrite (app_assoc value).
    destruct it as [[c|e]|[[[a b] c] d]].
    + assert (HA := buffered_advance_rune (flat_map uitemSrc its ++ restB) bl tg T None i c
                      (proj1 Hit)).
      rewrite RSL_char with (c := c); rewrite ?HA; try reflexivity; [|exact Hit].
      cbn [fst].
      destruct (IH c tg (if tg then T ++ utf8.EncodeRune c else T) (i + 1)
                  (value ++ utf8.EncodeRune c) t f Hits' ltac:(cbn [length] in Hf; lia))
        as (bl1 & T1 & E).
      exists bl1, T1. rewrite E. do 2 f_equal. lia.
    + destruct (lexer.escape e) as [v|] eqn:Hv; [|exfalso; exact (Hit eq_refl)].
      assert (He := escape_class e v Hv).
      cbn [app].
      assert (HA1 := buffered_advance_ascii 92 (e :: flat_map uitemSrc its ++ restB) bl tg T None i
                       ltac:(lia)).
      assert (HA2 := buffered_advance_ascii e (flat_map uitemSrc its ++ restB) 92 tg
                       (if tg then T ++ [92] else T) None (i + 1) He).
      rewrite (RSL_escape f value _ _ _ t e v HA1 eq_refl eq_refl HA2 eq_refl Hv).
      destruct (IH e tg (if tg then (if tg then T ++ [92] else T) ++ [e] else (if tg then T ++ [92] else T))
                  (i + 1 + 1) (value ++ utf8.EncodeRune v) t f Hits'
                  ltac:(cbn [length] in Hf; lia)) as (bl1 & T1 & E).
      exists bl1, T1. rewrite E. do 2 f_equal. lia.
    + inversion Hit as [|? ? Ha Hit1]. inversion Hit1 as [|? ? Hb' Hit2].
      inversion Hit2 as [|? ? Hc Hit3]. inversion Hit3 as [|? ? Hd _].
      destruct (hexDigit_some a Ha) as [Ea Ra]. destruct (hexDigit_some b Hb') as [Eb Rb].
      destruct (hexDigit_some c Hc) as [Ec Rc]. destruct (hexDigit_some d Hd) as [Ed Rd].
      cbn [app].
      set (q := flat_map uitemSrc its ++ restB).
      set (T1 := if tg then T ++ [92] else T).
      set (T2 := if tg then T1 ++ [117] else T1).
      set (T3 := if tg then T2 ++ [a] else T2).
      set (T4 := if tg then T3 ++ [b] else T3).
      set (T5 := if tg then T4 ++ [c] else T4).
      set (T6 := if tg then T5 ++ [d] else T5).
      assert (HA1 := buffered_advance_ascii 92 (117 :: a :: b :: c :: d :: q) bl tg T None i ltac:(lia)).
      assert (HA2 := buffered_advance_ascii 117 (a :: b :: c :: d :: q) 92 tg T1 None (i + 1) ltac:(lia)).
      assert (HA3 := buffered_advance_ascii a (b :: c :: d :: q) 117 tg T2 None (i + 1 + 1) Ra).
      assert (HA4 := buffered_advance_ascii b (c :: d :: q) a tg T3 None (i + 1 + 1 + 1) Rb).
      assert (HA5 := buffered_advance_ascii c (d :: q) b tg T4 None (i + 1 + 1 + 1 + 1) Rc).
      assert (HA6 := buffered_advance_ascii d q c tg T5 None (i + 1 + 1 + 1 + 1 + 1) Rd).
      rewrite (RSL_unicode f value _ _ _ _ _ _ _ t a b c d _ _ _ _ HA1 eq_refl eq_refl HA2 eq_refl
                 HA3 eq_refl eq_refl HA4 eq_refl eq_refl HA5 eq_refl eq_refl HA6 eq_refl eq_refl
                 Ea Eb Ec Ed).
      destruct (IH d tg T6 (i + 1 + 1 + 1 + 1 + 1 + 1)
                  (value ++ utf8.EncodeRune (4096 * hexv a + 256 * hexv b + 16 * hexv c + hexv d))
                  t f Hits' ltac:(cbn [length] in Hf; lia)) as (bl1 & T1' & E).
      unfold T6, T5, T4, T3, T2, T1, q in *.
      exists bl1, T1'. rewrite E. do 2 f_equal. lia.
Qed.

(** The end of the source, a LF or a CR where [readString] expects a
    string character. *)
Lemma RSL_unterminated {S} `{scanner.Scanner S} (f : nat) value (l l1 : @lexer.lexer S) t :
  lexer.advance_l l = (l1, true) ->
  lexer.eof l1 = true \/ scanner.Rune (lexer.scanner l1) = token.LF \/
    scanner.Rune (lexer.scanner l1) = token.CR ->
  exists msg, lexer.readString_loop (Datatypes.S f) value l t
  = Some (l1, t, inr (Some (errors.SyntaxError (lexer.lastIndex l1) msg))).
Proof.
  intros Ha Hr.
  cbn [lexer.readString_loop]. unfold lexer.bind at 1, lexer.advance. rewrite Ha.
  unfold lexer.bind, lexer.rune, lexer.get_l. cbn [negb].
  replace (lexer.eof l1 || (scanner.Rune (lexer.scanner l1) =? token.LF)
           || (scanner.Rune (lexer.scanner l1) =? token.CR))%bool with true
    by (destruct Hr as [-> | [-> | ->]]; [reflexivity | rewrite Z.eqb_refl; destruct (lexer.eof l1); reflexivity..]).
  eexists. reflexivity.
Qed.

(** A control character other than TAB, LF and CR inside a string. *)
Lemma RSL_ctrl {S} `{scanner.Scanner S} (f : nat) value (l l1 : @lexer.lexer S) t c :
  lexer.advance_l l = (l1, true) -> lexer.eof l1 = false -> scanner.Rune (lexer.scanner l1) = c ->
  0 <= c < 32 -> c <> 9 -> c <> 10 -> c <> 13 ->
  exists msg, lexer.readString_loop (Datatypes.S f) value l t
  = Some (l1, t, inr (Some (errors.SyntaxError (lexer.lastIndex l1) msg))).
Proof.
  intros Ha He Hr Hc H9 H10 H13.
  cbn [lexer.readString_loop]. unfold lexer.bind at 1, lexer.advance. rewrite Ha.
  unfold lexer.bind, lexer.rune, lexer.get_l. cbn [negb]. rewrite He, Hr.
  unfold token.LF, token.CR, token.SPACE, token.TAB.
  destruct (Z.eqb_spec c 10); [lia|]. destruct (Z.eqb_spec c 13); [lia|].
  destruct (Z.eqb_spec c 34); [lia|]. destruct (Z.ltb_spec c 32); [|lia].
  destruct (Z.eqb_spec c 9); [lia|]. cbn [orb andb negb].
  eexists. reflexivity.
Qed.

(** A backslash followed by a rune that starts no escape. *)
Lemma RSL_badesc {S} `{scanner.Scanner S} (f : nat) value (l l1 l2 : @lexer.lexer S) t e :
  lexer.advance_l l = (l1, true) -> lexer.eof l1 = false -> scanner.Rune (lexer.scanner l1) = 92 ->
  lexer.advance_l l1 = (l2, true) -> scanner.Rune (lexer.scanner l2) = e ->
  lexer.escape e = None -> e <> 117 ->
  exists msg, lexer.readString_loop (Datatypes.S f) value l t
  = Some (l2, t, inr (Some (errors.SyntaxError (lexer.lastIndex l2) msg))).
Proof.
  intros Ha He Hr Ha2 Hr2 Hv Hu.
  cbn [lexer.readString_loop]. unfold lexer.bind at 1, lexer.advance. rewrite Ha.
  unfold lexer.bind, lexer.rune, lexer.get_l. cbn [negb]. rewrite He, Hr.
  cbn [Z.eqb orb andb negb token.LF token.CR token.SPACE token.TAB Pos.eqb Z.ltb Z.compare Pos.compare
       Pos.compare_cont].
  unfold lexer.adv, lexer.bind, lexer.advance. rewrite Ha2.
  cbv beta iota zeta delta [lexer.ret lexer.rune]. rewrite Hr2, Hv.
  destruct (Z.eqb_spec e 117); [contradiction|].
  eexists. reflexivity.
Qed.

Lemma Decode4_err (a b c d : Z) :
  ~ Forall (fun x => hex.fromHexChar x <> None) [a; b; c; d] ->
  exists er, snd (hex.Decode [a; b; c; d]) = Some er.
Proof.
  intro Hn. cbn [hex.Decode].
  destruct (hex.fromHexChar a) eqn:E1; [|eexists; reflexivity].
  destruct (hex.fromHexChar b) eqn:E2; [|eexists; reflexivity].
  destruct (hex.fromHexChar c) eqn:E3; [|eexists; reflexivity].
  destruct (hex.fromHexChar d) eqn:E4; [|eexists; reflexivity].
  exfalso. apply Hn. repeat constructor; congruence.
Qed.

(** A [\u] escape whose four runes are not all hex digits. *)
Lemma RSL_badhex {S} `{scanner.Scanner S} (f : nat) value (l l1 l2 l3 l4 l5 l6 : @lexer.lexer S) t
    a b c d :
  lexer.advance_l l = (l1, true) -> lexer.eof l1 = false -> scanner.Rune (lexer.scanner l1) = 92 ->
  lexer.advance_l l1 = (l2, true) -> scanner.Rune (lexer.scanner l2) = 117 ->
  lexer.advance_l l2 = (l3, true) -> lexer.eof l3 = false -> scanner.Rune (lexer.scanner l3) = a ->
  lexer.advance_l l3 = (l4, true) -> lexer.eof l4 = false -> scanner.Rune (lexer.scanner l4) = b ->
  lexer.advance_l l4 = (l5, true) -> lexer.eof l5 = false -> scanner.Rune (lexer.scanner l5) = c ->
  lexer.advance_l l5 = (l6, true) -> lexer.eof l6 = false -> scanner.Rune (lexer.scanner l6) = d ->
  Forall (fun x => 0 <= x < 128) [a; b; c; d] ->
  ~ Forall (fun x => hex.fromHexChar x <> None) [a; b; c; d] ->
  exists msg, lexer.readString_loop (Datatypes.S f) value l t
  = Some (l6, t, inr (Some (errors.SyntaxError (lexer.lastIndex l6) msg))).
Proof.
  intros Ha He Hr Ha2 Hr2 Ha3 He3 Hr3 Ha4 He4 Hr4 Ha5 He5 Hr5 Ha6 He6 Hr6 Hasc Hn.
  destruct (Decode4_err a b c d Hn) as [er Her].
  assert (HE : flat_map utf8.EncodeRune [a; b; c; d] = [a; b; c; d]).
  { inversion Hasc as [|? ? A1 Hasc1]. inversion Hasc1 as [|? ? A2 Hasc2].
    inversion Hasc2 as [|? ? A3 Hasc3]. inversion Hasc3 as [|? ? A4 _].
    cbn [flat_map]. rewrite !Utf8Facts.EncodeRune_1 by lia. reflexivity. }
  cbn [lexer.readString_loop]. unfold lexer.bind at 1, lexer.advance. rewrite Ha.
  unfold lexer.bind, lexer.rune, lexer.get_l. cbn [negb]. rewrite He, Hr.
  cbn [Z.eqb orb andb negb token.LF token.CR token.SPACE token.TAB Pos.eqb Z.ltb Z.compare Pos.compare
       Pos.compare_cont].
  unfold lexer.adv, lexer.bind, lexer.advance. rewrite Ha2.
  cbv beta iota zeta delta [lexer.ret lexer.rune]. rewrite Hr2.
  cbv beta iota zeta delta [lexer.escape Z.eqb Pos.eqb].
  cbn [lexer.readURunes]. unfold lexer.adv, lexer.bind, lexer.advance, lexer.get_l, lexer.rune, lexer.ret.
  rewrite Ha3, He3, Hr3, Ha4, He4, Hr4, Ha5, He5, Hr5, Ha6, He6, Hr6.
  unfold hex.DecodeString. rewrite HE. destruct (hex.Decode [a; b; c; d]) as [bs e'].
  cbn [snd] in Her. subst e'. eexists. reflexivity.
Qed.

Local Abbreviation lexOut := (fun (r : option (lexer.lexer * token.Token * (unit + option errors.error))) =>
  match r with
  | None => None
  | Some (_, t, inl _) => Some (t, None)
  | Some (_, t, inr e) => Some (t, e)
  end).

Lemma string_advance_eof (src : string) li lw ti c0 i :
  0 <= li < len src -> skipn (Z.to_nat (li + lw)) (bytes_of src) = [] ->
  exists l1, lexer.advance_l (lexer.mkLexer {| scanner.source := src; scanner.last := c0;
      scanner.lastIndex := li; scanner.lastWidth := lw; scanner.tailIndex := ti |} None i false)
  = (l1, true) /\ lexer.eof l1 = true /\ lexer.lastIndex l1 = i + 1.
Proof.
  intros Hli Hb. unfold lexer.advance_l.
  cbn [lexer.scanner scanner.Scan scanner.stringScanner_Scanner].
  unfold scanner.string_Scan. cbn [scanner.lastIndex scanner.lastWidth scanner.source].
  destruct (Z.geb_spec li (len src)); [lia|]. rewrite Hb.
  eexists. split; [reflexivity|]. split; reflexivity.
Qed.

Lemma buffered_advance_eof bl tg T i :
  exists l1, lexer.advance_l (lexer.mkLexer {| scanner.bsource := {| bufio.unread := [] |};
      scanner.blast := bl; scanner.tailing := tg; scanner.tail := T |} None i false)
  = (l1, true) /\ lexer.eof l1 = true /\ lexer.lastIndex l1 = i + 1.
Proof. eexists. split; [reflexivity|]. split; reflexivity. Qed.

(** Both lexers on a string literal [its] followed by the bytes [restB]:
    [readString]'s loop at the point after the items. *)
Lemma lex_string_prefix (its : list ((Z + Z) + (Z * Z * Z * Z))) (src : string) (restB : list Z) :
  Forall uitemOK its -> bytes_of src = 34 :: flat_map uitemSrc its ++ restB ->
  let n := Z.of_nat (list_sum (map uitemRunes its)) in
  let t0 := token.mkToken token.String 0 0 EmptyString in
  (exists c1 li1 lw1 k, 0 <= li1 < len src /\ 0 <= lw1 /\
     skipn (Z.to_nat (li1 + lw1)) (bytes_of src) = restB /\
     run.lexString src = lexOut (lexer.readString_loop (Datatypes.S k) (flat_map uitemVal its)
       (lexer.mkLexer {| scanner.source := src; scanner.last := c1; scanner.lastIndex := li1;
                         scanner.lastWidth := lw1; scanner.tailIndex := 0 |} None n false) t0)) /\
  (exists bl1 T1 k,
     run.lexReader src = lexOut (lexer.readString_loop (Datatypes.S k) (flat_map uitemVal its)
       (lexer.mkLexer {| scanner.bsource := {| bufio.unread := restB |}; scanner.blast := bl1;
                         scanner.tailing := false; scanner.tail := T1 |} None n false) t0)).
Proof.
  intros Hits Hsrc n t0.
  destruct (uitemSrc_bytes its Hits) as [HB Hl].
  assert (Hf : (length its <= String.length src)%nat).
  { rewrite <- RuneFacts.bytes_of_length, Hsrc. cbn [length]. rewrite length_app. lia. }
  assert (Hlen : 0 < len src).
  { unfold len. rewrite <- RuneFacts.bytes_of_length, Hsrc. cbn [length]. lia. }
  assert (Ht0 : token.set_kind (token.set_Start token.zero (-1 + 1)) token.String = t0) by reflexivity.
  assert (Hn : -1 + 1 + n = n) by lia.
  split.
  - unfold run.lexString, run.lexFirstWith, lexer.NewStringLexer, lexer.NewLexer,
      scanner.NewStringScanner.
    rewrite (string_advance_ascii src 0 0 0 0 None (-1) 34 _ ltac:(lia) ltac:(lia) ltac:(lia)
               ltac:(change (Z.to_nat (0 + 0)) with 0%nat; exact Hsrc)).
    rewrite Nat.add_1_r. unfold lexer.Lex.
    rewrite Lex_body_quote by reflexivity.
    unfold lexer.readString, lexer.bind at 1, lexer.upd_t.
    destruct (string_RSLp restB its src (0 + 0) 1 0 34 (-1 + 1) []
                (token.set_kind (token.set_Start token.zero (-1 + 1)) token.String)
                (Datatypes.S (String.length src)) Hits ltac:(lia) ltac:(lia)
                ltac:(rewrite Hsrc; reflexivity) ltac:(lia)) as (c1 & li1 & lw1 & P1 & P2 & P3 & E).
    exists c1, li1, lw1, (String.length src - length its)%nat.
    split; [exact P1 | split; [exact P2 | split; [exact P3|]]].
    cbn [lexer.lastIndex]. rewrite E, Ht0.
    replace (-1 + 1 + Z.of_nat (list_sum (map uitemRunes its))) with n by (unfold n; lia).
    replace (Datatypes.S (String.length src) - length its)%nat
      with (Datatypes.S (String.length src - length its)) by lia.
    rewrite app_nil_l.
    clear E. destruct (lexer.readString_loop _ _ _ _) as [[[? ?] [[]|?]]|]; reflexivity.
  - unfold run.lexReader, run.lexFirstWith, lexer.NewReaderLexer, lexer.NewLexer,
      scanner.NewBufferedScanner, bufio.NewReader.
    rewrite Hsrc. rewrite (buffered_advance_ascii 34 _ 0 false [] None (-1) ltac:(lia)).
    rewrite Nat.add_1_r. unfold lexer.Lex.
    rewrite Lex_body_quote by reflexivity.
    unfold lexer.readString, lexer.bind at 1, lexer.upd_t.
    destruct (buffered_RSLp restB its 34 false [] (-1 + 1) []
                (token.set_kind (token.set_Start token.zero (-1 + 1)) token.String)
                (Datatypes.S (String.length src)) Hits ltac:(lia)) as (bl1 & T1 & E).
    exists bl1, T1, (String.length src - length its)%nat.
    cbn [lexer.lastIndex]. rewrite E, Ht0.
    replace (-1 + 1 + Z.of_nat (list_sum (map uitemRunes its))) with n by (unfold n; lia).
    replace (Datatypes.S (String.length src) - length its)%nat
      with (Datatypes.S (String.length src - length its)) by lia.
    rewrite app_nil_l.
    clear E. destruct (lexer.readString_loop _ _ _ _) as [[[? ?] [[]|?]]|]; reflexivity.
Qed.

(* What ends a string literal in an error after its items: [inl (inl c)]
   a control character, [inl (inr e)] a backslash and an ASCII rune that
   starts no escape, [inr (a, b, c, d)] [\u] and four ASCII runes that are
   not all hex digits; their source bytes. *)
Local Abbreviation badOK := (fun (x : (Z + Z) + (Z * Z * Z * Z)) =>
  match x with
  | inl (inl c) => 0 <= c < 32 /\ c <> token.TAB /\ c <> token.LF /\ c <> token.CR
  | inl (inr e) => 0 <= e < 128 /\ lexer.escape e = None /\ e <> 117
  | inr (a, b, c, d) => Forall (fun y => 0 <= y < 128) [a; b; c; d] /\
                        ~ Forall (fun y => hex.fromHexChar y <> None) [a; b; c; d]
  end).
Local Abbreviation badSrc := (fun (x : (Z + Z) + (Z * Z * Z * Z)) =>
  match x with
  | inl (inl c) => [c]
  | inl (inr e) => [92; e]
  | inr (a, b, c, d) => [92; 117; a; b; c; d]
  end).

Lemma src_bytes (its : list ((Z + Z) + (Z * Z * Z * Z))) (tl : list Z) (rest : string) :
  Forall uitemOK its -> Forall (fun b => 0 <= b < 256) tl ->
  bytes_of (String.append (string_of_bytes (34 :: flat_map uitemSrc its ++ tl)) rest)
  = 34 :: flat_map uitemSrc its ++ (tl ++ bytes_of rest).
Proof.
  intros Hits Htl. destruct (uitemSrc_bytes its Hits) as [HB _].
  rewrite bytes_of_append, bytes_of_string_of_bytes.
  - cbn [app]. rewrite <- app_assoc. reflexivity.
  - constructor; [lia|]. apply Forall_app. split; assumption.
Qed.

Lemma lex_unterm (its : list ((Z + Z) + (Z * Z * Z * Z))) (src : string) (restB : list Z) :
  Forall uitemOK its -> bytes_of src = 34 :: flat_map uitemSrc its ++ restB ->
  (restB = [] \/ exists nl r, restB = nl :: r /\ (nl = token.LF \/ nl = token.CR)) ->
  let n := Z.of_nat (list_sum (map uitemRunes its)) in
  let t0 := token.mkToken token.String 0 0 EmptyString in
  (exists msg, run.lexString src = Some (t0, Some (errors.SyntaxError (n + 1) msg))) /\
  (exists msg, run.lexReader src = Some (t0, Some (errors.SyntaxError (n + 1) msg))).
Proof.
  intros Hits Hsrc Hend n t0.
  destruct (lex_string_prefix its src restB Hits Hsrc) as
    [(c1 & li1 & lw1 & k & P1 & P2 & P3 & Es) (bl1 & T1 & k' & Er)].
  change (Z.of_nat (list_sum (map uitemRunes its))) with n in Es, Er.
  change (token.mkToken token.String 0 0 EmptyString) with t0 in Es, Er.
  split.
  - rewrite Es. destruct Hend as [-> | (nl & r & -> & Hnl)].
    + destruct (string_advance_eof src li1 lw1 0 c1 n P1 P3) as (l1 & Ha & He & Hi).
      destruct (RSL_unterminated k (flat_map uitemVal its) _ _ t0 Ha (or_introl He)) as [msg E].
      exists msg. rewrite E, Hi. reflexivity.
    + assert (Hnl' : 0 <= nl < 128) by (unfold token.LF, token.CR in Hnl; lia).
      assert (Ha := string_advance_ascii src li1 lw1 0 c1 None n nl r Hnl' (proj1 P1) P2 P3).
      destruct (RSL_unterminated k (flat_map uitemVal its) _ _ t0 Ha
                  ltac:(right; exact Hnl)) as [msg E].
      exists msg. rewrite E. reflexivity.
  - rewrite Er. destruct Hend as [-> | (nl & r & -> & Hnl)].
    + destruct (buffered_advance_eof bl1 false T1 n) as (l1 & Ha & He & Hi).
      destruct (RSL_unterminated k' (flat_map uitemVal its) _ _ t0 Ha (or_introl He)) as [msg E].
      exists msg. rewrite E, Hi. reflexivity.
    + assert (Hnl' : 0 <= nl < 128) by (unfold token.LF, token.CR in Hnl; lia).
      assert (Ha := buffered_advance_ascii nl r bl1 false T1 None n Hnl').
      destruct (RSL_unterminated k' (flat_map uitemVal its) _ _ t0 Ha
                  ltac:(right; exact Hnl)) as [msg E].
      exists msg. rewrite E. reflexivity.
Qed.

Lemma lex_bad (its : list ((Z + Z) + (Z * Z * Z * Z))) (bad : (Z + Z) + (Z * Z * Z * Z)) (src : string)
    (restB : list Z) :
  Forall uitemOK its -> badOK bad -> bytes_of src = 34 :: flat_map uitemSrc its ++ (badSrc bad ++ restB) ->
  let n := Z.of_nat (list_sum (map uitemRunes its)) in
  let t0 := token.mkToken token.String 0 0 EmptyString in
  (exists msg, run.lexString src
     = Some (t0, Some (errors.SyntaxError (n + Z.of_nat (uitemRunes bad)) msg))) /\
  (exists msg, run.lexReader src
     = Some (t0, Some (errors.SyntaxError (n + Z.of_nat (uitemRunes bad)) msg))).
Proof.
  intros Hits Hbad Hsrc n t0.
  destruct (lex_string_prefix its src _ Hits Hsrc) as
    [(c1 & li1 & lw1 & k & P1 & P2 & P3 & Es) (bl1 & T1 & k' & Er)].
  change (Z.of_nat (list_sum (map uitemRunes its))) with n in Es, Er.
  change (token.mkToken token.String 0 0 EmptyString) with t0 in Es, Er.
  destruct bad as [[c|e]|[[[a b] c] d]]; cbn [app] in P3, Er |- *.
  - destruct Hbad as (Hc & H9 & H10 & H13).
    assert (Hc' : 0 <= c < 128) by lia. split.
    + rewrite Es.
      assert (Ha := string_advance_ascii src li1 lw1 0 c1 None n c _ Hc' (proj1 P1) P2 P3).
      destruct (RSL_ctrl k (flat_map uitemVal its) _ _ t0 c Ha eq_refl eq_refl Hc H9 H10 H13)
        as [msg E].
      exists msg. rewrite E. reflexivity.
    + rewrite Er.
      assert (Ha := buffered_advance_ascii c restB bl1 false T1 None n Hc').
      destruct (RSL_ctrl k' (flat_map uitemVal its) _ _ t0 c Ha eq_refl eq_refl Hc H9 H10 H13)
        as [msg E].
      exists msg. rewrite E. reflexivity.
  - destruct Hbad as (He & Hv & Hu). split.
    + rewrite Es.
      assert (HA1 := string_advance_ascii src li1 lw1 0 c1 None n 92 _ ltac:(lia) (proj1 P1) P2 P3).
      assert (B1 := skipn_next (li1 + lw1) _ _ _ ltac:(lia) P3).
      assert (HA2 := string_advance_ascii src (li1 + lw1) 1 0 92 None (n + 1) e _ He
                       ltac:(lia) ltac:(lia) B1).
      destruct (RSL_badesc k (flat_map uitemVal its) _ _ _ t0 e HA1 eq_refl eq_refl HA2 eq_refl Hv Hu)
        as [msg E].
      exists msg. rewrite E. cbn [lexer.lastIndex]. do 4 f_equal. lia.
    + rewrite Er.
      assert (HA1 := buffered_advance_ascii 92 (e :: restB) bl1 false T1 None n ltac:(lia)).
      assert (HA2 := buffered_advance_ascii e restB 92 false T1 None (n + 1) He).
      destruct (RSL_badesc k' (flat_map uitemVal its) _ _ _ t0 e HA1 eq_refl eq_refl HA2 eq_refl Hv Hu)
        as [msg E].
      exists msg. rewrite E. cbn [lexer.lastIndex]. do 4 f_equal. lia.
  - destruct Hbad as (Hasc & Hn).
    inversion Hasc as [|? ? Ra Hasc1]. inversion Hasc1 as [|? ? Rb Hasc2].
    inversion Hasc2 as [|? ? Rc Hasc3]. inversion Hasc3 as [|? ? Rd _].
    split.
    + rewrite Es.
      assert (B1 := skipn_next (li1 + lw1) _ _ _ ltac:(lia) P3).
      assert (B2 := skipn_next (li1 + lw1 + 1) _ _ _ ltac:(lia) B1).
      assert (B3 := skipn_next (li1 + lw1 + 1 + 1) _ _ _ ltac:(lia) B2).
      assert (B4 := skipn_next (li1 + lw1 + 1 + 1 + 1) _ _ _ ltac:(lia) B3).
      assert (B5 := skipn_next (li1 + lw1 + 1 + 1 + 1 + 1) _ _ _ ltac:(lia) B4).
      assert (HA1 := string_advance_ascii src li1 lw1 0 c1 None n 92 _ ltac:(lia) (proj1 P1) P2 P3).
      assert (HA2 := string_advance_ascii src (li1 + lw1) 1 0 92 None (n + 1) 117 _
                       ltac:(lia) ltac:(lia) ltac:(lia) B1).
      assert (HA3 := string_advance_ascii src (li1 + lw1 + 1) 1 0 117 None (n + 1 + 1) a _
                       Ra ltac:(lia) ltac:(lia) B2).
      assert (HA4 := string_advance_ascii src (li1 + lw1 + 1 + 1) 1 0 a None (n + 1 + 1 + 1) b _
                       Rb ltac:(lia) ltac:(lia) B3).
      assert (HA5 := string_advance_ascii src (li1 + lw1 + 1 + 1 + 1) 1 0 b None (n + 1 + 1 + 1 + 1) c _
                       Rc ltac:(lia) ltac:(lia) B4).
      assert (HA6 := string_advance_ascii src (li1 + lw1 + 1 + 1 + 1 + 1) 1 0 c None
                       (n + 1 + 1 + 1 + 1 + 1) d _ Rd ltac:(lia) ltac:(lia) B5).
      destruct (RSL_badhex k (flat_map uitemVal its) _ _ _ _ _ _ _ t0 a b c d HA1 eq_refl eq_refl HA2
                  eq_refl HA3 eq_refl eq_refl HA4 eq_refl eq_refl HA5 eq_refl eq_refl HA6 eq_refl eq_refl
                  Hasc Hn) as [msg E].
      exists msg. rewrite E. cbn [lexer.lastIndex]. do 4 f_equal. lia.
    + rewrite Er.
      assert (HA1 := buffered_advance_ascii 92 (117 :: a :: b :: c :: d :: restB) bl1 false T1 None n
                       ltac:(lia)).
      assert (HA2 := buffered_advance_ascii 117 (a :: b :: c :: d :: restB) 92 false T1 None (n + 1)
                       ltac:(lia)).
      assert (HA3 := buffered_advance_ascii a (b :: c :: d :: restB) 117 false T1 None (n + 1 + 1) Ra).
      assert (HA4 := buffered_advance_ascii b (c :: d :: restB) a false T1 None (n + 1 + 1 + 1) Rb).
      assert (HA5 := buffered_advance_ascii c (d :: restB) b false T1 None (n + 1 + 1 + 1 + 1) Rc).
      assert (HA6 := buffered_advance_ascii d restB c false T1 None (n + 1 + 1 + 1 + 1 + 1) Rd).
      destruct (RSL_badhex k' (flat_map uitemVal its) _ _ _ _ _ _ _ t0 a b c d HA1 eq_refl eq_refl HA2
                  eq_refl HA3 eq_refl eq_refl HA4 eq_refl eq_refl HA5 eq_refl eq_refl HA6 eq_refl eq_refl
                  Hasc Hn) as [msg E].
      exists msg. rewrite E. cbn [lexer.lastIndex]. do 4 f_equal. lia.
Qed.

(** X23: a string literal whose items (plain runes, single-character and
    [\u] escapes) are followed by the end of the source, a LF or a CR is
    unterminated: both lexers return a SyntaxError at the rune offset just
    past the items, where the closing quote was expected, with the token
    of kind [String] starting at 0. *)
Theorem lex_unterminated_string (its : list ((Z + Z) + (Z * Z * Z * Z))) (nl : Z) (rest : string) :
  Forall uitemOK its -> nl = token.LF \/ nl = token.CR ->
  let n := Z.of_nat (list_sum (map uitemRunes its)) in
  let t0 := token.mkToken token.String 0 0 EmptyString in
  let src1 := string_of_bytes (34 :: flat_map uitemSrc its) in
  let src2 := String.append (string_of_bytes (34 :: flat_map uitemSrc its ++ [nl])) rest in
  (exists msg, run.lexString src1 = Some (t0, Some (errors.SyntaxError (n + 1) msg))) /\
  (exists msg, run.lexReader src1 = Some (t0, Some (errors.SyntaxError (n + 1) msg))) /\
  (exists msg, run.lexString src2 = Some (t0, Some (errors.SyntaxError (n + 1) msg))) /\
  (exists msg, run.lexReader src2 = Some (t0, Some (errors.SyntaxError (n + 1) msg))).
Proof.
  intros Hits Hnl n t0 src1 src2.
  assert (Hnl' : 0 <= nl < 256) by (unfold token.LF, token.CR in Hnl; lia).
  assert (H1 : bytes_of src1 = 34 :: flat_map uitemSrc its ++ []).
  { unfold src1. rewrite app_nil_r. apply bytes_of_string_of_bytes.
    constructor; [lia | exact (proj1 (uitemSrc_bytes its Hits))]. }
  assert (H2 : bytes_of src2 = 34 :: flat_map uitemSrc its ++ (nl :: bytes_of rest))
    by exact (src_bytes its [nl] rest Hits (Forall_cons _ Hnl' (Forall_nil _))).
  destruct (lex_unterm its src1 [] Hits H1 (or_introl eq_refl)) as [E1 E2].
  destruct (lex_unterm its src2 _ Hits H2 (or_intror (ex_intro _ nl (ex_intro _ _ (conj eq_refl Hnl)))))
    as [E3 E4].
  split; [exact E1 | split; [exact E2 | split; [exact E3 | exact E4]]].
Qed.

Lemma lex_unterminated_string_witness :
  Forall uitemOK [inl (inl 97); inr (48, 48, 69, 49)] /\ (10 = token.LF \/ 10 = token.CR) /\
  (let t0 := token.mkToken token.String 0 0 EmptyString in
   let src1 := string_of_bytes (34 :: flat_map uitemSrc [inl (inl 97); inr (48, 48, 69, 49)]) in
   let src2 := String.append
     (string_of_bytes (34 :: flat_map uitemSrc [inl (inl 97); inr (48, 48, 69, 49)] ++ [10])) "x"%string in
   (exists msg, run.lexString src1 = Some (t0, Some (errors.SyntaxError 8 msg))) /\
   (exists msg, run.lexReader src1 = Some (t0, Some (errors.SyntaxError 8 msg))) /\
   (exists msg, run.lexString src2 = Some (t0, Some (errors.SyntaxError 8 msg))) /\
   (exists msg, run.lexReader src2 = Some (t0, Some (errors.SyntaxError 8 msg)))).
Proof.
  assert (H : Forall uitemOK [inl (inl 97); inr (48, 48, 69, 49)])
    by (repeat constructor; try discriminate; lia).
  assert (H2 : 10 = token.LF \/ 10 = token.CR) by (left; reflexivity).
  split; [exact H | split; [exact H2 |
    exact (lex_unterminated_string [inl (inl 97); inr (48, 48, 69, 49)] 10 "x"%string H H2)]].
Defined.

(** X24: a string literal whose items are followed by a control character
    other than TAB, LF and CR, by a backslash and an ASCII rune that starts
    no escape, or by [\u] and four ASCII runes that are not all hex digits
    gives, with both lexers, a SyntaxError at the rune offset of that
    character, of the rune after the backslash, or of the fourth rune
    after [\u], with the token of kind [String] starting at 0. *)
Theorem lex_string_invalid (its : list ((Z + Z) + (Z * Z * Z * Z))) (bad : (Z + Z) + (Z * Z * Z * Z))
    (rest : string) :
  Forall uitemOK its -> badOK bad ->
  let n := Z.of_nat (list_sum (map uitemRunes its)) in
  let t0 := token.mkToken token.String 0 0 EmptyString in
  let src := String.append (string_of_bytes (34 :: flat_map uitemSrc its ++ badSrc bad)) rest in
  (exists msg, run.lexString src
     = Some (t0, Some (errors.SyntaxError (n + Z.of_nat (uitemRunes bad)) msg))) /\
  (exists msg, run.lexReader src
     = Some (t0, Some (errors.SyntaxError (n + Z.of_nat (uitemRunes bad)) msg))).
Proof.
  intros Hits Hbad n t0 src.
  assert (HB : Forall (fun b => 0 <= b < 256) (badSrc bad)).
  { destruct bad as [[c|e]|[[[a b] c] d]].
    - destruct Hbad as (Hc & _). repeat constructor; lia.
    - destruct Hbad as (He & _). repeat constructor; lia.
    - destruct Hbad as (Hasc & _).
      inversion Hasc as [|? ? Ra Hasc1]. inversion Hasc1 as [|? ? Rb Hasc2].
      inversion Hasc2 as [|? ? Rc Hasc3]. inversion Hasc3 as [|? ? Rd _].
      repeat constructor; lia. }
  exact (lex_bad its bad src (bytes_of rest) Hits Hbad (src_bytes its (badSrc bad) rest Hits HB)).
Qed.

Lemma lex_string_invalid_witness :
  Forall uitemOK [inl (inl 97)] /\ badOK (inr (49, 50, 51, 34)) /\
  (let t0 := token.mkToken token.String 0 0 EmptyString in
   let src := String.append (string_of_bytes (34 :: flat_map uitemSrc [inl (inl 97)] ++
                                              badSrc (inr (49, 50, 51, 34)))) "x"%string in
   (exists msg, run.lexString src = Some (t0, Some (errors.SyntaxError 7 msg))) /\
   (exists msg, run.lexReader src = Some (t0, Some (errors.SyntaxError 7 msg)))).
Proof.
  assert (H : Forall uitemOK [inl (inl 97)]) by (repeat constructor; try discriminate; lia).
  assert (H2 : badOK (inr (49, 50, 51, 34))).
  { split; [repeat constructor; lia|].
    intro F. inversion F as [|? ? _ F1]. inversion F1 as [|? ? _ F2].
    inversion F2 as [|? ? _ F3]. inversion F3 as [|? ? Hq _]. apply Hq. reflexivity. }
  split; [exact H | split; [exact H2 |
    exact (lex_string_invalid [inl (inl 97)] (inr (49, 50, 51, 34)) "x"%string H H2)]].
Defined.

(** [Lex] at a rune that starts no token. *)
Lemma Lex_body_other {S} `{scanner.Scanner S} (fuel : nat) (l : @lexer.lexer S) (t : token.Token) r :
  lexer.eof l = false -> scanner.Rune (lexer.scanner l) = r ->
  lexer.isWhitespace r = false -> r <> 35 -> token.RunePunctuators r = None ->
  lexer.isNameChar r = false -> r <> 45 -> r <> 34 -> r <> 46 ->
  exists msg, lexer.Lex_body (Datatypes.S fuel) l t
  = Some (l, token.set_Start t (lexer.lastIndex l),
          inr (Some (errors.SyntaxError (lexer.lastIndex l) msg))).
Proof.
  intros He Hr Hw H35 Hp Hn H45 H34 H46.
  unfold lexer.Lex_body, lexer.advanceToNextToken, lexer.bind at 1.
  cbn [lexer.advanceToNextToken_loop]. rewrite He, Hr, Hw.
  destruct (Z.eqb_spec r 35); [contradiction|].
  cbv beta iota zeta delta [lexer.bind lexer.get_l lexer.get_t lexer.upd_t lexer.rune lexer.return_].
  cbv beta iota zeta delta [negb]. rewrite He, Hr, Hp.
  unfold lexer.isNameChar in Hn. apply orb_false_elim in Hn as [Hn Hl].
  apply orb_false_elim in Hn as [Hn Hu]. apply orb_false_elim in Hn as [H95 Hd].
  rewrite H95, Hu, Hl, Hd. cbn [orb].
  destruct (Z.eqb_spec r 45); [contradiction|]. cbn [orb].
  destruct (_ && _ && _ && _)%bool.
  - eexists. reflexivity.
  - destruct (Z.eqb_spec r 34); [contradiction|]. destruct (Z.eqb_spec r 46); [contradiction|].
    eexists. reflexivity.
Qed.

(** X25: an ASCII rune at the start of the source that is no whitespace,
    no [#], no punctuator, no name character and none of [-], the double
    quote and [.] gives, with both lexers, a SyntaxError at offset 0. *)
Theorem lex_unexpected_char (r : Z) (rest : string) :
  0 <= r < 128 -> lexer.isWhitespace r = false -> r <> 35 -> token.RunePunctuators r = None ->
  lexer.isNameChar r = false -> r <> 45 -> r <> 34 -> r <> 46 ->
  let src := String.append (string_of_bytes [r]) rest in
  (exists msg, run.lexString src = Some (token.zero, Some (errors.SyntaxError 0 msg))) /\
  (exists msg, run.lexReader src = Some (token.zero, Some (errors.SyntaxError 0 msg))).
Proof.
  intros Hr Hw H35 Hp Hn H45 H34 H46 src.
  assert (Hsrc : bytes_of src = r :: bytes_of rest).
  { unfold src. rewrite bytes_of_append, bytes_of_string_of_bytes; [reflexivity|].
    repeat constructor; lia. }
  split.
  - unfold run.lexString, run.lexFirstWith, lexer.NewStringLexer, lexer.NewLexer,
      scanner.NewStringScanner.
    rewrite (string_advance_ascii src 0 0 0 0 None (-1) r _ Hr ltac:(lia) ltac:(lia)
               ltac:(change (Z.to_nat (0 + 0)) with 0%nat; exact Hsrc)).
    rewrite Nat.add_1_r. unfold lexer.Lex.
    match goal with |- context [lexer.Lex_body (Datatypes.S ?f) ?L ?T] =>
      destruct (@Lex_body_other _ _ f L T r ltac:(reflexivity) ltac:(reflexivity) Hw H35 Hp Hn H45 H34 H46)
        as [msg E] end.
    exists msg. rewrite E. reflexivity.
  - unfold run.lexReader, run.lexFirstWith, lexer.NewReaderLexer, lexer.NewLexer,
      scanner.NewBufferedScanner, bufio.NewReader.
    rewrite Hsrc. rewrite (buffered_advance_ascii r _ 0 false [] None (-1) Hr).
    rewrite Nat.add_1_r. unfold lexer.Lex.
    match goal with |- context [lexer.Lex_body (Datatypes.S ?f) ?L ?T] =>
      destruct (@Lex_body_other _ _ f L T r ltac:(reflexivity) ltac:(reflexivity) Hw H35 Hp Hn H45 H34 H46)
        as [msg E] end.
    exists msg. rewrite E. reflexivity.
Qed.

Lemma lex_unexpected_char_witness :
  (0 <= 42 < 128 /\ lexer.isWhitespace 42 = false /\ 42 <> 35 /\ token.RunePunctuators 42 = None /\
   lexer.isNameChar 42 = false /\ 42 <> 45 /\ 42 <> 34 /\ 42 <> 46) /\
  (let src := String.append (string_of_bytes [42]) "x"%string in
   (exists msg, run.lexString src = Some (token.zero, Some (errors.SyntaxError 0 msg))) /\
   (exists msg, run.lexReader src = Some (token.zero, Some (errors.SyntaxError 0 msg)))).
Proof.
  assert (H1 : 0 <= 42 < 128) by lia.
  assert (H2 : lexer.isWhitespace 42 = false) by reflexivity.
  assert (H3 : token.RunePunctuators 42 = None) by reflexivity.
  assert (H4 : lexer.isNameChar 42 = false) by reflexivity.
  split; [repeat split; try assumption; lia|].
  exact (lex_unexpected_char 42 "x"%string H1 H2 ltac:(lia) H3 H4 ltac:(lia) ltac:(lia) ltac:(lia)).
Defined.


(** C8: the quoted [\u00E1] lexes, with both lexers, to a [String] token
    whose [Value] is the UTF-8 encoding of U+00E1.  On either scanner, every
    [SyntaxError] of [readString] (entered with the lexer on the opening
    quote) is reported at the lexer's offset where it stops, which lies
    after the opening quote, and an unterminated string stops at the end of
    the source or on a line terminator.  For a string literal whose items
    span [n] runes after the quote, both lexers report the end of the
    source, a LF or a CR right after the items at its offset [n + 1], and a
    [\u] followed by four ASCII runes that are not all hex digits at the
    offset [n + 6] of the fourth of them. *)
Theorem readString_error_offset :
  let q := (run.quote ++ "\u00E1" ++ run.quote)%string in
  run.lexString q = Some (token.mkToken token.String 0 7 (string_of_bytes [195; 161]), None) /\
  run.lexReader q = Some (token.mkToken token.String 0 7 (string_of_bytes [195; 161]), None) /\
  (forall fuel (l l' : @lexer.lexer scanner.stringScanner) t t' pos msg,
     lexer.readString fuel l t = Some (l', t', inr (Some (errors.SyntaxError pos msg))) ->
     pos = lexer.lastIndex l' /\ lexer.lastIndex l < pos /\
     (msg = "unterminated string"%string ->
      lexer.eof l' = true \/ scanner.Rune (lexer.scanner l') = token.LF \/
      scanner.Rune (lexer.scanner l') = token.CR)) /\
  (forall fuel (l l' : @lexer.lexer scanner.bufferedScanner) t t' pos msg,
     lexer.readString fuel l t = Some (l', t', inr (Some (errors.SyntaxError pos msg))) ->
     pos = lexer.lastIndex l' /\ lexer.lastIndex l < pos /\
     (msg = "unterminated string"%string ->
      lexer.eof l' = true \/ scanner.Rune (lexer.scanner l') = token.LF \/
      scanner.Rune (lexer.scanner l') = token.CR)) /\
  (forall (its : list ((Z + Z) + (Z * Z * Z * Z))) (src : string) (restB : list Z),
     Forall uitemOK its -> bytes_of src = 34 :: flat_map uitemSrc its ++ restB ->
     (restB = [] \/ exists nl r, restB = nl :: r /\ (nl = token.LF \/ nl = token.CR)) ->
     let n := Z.of_nat (list_sum (map uitemRunes its)) in
     let t0 := token.mkToken token.String 0 0 EmptyString in
     (exists msg, run.lexString src = Some (t0, Some (errors.SyntaxError (n + 1) msg))) /\
     (exists msg, run.lexReader src = Some (t0, Some (errors.SyntaxError (n + 1) msg)))) /\
  (forall (its : list ((Z + Z) + (Z * Z * Z * Z))) (a b c d : Z) (rest : string),
     Forall uitemOK its -> Forall (fun y => 0 <= y < 128) [a; b; c; d] ->
     ~ Forall (fun y => hex.fromHexChar y <> None) [a; b; c; d] ->
     let n := Z.of_nat (list_sum (map uitemRunes its)) in
     let t0 := token.mkToken token.String 0 0 EmptyString in
     let src := String.append (string_of_bytes (34 :: flat_map uitemSrc its ++ [92; 117; a; b; c; d])) rest in
     (exists msg, run.lexString src = Some (t0, Some (errors.SyntaxError (n + 6) msg))) /\
     (exists msg, run.lexReader src = Some (t0, Some (errors.SyntaxError (n + 6) msg)))).
Proof.
  intro q. split; [vm_compute; reflexivity|]. split; [vm_compute; reflexivity|].
  split.
  { intros fuel l l' t t' pos msg Hr.
    unfold lexer.readString, lexer.bind, lexer.upd_t in Hr. cbv beta iota in Hr.
    apply Facts.readString_loop_err in Hr; [exact Hr | exact Facts.string_Scan_error_EOF]. }
  split.
  { intros fuel l l' t t' pos msg Hr.
    unfold lexer.readString, lexer.bind, lexer.upd_t in Hr. cbv beta iota in Hr.
    apply Facts.readString_loop_err in Hr; [exact Hr | exact Extra2.buffered_Scan_EOF]. }
  split.
  { intros its src restB Hits Hsrc Hend. exact (lex_unterm its src restB Hits Hsrc Hend). }
  intros its a b c d rest Hits Hasc Hhex n t0 src.
  assert (Hbad : badOK (inr (a, b, c, d))) by (split; assumption).
  assert (HB : Forall (fun y => 0 <= y < 256) [92; 117; a; b; c; d]).
  { inversion Hasc as [|? ? Ra Hasc1]. inversion Hasc1 as [|? ? Rb Hasc2].
    inversion Hasc2 as [|? ? Rc Hasc3]. inversion Hasc3 as [|? ? Rd _].
    repeat constructor; lia. }
  exact (lex_bad its (inr (a, b, c, d)) src (bytes_of rest) Hits Hbad
           (src_bytes its [92; 117; a; b; c; d] rest Hits HB)).
Qed.

End Extra4.

(** * Numbers over the grammar, for either scanner *)
Module Extra5.
Import Extra Extra2 Extra3 Extra4 grammar.

Local Abbreviation lexOut := (fun (r : option (lexer.lexer * token.Token * (unit + option errors.error))) =>
  match r with
  | None => None
  | Some (_, t, inl _) => Some (t, None)
  | Some (_, t, inr e) => Some (t, e)
  end).

Section G.
Context {S : Type} `{scanner.Scanner S}.

Lemma Feeds_app (xs ys : list Z) : forall (l l' : @lexer.lexer S) e,
  Feeds l (xs ++ ys) e l' <-> exists lm, Feeds l xs false lm /\ Feeds lm ys e l'.
Proof.
  induction xs as [|x xs IH]; intros l l' e; cbn [app Feeds].
  - split; [intro F; exists l; split; [reflexivity | exact F] | intros (lm & -> & F); exact F].
  - split.
    + intros (l1 & A & B & C & D & F). apply IH in F. destruct F as (lm & F1 & F2).
      exists lm. split; [exists l1; repeat split; assumption | exact F2].
    + intros (lm & (l1 & A & B & C & D & F1) & F2). exists l1. repeat split; try assumption.
      apply IH. exists lm. split; assumption.
Qed.

Lemma Feeds_index (rs : list Z) : forall (l l' : @lexer.lexer S) e,
  Feeds l rs e l' ->
  lexer.lastIndex l' = lexer.lastIndex l + Z.of_nat (length rs) + (if e then 1 else 0).
Proof.
  induction rs as [|r rs IH]; intros l l' e F; cbn [Feeds length] in *.
  - destruct e; [destruct F as (_ & _ & ->); lia | subst; lia].
  - destruct F as (l1 & _ & _ & _ & D & F). rewrite (IH _ _ _ F), D. lia.
Qed.

(** A stretch of digits, then a rune that is no digit or the end. *)
Lemma advD (ds : list Z) : forall (l lm l' : @lexer.lexer S) (fuel : nat),
  Feeds l ds false lm -> Forall (fun d => lexer.isDigit d = true) ds ->
  lexer.advance_l lm = (l', true) ->
  (lexer.eof l' = true \/ lexer.isDigit (scanner.Rune (lexer.scanner l')) = false) ->
  (length ds < fuel)%nat ->
  lexer.advanceDigits_loop fuel l = Some (l', true).
Proof.
  induction ds as [|d ds IH]; intros l lm l' fuel F Hd Ha Hs Hf;
    (destruct fuel as [|f]; [cbn in Hf; lia|]); cbn [Feeds] in F; cbn [lexer.advanceDigits_loop].
  - subst lm. rewrite Ha. destruct Hs as [-> | ->]; [reflexivity|].
    destruct (lexer.eof l'); reflexivity.
  - destruct F as (l1 & A & B & C & _ & F). rewrite A, B. cbn [orb].
    apply Forall_cons_iff in Hd as [Hd1 Hd2]. rewrite C, Hd1. cbn [negb].
    exact (IH l1 lm l' f F Hd2 Ha Hs ltac:(cbn [length] in Hf; lia)).
Qed.

Lemma Fdig (ds : list Z) : forall (l : @lexer.lexer S) r rs e l' fuel,
  Feeds l (ds ++ r :: rs) e l' -> Forall (fun d => lexer.isDigit d = true) ds ->
  lexer.isDigit r = false -> (length ds < fuel)%nat ->
  exists l1, lexer.advanceDigits_loop fuel l = Some (l1, true) /\ lexer.eof l1 = false /\
    scanner.Rune (lexer.scanner l1) = r /\ Feeds l1 rs e l'.
Proof.
  intros l r rs e l' fuel F Hd Hr Hf. apply Feeds_app in F. destruct F as (lm & F1 & F2).
  cbn [Feeds] in F2. destruct F2 as (l1 & A & B & C & _ & F2).
  exists l1. split; [|split; [exact B | split; [exact C | exact F2]]].
  apply (advD ds l lm l1 fuel F1 Hd A); [right; rewrite C; exact Hr | exact Hf].
Qed.

Lemma Fdig_eof (ds : list Z) : forall (l l' : @lexer.lexer S) fuel,
  Feeds l ds true l' -> Forall (fun d => lexer.isDigit d = true) ds -> (length ds < fuel)%nat ->
  lexer.advanceDigits_loop fuel l = Some (l', true) /\ lexer.eof l' = true.
Proof.
  intros l l' fuel F Hd Hf. rewrite <- (app_nil_r ds) in F. apply Feeds_app in F.
  destruct F as (lm & F1 & F2). cbn [Feeds] in F2. destruct F2 as (A & B & _).
  split; [|exact B]. exact (advD ds l lm l' fuel F1 Hd A (or_introl B) Hf).
Qed.


Ltac rn_unfold :=
  cbv beta iota zeta delta [lexer.readNumber lexer.bind lexer.startTail lexer.upd_t lexer.rune
    lexer.get_l lexer.adv lexer.advance lexer.ret lexer.return_ lexer.syntaxErrorHere
    lexer.advDigits lexer.advanceDigits lexer.endTail].

Ltac rn_run :=
  repeat (match goal with
          | H : ?a = _ |- context [?a] => rewrite H
          end; cbv beta iota zeta).

Lemma rn_main (sg z fr ex : bool) (fuel : nat) (l0 la lb lc ld0 ld : @lexer.lexer S) (t : token.Token) :
  let lst := lexer.set_scanner l0 (scanner.StartTail (lexer.scanner l0)) in
  (if sg then (scanner.Rune (lexer.scanner lst) =? 45) = true /\ lexer.advance_l lst = (la, true) /\
              lexer.eof la = false
   else (scanner.Rune (lexer.scanner lst) =? 45) = false /\ la = lst) ->
  (if z then (scanner.Rune (lexer.scanner la) =? 48) = true /\ lexer.advance_l la = (lb, true) /\
             lexer.eof lb = false /\ lexer.isDigit (scanner.Rune (lexer.scanner lb)) = false
   else (scanner.Rune (lexer.scanner la) =? 48) = false /\
        lexer.advanceDigits_loop fuel la = Some (lb, true) /\ lexer.eof lb = false) ->
  (if fr then (scanner.Rune (lexer.scanner lb) =? 46) = true /\
              lexer.advanceDigits_loop fuel lb = Some (lc, true) /\ lexer.eof lc = false
   else (scanner.Rune (lexer.scanner lb) =? 46) = false /\ lc = lb) ->
  (if ex then ((scanner.Rune (lexer.scanner lc) =? 69) || (scanner.Rune (lexer.scanner lc) =? 101)) = true /\
              lexer.advance_l lc = (ld0, true) /\ lexer.eof ld0 = false /\
              ((scanner.Rune (lexer.scanner ld0) =? 43) || (scanner.Rune (lexer.scanner ld0) =? 45)
               || lexer.isDigit (scanner.Rune (lexer.scanner ld0))) = true /\
              lexer.advanceDigits_loop fuel ld0 = Some (ld, true)
   else ((scanner.Rune (lexer.scanner lc) =? 69) || (scanner.Rune (lexer.scanner lc) =? 101)) = false /\
        ld = lc) ->
  lexer.readNumber fuel l0 t =
    Some (lexer.set_scanner ld (fst (scanner.EndTail (lexer.scanner ld))),
          token.mkToken (if fr || ex then token.Float else token.Int) (token.Start t)
                        (lexer.lastIndex ld - 1) (snd (scanner.EndTail (lexer.scanner ld))),
          inr None).
Proof.
  intros lst Hs Hz Hf He. rn_unfold. fold lst.
  destruct sg; destruct Hs as (Ps1 & Ps2); try destruct Ps2 as (Ps2 & Ps3); try subst la;
  destruct z; destruct Hz as (Pz1 & Pz2 & Pz3); try destruct Pz3 as (Pz3 & Pz4);
  destruct fr; destruct Hf as (Pf1 & Pf2); try destruct Pf2 as (Pf2 & Pf3); try subst lc;
  destruct ex; destruct He as (Pe1 & Pe2); try destruct Pe2 as (Pe2 & Pe3 & Pe4 & Pe5); try subst ld;
  rn_run; destruct (scanner.EndTail _); reflexivity.
Qed.

Lemma rn_exp_end (sg z fr : bool) (fuel : nat) (l0 la lb lc ld0 : @lexer.lexer S) (t : token.Token) :
  let lst := lexer.set_scanner l0 (scanner.StartTail (lexer.scanner l0)) in
  (if sg then (scanner.Rune (lexer.scanner lst) =? 45) = true /\ lexer.advance_l lst = (la, true) /\
              lexer.eof la = false
   else (scanner.Rune (lexer.scanner lst) =? 45) = false /\ la = lst) ->
  (if z then (scanner.Rune (lexer.scanner la) =? 48) = true /\ lexer.advance_l la = (lb, true) /\
             lexer.eof lb = false /\ lexer.isDigit (scanner.Rune (lexer.scanner lb)) = false
   else (scanner.Rune (lexer.scanner la) =? 48) = false /\
        lexer.advanceDigits_loop fuel la = Some (lb, true) /\ lexer.eof lb = false) ->
  (if fr then (scanner.Rune (lexer.scanner lb) =? 46) = true /\
              lexer.advanceDigits_loop fuel lb = Some (lc, true) /\ lexer.eof lc = false
   else (scanner.Rune (lexer.scanner lb) =? 46) = false /\ lc = lb) ->
  ((scanner.Rune (lexer.scanner lc) =? 69) || (scanner.Rune (lexer.scanner lc) =? 101)) = true ->
  lexer.advance_l lc = (ld0, true) ->
  let t' := token.mkToken token.Float (token.Start t) (token.End t) (token.Value t) in
  (lexer.eof ld0 = true -> lexer.readNumber fuel l0 t = Some (ld0, t', inr None)) /\
  (lexer.eof ld0 = false ->
   ((scanner.Rune (lexer.scanner ld0) =? 43) || (scanner.Rune (lexer.scanner ld0) =? 45)
    || lexer.isDigit (scanner.Rune (lexer.scanner ld0))) = false ->
   lexer.readNumber fuel l0 t = Some (ld0, t', inr (Some (errors.SyntaxError (lexer.lastIndex ld0)
                                        "unterminated number; expected sign or digit")))).
Proof.
  intros lst Hs Hz Hf Pe1 Pe2 t'. split; intros Pe3; try intros Pe4; rn_unfold; fold lst;
  destruct sg; destruct Hs as (Ps1 & Ps2); try destruct Ps2 as (Ps2 & Ps3); try subst la;
  destruct z; destruct Hz as (Pz1 & Pz2 & Pz3); try destruct Pz3 as (Pz3 & Pz4);
  destruct fr; destruct Hf as (Pf1 & Pf2); try destruct Pf2 as (Pf2 & Pf3); try subst lc;
  rn_run; reflexivity.
Qed.

Lemma rn_frac_eof (sg z : bool) (fuel : nat) (l0 la lb lc : @lexer.lexer S) (t : token.Token) :
  let lst := lexer.set_scanner l0 (scanner.StartTail (lexer.scanner l0)) in
  (if sg then (scanner.Rune (lexer.scanner lst) =? 45) = true /\ lexer.advance_l lst = (la, true) /\
              lexer.eof la = false
   else (scanner.Rune (lexer.scanner lst) =? 45) = false /\ la = lst) ->
  (if z then (scanner.Rune (lexer.scanner la) =? 48) = true /\ lexer.advance_l la = (lb, true) /\
             lexer.eof lb = false /\ lexer.isDigit (scanner.Rune (lexer.scanner lb)) = false
   else (scanner.Rune (lexer.scanner la) =? 48) = false /\
        lexer.advanceDigits_loop fuel la = Some (lb, true) /\ lexer.eof lb = false) ->
  (scanner.Rune (lexer.scanner lb) =? 46) = true ->
  lexer.advanceDigits_loop fuel lb = Some (lc, true) -> lexer.eof lc = true ->
  lexer.readNumber fuel l0 t
  = Some (lc, token.mkToken token.Float (token.Start t) (token.End t) (token.Value t), inr None).
Proof.
  intros lst Hs Hz Pf1 Pf2 Pf3. rn_unfold; fold lst;
  destruct sg; destruct Hs as (Ps1 & Ps2); try destruct Ps2 as (Ps2 & Ps3); try subst la;
  destruct z; destruct Hz as (Pz1 & Pz2 & Pz3); try destruct Pz3 as (Pz3 & Pz4);
  rn_run; reflexivity.
Qed.

Lemma rn_int_eof (sg : bool) (fuel : nat) (l0 la lb : @lexer.lexer S) (t : token.Token) :
  let lst := lexer.set_scanner l0 (scanner.StartTail (lexer.scanner l0)) in
  (if sg then (scanner.Rune (lexer.scanner lst) =? 45) = true /\ lexer.advance_l lst = (la, true) /\
              lexer.eof la = false
   else (scanner.Rune (lexer.scanner lst) =? 45) = false /\ la = lst) ->
  (scanner.Rune (lexer.scanner la) =? 48) = false ->
  lexer.advanceDigits_loop fuel la = Some (lb, true) -> lexer.eof lb = true ->
  lexer.readNumber fuel l0 t =
    Some (lexer.set_scanner lb (fst (scanner.EndTail (lexer.scanner lb))),
          token.mkToken token.Int (token.Start t) (lexer.lastIndex lb - 1)
                        (snd (scanner.EndTail (lexer.scanner lb))), inr None).
Proof.
  intros lst Hs Pz1 Pz2 Pz3. rn_unfold; fold lst;
  destruct sg; destruct Hs as (Ps1 & Ps2); try destruct Ps2 as (Ps2 & Ps3); try subst la;
  rn_run; destruct (scanner.EndTail _); reflexivity.
Qed.

Lemma rn_zero_end (sg : bool) (fuel : nat) (l0 la lb : @lexer.lexer S) (t : token.Token) :
  let lst := lexer.set_scanner l0 (scanner.StartTail (lexer.scanner l0)) in
  (if sg then (scanner.Rune (lexer.scanner lst) =? 45) = true /\ lexer.advance_l lst = (la, true) /\
              lexer.eof la = false
   else (scanner.Rune (lexer.scanner lst) =? 45) = false /\ la = lst) ->
  (scanner.Rune (lexer.scanner la) =? 48) = true -> lexer.advance_l la = (lb, true) ->
  let t' := token.mkToken token.Int (token.Start t) (token.End t) (token.Value t) in
  (lexer.eof lb = true -> lexer.readNumber fuel l0 t = Some (lb, t', inr (Some (errors.SyntaxError
     (lexer.lastIndex lb) "invalid number; unexpected EOF following '0'")))) /\
  (lexer.eof lb = false -> lexer.isDigit (scanner.Rune (lexer.scanner lb)) = true ->
   lexer.readNumber fuel l0 t = Some (lb, t', inr (Some (errors.SyntaxError
     (lexer.lastIndex lb) "invalid number, unexpected digit after 0")))).
Proof.
  intros lst Hs Pz1 Pz2 t'. split; intros Pz3; try intros Pz4; rn_unfold; fold lst;
  destruct sg; destruct Hs as (Ps1 & Ps2); try destruct Ps2 as (Ps2 & Ps3); try subst la;
  rn_run; reflexivity.
Qed.

Lemma rn_sign_eof (fuel : nat) (l0 la : @lexer.lexer S) (t : token.Token) :
  let lst := lexer.set_scanner l0 (scanner.StartTail (lexer.scanner l0)) in
  (scanner.Rune (lexer.scanner lst) =? 45) = true -> lexer.advance_l lst = (la, true) ->
  lexer.eof la = true ->
  lexer.readNumber fuel l0 t
  = Some (la, token.mkToken token.Int (token.Start t) (token.End t) (token.Value t),
          inr (Some (errors.SyntaxError (lexer.lastIndex la) "invalid number; unexpected EOF following sign"))).
Proof.
  intros lst Ps1 Ps2 Ps3. rn_unfold; fold lst. rn_run. reflexivity.
Qed.

Ltac feed_len Hf :=
  clear -Hf; repeat progress (cbn [length app] in Hf; rewrite ?length_app in Hf); lia.

Ltac feed fuel Hf :=
  repeat match goal with
  | F : Feeds _ (_ :: _) _ _ |- _ =>
      let l := fresh "l" in let A := fresh "A" in let B := fresh "B" in
      let C := fresh "C" in let D := fresh "D" in destruct F as (l & A & B & C & D & F)
  | F : Feeds _ (?ds ++ ?r :: _) _ _, Hd : Forall _ ?ds |- _ =>
      let l := fresh "l" in let A := fresh "A" in let B := fresh "B" in
      let C := fresh "C" in
      let Hx := fresh "Hx" in let Hl := fresh "Hl" in
      assert (Hx : lexer.isDigit r = false) by (first [reflexivity | assumption]);
      assert (Hl : (length ds < fuel)%nat) by (feed_len Hf);
      let F' := fresh "F" in
      destruct (Fdig ds _ _ _ _ _ fuel F Hd Hx Hl) as (l & A & B & C & F');
      clear F Hd Hx Hl; rename F' into F
  | F : Feeds _ [] false ?b |- _ => cbn [Feeds] in F; subst b
  end.

Ltac rune_rw :=
  repeat match goal with
  | H : scanner.Rune (lexer.scanner ?l) = _ |- context [scanner.Rune (lexer.scanner ?l)] =>
      rewrite H
  end.

Ltac neqb :=
  apply Z.eqb_neq; let E := fresh "E" in intro E;
  first [ congruence
        | match goal with H : lexer.isDigit _ = true |- _ =>
            rewrite E in H; vm_compute in H; discriminate end ].

Ltac leaf :=
  first [ reflexivity | eassumption
        | rune_rw; first [ reflexivity | assumption | neqb
                         | match goal with H : lexer.isDigit ?x = true |- context [lexer.isDigit ?x] =>
                             rewrite H, ?orb_true_r; reflexivity end ] ].

Lemma rn_prefix (sg z f : bool) (d : Z) (ds fd : list Z) (x : Z) (R : list Z) (e : bool)
  (fuel : nat) (l0 lEnd : @lexer.lexer S) :
  (z = false -> lexer.isDigit d = true /\ d <> 48 /\ Forall (fun d => lexer.isDigit d = true) ds) ->
  Forall (fun d => lexer.isDigit d = true) fd ->
  lexer.isDigit x = false -> (f = false -> x <> 46) ->
  let ip := if z then [48] else d :: ds in
  let fr := if f then 46 :: fd else [] in
  let lst := lexer.set_scanner l0 (scanner.StartTail (lexer.scanner l0)) in
  scanner.Rune (lexer.scanner lst) = hd 0 ((if sg then [45] else []) ++ ip) ->
  Feeds lst (tl ((if sg then [45] else []) ++ ip) ++ fr ++ x :: R) e lEnd ->
  lt (length ((if sg then [45] else []) ++ ip ++ fr)) fuel ->
  exists la lb lc,
  (if sg then (scanner.Rune (lexer.scanner lst) =? 45) = true /\ lexer.advance_l lst = (la, true) /\
              lexer.eof la = false
   else (scanner.Rune (lexer.scanner lst) =? 45) = false /\ la = lst) /\
  (if z then (scanner.Rune (lexer.scanner la) =? 48) = true /\ lexer.advance_l la = (lb, true) /\
             lexer.eof lb = false /\ lexer.isDigit (scanner.Rune (lexer.scanner lb)) = false
   else (scanner.Rune (lexer.scanner la) =? 48) = false /\
        lexer.advanceDigits_loop fuel la = Some (lb, true) /\ lexer.eof lb = false) /\
  (if f then (scanner.Rune (lexer.scanner lb) =? 46) = true /\
              lexer.advanceDigits_loop fuel lb = Some (lc, true) /\ lexer.eof lc = false
   else (scanner.Rune (lexer.scanner lb) =? 46) = false /\ lc = lb) /\
  scanner.Rune (lexer.scanner lc) = x /\ lexer.eof lc = false /\ Feeds lc R e lEnd.
Proof.
  intros Hz Hfd Hx Hx46 ip fr lst Hr F Hf. subst ip fr.
  destruct f; [|specialize (Hx46 eq_refl)];
  (destruct z; [|destruct (Hz eq_refl) as (Hd & Hd48 & Hds)]); destruct sg;
  cbn [app tl hd] in Hr, F, Hf; feed fuel Hf;
  do 3 eexists; repeat split; leaf.
Qed.

Lemma rn_int_part (sg z : bool) (d : Z) (ds : list Z) (x : Z) (R : list Z) (e : bool)
  (fuel : nat) (l0 lEnd : @lexer.lexer S) :
  (z = false -> lexer.isDigit d = true /\ d <> 48 /\ Forall (fun d => lexer.isDigit d = true) ds) ->
  lexer.isDigit x = false ->
  let ip := if z then [48] else d :: ds in
  let lst := lexer.set_scanner l0 (scanner.StartTail (lexer.scanner l0)) in
  scanner.Rune (lexer.scanner lst) = hd 0 ((if sg then [45] else []) ++ ip) ->
  Feeds lst (tl ((if sg then [45] else []) ++ ip) ++ x :: R) e lEnd ->
  lt (length ((if sg then [45] else []) ++ ip)) fuel ->
  exists la lb,
  (if sg then (scanner.Rune (lexer.scanner lst) =? 45) = true /\ lexer.advance_l lst = (la, true) /\
              lexer.eof la = false
   else (scanner.Rune (lexer.scanner lst) =? 45) = false /\ la = lst) /\
  (if z then (scanner.Rune (lexer.scanner la) =? 48) = true /\ lexer.advance_l la = (lb, true) /\
             lexer.eof lb = false /\ lexer.isDigit (scanner.Rune (lexer.scanner lb)) = false
   else (scanner.Rune (lexer.scanner la) =? 48) = false /\
        lexer.advanceDigits_loop fuel la = Some (lb, true) /\ lexer.eof lb = false) /\
  scanner.Rune (lexer.scanner lb) = x /\ lexer.eof lb = false /\ Feeds lb R e lEnd.
Proof.
  intros Hz Hx ip lst Hr F Hf. subst ip.
  (destruct z; [|destruct (Hz eq_refl) as (Hd & Hd48 & Hds)]); destruct sg;
  cbn [app tl hd] in Hr, F, Hf; feed fuel Hf;
  do 2 eexists; repeat split; leaf.
Qed.

Ltac num_shape :=
  repeat match goal with
  | H : _ \/ _ |- _ => destruct H
  | H : _ /\ _ |- _ => destruct H
  | H : exists _, _ |- _ => destruct H
  end; subst.

(** A well-formed number followed by a rune that ends it. *)
Lemma rn_term (sg z f xp : bool) (d : Z) (ds fd : list Z) (m : Z) (so ed : list Z) (c : Z)
  (fuel : nat) (l0 lEnd : @lexer.lexer S) (t : token.Token) :
  (z = false -> lexer.isDigit d = true /\ d <> 48 /\ Forall (fun d => lexer.isDigit d = true) ds) ->
  Forall (fun d => lexer.isDigit d = true) fd ->
  (xp = true -> (m = 69 \/ m = 101) /\ ((so = [] /\ ed <> []) \/ so = [43] \/ so = [45]) /\
                Forall (fun d => lexer.isDigit d = true) ed) ->
  lexer.isDigit c = false -> c <> 46 -> c <> 69 -> c <> 101 ->
  let num := (if sg then [45] else []) ++ (if z then [48] else d :: ds) ++
             (if f then 46 :: fd else []) ++ (if xp then m :: so ++ ed else []) in
  let lst := lexer.set_scanner l0 (scanner.StartTail (lexer.scanner l0)) in
  scanner.Rune (lexer.scanner lst) = hd 0 num ->
  Feeds lst (tl num ++ [c]) false lEnd -> lt (length num) fuel ->
  lexer.readNumber fuel l0 t =
    Some (lexer.set_scanner lEnd (fst (scanner.EndTail (lexer.scanner lEnd))),
          token.mkToken (if f || xp then token.Float else token.Int) (token.Start t)
                        (lexer.lastIndex lEnd - 1) (snd (scanner.EndTail (lexer.scanner lEnd))),
          inr None).
Proof.
  intros Hz Hfd Hxp Hc Hc46 Hc69 Hc101 num lst Hr F Hf.
  set (ip := if z then [48] else d :: ds) in *.
  set (fr := if f then 46 :: fd else []) in *.
  assert (Hne : (if sg then [45] else []) ++ ip <> []) by (destruct sg, z; discriminate).
  assert (Tl : forall A B : list Z, A <> [] -> tl (A ++ B) = tl A ++ B)
    by (intros [|a A] B HA; [congruence | reflexivity]).
  assert (Hd : forall A B : list Z, A <> [] -> hd 0 (A ++ B) = hd 0 A)
    by (intros [|a A] B HA; [congruence | reflexivity]).
  unfold num in Hr, F, Hf. rewrite app_assoc in Hr, F. rewrite (Hd _ _ Hne) in Hr.
  rewrite (Tl _ _ Hne), <- !app_assoc in F.
  subst ip fr num. destruct xp; cbn [app] in F; rewrite <- ?app_assoc in F.
  - destruct (Hxp eq_refl) as (Hm & Hso & Hed). clear Hxp.
    destruct (rn_prefix sg z f d ds fd m (so ++ ed ++ [c]) false fuel l0 lEnd Hz Hfd
                ltac:(destruct Hm; subst; reflexivity) ltac:(intros _; lia) Hr F
                ltac:(clear -Hf; rewrite !length_app in *; cbn [length] in *; rewrite ?length_app in *; lia))
      as (la & lb & lc & Bs & Bz & Bf & Cm & Em & F2).
    destruct Hso as [[-> Hed0] | [-> | ->]]; cbn [app] in F2;
      [destruct ed as [|e0 ed']; [congruence|]; apply Forall_cons_iff in Hed as [He0 Hed];
       cbn [app] in F2 | |];
      destruct Hm as [-> | ->]; feed fuel Hf;
      eapply (rn_main sg z f true fuel l0 la lb lc); try exact Bs; try exact Bz; try exact Bf;
      repeat split; leaf.
  - destruct (rn_prefix sg z f d ds fd c [] false fuel l0 lEnd Hz Hfd Hc (fun _ => Hc46) Hr F
                ltac:(clear -Hf; rewrite !length_app in *; cbn [length] in *; lia))
      as (la & lb & lc & Bs & Bz & Bf & Cm & Em & F2).
    cbn [Feeds] in F2. subst lEnd.
    apply (rn_main sg z f false fuel l0 la lb lc lc lc t Bs Bz Bf).
    split; [|reflexivity]. rewrite Cm. apply orb_false_iff. split; apply Z.eqb_neq; assumption.
Qed.

Ltac feed_eof fuel Hf :=
  repeat match goal with
  | F : Feeds _ [] true _ |- _ =>
      let A := fresh "A" in let B := fresh "B" in cbn [Feeds] in F; destruct F as (A & B & _)
  | F : Feeds _ ?ds true _, Hd : Forall _ ?ds |- _ =>
      let A := fresh "A" in let B := fresh "B" in let Hl := fresh "Hl" in
      assert (Hl : (length ds < fuel)%nat) by (feed_len Hf);
      destruct (Fdig_eof ds _ _ fuel F Hd Hl) as (A & B); clear F Hd Hl
  end.

Lemma rn_eof_zero (sg : bool) (fuel : nat) (l0 lEnd : @lexer.lexer S) (t : token.Token) :
  let lst := lexer.set_scanner l0 (scanner.StartTail (lexer.scanner l0)) in
  scanner.Rune (lexer.scanner lst) = hd 0 ((if sg then [45] else []) ++ [48]) ->
  Feeds lst (tl ((if sg then [45] else []) ++ [48])) true lEnd ->
  lexer.readNumber fuel l0 t =
    Some (lEnd, token.mkToken token.Int (token.Start t) (token.End t) (token.Value t),
          inr (Some (errors.SyntaxError (lexer.lastIndex lEnd)
                       "invalid number; unexpected EOF following '0'"))).
Proof.
  intros lst Hr F. subst lst. destruct sg; cbn [app tl hd] in Hr, F.
  - destruct F as (la & A & B & C & _ & F). cbn [Feeds] in F. destruct F as (A' & B' & _).
    refine (proj1 (rn_zero_end true fuel l0 la lEnd t _ _ A') B');
      [split; [rewrite Hr; reflexivity | split; assumption] | rewrite C; reflexivity].
  - cbn [Feeds] in F. destruct F as (A & B & _).
    refine (proj1 (rn_zero_end false fuel l0 _ lEnd t _ _ A) B);
      [split; [rewrite Hr; reflexivity | reflexivity] | rewrite Hr; reflexivity].
Qed.

Lemma rn_eof_int (sg : bool) (d : Z) (ds : list Z) (fuel : nat) (l0 lEnd : @lexer.lexer S)
  (t : token.Token) :
  lexer.isDigit d = true -> d <> 48 -> Forall (fun d => lexer.isDigit d = true) ds ->
  let lst := lexer.set_scanner l0 (scanner.StartTail (lexer.scanner l0)) in
  scanner.Rune (lexer.scanner lst) = hd 0 ((if sg then [45] else []) ++ d :: ds) ->
  Feeds lst (tl ((if sg then [45] else []) ++ d :: ds)) true lEnd ->
  lt (length ((if sg then [45] else []) ++ d :: ds)) fuel ->
  lexer.readNumber fuel l0 t =
    Some (lexer.set_scanner lEnd (fst (scanner.EndTail (lexer.scanner lEnd))),
          token.mkToken token.Int (token.Start t) (lexer.lastIndex lEnd - 1)
                        (snd (scanner.EndTail (lexer.scanner lEnd))), inr None).
Proof.
  intros Hd Hd48 Hds lst Hr F Hf. subst lst. destruct sg; cbn [app tl hd] in Hr, F, Hf.
  - destruct F as (la & A & B & C & _ & F). feed_eof fuel Hf.
    refine (rn_int_eof true fuel l0 la lEnd t _ _ A0 B0);
      [split; [rewrite Hr; reflexivity | split; assumption] | rewrite C; apply Z.eqb_neq; exact Hd48].
  - feed_eof fuel Hf.
    refine (rn_int_eof false fuel l0 _ lEnd t _ _ A B);
      [split; [leaf | reflexivity] | rewrite Hr; apply Z.eqb_neq; exact Hd48].
Qed.

Lemma rn_eof_frac (sg z : bool) (d : Z) (ds fd : list Z) (fuel : nat) (l0 lEnd : @lexer.lexer S)
  (t : token.Token) :
  (z = false -> lexer.isDigit d = true /\ d <> 48 /\ Forall (fun d => lexer.isDigit d = true) ds) ->
  Forall (fun d => lexer.isDigit d = true) fd ->
  let ip := if z then [48] else d :: ds in
  let lst := lexer.set_scanner l0 (scanner.StartTail (lexer.scanner l0)) in
  scanner.Rune (lexer.scanner lst) = hd 0 ((if sg then [45] else []) ++ ip) ->
  Feeds lst (tl ((if sg then [45] else []) ++ ip) ++ 46 :: fd) true lEnd ->
  lt (length ((if sg then [45] else []) ++ ip ++ 46 :: fd)) fuel ->
  lexer.readNumber fuel l0 t
  = Some (lEnd, token.mkToken token.Float (token.Start t) (token.End t) (token.Value t), inr None).
Proof.
  intros Hz Hfd ip lst Hr F Hf.
  destruct (rn_int_part sg z d ds 46 fd true fuel l0 lEnd Hz eq_refl Hr F
              ltac:(subst ip; clear -Hf; rewrite !length_app in *; cbn [length] in *; lia))
    as (la & lb & Bs & Bz & Cb & Eb & F2).
  subst ip. feed_eof fuel Hf.
  refine (rn_frac_eof sg z fuel l0 la lb lEnd t Bs Bz _ A B). rewrite Cb; reflexivity.
Qed.

Lemma rn_eof_exp (sg z f : bool) (d : Z) (ds fd : list Z) (m : Z) (so ed : list Z)
  (fuel : nat) (l0 lEnd : @lexer.lexer S) (t : token.Token) :
  (z = false -> lexer.isDigit d = true /\ d <> 48 /\ Forall (fun d => lexer.isDigit d = true) ds) ->
  Forall (fun d => lexer.isDigit d = true) fd ->
  (m = 69 \/ m = 101) -> ((so = [] /\ ed <> []) \/ so = [43] \/ so = [45]) ->
  Forall (fun d => lexer.isDigit d = true) ed ->
  let num := (if sg then [45] else []) ++ (if z then [48] else d :: ds) ++
             (if f then 46 :: fd else []) ++ m :: so ++ ed in
  let lst := lexer.set_scanner l0 (scanner.StartTail (lexer.scanner l0)) in
  scanner.Rune (lexer.scanner lst) = hd 0 num ->
  Feeds lst (tl num) true lEnd -> lt (length num) fuel ->
  lexer.readNumber fuel l0 t =
    Some (lexer.set_scanner lEnd (fst (scanner.EndTail (lexer.scanner lEnd))),
          token.mkToken token.Float (token.Start t)
                        (lexer.lastIndex lEnd - 1) (snd (scanner.EndTail (lexer.scanner lEnd))),
          inr None).
Proof.
  intros Hz Hfd Hm Hso Hed num lst Hr F Hf.
  assert (Hne : (if sg then [45] else []) ++ (if z then [48] else d :: ds) <> [])
    by (destruct sg, z; discriminate).
  assert (Tl : forall A B : list Z, A <> [] -> tl (A ++ B) = tl A ++ B)
    by (intros [|a A] B HA; [congruence | reflexivity]).
  assert (Hd : forall A B : list Z, A <> [] -> hd 0 (A ++ B) = hd 0 A)
    by (intros [|a A] B HA; [congruence | reflexivity]).
  unfold num in Hr, F, Hf. rewrite app_assoc in Hr, F. rewrite (Hd _ _ Hne) in Hr.
  rewrite (Tl _ _ Hne), <- ?app_assoc in F.
  destruct (rn_prefix sg z f d ds fd m (so ++ ed) true fuel l0 lEnd Hz Hfd
              ltac:(destruct Hm; subst; reflexivity) ltac:(intros _; lia) Hr F
              ltac:(clear -Hf; rewrite !length_app in *; cbn [length] in *; rewrite ?length_app in *; lia))
    as (la & lb & lc & Bs & Bz & Bf & Cm & Em & F2).
  subst num.
  destruct Hso as [[-> Hed0] | [-> | ->]]; cbn [app] in F2;
    [destruct ed as [|e0 ed']; [congruence|]; apply Forall_cons_iff in Hed as [He0 Hed] | |];
    destruct Hm as [-> | ->]; feed fuel Hf; feed_eof fuel Hf;
    (replace token.Float with (if f || true then token.Float else token.Int)
       by (destruct f; reflexivity));
    eapply (rn_main sg z f true fuel l0 la lb lc); try exact Bs; try exact Bz; try exact Bf;
    repeat split; leaf.
Qed.

Lemma rn_zero_digit (sg : bool) (x : Z) (fuel : nat) (l0 lEnd : @lexer.lexer S) (t : token.Token) :
  lexer.isDigit x = true ->
  let lst := lexer.set_scanner l0 (scanner.StartTail (lexer.scanner l0)) in
  scanner.Rune (lexer.scanner lst) = hd 0 ((if sg then [45] else []) ++ [48]) ->
  Feeds lst (tl ((if sg then [45] else []) ++ [48]) ++ [x]) false lEnd ->
  lexer.readNumber fuel l0 t =
    Some (lEnd, token.mkToken token.Int (token.Start t) (token.End t) (token.Value t),
          inr (Some (errors.SyntaxError (lexer.lastIndex lEnd)
                       "invalid number, unexpected digit after 0"))).
Proof.
  intros Hx lst Hr F. subst lst. destruct sg; cbn [app tl hd] in Hr, F.
  - destruct F as (la & A & B & C & _ & F). destruct F as (lb & A' & B' & C' & _ & F).
    cbn [Feeds] in F. subst lEnd.
    refine (proj2 (rn_zero_end true fuel l0 la lb t _ _ A') B' _);
      [split; [rewrite Hr; reflexivity | split; assumption] | rewrite C; reflexivity
      | rewrite C'; exact Hx].
  - destruct F as (lb & A & B & C & _ & F). cbn [Feeds] in F. subst lEnd.
    refine (proj2 (rn_zero_end false fuel l0 _ lb t _ _ A) B _);
      [split; [rewrite Hr; reflexivity | reflexivity] | rewrite Hr; reflexivity
      | rewrite C; exact Hx].
Qed.

Lemma rn_exp_bad (sg z f : bool) (d : Z) (ds fd : list Z) (m x : Z)
  (fuel : nat) (l0 lEnd : @lexer.lexer S) (t : token.Token) :
  (z = false -> lexer.isDigit d = true /\ d <> 48 /\ Forall (fun d => lexer.isDigit d = true) ds) ->
  Forall (fun d => lexer.isDigit d = true) fd ->
  (m = 69 \/ m = 101) -> lexer.isDigit x = false -> x <> 43 -> x <> 45 ->
  let ip := if z then [48] else d :: ds in
  let fr := if f then 46 :: fd else [] in
  let lst := lexer.set_scanner l0 (scanner.StartTail (lexer.scanner l0)) in
  scanner.Rune (lexer.scanner lst) = hd 0 ((if sg then [45] else []) ++ ip) ->
  Feeds lst (tl ((if sg then [45] else []) ++ ip) ++ fr ++ [m; x]) false lEnd ->
  lt (length ((if sg then [45] else []) ++ ip ++ fr)) fuel ->
  lexer.readNumber fuel l0 t =
    Some (lEnd, token.mkToken token.Float (token.Start t) (token.End t) (token.Value t),
          inr (Some (errors.SyntaxError (lexer.lastIndex lEnd)
                       "unterminated number; expected sign or digit"))).
Proof.
  intros Hz Hfd Hm Hx Hx43 Hx45 ip fr lst Hr F Hf.
  destruct (rn_prefix sg z f d ds fd m [x] false fuel l0 lEnd Hz Hfd
              ltac:(destruct Hm; subst; reflexivity) ltac:(intros _; lia) Hr F Hf)
    as (la & lb & lc & Bs & Bz & Bf & Cm & Em & F2).
  destruct F2 as (ld0 & A & B & C & _ & F2). cbn [Feeds] in F2. subst lEnd.
  refine (proj2 (rn_exp_end sg z f fuel l0 la lb lc ld0 t Bs Bz Bf _ A) B _);
    [rewrite Cm; destruct Hm as [-> | ->]; reflexivity|].
  rewrite C, Hx, orb_false_r. apply orb_false_iff. split; apply Z.eqb_neq; assumption.
Qed.

Lemma rn_exp_eof (sg z f : bool) (d : Z) (ds fd : list Z) (m : Z)
  (fuel : nat) (l0 lEnd : @lexer.lexer S) (t : token.Token) :
  (z = false -> lexer.isDigit d = true /\ d <> 48 /\ Forall (fun d => lexer.isDigit d = true) ds) ->
  Forall (fun d => lexer.isDigit d = true) fd ->
  (m = 69 \/ m = 101) ->
  let ip := if z then [48] else d :: ds in
  let fr := if f then 46 :: fd else [] in
  let lst := lexer.set_scanner l0 (scanner.StartTail (lexer.scanner l0)) in
  scanner.Rune (lexer.scanner lst) = hd 0 ((if sg then [45] else []) ++ ip) ->
  Feeds lst (tl ((if sg then [45] else []) ++ ip) ++ fr ++ [m]) true lEnd ->
  lt (length ((if sg then [45] else []) ++ ip ++ fr)) fuel ->
  lexer.readNumber fuel l0 t =
    Some (lEnd, token.mkToken token.Float (token.Start t) (token.End t) (token.Value t), inr None).
Proof.
  intros Hz Hfd Hm ip fr lst Hr F Hf.
  destruct (rn_prefix sg z f d ds fd m [] true fuel l0 lEnd Hz Hfd
              ltac:(destruct Hm; subst; reflexivity) ltac:(intros _; lia) Hr F Hf)
    as (la & lb & lc & Bs & Bz & Bf & Cm & Em & F2).
  cbn [Feeds] in F2. destruct F2 as (A & B & _).
  refine (proj1 (rn_exp_end sg z f fuel l0 la lb lc lEnd t Bs Bz Bf _ A) B).
  rewrite Cm; destruct Hm as [-> | ->]; reflexivity.
Qed.

End G.

Lemma number_start_class r :
  (r = 45 \/ lexer.isDigit r = true) ->
  lexer.isWhitespace r = false /\ (r =? 35) = false /\ token.RunePunctuators r = None /\
  ((r =? 95) || lexer.isUpperLetter r || lexer.isLowerLetter r)%bool = false /\
  ((r =? 45) || lexer.isDigit r)%bool = true.
Proof.
  intro Hr. assert (Hc : r = 45 \/ r = 48 \/ r = 49 \/ r = 50 \/ r = 51 \/ r = 52 \/ r = 53 \/
                         r = 54 \/ r = 55 \/ r = 56 \/ r = 57).
  { destruct Hr as [->|Hr]; [left; reflexivity|]. unfold lexer.isDigit in Hr. zbool; lia. }
  repeat destruct Hc as [-> | Hc]; try subst r; vm_compute; repeat split.
Qed.

(** [Lex] at a rune that starts a number goes to [readNumber]. *)
Lemma Lex_body_number {S} `{scanner.Scanner S} (fuel : nat) (l : @lexer.lexer S) (t : token.Token) :
  lexer.eof l = false ->
  (scanner.Rune (lexer.scanner l) = 45 \/ lexer.isDigit (scanner.Rune (lexer.scanner l)) = true) ->
  lexer.Lex_body (Datatypes.S fuel) l t
  = lexer.readNumber (Datatypes.S fuel) l (token.set_Start t (lexer.lastIndex l)).
Proof.
  intros He Hn. destruct (number_start_class _ Hn) as (Hw & H35 & Hp & Hs & Hd).
  unfold lexer.Lex_body, lexer.advanceToNextToken, lexer.bind at 1.
  cbn [lexer.advanceToNextToken_loop]. rewrite He, Hw, H35.
  cbv beta iota zeta delta [lexer.bind lexer.get_l lexer.upd_t lexer.rune]. cbv beta iota zeta delta [negb]. rewrite He. cbv beta iota zeta delta [token.set_Start]. cbn [lexer.scanner lexer.eof lexer.lastIndex]. rewrite Hp, Hs, Hd. reflexivity.
Qed.

Lemma last_cons_cons (b : Z) (bs : list Z) (d : Z) : last (b :: bs) d = last bs b.
Proof. destruct bs as [|b' bs]; [reflexivity|]. revert b'. induction bs as [|x bs IH]; [reflexivity|].
  intro b'. change (last (b' :: x :: bs) b) with (last (x :: bs) b). rewrite <- IH. reflexivity. Qed.

(** The string scanner reads ASCII bytes one rune at a time. *)
Lemma string_feeds (bs : list Z) : forall (src : string) (k : Z) (c0 : Z) (rest : list Z),
  Forall (fun b => 0 <= b < 128) bs -> 0 <= k ->
  skipn (Z.to_nat (k + 1)) (bytes_of src) = bs ++ rest ->
  Feeds (lexer.mkLexer {| scanner.source := src; scanner.last := c0; scanner.lastIndex := k;
           scanner.lastWidth := 1; scanner.tailIndex := 0 |} None k false) bs false
        (lexer.mkLexer {| scanner.source := src; scanner.last := last bs c0;
           scanner.lastIndex := k + Z.of_nat (length bs);
           scanner.lastWidth := 1; scanner.tailIndex := 0 |} None (k + Z.of_nat (length bs)) false).
Proof.
  induction bs as [|b bs IH]; intros src k c0 rest Ha Hk Hs; cbn [Feeds].
  - cbn [length last]. rewrite Z.add_0_r. reflexivity.
  - apply Forall_cons_iff in Ha as [Hb Ha].
    eexists. split; [apply (string_advance_ascii src k 1 0 c0 None k b (bs ++ rest));
                     [exact Hb | exact Hk | lia | exact Hs]|].
    split; [reflexivity|]. split; [reflexivity|]. split; [reflexivity|].
    replace (k + Z.of_nat (length (b :: bs))) with (k + 1 + Z.of_nat (length bs))
      by (cbn [length]; lia).
    rewrite last_cons_cons. apply (IH src (k + 1) b rest Ha ltac:(lia)).
    rewrite (RuneFacts.skipn_skipn_Z (k + 1) 1) by lia. rewrite Hs. reflexivity.
Qed.

Lemma string_feeds_eof (src : string) (k c0 : Z) :
  0 <= k -> k + 1 = len src ->
  Feeds (lexer.mkLexer {| scanner.source := src; scanner.last := c0; scanner.lastIndex := k;
           scanner.lastWidth := 1; scanner.tailIndex := 0 |} None k false) [] true
        (lexer.mkLexer {| scanner.source := src; scanner.last := utf8.RuneError;
           scanner.lastIndex := k + 1; scanner.lastWidth := 0; scanner.tailIndex := 0 |}
           None (k + 1) true).
Proof.
  intros Hk Hl. cbn [Feeds]. unfold lexer.advance_l.
  cbn [lexer.scanner scanner.Scan scanner.stringScanner_Scanner].
  unfold scanner.string_Scan. cbn [scanner.lastIndex scanner.lastWidth scanner.source].
  destruct (Z.geb_spec k (len src)); [lia|].
  rewrite skipn_all2 by (unfold len in Hl; rewrite RuneFacts.bytes_of_length; lia).
  rewrite RuneFacts.DecodeRune_nil. cbn. split; [reflexivity|]. split; reflexivity.
Qed.

(** The buffered scanner reads ASCII bytes one rune at a time, appending them to its tail. *)
Lemma buffered_feeds (bs : list Z) : forall (rest : list Z) (c0 : Z) (T : list Z) (k : Z),
  Forall (fun b => 0 <= b < 128) bs ->
  Feeds (lexer.mkLexer {| scanner.bsource := {| bufio.unread := bs ++ rest |}; scanner.blast := c0;
           scanner.tailing := true; scanner.tail := T |} None k false) bs false
        (lexer.mkLexer {| scanner.bsource := {| bufio.unread := rest |}; scanner.blast := last bs c0;
           scanner.tailing := true; scanner.tail := T ++ bs |} None (k + Z.of_nat (length bs)) false).
Proof.
  induction bs as [|b bs IH]; intros rest c0 T k Ha; cbn [Feeds].
  - cbn [length last app]. rewrite Z.add_0_r, app_nil_r. reflexivity.
  - apply Forall_cons_iff in Ha as [Hb Ha].
    eexists. split; [apply buffered_advance_ascii; exact Hb|].
    split; [reflexivity|]. split; [reflexivity|]. split; [reflexivity|].
    replace (k + Z.of_nat (length (b :: bs))) with (k + 1 + Z.of_nat (length bs))
      by (cbn [length]; lia).
    rewrite last_cons_cons. replace (T ++ b :: bs) with ((T ++ [b]) ++ bs)
      by (rewrite <- app_assoc; reflexivity).
    exact (IH rest b (T ++ [b]) (k + 1) Ha).
Qed.

Lemma buffered_feeds_eof (c0 : Z) (T : list Z) (k : Z) :
  Feeds (lexer.mkLexer {| scanner.bsource := {| bufio.unread := [] |}; scanner.blast := c0;
           scanner.tailing := true; scanner.tail := T |} None k false) [] true
        (lexer.mkLexer {| scanner.bsource := {| bufio.unread := [] |}; scanner.blast := 0;
           scanner.tailing := true; scanner.tail := T |} None (k + 1) true).
Proof. cbn [Feeds]. split; [reflexivity|]. split; reflexivity. Qed.

(** Both lexers at a number's first byte. *)
Lemma string_lex_number (src : string) (b0 : Z) (restB : list Z) :
  bytes_of src = b0 :: restB -> (b0 = 45 \/ lexer.isDigit b0 = true) ->
  run.lexString src = lexOut (lexer.readNumber (Datatypes.S (String.length src))
    (lexer.mkLexer {| scanner.source := src; scanner.last := b0; scanner.lastIndex := 0;
       scanner.lastWidth := 1; scanner.tailIndex := 0 |} None 0 false)
    (token.set_Start token.zero 0)).
Proof.
  intros Hs Hb.
  assert (Ha : 0 <= b0 < 128) by (destruct Hb as [->|Hb]; [lia | unfold lexer.isDigit in Hb; zbool; lia]).
  unfold run.lexString, run.lexFirstWith, lexer.NewStringLexer, lexer.NewLexer, lexer.advance_l.
  cbn [scanner.Scan scanner.stringScanner_Scanner]. unfold scanner.string_Scan, scanner.NewStringScanner.
  cbn [lexer.scanner scanner.lastIndex scanner.lastWidth scanner.source].
  destruct (Z.geb_spec 0 (len src)) as [Hc|_].
  { unfold len in Hc. rewrite <- RuneFacts.bytes_of_length, Hs in Hc. cbn [length] in Hc. lia. }
  change (Z.to_nat (0 + 0)) with 0%nat. cbn [skipn]. rewrite Hs, DecodeRune_ascii by lia.
  assert (Hr0 : (b0 =? utf8.RuneError) = false) by (apply Z.eqb_neq; unfold utf8.RuneError; lia).
  rewrite Hr0. cbn [andb]. rewrite Nat.add_1_r. unfold lexer.Lex.
  rewrite Lex_body_number by first [reflexivity | exact Hb].
  change (-1 + 1) with 0. change (0 + 0) with 0.
  destruct (lexer.readNumber _ _ _) as [[[? ?] [?|?]]|]; reflexivity.
Qed.

Lemma buffered_lex_number (src : string) (b0 : Z) (restB : list Z) :
  bytes_of src = b0 :: restB -> (b0 = 45 \/ lexer.isDigit b0 = true) ->
  run.lexReader src = lexOut (lexer.readNumber (Datatypes.S (String.length src))
    (lexer.mkLexer {| scanner.bsource := {| bufio.unread := restB |}; scanner.blast := b0;
       scanner.tailing := false; scanner.tail := [] |} None 0 false)
    (token.set_Start token.zero 0)).
Proof.
  intros Hs Hb.
  assert (Ha : 0 <= b0 < 128) by (destruct Hb as [->|Hb]; [lia | unfold lexer.isDigit in Hb; zbool; lia]).
  unfold run.lexReader, run.lexFirstWith, lexer.NewReaderLexer, lexer.NewLexer, lexer.advance_l.
  cbn [scanner.Scan scanner.bufferedScanner_Scanner].
  unfold scanner.buffered_Scan, scanner.NewBufferedScanner, bufio.NewReader.
  cbn [lexer.scanner scanner.bsource scanner.tailing scanner.tail].
  rewrite Hs. cbn [bufio.ReadRune bufio.unread]. unfold utf8.RuneSelf.
  destruct (Z.ltb_spec b0 128) as [_|]; [|lia].
  rewrite Nat.add_1_r. unfold lexer.Lex.
  rewrite Lex_body_number by first [reflexivity | exact Hb].
  change (-1 + 1) with 0.
  destruct (lexer.readNumber _ _ _) as [[[? ?] [?|?]]|]; reflexivity.
Qed.


Lemma ascii_bytes (l : list Z) : Forall (fun b => 0 <= b < 128) l -> Forall (fun b => 0 <= b < 256) l.
Proof. apply Forall_impl. intros; lia. Qed.

Lemma append_empty_r (s : string) : String.append s EmptyString = s.
Proof. induction s as [|a s IH]; [reflexivity|]. cbn. rewrite IH. reflexivity. Qed.

Lemma substring0_bytes (s : string) : forall k, substring 0 k s = string_of_bytes (firstn k (bytes_of s)).
Proof.
  induction s as [|a s IH]; intros [|k]; try reflexivity.
  cbn [substring]. rewrite IH. unfold bytes_of, string_of_bytes. cbn. f_equal.
  unfold ascii_of_byte, byte_of_ascii. rewrite Nat2Z.id. symmetry. apply ascii_nat_embedding.
Qed.

(** The two lexers on the bytes [B] of a number followed by [rest]. *)
Lemma string_setup (B : list Z) (rest : string) :
  B <> [] -> Forall (fun b => 0 <= b < 128) B -> (hd 0 B = 45 \/ lexer.isDigit (hd 0 B) = true) ->
  let src := String.append (string_of_bytes B) rest in
  let l0 := lexer.mkLexer {| scanner.source := src; scanner.last := hd 0 B; scanner.lastIndex := 0;
               scanner.lastWidth := 1; scanner.tailIndex := 0 |} None 0 false in
  run.lexString src = lexOut (lexer.readNumber (Datatypes.S (String.length src)) l0
                               (token.set_Start token.zero 0)) /\
  Feeds (lexer.set_scanner l0 (scanner.StartTail (lexer.scanner l0))) (tl B) false
        (lexer.mkLexer {| scanner.source := src; scanner.last := last B 0;
           scanner.lastIndex := Z.of_nat (length B) - 1;
           scanner.lastWidth := 1; scanner.tailIndex := 0 |} None (Z.of_nat (length B) - 1) false) /\
  String.length src = (length B + String.length rest)%nat /\
  (forall k, (k <= length B)%nat -> slice src 0 (Z.of_nat k) = string_of_bytes (firstn k B)).
Proof.
  intros Hne Ha Hh src l0. destruct B as [|b0 B']; [congruence|]. cbn [hd tl] in *.
  assert (Hb0 : bytes_of src = (b0 :: B') ++ bytes_of rest).
  { unfold src. rewrite bytes_of_append, bytes_of_string_of_bytes by (apply ascii_bytes, Ha).
    reflexivity. }
  split; [apply (string_lex_number src b0 (B' ++ bytes_of rest) Hb0 Hh)|].
  split.
  - apply Forall_cons_iff in Ha as [_ Ha].
    pose proof (string_feeds B' src 0 b0 (bytes_of rest) Ha (Z.le_refl 0)
                  ltac:(rewrite Hb0; reflexivity)) as F.
    replace (Z.of_nat (length (b0 :: B')) - 1) with (0 + Z.of_nat (length B'))
      by (cbn [length]; lia).
    rewrite last_cons_cons. exact F.
  - split; [rewrite <- !RuneFacts.bytes_of_length, Hb0, length_app; reflexivity|].
    intros k Hk. unfold slice. rewrite Z.sub_0_r, Nat2Z.id. change (Z.to_nat 0) with 0%nat.
    rewrite substring0_bytes, Hb0, firstn_app.
    replace (k - length (b0 :: B'))%nat with 0%nat by lia. rewrite firstn_O, app_nil_r. reflexivity.
Qed.

Lemma string_setup_eof (B : list Z) :
  B <> [] -> Forall (fun b => 0 <= b < 128) B -> (hd 0 B = 45 \/ lexer.isDigit (hd 0 B) = true) ->
  let src := string_of_bytes B in
  let l0 := lexer.mkLexer {| scanner.source := src; scanner.last := hd 0 B; scanner.lastIndex := 0;
               scanner.lastWidth := 1; scanner.tailIndex := 0 |} None 0 false in
  run.lexString src = lexOut (lexer.readNumber (Datatypes.S (String.length src)) l0
                               (token.set_Start token.zero 0)) /\
  Feeds (lexer.set_scanner l0 (scanner.StartTail (lexer.scanner l0))) (tl B) true
        (lexer.mkLexer {| scanner.source := src; scanner.last := utf8.RuneError;
           scanner.lastIndex := Z.of_nat (length B);
           scanner.lastWidth := 0; scanner.tailIndex := 0 |} None (Z.of_nat (length B)) true) /\
  String.length src = length B /\
  (forall k, (k <= length B)%nat -> slice src 0 (Z.of_nat k) = string_of_bytes (firstn k B)).
Proof.
  intros Hne Ha Hh src l0.
  destruct (string_setup B EmptyString Hne Ha Hh) as (E & F & Hl & Hs).
  rewrite append_empty_r in E, F, Hl, Hs. fold src in E, F, Hl, Hs.
  rewrite Nat.add_0_r in Hl.
  split; [exact E|]. split; [|split; [exact Hl | exact Hs]].
  rewrite <- (app_nil_r (tl B)). apply Feeds_app. eexists. split; [exact F|].
  assert (Hp : 0 <= Z.of_nat (length B) - 1) by (destruct B; [congruence | cbn [length]; lia]).
  pose proof (string_feeds_eof src (Z.of_nat (length B) - 1) (last B 0) Hp
                ltac:(unfold len; rewrite Hl; lia)) as G.
  rewrite Z.sub_add in G. exact G.
Qed.

Lemma buffered_setup (B : list Z) (rest : string) :
  B <> [] -> Forall (fun b => 0 <= b < 128) B -> (hd 0 B = 45 \/ lexer.isDigit (hd 0 B) = true) ->
  let src := String.append (string_of_bytes B) rest in
  let l0 := lexer.mkLexer {| scanner.bsource := {| bufio.unread := tl B ++ bytes_of rest |};
               scanner.blast := hd 0 B; scanner.tailing := false; scanner.tail := [] |} None 0 false in
  run.lexReader src = lexOut (lexer.readNumber (Datatypes.S (String.length src)) l0
                               (token.set_Start token.zero 0)) /\
  Feeds (lexer.set_scanner l0 (scanner.StartTail (lexer.scanner l0))) (tl B) false
        (lexer.mkLexer {| scanner.bsource := {| bufio.unread := bytes_of rest |};
           scanner.blast := last B 0; scanner.tailing := true;
           scanner.tail := utf8.EncodeRune (hd 0 B) ++ tl B |} None (Z.of_nat (length B) - 1) false) /\
  String.length src = (length B + String.length rest)%nat /\
  utf8.EncodeRune (hd 0 B) ++ tl B = B.
Proof.
  intros Hne Ha Hh src l0. destruct B as [|b0 B']; [congruence|]. cbn [hd tl] in *.
  assert (Hb0 : bytes_of src = (b0 :: B') ++ bytes_of rest).
  { unfold src. rewrite bytes_of_append, bytes_of_string_of_bytes by (apply ascii_bytes, Ha).
    reflexivity. }
  split; [apply (buffered_lex_number src b0 (B' ++ bytes_of rest) Hb0 Hh)|].
  split.
  - apply Forall_cons_iff in Ha as [_ Ha].
    pose proof (buffered_feeds B' (bytes_of rest) b0 (utf8.EncodeRune b0) 0 Ha) as F.
    replace (Z.of_nat (length (b0 :: B')) - 1) with (0 + Z.of_nat (length B'))
      by (cbn [length]; lia).
    rewrite last_cons_cons. exact F.
  - split; [rewrite <- !RuneFacts.bytes_of_length, Hb0, length_app; reflexivity|].
    rewrite Utf8Facts.EncodeRune_1 by (apply Forall_inv in Ha; lia). reflexivity.
Qed.

Lemma buffered_setup_eof (B : list Z) :
  B <> [] -> Forall (fun b => 0 <= b < 128) B -> (hd 0 B = 45 \/ lexer.isDigit (hd 0 B) = true) ->
  let src := string_of_bytes B in
  let l0 := lexer.mkLexer {| scanner.bsource := {| bufio.unread := tl B |};
               scanner.blast := hd 0 B; scanner.tailing := false; scanner.tail := [] |} None 0 false in
  run.lexReader src = lexOut (lexer.readNumber (Datatypes.S (String.length src)) l0
                               (token.set_Start token.zero 0)) /\
  Feeds (lexer.set_scanner l0 (scanner.StartTail (lexer.scanner l0))) (tl B) true
        (lexer.mkLexer {| scanner.bsource := {| bufio.unread := [] |};
           scanner.blast := 0; scanner.tailing := true;
           scanner.tail := utf8.EncodeRune (hd 0 B) ++ tl B |} None (Z.of_nat (length B)) true) /\
  String.length src = length B /\
  utf8.EncodeRune (hd 0 B) ++ tl B = B.
Proof.
  intros Hne Ha Hh src l0.
  destruct (buffered_setup B EmptyString Hne Ha Hh) as (E & F & Hl & Hs).
  rewrite append_empty_r in E, Hl. fold src in E, Hl. cbn [bytes_of map list_ascii_of_string] in E, F.
  rewrite app_nil_r in E, F. rewrite Nat.add_0_r in Hl.
  split; [exact E|]. split; [|split; [exact Hl | exact Hs]].
  enough (G : Feeds (lexer.set_scanner l0 (scanner.StartTail (lexer.scanner l0))) (tl B ++ []) true
        (lexer.mkLexer {| scanner.bsource := {| bufio.unread := [] |};
           scanner.blast := 0; scanner.tailing := true;
           scanner.tail := utf8.EncodeRune (hd 0 B) ++ tl B |} None (Z.of_nat (length B)) true))
    by (rewrite app_nil_r in G; exact G).
  apply Feeds_app. eexists. split; [exact F|].
  pose proof (buffered_feeds_eof (last B 0) (utf8.EncodeRune (hd 0 B) ++ tl B)
                (Z.of_nat (length B) - 1)) as G.
  rewrite Z.sub_add in G. exact G.
Qed.

Section Num.
Variables (sg z f xp : bool) (d : Z) (ds fd : list Z) (m : Z) (so ed : list Z).
Hypothesis Hz : z = false -> lexer.isDigit d = true /\ d <> 48 /\ Forall (fun d => lexer.isDigit d = true) ds.
Hypothesis Hfd : Forall (fun d => lexer.isDigit d = true) fd.
Hypothesis Hxp : xp = true -> (m = 69 \/ m = 101) /\ ((so = [] /\ ed <> []) \/ so = [43] \/ so = [45]) /\
                Forall (fun d => lexer.isDigit d = true) ed.

Let num := (if sg then [45] else []) ++ (if z then [48] else d :: ds) ++
           (if f then 46 :: fd else []) ++ (if xp then m :: so ++ ed else []).

Lemma digits_ascii (l : list Z) : Forall (fun d => lexer.isDigit d = true) l -> Forall (fun b => 0 <= b < 128) l.
Proof. apply Forall_impl. intros a Ha. unfold lexer.isDigit in Ha. zbool; lia. Qed.

Lemma num_ascii : Forall (fun b => 0 <= b < 128) num.
Proof.
  unfold num. rewrite !Forall_app. split; [|split; [|split]].
  - destruct sg; repeat (apply Forall_cons; [lia|]); apply Forall_nil.
  - destruct z; [repeat (apply Forall_cons; [lia|]); apply Forall_nil|]. destruct (Hz eq_refl) as (A & B & C).
    apply Forall_cons; [unfold lexer.isDigit in A; zbool; lia | apply digits_ascii, C].
  - destruct f; [apply Forall_cons; [lia | apply digits_ascii, Hfd] | apply Forall_nil].
  - destruct xp; [|apply Forall_nil]. destruct (Hxp eq_refl) as (A & B & D).
    apply Forall_cons; [lia|]. apply Forall_app. split; [|apply digits_ascii, D].
    destruct B as [[-> _] | [-> | ->]]; repeat (apply Forall_cons; [lia|]); apply Forall_nil.
Qed.

Lemma num_hd : num = hd 0 num :: tl num /\ (hd 0 num = 45 \/ lexer.isDigit (hd 0 num) = true).
Proof.
  unfold num. destruct sg; [split; [reflexivity | left; reflexivity]|].
  destruct z; cbn [app hd tl]; split; try reflexivity; [right; reflexivity|].
  right. exact (proj1 (Hz eq_refl)).
Qed.


Lemma string_num_term (c : Z) (rest : string) :
  0 <= c < 128 -> lexer.isDigit c = false -> c <> 46 -> c <> 69 -> c <> 101 ->
  run.lexString (String.append (string_of_bytes (num ++ [c])) rest)
  = Some (token.mkToken (if f || xp then token.Float else token.Int) 0
            (Z.of_nat (length num) - 1) (string_of_bytes num), None).
Proof.
  intros Hc0 Hc Hc46 Hc69 Hc101.
  set (src := String.append (string_of_bytes (num ++ [c])) rest).
  assert (Ha : Forall (fun b => 0 <= b < 128) (num ++ [c]))
    by (apply Forall_app; split; [apply num_ascii | repeat constructor; lia]).
  destruct num_hd as (Hn & Hh).
  assert (Hb0 : bytes_of src = num ++ [c] ++ bytes_of rest).
  { unfold src. rewrite bytes_of_append, bytes_of_string_of_bytes by (apply ascii_bytes, Ha).
    rewrite app_assoc. reflexivity. }
  assert (Hb : bytes_of src = hd 0 num :: (tl num ++ [c]) ++ bytes_of rest).
  { rewrite Hb0, Hn at 1. rewrite <- app_assoc. reflexivity. }
  rewrite (string_lex_number src (hd 0 num) ((tl num ++ [c]) ++ bytes_of rest) Hb Hh).
  assert (Hat : Forall (fun b => 0 <= b < 128) (tl num ++ [c])).
  { rewrite Hn in Ha. cbn [app] in Ha. apply Forall_cons_iff in Ha. exact (proj2 Ha). }
  pose proof (string_feeds (tl num ++ [c]) src 0 (hd 0 num) (bytes_of rest) Hat (Z.le_refl 0)
                ltac:(rewrite Hb; reflexivity)) as F.
  assert (Hlen : String.length src = (length num + 1 + String.length rest)%nat).
  { rewrite <- !RuneFacts.bytes_of_length, Hb0, !length_app. cbn [length]. lia. }
  assert (Htl : Z.of_nat (length (tl num ++ [c])) = Z.of_nat (length num)).
  { rewrite length_app. cbn [length]. rewrite Hn at 2. cbn [length]. lia. }
  rewrite (@rn_term _ scanner.stringScanner_Scanner sg z f xp d ds fd m so ed c (Datatypes.S (String.length src))
             (lexer.mkLexer {| scanner.source := src; scanner.last := hd 0 num; scanner.lastIndex := 0;
                scanner.lastWidth := 1; scanner.tailIndex := 0 |} None 0 false) _ _
             Hz Hfd Hxp Hc Hc46 Hc69 Hc101 eq_refl F ltac:(fold num; lia)).
  cbn -[num src]. rewrite Htl, Z.sub_0_r, Nat2Z.id, substring0_bytes, Hb0, firstn_app,
    Nat.sub_diag, firstn_O, app_nil_r, firstn_all.
  reflexivity.
Qed.

Lemma buffered_num_term (c : Z) (rest : string) :
  0 <= c < 128 -> lexer.isDigit c = false -> c <> 46 -> c <> 69 -> c <> 101 ->
  run.lexReader (String.append (string_of_bytes (num ++ [c])) rest)
  = Some (token.mkToken (if f || xp then token.Float else token.Int) 0
            (Z.of_nat (length num) - 1) (string_of_bytes (num ++ [c])), None).
Proof.
  intros Hc0 Hc Hc46 Hc69 Hc101.
  set (src := String.append (string_of_bytes (num ++ [c])) rest).
  assert (Ha : Forall (fun b => 0 <= b < 128) (num ++ [c]))
    by (apply Forall_app; split; [apply num_ascii | repeat constructor; lia]).
  destruct num_hd as (Hn & Hh).
  assert (Hb0 : bytes_of src = num ++ [c] ++ bytes_of rest).
  { unfold src. rewrite bytes_of_append, bytes_of_string_of_bytes by (apply ascii_bytes, Ha).
    rewrite app_assoc. reflexivity. }
  assert (Hb : bytes_of src = hd 0 num :: (tl num ++ [c]) ++ bytes_of rest).
  { rewrite Hb0, Hn at 1. rewrite <- app_assoc. reflexivity. }
  rewrite (buffered_lex_number src (hd 0 num) ((tl num ++ [c]) ++ bytes_of rest) Hb Hh).
  assert (Hat : Forall (fun b => 0 <= b < 128) (tl num ++ [c])).
  { rewrite Hn in Ha. cbn [app] in Ha. apply Forall_cons_iff in Ha. exact (proj2 Ha). }
  pose proof (buffered_feeds (tl num ++ [c]) (bytes_of rest) (hd 0 num)
                (utf8.EncodeRune (hd 0 num)) 0 Hat) as F.
  assert (Hlen : String.length src = (length num + 1 + String.length rest)%nat).
  { rewrite <- !RuneFacts.bytes_of_length, Hb0, !length_app. cbn [length]. lia. }
  assert (Htl : Z.of_nat (length (tl num ++ [c])) = Z.of_nat (length num)).
  { rewrite length_app. cbn [length]. rewrite Hn at 2. cbn [length]. lia. }
  rewrite (@rn_term _ scanner.bufferedScanner_Scanner sg z f xp d ds fd m so ed c
             (Datatypes.S (String.length src))
             (lexer.mkLexer {| scanner.bsource := {| bufio.unread := (tl num ++ [c]) ++ bytes_of rest |};
                scanner.blast := hd 0 num; scanner.tailing := false; scanner.tail := [] |} None 0 false) _ _
             Hz Hfd Hxp Hc Hc46 Hc69 Hc101 eq_refl F ltac:(fold num; lia)).
  cbn -[num src utf8.EncodeRune]. rewrite Htl.
  assert (He : utf8.EncodeRune (hd 0 num) ++ tl num ++ [c] = num ++ [c]).
  { rewrite Utf8Facts.EncodeRune_1 by (destruct Hh as [-> | Hd']; [lia | unfold lexer.isDigit in Hd'; zbool; lia]).
    rewrite Hn at 3. reflexivity. }
  rewrite He. unfold slice, len. rewrite !Z.sub_0_r, Nat2Z.id. change (Z.to_nat 0) with 0%nat.
  rewrite substring_all. reflexivity.
Qed.

End Num.


Lemma tl_app_ne (A C : list Z) : A <> [] -> tl (A ++ C) = tl A ++ C.
Proof. destruct A; [congruence | reflexivity]. Qed.

Ltac fix_off :=
  match goal with |- Some (_, Some (errors.SyntaxError ?a _)) = Some (_, Some (errors.SyntaxError ?b _)) =>
    replace a with b by (rewrite ?length_app; cbn [length]; rewrite ?length_app; lia) end;
  reflexivity.

Lemma head_setup (A C : list Z) :
  A <> [] -> Forall (fun b => 0 <= b < 128) A -> Forall (fun b => 0 <= b < 128) C ->
  (hd 0 A = 45 \/ lexer.isDigit (hd 0 A) = true) ->
  A ++ C <> [] /\ Forall (fun b => 0 <= b < 128) (A ++ C) /\
  (hd 0 (A ++ C) = 45 \/ lexer.isDigit (hd 0 (A ++ C)) = true) /\
  hd 0 (A ++ C) = hd 0 A /\ tl (A ++ C) = tl A ++ C.
Proof.
  intros HA Ha Hc Hh. destruct A as [|a A]; [congruence|].
  split; [discriminate|]. split; [apply Forall_app; split; assumption|]. auto.
Qed.

Lemma ascii_lit (l : list Z) : forallb (fun b => (0 <=? b) && (b <? 128)) l = true ->
  Forall (fun b => 0 <= b < 128) l.
Proof.
  induction l as [|a l IH]; cbn; intros H; [constructor|].
  apply andb_prop in H as [H1 H2]. apply andb_prop in H1 as [H0 H1]. zbool.
  constructor; [lia | exact (IH H2)].
Qed.

Ltac side Hl Hhd :=
  first [ exact Hhd | reflexivity | rewrite Hl, ?length_app; cbn [length]; rewrite ?length_app; lia ].

Section Cases.
Variables (sg z : bool) (d : Z) (ds : list Z).
Hypothesis Hz : z = false -> lexer.isDigit d = true /\ d <> 48 /\ Forall (fun d => lexer.isDigit d = true) ds.

Local Abbreviation sgnB := (if sg then [45] else []).
Local Abbreviation ip := (if z then [48] else d :: ds).

Lemma pre_ne : sgnB ++ ip <> [].
Proof. destruct sg, z; discriminate. Qed.

Lemma pre_ascii : Forall (fun b => 0 <= b < 128) (sgnB ++ ip).
Proof.
  rewrite !Forall_app. split.
  - destruct sg; repeat (apply Forall_cons; [lia|]); apply Forall_nil.
  - destruct z; [repeat (apply Forall_cons; [lia|]); apply Forall_nil|]. destruct (Hz eq_refl) as (A & B & C).
    apply Forall_cons; [unfold lexer.isDigit in A; zbool; lia | apply digits_ascii, C].
Qed.

Lemma pre_hd : hd 0 (sgnB ++ ip) = 45 \/ lexer.isDigit (hd 0 (sgnB ++ ip)) = true.
Proof.
  destruct sg; [left; reflexivity|].
  destruct z; [right; reflexivity|]. right. exact (proj1 (Hz eq_refl)).
Qed.

Lemma frac_ascii (f : bool) (fd : list Z) : Forall (fun d => lexer.isDigit d = true) fd ->
  Forall (fun b => 0 <= b < 128) (if f then 46 :: fd else []).
Proof. intros Hfd. destruct f; [apply Forall_cons; [lia | apply digits_ascii, Hfd] | apply Forall_nil]. Qed.

Lemma string_exp_bad (f : bool) (fd : list Z) (m x : Z) (rest : string) :
  Forall (fun d => lexer.isDigit d = true) fd ->
  (m = 69 \/ m = 101) -> 0 <= x < 128 -> lexer.isDigit x = false -> x <> 43 -> x <> 45 ->
  run.lexString (String.append (string_of_bytes ((sgnB ++ ip) ++ (if f then 46 :: fd else []) ++ [m; x])) rest)
  = Some (token.mkToken token.Float 0 0 EmptyString,
          Some (errors.SyntaxError (Z.of_nat (length ((sgnB ++ ip) ++ (if f then 46 :: fd else []))) + 1)
                  "unterminated number; expected sign or digit")).
Proof.
  intros Hfd Hm Hx0 Hx Hx43 Hx45.
  assert (HC : Forall (fun b => 0 <= b < 128) ((if f then 46 :: fd else []) ++ [m; x])).
  { apply Forall_app. split; [apply frac_ascii, Hfd|].
    repeat (apply Forall_cons; [destruct Hm; lia|]); apply Forall_nil. }
  destruct (head_setup _ _ pre_ne pre_ascii HC pre_hd) as (HB & Ha & Hh & Hhd & Htl).
  destruct (string_setup _ rest HB Ha Hh) as (E & F & Hl & _).
  rewrite E. rewrite Htl in F.
  erewrite (@rn_exp_bad _ scanner.stringScanner_Scanner sg z f d ds fd m x _ _ _ _ Hz Hfd Hm Hx Hx43 Hx45 _ F).
  - cbn. fix_off.
  - side Hl Hhd.
  Unshelve. all: side Hl Hhd.
Qed.

Lemma buffered_exp_bad (f : bool) (fd : list Z) (m x : Z) (rest : string) :
  Forall (fun d => lexer.isDigit d = true) fd ->
  (m = 69 \/ m = 101) -> 0 <= x < 128 -> lexer.isDigit x = false -> x <> 43 -> x <> 45 ->
  run.lexReader (String.append (string_of_bytes ((sgnB ++ ip) ++ (if f then 46 :: fd else []) ++ [m; x])) rest)
  = Some (token.mkToken token.Float 0 0 EmptyString,
          Some (errors.SyntaxError (Z.of_nat (length ((sgnB ++ ip) ++ (if f then 46 :: fd else []))) + 1)
                  "unterminated number; expected sign or digit")).
Proof.
  intros Hfd Hm Hx0 Hx Hx43 Hx45.
  assert (HC : Forall (fun b => 0 <= b < 128) ((if f then 46 :: fd else []) ++ [m; x])).
  { apply Forall_app. split; [apply frac_ascii, Hfd|].
    repeat (apply Forall_cons; [destruct Hm; lia|]); apply Forall_nil. }
  destruct (head_setup _ _ pre_ne pre_ascii HC pre_hd) as (HB & Ha & Hh & Hhd & Htl).
  destruct (buffered_setup _ rest HB Ha Hh) as (E & F & Hl & _).
  rewrite Htl in E, F. rewrite E.
  erewrite (@rn_exp_bad _ scanner.bufferedScanner_Scanner sg z f d ds fd m x _ _ _ _ Hz Hfd Hm Hx Hx43 Hx45 _ F).
  - cbn. fix_off.
  - side Hl Hhd.
  Unshelve. all: side Hl Hhd.
Qed.


Lemma string_exp_eof (f : bool) (fd : list Z) (m : Z) :
  Forall (fun d => lexer.isDigit d = true) fd -> (m = 69 \/ m = 101) ->
  run.lexString (string_of_bytes ((sgnB ++ ip) ++ (if f then 46 :: fd else []) ++ [m]))
  = Some (token.mkToken token.Float 0 0 EmptyString, None).
Proof.
  intros Hfd Hm.
  assert (HC : Forall (fun b => 0 <= b < 128) ((if f then 46 :: fd else []) ++ [m])).
  { apply Forall_app. split; [apply frac_ascii, Hfd|].
    repeat (apply Forall_cons; [destruct Hm; lia|]); apply Forall_nil. }
  destruct (head_setup _ _ pre_ne pre_ascii HC pre_hd) as (HB & Ha & Hh & Hhd & Htl).
  destruct (string_setup_eof _ HB Ha Hh) as (E & F & Hl & _).
  rewrite E. rewrite Htl in F.
  erewrite (@rn_exp_eof _ scanner.stringScanner_Scanner sg z f d ds fd m _ _ _ _ Hz Hfd Hm _ F).
  - reflexivity.
  - side Hl Hhd.
  Unshelve. all: side Hl Hhd.
Qed.

Lemma buffered_exp_eof (f : bool) (fd : list Z) (m : Z) :
  Forall (fun d => lexer.isDigit d = true) fd -> (m = 69 \/ m = 101) ->
  run.lexReader (string_of_bytes ((sgnB ++ ip) ++ (if f then 46 :: fd else []) ++ [m]))
  = Some (token.mkToken token.Float 0 0 EmptyString, None).
Proof.
  intros Hfd Hm.
  assert (HC : Forall (fun b => 0 <= b < 128) ((if f then 46 :: fd else []) ++ [m])).
  { apply Forall_app. split; [apply frac_ascii, Hfd|].
    repeat (apply Forall_cons; [destruct Hm; lia|]); apply Forall_nil. }
  destruct (head_setup _ _ pre_ne pre_ascii HC pre_hd) as (HB & Ha & Hh & Hhd & Htl).
  destruct (buffered_setup_eof _ HB Ha Hh) as (E & F & Hl & _).
  rewrite Htl in E, F. rewrite E.
  erewrite (@rn_exp_eof _ scanner.bufferedScanner_Scanner sg z f d ds fd m _ _ _ _ Hz Hfd Hm _ F).
  - reflexivity.
  - side Hl Hhd.
  Unshelve. all: side Hl Hhd.
Qed.

Lemma string_eof_frac (fd : list Z) :
  Forall (fun d => lexer.isDigit d = true) fd ->
  run.lexString (string_of_bytes ((sgnB ++ ip) ++ 46 :: fd))
  = Some (token.mkToken token.Float 0 0 EmptyString, None).
Proof.
  intros Hfd.
  destruct (head_setup _ _ pre_ne pre_ascii (frac_ascii true fd Hfd) pre_hd) as (HB & Ha & Hh & Hhd & Htl).
  destruct (string_setup_eof _ HB Ha Hh) as (E & F & Hl & _).
  rewrite E. rewrite Htl in F.
  erewrite (@rn_eof_frac _ scanner.stringScanner_Scanner sg z d ds fd _ _ _ _ Hz Hfd _ F).
  - reflexivity.
  - side Hl Hhd.
  Unshelve. all: side Hl Hhd.
Qed.

Lemma buffered_eof_frac (fd : list Z) :
  Forall (fun d => lexer.isDigit d = true) fd ->
  run.lexReader (string_of_bytes ((sgnB ++ ip) ++ 46 :: fd))
  = Some (token.mkToken token.Float 0 0 EmptyString, None).
Proof.
  intros Hfd.
  destruct (head_setup _ _ pre_ne pre_ascii (frac_ascii true fd Hfd) pre_hd) as (HB & Ha & Hh & Hhd & Htl).
  destruct (buffered_setup_eof _ HB Ha Hh) as (E & F & Hl & _).
  rewrite Htl in E, F. rewrite E.
  erewrite (@rn_eof_frac _ scanner.bufferedScanner_Scanner sg z d ds fd _ _ _ _ Hz Hfd _ F).
  - reflexivity.
  - side Hl Hhd.
  Unshelve. all: side Hl Hhd.
Qed.

Lemma exp_ascii (f : bool) (fd : list Z) (m : Z) (so ed : list Z) :
  Forall (fun d => lexer.isDigit d = true) fd -> (m = 69 \/ m = 101) ->
  ((so = [] /\ ed <> []) \/ so = [43] \/ so = [45]) -> Forall (fun d => lexer.isDigit d = true) ed ->
  Forall (fun b => 0 <= b < 128) ((if f then 46 :: fd else []) ++ m :: so ++ ed).
Proof.
  intros Hfd Hm Hso Hed. apply Forall_app. split; [apply frac_ascii, Hfd|].
  apply Forall_cons; [destruct Hm; lia|]. apply Forall_app. split; [|apply digits_ascii, Hed].
  destruct Hso as [[-> _] | [-> | ->]]; repeat (apply Forall_cons; [lia|]); apply Forall_nil.
Qed.

Lemma string_eof_exp (f : bool) (fd : list Z) (m : Z) (so ed : list Z) :
  Forall (fun d => lexer.isDigit d = true) fd -> (m = 69 \/ m = 101) ->
  ((so = [] /\ ed <> []) \/ so = [43] \/ so = [45]) -> Forall (fun d => lexer.isDigit d = true) ed ->
  let B := sgnB ++ ip ++ (if f then 46 :: fd else []) ++ m :: so ++ ed in
  run.lexString (string_of_bytes B)
  = Some (token.mkToken token.Float 0 (Z.of_nat (length B) - 1) (string_of_bytes B), None).
Proof.
  intros Hfd Hm Hso Hed B.
  destruct (head_setup _ _ pre_ne pre_ascii (exp_ascii f fd m so ed Hfd Hm Hso Hed) pre_hd)
    as (HB & Ha & Hh & _ & _).
  rewrite <- app_assoc in HB, Ha, Hh. fold B in HB, Ha, Hh.
  destruct (string_setup_eof _ HB Ha Hh) as (E & F & Hl & Hs).
  rewrite E.
  erewrite (@rn_eof_exp _ scanner.stringScanner_Scanner sg z f d ds fd m so ed _ _ _ _ Hz Hfd Hm Hso Hed _ F).
  - cbn. rewrite Z.sub_0_r, Nat2Z.id, <- Hl, substring_all. reflexivity.
  - rewrite Hl. subst B. rewrite ?length_app; cbn [length]; rewrite ?length_app; lia.
  Unshelve. all: reflexivity.
Qed.

Lemma buffered_eof_exp (f : bool) (fd : list Z) (m : Z) (so ed : list Z) :
  Forall (fun d => lexer.isDigit d = true) fd -> (m = 69 \/ m = 101) ->
  ((so = [] /\ ed <> []) \/ so = [43] \/ so = [45]) -> Forall (fun d => lexer.isDigit d = true) ed ->
  let B := sgnB ++ ip ++ (if f then 46 :: fd else []) ++ m :: so ++ ed in
  run.lexReader (string_of_bytes B)
  = Some (token.mkToken token.Float 0 (Z.of_nat (length B) - 1) (string_of_bytes B), None).
Proof.
  intros Hfd Hm Hso Hed B.
  destruct (head_setup _ _ pre_ne pre_ascii (exp_ascii f fd m so ed Hfd Hm Hso Hed) pre_hd)
    as (HB & Ha & Hh & _ & _).
  rewrite <- app_assoc in HB, Ha, Hh. fold B in HB, Ha, Hh.
  destruct (buffered_setup_eof _ HB Ha Hh) as (E & F & Hl & Hs).
  rewrite E.
  erewrite (@rn_eof_exp _ scanner.bufferedScanner_Scanner sg z f d ds fd m so ed _ _ _ _ Hz Hfd Hm Hso Hed _ F).
  - cbn -[utf8.EncodeRune string_of_bytes]. rewrite Hs. unfold len.
    unfold slice. rewrite Z.sub_0_r, Nat2Z.id. change (Z.to_nat 0) with 0%nat. rewrite substring_all. reflexivity.
  - rewrite Hl. subst B. rewrite ?length_app; cbn [length]; rewrite ?length_app; lia.
  Unshelve. all: reflexivity.
Qed.
End Cases.

Section Head.
Variable sg : bool.
Local Abbreviation sgnB := (if sg then [45] else []).

Lemma zero_head : sgnB ++ [48] <> [] /\ Forall (fun b => 0 <= b < 128) (sgnB ++ [48]) /\
  (hd 0 (sgnB ++ [48]) = 45 \/ lexer.isDigit (hd 0 (sgnB ++ [48])) = true).
Proof. destruct sg; (split; [discriminate|]); (split; [repeat (apply Forall_cons; [lia|]); apply Forall_nil|]); auto. Qed.

Lemma string_eof_zero :
  run.lexString (string_of_bytes (sgnB ++ [48]))
  = Some (token.mkToken token.Int 0 0 EmptyString,
          Some (errors.SyntaxError (Z.of_nat (length (sgnB ++ [48])))
                  "invalid number; unexpected EOF following '0'")).
Proof.
  destruct zero_head as (HB & Ha & Hh).
  destruct (string_setup_eof _ HB Ha Hh) as (E & F & Hl & _).
  rewrite E.
  erewrite (@rn_eof_zero _ scanner.stringScanner_Scanner sg _ _ _ _ _ F).
  - reflexivity.
  Unshelve. all: reflexivity.
Qed.

Lemma buffered_eof_zero :
  run.lexReader (string_of_bytes (sgnB ++ [48]))
  = Some (token.mkToken token.Int 0 0 EmptyString,
          Some (errors.SyntaxError (Z.of_nat (length (sgnB ++ [48])))
                  "invalid number; unexpected EOF following '0'")).
Proof.
  destruct zero_head as (HB & Ha & Hh).
  destruct (buffered_setup_eof _ HB Ha Hh) as (E & F & Hl & _).
  rewrite E.
  erewrite (@rn_eof_zero _ scanner.bufferedScanner_Scanner sg _ _ _ _ _ F).
  - reflexivity.
  Unshelve. all: reflexivity.
Qed.

Lemma string_zero_digit (x : Z) (rest : string) :
  0 <= x < 128 -> lexer.isDigit x = true ->
  run.lexString (String.append (string_of_bytes ((sgnB ++ [48]) ++ [x])) rest)
  = Some (token.mkToken token.Int 0 0 EmptyString,
          Some (errors.SyntaxError (Z.of_nat (length (sgnB ++ [48])))
                  "invalid number, unexpected digit after 0")).
Proof.
  intros Hx0 Hx. destruct zero_head as (HB0 & Ha0 & Hh0).
  destruct (head_setup _ [x] HB0 Ha0 ltac:(repeat constructor; lia) Hh0) as (HB & Ha & Hh & Hhd & Htl).
  destruct (string_setup _ rest HB Ha Hh) as (E & F & Hl & _).
  rewrite E. rewrite Htl in F.
  erewrite (@rn_zero_digit _ scanner.stringScanner_Scanner sg x _ _ _ _ Hx _ F).
  - cbn. fix_off.
  Unshelve. all: side Hl Hhd.
Qed.

Lemma buffered_zero_digit (x : Z) (rest : string) :
  0 <= x < 128 -> lexer.isDigit x = true ->
  run.lexReader (String.append (string_of_bytes ((sgnB ++ [48]) ++ [x])) rest)
  = Some (token.mkToken token.Int 0 0 EmptyString,
          Some (errors.SyntaxError (Z.of_nat (length (sgnB ++ [48])))
                  "invalid number, unexpected digit after 0")).
Proof.
  intros Hx0 Hx. destruct zero_head as (HB0 & Ha0 & Hh0).
  destruct (head_setup _ [x] HB0 Ha0 ltac:(repeat constructor; lia) Hh0) as (HB & Ha & Hh & Hhd & Htl).
  destruct (buffered_setup _ rest HB Ha Hh) as (E & F & Hl & _).
  rewrite Htl in E, F. rewrite E.
  erewrite (@rn_zero_digit _ scanner.bufferedScanner_Scanner sg x _ _ _ _ Hx _ F).
  - cbn. fix_off.
  Unshelve. all: side Hl Hhd.
Qed.

Lemma int_head (d : Z) (ds : list Z) :
  lexer.isDigit d = true -> Forall (fun d => lexer.isDigit d = true) ds ->
  sgnB ++ d :: ds <> [] /\ Forall (fun b => 0 <= b < 128) (sgnB ++ d :: ds) /\
  (hd 0 (sgnB ++ d :: ds) = 45 \/ lexer.isDigit (hd 0 (sgnB ++ d :: ds)) = true).
Proof.
  intros Hd Hds. split; [destruct sg; discriminate|]. split.
  - apply Forall_app. split; [destruct sg; repeat (apply Forall_cons; [lia|]); apply Forall_nil|].
    apply digits_ascii. constructor; assumption.
  - destruct sg; [left | right]; reflexivity || exact Hd.
Qed.

Lemma string_eof_int (d : Z) (ds : list Z) :
  lexer.isDigit d = true -> d <> 48 -> Forall (fun d => lexer.isDigit d = true) ds ->
  run.lexString (string_of_bytes (sgnB ++ d :: ds))
  = Some (token.mkToken token.Int 0 (Z.of_nat (length (sgnB ++ d :: ds)) - 1)
            (string_of_bytes (sgnB ++ d :: ds)), None).
Proof.
  intros Hd Hd48 Hds. destruct (int_head d ds Hd Hds) as (HB & Ha & Hh).
  destruct (string_setup_eof _ HB Ha Hh) as (E & F & Hl & _).
  rewrite E.
  erewrite (@rn_eof_int _ scanner.stringScanner_Scanner sg d ds _ _ _ _ Hd Hd48 Hds _ F).
  - cbn. rewrite Z.sub_0_r, Nat2Z.id, <- Hl, substring_all. reflexivity.
  - rewrite Hl. lia.
  Unshelve. all: reflexivity.
Qed.

Lemma buffered_eof_int (d : Z) (ds : list Z) :
  lexer.isDigit d = true -> d <> 48 -> Forall (fun d => lexer.isDigit d = true) ds ->
  run.lexReader (string_of_bytes (sgnB ++ d :: ds))
  = Some (token.mkToken token.Int 0 (Z.of_nat (length (sgnB ++ d :: ds)) - 1)
            (string_of_bytes (sgnB ++ d :: ds)), None).
Proof.
  intros Hd Hd48 Hds. destruct (int_head d ds Hd Hds) as (HB & Ha & Hh).
  destruct (buffered_setup_eof _ HB Ha Hh) as (E & F & Hl & Hs).
  rewrite E.
  erewrite (@rn_eof_int _ scanner.bufferedScanner_Scanner sg d ds _ _ _ _ Hd Hd48 Hds _ F).
  - cbn -[utf8.EncodeRune string_of_bytes]. rewrite Hs. unfold len.
    unfold slice. rewrite Z.sub_0_r, Nat2Z.id. change (Z.to_nat 0) with 0%nat. rewrite substring_all. reflexivity.
  - rewrite Hl. lia.
  Unshelve. all: reflexivity.
Qed.

End Head.



End Extra5.
